(** * obsidian-plugin-prettier: the formatting passes and the image uploader

    A shallow embedding of [src/formatter.ts] and [src/image-uploader.ts].

    JavaScript strings are sequences of UTF-16 code units: a string is a
    [list Z] of code units here, so [length] is the [.length] of the source
    and every offset of the source is an offset into the list.  Offsets,
    heading levels and counters are [Z] (the tracked offset can be [-1]).
    The buffer object [MagicString] is mutated in place by the source; it is
    threaded explicitly through a small state-and-exception monad. *)

From Stdlib Require Import ZArith List Bool Lia.
From Stdlib Require String Ascii DecimalString.
Import ListNotations.
Import String.StringSyntax.

Local Open Scope string_scope.
Local Open Scope list_scope.
Local Open Scope Z_scope.

(* ================================================================ *)
(** ** Strings as code-unit lists *)

Definition str : Type := list Z.

(** A literal of the source, for code units below 128. *)
Definition lit (s : String.string) : str :=
  map (fun a => Z.of_N (Ascii.N_of_ascii a)) (String.list_ascii_of_string s).

(** [s.length]. *)
Definition len (s : str) : Z := Z.of_nat (length s).

Fixpoint str_eqb (a b : str) : bool :=
  match a, b with
  | [], [] => true
  | x :: a', y :: b' => (x =? y) && str_eqb a' b'
  | _, _ => false
  end.

(** [String(n)] for an integer [n]. *)
Definition numberToString (n : Z) : str :=
  lit (DecimalString.NilZero.string_of_int (Z.to_int n)).

Fixpoint takeWhile (p : Z -> bool) (s : str) : str :=
  match s with
  | c :: r => if p c then c :: takeWhile p r else []
  | [] => []
  end.

Fixpoint dropWhile (p : Z -> bool) (s : str) : str :=
  match s with
  | c :: r => if p c then dropWhile p r else s
  | [] => []
  end.

(** [s.startsWith(p)]. *)
Fixpoint startsWith (p s : str) : bool :=
  match p, s with
  | [], _ => true
  | x :: p', y :: s' => (x =? y) && startsWith p' s'
  | _ :: _, [] => false
  end.

(** [s.endsWith(p)]. *)
Definition endsWith (p s : str) : bool := startsWith (rev p) (rev s).

(** [s.includes(p)]. *)
Fixpoint includes (p s : str) : bool :=
  startsWith p s || match s with [] => false | _ :: r => includes p r end.

(** [s.split(sep)] for a one-unit separator: never the empty list. *)
Fixpoint split (sep : Z) (s : str) : list str :=
  match s with
  | [] => [[]]
  | c :: r =>
      if c =? sep then [] :: split sep r
      else match split sep r with
           | l :: ls => (c :: l) :: ls
           | [] => [[c]]
           end
  end.

(** [parts.join(sep)]. *)
Fixpoint join (sep : str) (parts : list str) : str :=
  match parts with
  | [] => []
  | [p] => p
  | p :: ps => p ++ sep ++ join sep ps
  end.

(** [s.slice(a, b)] for [0 <= a], [0 <= b]. *)
Definition substring (a b : Z) (s : str) : str :=
  firstn (Z.to_nat (b - a)) (skipn (Z.to_nat a) s).

(** The class [\s] of a regular expression: WhiteSpace and LineTerminator,
    which is also what [trim] strips. *)
Definition isWhiteSpace (c : Z) : bool :=
  ((9 <=? c) && (c <=? 13)) || (c =? 32) || (c =? 160) || (c =? 5760)
  || ((8192 <=? c) && (c <=? 8202)) || (c =? 8232) || (c =? 8233)
  || (c =? 8239) || (c =? 8287) || (c =? 12288) || (c =? 65279).

(** What [.] does not match (no [s] flag). *)
Definition isLineTerminator (c : Z) : bool :=
  (c =? 10) || (c =? 13) || (c =? 8232) || (c =? 8233).

(** The class [[^\S\r\n]]. *)
Definition isHSpace (c : Z) : bool :=
  isWhiteSpace c && negb ((c =? 13) || (c =? 10)).

(** The class [\d]. *)
Definition isDigit (c : Z) : bool := (48 <=? c) && (c <=? 57).

(** The class [[\d\.]]. *)
Definition isDigitOrDot (c : Z) : bool := isDigit c || (c =? 46).

(** The class [[-*+]]. *)
Definition isBullet (c : Z) : bool := (c =? 45) || (c =? 42) || (c =? 43).

Definition isHash (c : Z) : bool := c =? 35.

Definition noLineTerminator (s : str) : bool :=
  forallb (fun c => negb (isLineTerminator c)) s.

(** [s.trim()]. *)
Definition trim (s : str) : str :=
  rev (dropWhile isWhiteSpace (rev (dropWhile isWhiteSpace s))).

(* ================================================================ *)
(** ** Results and the buffer monad *)

Inductive Error : Type :=
| InvalidSpan      (* an edit primitive refused its span *)
| TypeError        (* a property of [undefined] was read *)
| FormatError.     (* the pretty-printer threw *)

Inductive Result (A : Type) : Type :=
| Ok (a : A)
| Throw (e : Error).

Arguments Ok {A} a.
Arguments Throw {A} e.

(** Modelled from the spec: the class [MagicString] of [src/utils/string.ts]
    is not among the sources.  Spec section 3: a buffer holds [original], the
    text at construction, and [current], the live text. *)
Record MagicString : Type := mkMagicString { original : str; current : str }.

(** A computation on the one buffer of a formatting operation: it returns a
    value and the buffer as it left it, or throws. *)
Definition Engine (A : Type) : Type := MagicString -> Result (A * MagicString).

Definition ret {A} (a : A) : Engine A := fun c => Ok (a, c).

Definition bind {A B} (m : Engine A) (k : A -> Engine B) : Engine B :=
  fun c => match m c with
           | Ok (a, c') => k a c'
           | Throw e => Throw e
           end.

Definition throw {A} (e : Error) : Engine A := fun _ => Throw e.

Notation "x <- m ;; k" := (bind m (fun x => k))
  (at level 61, m at next level, right associativity).

(** The value a computation returns and the text it leaves. *)
Definition valueOf {A} (r : Result (A * MagicString)) : option A :=
  match r with Ok (a, _) => Some a | Throw _ => None end.

Definition textOf {A} (r : Result (A * MagicString)) : option str :=
  match r with Ok (_, c) => Some (current c) | Throw _ => None end.

(* ================================================================ *)
(** ** Regular expressions

    The patterns of the source, as syntax, with the backtracking semantics of
    a JavaScript [RegExp] without flags other than [g]: alternatives are
    tried left to right, a greedy star tries one more iteration before it
    tries to stop, a lazy star the other way round, and an iteration that
    consumes nothing is refused. *)

Inductive Regex : Type :=
| Empty
| Class (p : Z -> bool)
| Cat (a b : Regex)
| Or (a b : Regex)
| Star (greedy : bool) (a : Regex)
| Group (n : nat) (a : Regex)
| Bol
| Eol.

Record Span : Type := mkSpan { sp_start : Z; sp_end : Z }.

Definition Captures : Type := list (nat * Span).

(** What is left to match: the text from the current position on, the
    position, the groups closed so far. *)
Definition Cont : Type := str -> Z -> Captures -> option (Z * Captures).

Fixpoint rmatch (r : Regex) (s : str) (i : Z) (caps : Captures) (k : Cont)
  : option (Z * Captures) :=
  match r with
  | Empty => k s i caps
  | Class p =>
      match s with
      | c :: s' => if p c then k s' (i + 1) caps else None
      | [] => None
      end
  | Cat a b => rmatch a s i caps (fun s' i' caps' => rmatch b s' i' caps' k)
  | Or a b =>
      match rmatch a s i caps k with
      | Some x => Some x
      | None => rmatch b s i caps k
      end
  | Star greedy a =>
      (fix loop (fuel : nat) (s : str) (i : Z) (caps : Captures) {struct fuel} :=
         match fuel with
         | O => k s i caps
         | S fuel' =>
             let more :=
               rmatch a s i caps
                 (fun s' i' caps' =>
                    if i' =? i then None else loop fuel' s' i' caps') in
             if greedy
             then match more with Some x => Some x | None => k s i caps end
             else match k s i caps with Some x => Some x | None => more end
         end) (length s) s i caps
  | Group n a =>
      rmatch a s i caps
        (fun s' i' caps' =>
           k s' i' ((n, {| sp_start := i; sp_end := i' |}) :: caps'))
  | Bol => if i =? 0 then k s i caps else None
  | Eol => match s with [] => k s i caps | _ :: _ => None end
  end.

Definition Plus (a : Regex) : Regex := Cat a (Star true a).
Definition Opt (a : Regex) : Regex := Or a Empty.
Definition Chr (c : Z) : Regex := Class (Z.eqb c).

Fixpoint Lit (s : str) : Regex :=
  match s with
  | [] => Empty
  | c :: s' => Cat (Chr c) (Lit s')
  end.

Fixpoint Seq (rs : list Regex) : Regex :=
  match rs with
  | [] => Empty
  | [r] => r
  | r :: rs' => Cat r (Seq rs')
  end.

(** [.] *)
Definition Dot : Regex := Class (fun c => negb (isLineTerminator c)).

(** Where a match ends, with the groups it closed. *)
Definition done : Cont := fun _ e caps => Some (e, caps).

Record RegExpMatch : Type :=
  mkMatch { m_index : Z; m_end : Z; m_groups : Captures }.

(** The first match that starts at [i] or later; [s] is the text from [i]. *)
Fixpoint searchFrom (r : Regex) (s : str) (i : Z) : option RegExpMatch :=
  match rmatch r s i [] done with
  | Some (e, caps) => Some {| m_index := i; m_end := e; m_groups := caps |}
  | None =>
      match s with
      | [] => None
      | _ :: s' => searchFrom r s' (i + 1)
      end
  end.

(** [text.match(r)] for a pattern without the [g] flag. *)
Definition exec (r : Regex) (text : str) : option RegExpMatch :=
  searchFrom r text 0.

(** The loop [while ((m = r.exec(text)) !== null)] over a [g] pattern: each
    search starts where the last match ended.  The patterns it is used with
    match no empty string, so [fuel = length text] iterations are enough. *)
Fixpoint execLoop (fuel : nat) (r : Regex) (text : str) (lastIndex : Z)
  : list RegExpMatch :=
  match fuel with
  | O => []
  | S fuel' =>
      match searchFrom r (skipn (Z.to_nat lastIndex) text) lastIndex with
      | None => []
      | Some m => m :: execLoop fuel' r text (m_end m)
      end
  end.

Definition execAll (r : Regex) (text : str) : list RegExpMatch :=
  execLoop (length text) r text 0.

(** The span of group [n], the last time it closed. *)
Fixpoint groupSpan (n : nat) (caps : Captures) : option Span :=
  match caps with
  | [] => None
  | (m, sp) :: more => if Nat.eqb m n then Some sp else groupSpan n more
  end.

(** [m[n]]: the text of group [n], [None] for [undefined]. *)
Definition group (n : nat) (text : str) (m : RegExpMatch) : option str :=
  match groupSpan n (m_groups m) with
  | Some sp => Some (substring (sp_start sp) (sp_end sp) text)
  | None => None
  end.

(** [m[0]]. *)
Definition wholeMatch (text : str) (m : RegExpMatch) : str :=
  substring (m_index m) (m_end m) text.

(** A group that did not take part reads as the empty string. *)
Definition orEmpty (x : option str) : str :=
  match x with Some s => s | None => [] end.

(* ================================================================ *)
(** ** The mutation engine ([MagicString]) *)

(** Modelled from the spec: [new MagicString(text)], section 3. *)
Definition newMagicString (text : str) : MagicString :=
  {| original := text; current := text |}.

(** Modelled from the spec: [isModified] is true iff [current !== original],
    section 3. *)
Definition isModified (c : MagicString) : bool :=
  negb (str_eqb (current c) (original c)).

(** Modelled from the spec: [mutate(wholeNewText)] overwrites [current],
    section 4.3. *)
Definition mutate (text : str) : Engine unit :=
  fun c => Ok (tt, {| original := original c; current := text |}).

(** Modelled from the spec: [append(text)], section 4.3. *)
Definition append (text : str) : Engine unit :=
  fun c => Ok (tt, {| original := original c; current := current c ++ text |}).

(** Modelled from the spec: section 4.3, "out-of-range spans (start > end,
    end > buffer length, negative start) must fail fast". *)
Definition validSpan (start end_ : Z) (c : MagicString) : bool :=
  (0 <=? start) && (start <=? end_) && (end_ <=? len (current c)).

(** The text with [start, end_) replaced by [text]. *)
Definition splice (start end_ : Z) (text s : str) : str :=
  firstn (Z.to_nat start) s ++ text ++ skipn (Z.to_nat end_) s.

(** Modelled from the spec: the tracked offset after [start, end_) was
    replaced by [n] code units (section 4.2 step 4 and section 7): [-1] stays
    [-1]; an offset before the span is unchanged; an offset at or after its
    end moves by the change of length; an offset inside is pinned to the
    start. *)
Definition remap (start end_ n offset : Z) : Z :=
  if offset =? -1 then -1
  else if offset <? start then offset
  else if end_ <=? offset then offset + n - (end_ - start)
  else start.

(** Modelled from the spec: [update(start, end, text, offset)], section 4.3.
    The spans the callers in [formatter.ts] pass are offsets into [current]
    as it was when their pass started, replayed back to front. *)
Definition update (start end_ : Z) (text : str) (offset : Z) : Engine Z :=
  fun c =>
    if validSpan start end_ c
    then Ok (remap start end_ (len text) offset,
             {| original := original c;
                current := splice start end_ text (current c) |})
    else Throw InvalidSpan.

(** Modelled from the spec: [insert(at, text, offset)], a zero-width edit,
    section 4.3: an offset at or after [at] moves by the inserted length. *)
Definition insert (at_ : Z) (text : str) (offset : Z) : Engine Z :=
  fun c =>
    if validSpan at_ at_ c
    then Ok ((if offset =? -1 then -1
              else if at_ <=? offset then offset + len text else offset),
             {| original := original c;
                current := splice at_ at_ text (current c) |})
    else Throw InvalidSpan.

(** Modelled from the spec: [delete(start, end, offset)] removes
    [start, end), section 4.3.  With [end] omitted ([None]) the span reaches
    the end of the buffer, and the start -1 is the last unit: [delete(-1)],
    the call of line 146, is "a deletion of the trailing character" (section
    4.3), by which "the last character is removed" (section 8). *)
Definition delete (start : Z) (end_ : option Z) (offset : Z) : Engine Z :=
  fun c =>
    let e := match end_ with Some e => e | None => len (current c) end in
    let start :=
      match end_ with
      | Some _ => start
      | None => if start =? -1 then e - 1 else start
      end in
    if validSpan start e c
    then Ok ((if offset =? -1 then -1
              else if offset <? start then offset
              else if e <=? offset then offset - (e - start)
              else start),
             {| original := original c;
                current := splice start e [] (current c) |})
    else Throw InvalidSpan.

(** The matches of [p] on each line, at offsets into the whole text. *)
Definition shiftSpan (d : Z) (s : Span) : Span :=
  {| sp_start := sp_start s + d; sp_end := sp_end s + d |}.

Fixpoint matchLines (p : Regex) (lines : list str) (lineStart : Z)
  : list Captures :=
  match lines with
  | [] => []
  | l :: more =>
      let later := matchLines p more (lineStart + len l + 1) in
      match exec p l with
      | Some m =>
          map (fun g => (fst g, shiftSpan lineStart (snd g))) (m_groups m)
          :: later
      | None => later
      end
  end.

(** Modelled from the spec: [match(pattern)] delegates to the Span Matcher
    and yields the matches in document order, each with the spans of its
    capture groups (sections 4.1 and 4.3).  The text it reads is the one the
    spans of a pass refer to: the current text when the pass starts (section
    4.5, "here original means current at the time the pass starts").  The
    patterns of [formatter.ts] are anchored with [^] and [$]; the anchors
    are read per line, the lines being those of [split("\n")]. *)
Definition match_ (p : Regex) : Engine (list Captures) :=
  fun c => Ok (matchLines p (split 10 (current c)) 0, c).

(** Modelled from the spec: [positionToOffset] and [offsetToPosition],
    section 4.4: zero-indexed line and column over [current]. *)
Record Position : Type := mkPosition { line : Z; ch : Z }.

Fixpoint lineStartOf (lines : list str) (n : nat) : Z :=
  match n, lines with
  | S n', l :: more => len l + 1 + lineStartOf more n'
  | _, _ => 0
  end.

Definition positionToOffset (p : Position) (c : MagicString) : Z :=
  lineStartOf (split 10 (current c)) (Z.to_nat (line p)) + ch p.

Definition offsetToPosition (offset : Z) (c : MagicString) : Position :=
  let before := firstn (Z.to_nat offset) (current c) in
  let lines := split 10 before in
  {| line := Z.of_nat (length lines) - 1; ch := len (last lines []) |}.

(** [for (const x of xs) index = f(index, x)] on the buffer. *)
Fixpoint forEach {A} (f : Z -> A -> Engine Z) (xs : list A) (index : Z)
  : Engine Z :=
  match xs with
  | [] => ret index
  | x :: more => index' <- f index x ;; forEach f more index'
  end.

(* ================================================================ *)
(** ** [model.ts]: the settings *)

Module Model.

Record TencentCos : Type := mkTencentCos {
  secretId : str;
  secretKey : str;
  bucket : str;
  region : str;
  domain : str
}.

(** The fields the passes read.  [tencentCos] is an object in the type of
    the source, whose code still tests it for absence: it is optional. *)
Record Settings : Type := mkSettings {
  formatOnSave : bool;
  formatOnFileChange : bool;
  removeExtraSpaces : bool;
  addTrailingSpaces : bool;
  headerStartLevel : Z;
  autoNumbering : bool;
  tencentCos : option TencentCos
}.

Definition getDefaultSettings : Settings :=
  {| formatOnSave := false;
     formatOnFileChange := false;
     removeExtraSpaces := false;
     addTrailingSpaces := false;
     headerStartLevel := 1;
     autoNumbering := false;
     tencentCos :=
       Some {| secretId := []; secretKey := []; bucket := []; region := [];
               domain := [] |} |}.

End Model.

(* ================================================================ *)
(** ** [formatter.ts]: the patterns *)

Definition hspace : Regex := Class isHSpace.
Definition space : Regex := Class isWhiteSpace.

(** The pattern "/^[^\S\r\n]*[-*+][^\S\r\n]([^\S\r\n]+)/". *)
Definition REGEXP_UNORDERED_LIST_ITEMS_WITH_EXTRA_SPACES : Regex :=
  Seq [Bol; Star true hspace; Class isBullet; hspace; Group 1 (Plus hspace)].

(** The pattern
    "/^((?:[^\S\r\n]*[-*+](?:[^\S\r\n]+\[.{1}\])?)|(?:[^\S\r\n]*\d+\.))$/". *)
Definition REGEXP_EMPTY_LIST_ITEMS_WITHOUT_TRAILING_SPACES : Regex :=
  Seq [Bol;
       Group 1
         (Or (Seq [Star true hspace; Class isBullet;
                   Opt (Seq [Plus hspace; Chr 91; Dot; Chr 93])])
             (Seq [Star true hspace; Plus (Class isDigit); Chr 46]));
       Eol].

(** The pattern "/^(\s*)(#+)(\s+)/". *)
Definition REGEXP_HEADER : Regex :=
  Seq [Bol; Group 1 (Star true space); Group 2 (Plus (Class isHash));
       Group 3 (Plus space)].

(** The pattern "/^(\s*)(#+)(\s+)(.*)$/". *)
Definition REGEXP_HEADER_TEXT : Regex :=
  Seq [Bol; Group 1 (Star true space); Group 2 (Plus (Class isHash));
       Group 3 (Plus space); Group 4 (Star true Dot); Eol].

(** The pattern "/^([\d\.]+)(?:\s+(.*))?$/". *)
Definition REGEXP_NUMBER : Regex :=
  Seq [Bol; Group 1 (Plus (Class isDigitOrDot));
       Opt (Seq [Plus space; Group 2 (Star true Dot)]); Eol].

(* ================================================================ *)
(** ** [formatter.ts]: the structural passes *)

Record Edit : Type := mkEdit { start : Z; end_ : Z; text : str }.

(** [for (const edit of edits.reverse()) index = content.update(...)] *)
Definition applyEdits (edits : list Edit) (index : Z) : Engine Z :=
  forEach (fun index e => update (start e) (end_ e) (text e) index)
    (rev edits) index.

(** [removeExtraSpaces(content, offset)], lines 160-169. *)
Definition removeExtraSpaces (offset : Z) : Engine Z :=
  matches <- match_ REGEXP_UNORDERED_LIST_ITEMS_WITH_EXTRA_SPACES ;;
  forEach
    (fun index m =>
       match groupSpan 1 m with
       | Some remove => delete (sp_start remove) (Some (sp_end remove)) index
       | None => throw TypeError
       end)
    (rev matches) offset.

(** [addTrailingSpaces(content, offset)], lines 171-180. *)
Definition addTrailingSpaces (offset : Z) : Engine Z :=
  matches <- match_ REGEXP_EMPTY_LIST_ITEMS_WITHOUT_TRAILING_SPACES ;;
  forEach
    (fun index m =>
       match groupSpan 1 m with
       | Some preserve => insert (sp_end preserve) (lit " ") index
       | None => throw TypeError
       end)
    (rev matches) offset.

(** [line.trim().startsWith("```")] *)
Definition isFence (l : str) : bool := startsWith (lit "```") (trim l).

(** The state of the first loop of [adjustHeaderLevels], lines 193-207. *)
Record Scan : Type := mkScan {
  scanInCodeBlock : bool;
  hasHeader : bool;
  minLevel : Z
}.

Definition scanLine (st : Scan) (l : str) : Scan :=
  let inCodeBlock :=
    if isFence l then negb (scanInCodeBlock st) else scanInCodeBlock st in
  if negb inCodeBlock then
    match exec REGEXP_HEADER l with
    | Some m =>
        let hashes := orEmpty (group 2 l m) in
        {| scanInCodeBlock := inCodeBlock;
           hasHeader := true;
           minLevel := if len hashes <? minLevel st then len hashes
                       else minLevel st |}
    | None =>
        {| scanInCodeBlock := inCodeBlock; hasHeader := hasHeader st;
           minLevel := minLevel st |}
    end
  else
    {| scanInCodeBlock := inCodeBlock; hasHeader := hasHeader st;
       minLevel := minLevel st |}.

Definition scanLines (lines : list str) : Scan :=
  fold_left scanLine lines
    {| scanInCodeBlock := false; hasHeader := false; minLevel := 100 |}.

(** The state of a second loop: the fence toggle, the offset of the line
    and the edits pushed so far. *)
Record Walk : Type := mkWalk {
  inCodeBlock : bool;
  currentOffset : Z;
  edits : list Edit
}.

(** ["#".repeat(n)] *)
Definition hashesOf (n : Z) : str := repeat 35 (Z.to_nat n).

(** The body of the second loop of [adjustHeaderLevels], lines 222-249. *)
Definition shiftLine (shift : Z) (st : Walk) (l : str) : Walk :=
  let lineLength := len l + 1 in
  let inCodeBlock := if isFence l then negb (inCodeBlock st) else inCodeBlock st in
  let edits :=
    if negb inCodeBlock then
      match exec REGEXP_HEADER l with
      | Some m =>
          let indent := orEmpty (group 1 l m) in
          let hashes := orEmpty (group 2 l m) in
          let currentLevel := len hashes in
          let newLevel := currentLevel + shift in
          if negb (newLevel =? currentLevel) && (1 <=? newLevel)
             && (newLevel <=? 6)
          then
            let start := currentOffset st + len indent in
            let end_ := start + len hashes in
            edits st ++ [ {| start := start; end_ := end_;
                             text := hashesOf newLevel |} ]
          else edits st
      | None => edits st
      end
    else edits st in
  {| inCodeBlock := inCodeBlock;
     currentOffset := currentOffset st + lineLength;
     edits := edits |}.

Definition walkStart : Walk :=
  {| inCodeBlock := false; currentOffset := 0; edits := [] |}.

(** The edits of the heading-level shift. *)
Definition shiftEdits (shift : Z) (lines : list str) : list Edit :=
  edits (fold_left (shiftLine shift) lines walkStart).

(** [adjustHeaderLevels(content, offset)], lines 182-256. *)
Definition adjustHeaderLevels (s : Model.Settings) (offset : Z) : Engine Z :=
  fun content =>
    let lines := split 10 (current content) in
    let index := offset in
    let sc := scanLines lines in
    if negb (hasHeader sc) then ret index content
    else
      let targetStartLevel := Model.headerStartLevel s in
      let shift := targetStartLevel - minLevel sc in
      if shift =? 0 then ret index content
      else applyEdits (shiftEdits shift lines) index content.

(** The first loop of [addHeaderNumbering], lines 267-281: the fence toggle
    and the minimum level. *)
Definition minLevelLine (st : bool * Z) (l : str) : bool * Z :=
  let inCodeBlock := if isFence l then negb (fst st) else fst st in
  if negb inCodeBlock then
    match exec REGEXP_HEADER l with
    | Some m =>
        let hashes := orEmpty (group 2 l m) in
        (inCodeBlock, if len hashes <? snd st then len hashes else snd st)
    | None => (inCodeBlock, snd st)
    end
  else (inCodeBlock, snd st).

Definition minLevelOf (lines : list str) : Z :=
  snd (fold_left minLevelLine lines (false, 100)).

(** [counters.slice(0, level)]: a negative [level] counts from the end. *)
Definition sliceTo (level : Z) (counters : list Z) : list Z :=
  if level <? 0 then firstn (length counters - Z.to_nat (- level)) counters
  else firstn (Z.to_nat level) counters.

(** [counters[i]++] on an index of the array; another index adds a property
    that [join] does not read. *)
Fixpoint increment (i : nat) (counters : list Z) : list Z :=
  match counters, i with
  | [], _ => []
  | c :: more, O => (c + 1) :: more
  | c :: more, S i' => c :: increment i' more
  end.

(** Lines 321-326. *)
Definition bumpCounters (level : Z) (counters : list Z) : list Z :=
  if level >? len counters
  then counters ++ repeat 1 (Z.to_nat (level - len counters))
  else
    let counters := sliceTo level counters in
    if level - 1 <? 0 then counters
    else increment (Z.to_nat (level - 1)) counters.

(** Lines 328-334: [counters.join(".")], with a dot after it at level 1. *)
Definition numberingPrefix (level : Z) (counters : list Z) : str :=
  let numbering := join (lit ".") (map numberToString counters) in
  if level =? 1 then numbering ++ lit "." else numbering.

(** The state of the second loop of [addHeaderNumbering]. *)
Record Numbering : Type := mkNumbering {
  walk : Walk;
  counters : list Z
}.

(** The body of the second loop of [addHeaderNumbering], lines 288-369. *)
Definition numberLine (minLevel : Z) (st : Numbering) (l : str) : Numbering :=
  let lineLength := len l + 1 in
  let w := walk st in
  let inCodeBlock := if isFence l then negb (inCodeBlock w) else inCodeBlock w in
  let next (edits : list Edit) (counters : list Z) :=
    {| walk := {| inCodeBlock := inCodeBlock;
                  currentOffset := currentOffset w + lineLength;
                  edits := edits |};
       counters := counters |} in
  if negb inCodeBlock then
    match exec REGEXP_HEADER_TEXT l with
    | Some m =>
        let indent := orEmpty (group 1 l m) in
        let hashes := orEmpty (group 2 l m) in
        let space := orEmpty (group 3 l m) in
        let text := orEmpty (group 4 l m) in
        let level := len hashes - minLevel + 1 in
        let counters := bumpCounters level (counters st) in
        let prefix := numberingPrefix level counters in
        let textStartOffset :=
          currentOffset w + len indent + len hashes + len space in
        match exec REGEXP_NUMBER text with
        | Some textMatch =>
            let existingNum := orEmpty (group 1 text textMatch) in
            if negb (str_eqb existingNum prefix) then
              let numStart := textStartOffset in
              let numEnd := numStart + len existingNum in
              next (edits w ++ [ {| start := numStart; end_ := numEnd;
                                    text := prefix |} ]) counters
            else next (edits w) counters
        | None =>
            next (edits w ++ [ {| start := textStartOffset;
                                  end_ := textStartOffset;
                                  text := prefix ++ lit " " |} ]) counters
        end
    | None => next (edits w) (counters st)
    end
  else next (edits w) (counters st).

(** The edits of the heading renumbering. *)
Definition numberingEdits (minLevel : Z) (lines : list str) : list Edit :=
  edits (walk (fold_left (numberLine minLevel) lines
                 {| walk := walkStart; counters := [] |})).

(** [addHeaderNumbering(content, offset)], lines 258-376. *)
Definition addHeaderNumbering (offset : Z) : Engine Z :=
  fun content =>
    let lines := split 10 (current content) in
    let index := offset in
    let minLevel := minLevelOf lines in
    if minLevel =? 100 then ret index content
    else applyEdits (numberingEdits minLevel lines) index content.

(** Lines 62-74 of [formatFile] and 107-119 of [formatContent]: the passes
    the settings enable, in this order. *)
Definition structuralPasses (s : Model.Settings) (offset : Z) : Engine Z :=
  offset <- (if Model.removeExtraSpaces s then removeExtraSpaces offset
             else ret offset) ;;
  offset <- (if Model.addTrailingSpaces s then addTrailingSpaces offset
             else ret offset) ;;
  offset <- (if Model.headerStartLevel s >? 1 then adjustHeaderLevels s offset
             else ret offset) ;;
  if Model.autoNumbering s then addHeaderNumbering offset else ret offset.

(* ================================================================ *)
(** ** [image-uploader.ts] *)

Record ImageMatch : Type := mkImageMatch {
  alt : str;
  url : str;
  imgStart : Z;
  imgEnd : Z;
  urlStart : Z;
  urlEnd : Z
}.

Definition isQuote (c : Z) : bool := (c =? 34) || (c =? 39).

(** The pattern [regex] of line 106: "/!\[(.*?)\]\((.*?)\)/g". *)
Definition regex : Regex :=
  Seq [Lit (lit "!["); Group 1 (Star false Dot); Lit (lit "](");
       Group 2 (Star false Dot); Chr 41].

(** The pattern [imgTagRegex] of line 133 for an [<img>] tag: [<img], [\s+], [[^>]*],
    [src=], a quote, group 1 of one or more units that are no quote, a
    quote, [[^>]*], [>]; flag [g]. *)
Definition imgTagRegex : Regex :=
  Seq [Lit (lit "<img"); Plus space;
       Star true (Class (fun c => negb (c =? 62)));
       Lit (lit "src="); Class isQuote;
       Group 1 (Plus (Class (fun c => negb (isQuote c))));
       Class isQuote;
       Star true (Class (fun c => negb (c =? 62)));
       Chr 62].

(** [s.indexOf(p)]: the first index where [p] starts, or [-1]. *)
Fixpoint indexOfFrom (p s : str) (i : Z) : Z :=
  if startsWith p s then i
  else match s with
       | [] => -1
       | _ :: r => indexOfFrom p r (i + 1)
       end.

Definition indexOf (p s : str) : Z := indexOfFrom p s 0.

(** [findImageMatches(text)], lines 105-165. *)
Definition findImageMatches (text : str) : list ImageMatch :=
  let markdown :=
    map (fun m =>
           let alt := orEmpty (group 1 text m) in
           let url := orEmpty (group 2 text m) in
           let start := m_index m in
           let end_ := start + len (wholeMatch text m) in
           let urlStart := start + 2 + len alt + 2 in
           let urlEnd := urlStart + len url in
           {| alt := alt; url := url; imgStart := start; imgEnd := end_;
              urlStart := urlStart; urlEnd := urlEnd |})
        (execAll regex text) in
  let tags :=
    flat_map (fun m =>
           let url := orEmpty (group 1 text m) in
           let start := m_index m in
           let end_ := start + len (wholeMatch text m) in
           let srcIndex := indexOf url (wholeMatch text m) in
           if negb (srcIndex =? -1) then
             let urlStart := start + srcIndex in
             let urlEnd := urlStart + len url in
             [ {| alt := []; url := url; imgStart := start; imgEnd := end_;
                  urlStart := urlStart; urlEnd := urlEnd |} ]
           else [])
        (execAll imgTagRegex text) in
  markdown ++ tags.

(** The set [failedUrls] of the uploader, in insertion order. *)
Definition UrlSet : Type := list str.

Definition has (u : str) (s : UrlSet) : bool := existsb (str_eqb u) s.

Definition add (u : str) (s : UrlSet) : UrlSet :=
  if has u s then s else s ++ [u].

(** A string is truthy when it is not empty. *)
Definition truthy (s : str) : bool :=
  match s with [] => false | _ :: _ => true end.

(** [initCos()], lines 87-103: whether the credentials are there (the
    client it creates is not used by the upload). *)
Definition initCos (s : Model.Settings) : bool :=
  match Model.tencentCos s with
  | None => false
  | Some cos =>
      if negb (truthy (Model.secretId cos)) || negb (truthy (Model.secretKey cos))
      then false else true
  end.

(** [`${bucket}.cos.${region}.myqcloud.com`] *)
Definition standardDomainOf (bucket region : str) : str :=
  bucket ++ lit ".cos." ++ region ++ lit ".myqcloud.com".

(** [shouldUpload(url, domain)], lines 167-192. *)
Definition shouldUpload (s : Model.Settings) (failedUrls : UrlSet)
    (url domain : str) : bool :=
  if has url failedUrls then false
  else if startsWith (lit "http") url then
    if truthy domain && includes domain url then false
    else
      match Model.tencentCos s with
      | Some cos =>
          if truthy (Model.bucket cos) && truthy (Model.region cos) then
            let standardDomain :=
              standardDomainOf (Model.bucket cos) (Model.region cos) in
            if includes standardDomain url then false else true
          else true
      | None => true
      end
  else true.

Record TFile : Type := mkTFile { path : str; name : str }.

(** What one call of [uploadImage] meets outside the plugin.  A request
    that fails is [None]: its promise rejects, so the failure is seen after
    the [await].  The clock is read up to twice by a call, for the name of
    the file and for the key; both readings are [now]. *)
Record Network : Type := mkNetwork {
  (** [requestUrl({ url })]: the body of the response *)
  requestUrl : str -> option (list Z);
  (** [metadataCache.getFirstLinkpathDest(linkPath, file.path)] *)
  getFirstLinkpathDest : str -> str -> option TFile;
  (** [vault.readBinary(linkedFile)] *)
  readBinary : TFile -> option (list Z);
  (** [Date.now()] *)
  now : Z;
  (** [COS.getAuthorization] and the PUT to the upload URL: the status *)
  putObject : str -> list Z -> option Z
}.

(** [parts.pop()] and [parts[0]] on the result of [split]. *)
Definition lastPart (parts : list str) : str := last parts [].
Definition firstPart (parts : list str) : str := hd [] parts.

(** [domain.replace(/\/$/, "")] *)
Definition cleanDomainOf (domain : str) : str :=
  if endsWith [47] domain then removelast domain else domain.

(** [uploadImage(url, file)], lines 194-268: the new URL or [null], and
    the set of failed URLs as the call leaves it. *)
Definition uploadImage (s : Model.Settings) (net : Network) (url : str)
    (file : TFile) (failedUrls : UrlSet) : option str * UrlSet :=
  match Model.tencentCos s with
  | None => (None, failedUrls)
  | Some cos =>
      let caught := (None, add url failedUrls) in
      let upload (body : list Z) (filename : str) :=
        if negb (truthy (Model.bucket cos)) || negb (truthy (Model.region cos))
        then (None, failedUrls)
        else
          let key :=
            lit "obsidian/" ++ numberToString (now net) ++ lit "_" ++ filename in
          let uploadUrl :=
            lit "https://" ++ Model.bucket cos ++ lit ".cos."
            ++ Model.region cos ++ lit ".myqcloud.com/" ++ key in
          match putObject net uploadUrl body with
          | None => caught
          | Some status =>
              if (200 <=? status) && (status <? 300) then
                if truthy (Model.domain cos)
                then (Some (cleanDomainOf (Model.domain cos) ++ lit "/" ++ key),
                      failedUrls)
                else (Some uploadUrl, failedUrls)
              else (None, add url failedUrls)
          end in
      if startsWith (lit "http") url then
        match requestUrl net url with
        | None => caught
        | Some body =>
            let guess := firstPart (split 63 (lastPart (split 47 url))) in
            let filename :=
              if truthy guess then guess
              else lit "image-" ++ numberToString (now net) ++ lit ".png" in
            upload body filename
        end
      else
        let linkPath := firstPart (split 63 (firstPart (split 35 url))) in
        match getFirstLinkpathDest net linkPath (path file) with
        | None => (None, failedUrls)
        | Some linkedFile =>
            match readBinary net linkedFile with
            | None => caught
            | Some body => upload body (name linkedFile)
            end
        end
  end.

Record UploadResult : Type := mkUploadResult {
  resultMatch : ImageMatch;
  newUrl : option str
}.

(** The candidates the loop of lines 45-63 starts an upload for.  Every test
    reads [failedUrls] as it is when the pass starts: an upload adds to it
    only after its first [await]. *)
Definition candidates (s : Model.Settings) (failedUrls : UrlSet)
    (domain : str) (matches : list ImageMatch) : list ImageMatch :=
  filter (fun m => shouldUpload s failedUrls (url m) domain) matches.

(** [await Promise.all(uploads)]: the results in the order of the uploads;
    upload number [n] meets the world [nets n]. *)
Fixpoint runUploads (s : Model.Settings) (nets : nat -> Network) (file : TFile)
    (n : nat) (uploads : list ImageMatch) (failedUrls : UrlSet)
  : list UploadResult * UrlSet :=
  match uploads with
  | [] => ([], failedUrls)
  | m :: more =>
      let (newUrl, failedUrls) := uploadImage s (nets n) (url m) file failedUrls in
      let (results, failedUrls) := runUploads s nets file (S n) more failedUrls in
      ({| resultMatch := m; newUrl := newUrl |} :: results, failedUrls)
  end.

(** [results.sort((a, b) => b.match.start - a.match.start)]: by descending
    start, results of equal start in their order ([sort] is stable). *)
Fixpoint insertResult (r : UploadResult) (sorted : list UploadResult)
  : list UploadResult :=
  match sorted with
  | [] => [r]
  | x :: more =>
      if imgStart (resultMatch x) >? imgStart (resultMatch r)
      then x :: insertResult r more
      else r :: sorted
  end.

Definition sortResults (results : list UploadResult) : list UploadResult :=
  fold_right insertResult [] results.

(** Lines 70-74. *)
Definition applyResults (results : list UploadResult) (index : Z) : Engine Z :=
  forEach
    (fun index r =>
       match newUrl r with
       | Some newUrl =>
           if truthy newUrl
           then update (urlStart (resultMatch r)) (urlEnd (resultMatch r))
                  newUrl index
           else ret index
       | None => ret index
       end)
    results index.

(** [uploadImages(content, file, offset)], lines 26-85: the offset, and the
    set of failed URLs after the pass. *)
Definition uploadImages (s : Model.Settings) (nets : nat -> Network)
    (file : TFile) (offset : Z) (failedUrls : UrlSet) : Engine (Z * UrlSet) :=
  fun content =>
    match Model.tencentCos s with
    | None => ret (offset, failedUrls) content
    | Some cos =>
        if negb (truthy (Model.bucket cos)) || negb (truthy (Model.region cos))
        then ret (offset, failedUrls) content
        else if negb (initCos s) then ret (offset, failedUrls) content
        else
          let matches := findImageMatches (original content) in
          match matches with
          | [] => ret (offset, failedUrls) content
          | _ :: _ =>
              let uploads :=
                candidates s failedUrls (Model.domain cos) matches in
              let (results, failedUrls') :=
                runUploads s nets file 0 uploads failedUrls in
              (index <- applyResults (sortResults results) offset ;;
               ret (index, failedUrls')) content
          end
    end.

(* ================================================================ *)
(** ** [formatter.ts]: the formatting operations *)

(** What the editor holds when an operation starts. *)
Record Editor : Type := mkEditor {
  getValue : str;
  getCursor : Position;
  getSelection : str;
  getScrollInfo : Z * Z
}.

(** The calls an operation makes on the editor or the vault, in order. *)
Inductive Call : Type :=
| setValue (value : str)
| scrollTo (left top : Z)
| setCursor (p : Position)
| replaceSelection (value : str)
| vaultModify (file : TFile) (value : str).

(** The collaborators of an operation: the gates of lines 403-419 (front
    matter and ignore patterns), the pretty-printer with the options of the
    file ([None] when it throws), the vault and the network. *)
Record Host : Type := mkHost {
  shouldUsePrettier : TFile -> bool;
  shouldUseFastMode : TFile -> bool;
  prettierFormat : str -> option str;
  prettierFormatWithCursor : str -> Z -> option (str * Z);
  vaultRead : TFile -> str;
  nets : nat -> Network
}.

Definition getCurrent : Engine str := fun c => Ok (current c, c).

Definition awaitFormat {A} (x : option A) : Engine A :=
  fun c => match x with Some a => Ok (a, c) | None => Throw FormatError end.

(** An operation's result: the calls it made and the uploader's set of
    failed URLs. *)
Definition Outcome : Type := Result (list Call * UrlSet).

(** Lines 84-119 of [formatContent]: the upload pass, the pretty-printer
    and the structural passes on the buffer; it returns the tracked offset
    and the failed URLs. *)
Definition contentPasses (h : Host) (s : Model.Settings) (editor : Editor)
    (file : TFile) (failedUrls : UrlSet) : Engine (Z * UrlSet) :=
  fun content =>
    let offset :=
      if negb (shouldUseFastMode h file)
      then positionToOffset (getCursor editor) content else -1 in
    (r <- uploadImages s (nets h) file offset failedUrls ;;
     offset <-
       (if shouldUseFastMode h file then
          cur <- getCurrent ;;
          formatted <- awaitFormat (prettierFormat h cur) ;;
          _ <- mutate formatted ;;
          ret (fst r)
        else
          cur <- getCurrent ;;
          result <- awaitFormat (prettierFormatWithCursor h cur (fst r)) ;;
          _ <- mutate (fst result) ;;
          ret (snd result)) ;;
     offset <- structuralPasses s offset ;;
     ret (offset, snd r)) content.

(** [formatContent(editor, file)], lines 81-129. *)
Definition formatContent (h : Host) (s : Model.Settings) (editor : Editor)
    (file : option TFile) (failedUrls : UrlSet) : Outcome :=
  match file with
  | None => Ok ([], failedUrls)
  | Some file =>
      if negb (shouldUsePrettier h file) then Ok ([], failedUrls)
      else
        let (left, top) := getScrollInfo editor in
        let content := newMagicString (getValue editor) in
        match contentPasses h s editor file failedUrls content with
        | Throw e => Throw e
        | Ok ((offset, failedUrls), content) =>
            if negb (isModified content) then Ok ([], failedUrls)
            else
              Ok ([setValue (current content); scrollTo left top]
                  ++ (if negb (offset =? -1)
                      then [setCursor (offsetToPosition offset content)]
                      else []),
                  failedUrls)
        end
  end.

(** [formatFile(file)], lines 51-79. *)
Definition formatFile (h : Host) (s : Model.Settings) (file : TFile)
    (failedUrls : UrlSet) : Outcome :=
  if negb (shouldUsePrettier h file) then Ok ([], failedUrls)
  else
    let content := newMagicString (vaultRead h file) in
    let offset := -1 in
    match
      (r <- uploadImages s (nets h) file offset failedUrls ;;
       cur <- getCurrent ;;
       formatted <- awaitFormat (prettierFormat h cur) ;;
       _ <- mutate formatted ;;
       offset <- structuralPasses s (fst r) ;;
       ret (offset, snd r)) content
    with
    | Throw e => Throw e
    | Ok ((_, failedUrls), content) =>
        if negb (isModified content) then Ok ([], failedUrls)
        else Ok ([vaultModify file (current content)], failedUrls)
    end.

(** The reconciliation of the trailing newline, lines 141-147. *)
Definition reconcileNewline : Engine unit :=
  fun content =>
    let isOriginalHasNewLine := endsWith [10] (original content) in
    let isModifiedHasNewLine := endsWith [10] (current content) in
    if isOriginalHasNewLine && negb isModifiedHasNewLine
    then append [10] content
    else if negb isOriginalHasNewLine && isModifiedHasNewLine
    then (_ <- delete (-1) None (-1) ;; ret tt) content
    else ret tt content.

(** [formatSelection(editor, file)], lines 131-158. *)
Definition formatSelection (h : Host) (s : Model.Settings) (editor : Editor)
    (file : option TFile) (failedUrls : UrlSet) : Outcome :=
  match file with
  | None => Ok ([], failedUrls)
  | Some file =>
      if negb (shouldUsePrettier h file) then Ok ([], failedUrls)
      else
        let content := newMagicString (getSelection editor) in
        match
          (r <- uploadImages s (nets h) file (-1) failedUrls ;;
           cur <- getCurrent ;;
           formatted <- awaitFormat (prettierFormat h cur) ;;
           _ <- mutate formatted ;;
           _ <- reconcileNewline ;;
           _ <- (if Model.removeExtraSpaces s then removeExtraSpaces (-1)
                 else ret (-1)) ;;
           _ <- (if Model.addTrailingSpaces s then addTrailingSpaces (-1)
                 else ret (-1)) ;;
           ret (snd r)) content
        with
        | Throw e => Throw e
        | Ok (failedUrls, content) =>
            if negb (isModified content) then Ok ([], failedUrls)
            else Ok ([replaceSelection (current content)], failedUrls)
        end
  end.

(** [formatOnSave(editor, file)], lines 39-43. *)
Definition formatOnSave (h : Host) (s : Model.Settings) (editor : Editor)
    (file : option TFile) (failedUrls : UrlSet) : Outcome :=
  match file with
  | None => Ok ([], failedUrls)
  | Some _ =>
      if negb (Model.formatOnSave s) then Ok ([], failedUrls)
      else formatContent h s editor file failedUrls
  end.

(** [formatOnFileChange(file)], lines 45-49. *)
Definition formatOnFileChange (h : Host) (s : Model.Settings) (file : TFile)
    (failedUrls : UrlSet) : Outcome :=
  if negb (Model.formatOnFileChange s) then Ok ([], failedUrls)
  else formatFile h s file failedUrls.

(* ================================================================ *)
(** ** What the patterns match, read off without backtracking

    Each pattern of the source is a sequence of greedy runs over classes
    that exclude what has to follow them, so its match on a line is found by
    cutting the line at the ends of the runs.  The lemmas below prove that
    these cuts are what [exec] returns. *)

(** A greedy star over a class, as a scan: one more unit while the class
    has it, and the continuation is tried from the longest run back. *)
Fixpoint greedy (p : Z -> bool) (s : str) (i : Z) (caps : Captures) (k : Cont)
  : option (Z * Captures) :=
  match s with
  | c :: s' =>
      if p c then
        match greedy p s' (i + 1) caps k with
        | Some x => Some x
        | None => k s i caps
        end
      else k s i caps
  | [] => k s i caps
  end.

(** The indent, the hashes, the space after them and the rest of a line the
    pattern [REGEXP_HEADER] matches. *)
Definition headerParts (l : str) : option (str * str * str * str) :=
  let indent := takeWhile isWhiteSpace l in
  let afterIndent := dropWhile isWhiteSpace l in
  let hashes := takeWhile isHash afterIndent in
  let afterHashes := dropWhile isHash afterIndent in
  let sp := takeWhile isWhiteSpace afterHashes in
  let rest := dropWhile isWhiteSpace afterHashes in
  if truthy hashes && truthy sp then Some (indent, hashes, sp, rest) else None.

(** The same for [REGEXP_HEADER_TEXT], whose text reaches the end of the
    line. *)
Definition headerTextParts (l : str) : option (str * str * str * str) :=
  match headerParts l with
  | Some (indent, hashes, sp, rest) =>
      if noLineTerminator rest then Some (indent, hashes, sp, rest) else None
  | None => None
  end.

(** The dotted number a heading text starts with, for [REGEXP_NUMBER]. *)
Definition numberToken (t : str) : option str :=
  let num := takeWhile isDigitOrDot t in
  let rest := dropWhile isDigitOrDot t in
  if truthy num
     && (negb (truthy rest)
         || (truthy (takeWhile isWhiteSpace rest)
             && noLineTerminator (dropWhile isWhiteSpace rest)))
  then Some num else None.

(** The extra spaces after a bullet, for
    [REGEXP_UNORDERED_LIST_ITEMS_WITH_EXTRA_SPACES]: the indent, the bullet
    and its first space, the extra spaces, the rest. *)
Definition extraSpacesParts (l : str) : option (str * str * str * str) :=
  let indent := takeWhile isHSpace l in
  match dropWhile isHSpace l with
  | marker :: sp :: more =>
      if isBullet marker && isHSpace sp && truthy (takeWhile isHSpace more)
      then Some (indent, [marker; sp], takeWhile isHSpace more,
                 dropWhile isHSpace more)
      else None
  | _ => None
  end.

(** A line that is a list marker and nothing else, for
    [REGEXP_EMPTY_LIST_ITEMS_WITHOUT_TRAILING_SPACES]: a bullet, a bullet
    with a checkbox, or digits and a dot, after an indent. *)
Definition isEmptyListItem (l : str) : bool :=
  match dropWhile isHSpace l with
  | marker :: more =>
      if isBullet marker then
        match more with
        | [] => true
        | _ :: _ =>
            truthy (takeWhile isHSpace more)
            && match dropWhile isHSpace more with
               | [a; c; b] =>
                   (a =? 91) && negb (isLineTerminator c) && (b =? 93)
               | _ => false
               end
        end
      else
        truthy (takeWhile isDigit (marker :: more))
        && str_eqb (dropWhile isDigit (marker :: more)) [46]
  | [] => false
  end.

(* ================================================================ *)
(** ** Notions of the statements *)

(** Line [i] lies in a fenced block: the fence lines up to and including it
    are odd in number (the opening fence counts as inside, the closing one
    as outside). *)
Definition insideFence (lines : list str) (i : nat) : bool :=
  Nat.odd (length (filter isFence (firstn (S i) lines))).

(** The text after the first line. *)
Definition tailText (more : list str) : str :=
  match more with
  | [] => []
  | _ :: _ => 10 :: join [10] more
  end.

(** The lines with line [i] replaced. *)
Fixpoint replaceLine (i : nat) (l' : str) (lines : list str) : list str :=
  match lines, i with
  | [], _ => []
  | _ :: more, O => l' :: more
  | l :: more, S i' => l :: replaceLine i' l' more
  end.

(** The prefixes the renumbering computes for headings at the relative
    depths [depths], from the counters [cs]. *)
Fixpoint prefixesFrom (cs : list Z) (depths : list Z) : list str :=
  match depths with
  | [] => []
  | d :: more =>
      let cs' := bumpCounters d cs in
      numberingPrefix d cs' :: prefixesFrom cs' more
  end.

(** An edit that lies on a line: relative to the start of the line. *)
Definition onLine (e : Edit) (l : str) : Prop :=
  0 <= start e /\ start e <= end_ e /\ end_ e <= len l.

(** A line after its edit, if it has one. *)
Definition rewriteLine (le : str * option Edit) : str :=
  match snd le with
  | Some e => splice (start e) (end_ e) (text e) (fst le)
  | None => fst le
  end.

(** An edit on a line, at its offset in the text when the line starts at
    [off]. *)
Definition moveEdit (off : Z) (e : Edit) : Edit :=
  {| start := off + start e; end_ := off + end_ e; text := text e |}.

(** The edits of the lines, at offsets into the text whose first line
    starts at [off]. *)
Fixpoint globalEdits (off : Z) (les : list (str * option Edit)) : list Edit :=
  match les with
  | [] => []
  | (l, oe) :: more =>
      match oe with
      | Some e => [moveEdit off e]
      | None => []
      end ++ globalEdits (off + len l + 1) more
  end.

(** The fence toggle of the loops. *)
Definition toggle (l : str) (b : bool) : bool :=
  if isFence l then negb b else b.

(** The hashes of a heading line, [None] when the line is no heading. *)
Definition hashesOfLine (l : str) : option str :=
  match headerParts l with
  | Some (_, hashes, _, _) => Some hashes
  | None => None
  end.

(** The edit of the level shift on a line that starts at offset 0. *)
Definition shiftEditOf (shift : Z) (l : str) : option Edit :=
  match headerParts l with
  | Some (indent, hashes, _, _) =>
      let newLevel := len hashes + shift in
      if negb (newLevel =? len hashes) && (1 <=? newLevel) && (newLevel <=? 6)
      then Some {| start := len indent; end_ := len indent + len hashes;
                   text := hashesOf newLevel |}
      else None
  | None => None
  end.

(** [edits.push(e)] for the edit of a line, if it has one. *)
Definition pushEdit (off : Z) (oe : option Edit) (es : list Edit) : list Edit :=
  match oe with
  | Some e => es ++ [moveEdit off e]
  | None => es
  end.

(** The edit of the renumbering on a heading line that starts at offset 0,
    for the prefix [prefix]: the existing number is replaced when it
    differs, a missing one is inserted with a space after it. *)
Definition numberEditOf (prefix indent hashes sp t : str) : option Edit :=
  let textStartOffset := len indent + len hashes + len sp in
  match numberToken t with
  | Some existingNum =>
      if negb (str_eqb existingNum prefix)
      then Some {| start := textStartOffset;
                   end_ := textStartOffset + len existingNum;
                   text := prefix |}
      else None
  | None =>
      Some {| start := textStartOffset; end_ := textStartOffset;
              text := prefix ++ lit " " |}
  end.

(** The lines of the level shift with their edits, from the fence state
    [b]. *)
Fixpoint shiftLines (shift : Z) (b : bool) (lines : list str)
  : list (str * option Edit) :=
  match lines with
  | [] => []
  | l :: more =>
      let b' := toggle l b in
      (l, if b' then None else shiftEditOf shift l) :: shiftLines shift b' more
  end.

(** The lines of the renumbering with their edits, from the fence state [b]
    and the counters [cs]. *)
Fixpoint numberLines (minLevel : Z) (b : bool) (cs : list Z) (lines : list str)
  : list (str * option Edit) :=
  match lines with
  | [] => []
  | l :: more =>
      let b' := toggle l b in
      match (if b' then None else headerTextParts l) with
      | Some (indent, hashes, sp, t) =>
          let level := len hashes - minLevel + 1 in
          let cs' := bumpCounters level cs in
          (l, numberEditOf (numberingPrefix level cs') indent hashes sp t)
          :: numberLines minLevel b' cs' more
      | None => (l, None) :: numberLines minLevel b' cs more
      end
  end.

(** The levels of the headings outside fenced blocks, from the fence state
    [b]. *)
Fixpoint visibleLevels (b : bool) (lines : list str) : list Z :=
  match lines with
  | [] => []
  | l :: more =>
      let b' := toggle l b in
      match (if b' then None else hashesOfLine l) with
      | Some hashes => len hashes :: visibleLevels b' more
      | None => visibleLevels b' more
      end
  end.

(** The least of 100 and the levels. *)
Definition leastLevel (levels : list Z) : Z := fold_right Z.min 100 levels.

(** Every edit of the lines lies on its line. *)
Definition editsOnLines (les : list (str * option Edit)) : Prop :=
  Forall (fun le => match snd le with
                    | Some e => onLine e (fst le)
                    | None => True
                    end) les.

(** The fence state after line [i], from the state [b] before the first
    line. *)
Definition fenceAt (b : bool) (lines : list str) (i : nat) : bool :=
  xorb b (Nat.odd (length (filter isFence (firstn (S i) lines)))).

(** A text of one line: it holds no newline. *)
Definition oneLine (s : str) : bool := forallb (fun c => negb (c =? 10)) s.

(** The edits of the lines put no newline into a line. *)
Definition editsKeepLines (les : list (str * option Edit)) : Prop :=
  Forall (fun le => match snd le with
                    | Some e => oneLine (text e) = true
                    | None => True
                    end) les.

(** The edit of [removeExtraSpaces] on a line that starts at offset 0: the
    extra spaces go. *)
Definition extraSpacesEdit (l : str) : option Edit :=
  match extraSpacesParts l with
  | Some (indent, _, extra, _) =>
      Some {| start := len indent + 2; end_ := len indent + 2 + len extra;
              text := [] |}
  | None => None
  end.

(** The edit of [addTrailingSpaces] on a line that starts at offset 0: a
    space at its end. *)
Definition trailingSpaceEdit (l : str) : option Edit :=
  if isEmptyListItem l
  then Some {| start := len l; end_ := len l; text := lit " " |}
  else None.

(** A line after [removeExtraSpaces]. *)
Definition collapseSpaces (l : str) : str :=
  match extraSpacesParts l with
  | Some (indent, marker, _, rest) => indent ++ marker ++ rest
  | None => l
  end.

(** A line after [addTrailingSpaces]. *)
Definition addTrailingSpace (l : str) : str :=
  if isEmptyListItem l then l ++ lit " " else l.

(** A match of the Span Matcher and the deletion [removeExtraSpaces] makes
    of it: group 1 goes. *)
Definition deletionOfMatch (m : Captures) (e : Edit) : Prop :=
  groupSpan 1 m = Some {| sp_start := start e; sp_end := end_ e |}
  /\ text e = [].

(** A match and the insertion [addTrailingSpaces] makes of it: a space at
    the end of group 1. *)
Definition insertionOfMatch (m : Captures) (e : Edit) : Prop :=
  (exists a, groupSpan 1 m = Some {| sp_start := a; sp_end := start e |})
  /\ end_ e = start e /\ text e = lit " ".

(** What an upload returns; it does not depend on the failed URLs. *)
Definition uploadOutcome (s : Model.Settings) (net : Network) (u : str)
    (file : TFile) : option str :=
  fst (uploadImage s net u file []).

(** Whether an upload records its URL as failed. *)
Definition uploadRecords (s : Model.Settings) (net : Network) (u : str)
    (file : TFile) : bool :=
  has u (snd (uploadImage s net u file [])).

(** The results of the uploads a pass starts on a text, before they are
    sorted, and the failed URLs after them; [cos] is the configuration the
    pass found. *)
Definition uploadResults (s : Model.Settings) (cos : Model.TencentCos)
    (nets : nat -> Network) (file : TFile) (failedUrls : UrlSet) (t : str)
  : list UploadResult * UrlSet :=
  runUploads s nets file 0
    (candidates s failedUrls (Model.domain cos) (findImageMatches t))
    failedUrls.

(** The PUT of [body] fails: it throws, or its status is not 2xx. *)
Definition putFails (net : Network) (body : list Z) : Prop :=
  forall target,
    match putObject net target body with
    | None => True
    | Some status => status < 200 \/ 300 <= status
    end.

(** [url.split("#")[0].split("?")[0]], the link path of a local image. *)
Definition linkPathOf (u : str) : str :=
  firstPart (split 63 (firstPart (split 35 u))).

(** The relative depths of the headings the renumbering numbers, in the
    order of the document, from the fence state [b]. *)
Fixpoint headingDepths (minLevel : Z) (b : bool) (lines : list str) : list Z :=
  match lines with
  | [] => []
  | l :: more =>
      let b' := toggle l b in
      match (if b' then None else headerTextParts l) with
      | Some (_, hashes, _, _) =>
          (len hashes - minLevel + 1) :: headingDepths minLevel b' more
      | None => headingDepths minLevel b' more
      end
  end.

(** The lines with the edits that put the prefixes [ps], one after the other,
    on their headings. *)
Fixpoint prefixLines (ps : list str) (b : bool) (lines : list str)
  : list (str * option Edit) :=
  match lines with
  | [] => []
  | l :: more =>
      let b' := toggle l b in
      match (if b' then None else headerTextParts l), ps with
      | Some (indent, hashes, sp, t), p :: ps' =>
          (l, numberEditOf p indent hashes sp t) :: prefixLines ps' b' more
      | Some _, [] => (l, None) :: prefixLines [] b' more
      | None, _ => (l, None) :: prefixLines ps b' more
      end
  end.

(* ================================================================ *)
(** ** Notions of the further properties *)

(** Edits in the order of the text and apart from each other: each one lies
    between [lo] and [hi], and the next one starts after the unit that
    follows its end. *)
Fixpoint ascending (lo hi : Z) (es : list Edit) : Prop :=
  match es with
  | [] => True
  | e :: more =>
      lo <= start e /\ start e <= end_ e /\ end_ e <= hi
      /\ ascending (end_ e + 1) hi more
  end.

(** The level a heading of level [level] has after the level shift by
    [shift]: a level outside 1..6 is not produced, the heading keeps the one
    it has (line 237). *)
Definition shiftedLevel (shift level : Z) : Z :=
  let newLevel := level + shift in
  if (1 <=? newLevel) && (newLevel <=? 6) then newLevel else level.

(** A heading line with [n] hashes in the place of its own; another line as
    it is. *)
Definition withLevel (n : Z) (l : str) : str :=
  match headerParts l with
  | Some (indent, _, sp, rest) => indent ++ hashesOf n ++ sp ++ rest
  | None => l
  end.

(** The lines with every heading outside fenced blocks at its shifted
    level, from the fence state [b]. *)
Fixpoint shiftedLines (shift : Z) (b : bool) (lines : list str) : list str :=
  match lines with
  | [] => []
  | l :: more =>
      let b' := toggle l b in
      (if b' then l
       else match hashesOfLine l with
            | Some hashes => withLevel (shiftedLevel shift (len hashes)) l
            | None => l
            end)
      :: shiftedLines shift b' more
  end.

(** The key of an uploaded file, line 227. *)
Definition keyOf (net : Network) (filename : str) : str :=
  lit "obsidian/" ++ numberToString (now net) ++ lit "_" ++ filename.

(** The URL a file is put to, line 228. *)
Definition uploadUrlOf (cos : Model.TencentCos) (key : str) : str :=
  lit "https://" ++ Model.bucket cos ++ lit ".cos." ++ Model.region cos
  ++ lit ".myqcloud.com/" ++ key.

(** The URL an upload returns, lines 250-255. *)
Definition publicUrlOf (cos : Model.TencentCos) (key : str) : str :=
  if truthy (Model.domain cos)
  then cleanDomainOf (Model.domain cos) ++ lit "/" ++ key
  else uploadUrlOf cos key.

(** The name of the file of a remote image, line 209. *)
Definition guessedName (net : Network) (url : str) : str :=
  let guess := firstPart (split 63 (lastPart (split 47 url))) in
  if truthy guess then guess
  else lit "image-" ++ numberToString (now net) ++ lit ".png".

(** No unit of a name is a slash or a question mark. *)
Definition plainName (name : str) : bool :=
  forallb (fun c => negb (c =? 47) && negb (c =? 63)) name.

(** The credentials and the place of the uploads are all there. *)
Definition configured (s : Model.Settings) : bool :=
  match Model.tencentCos s with
  | Some cos =>
      truthy (Model.secretId cos) && truthy (Model.secretKey cos)
      && truthy (Model.bucket cos) && truthy (Model.region cos)
  | None => false
  end.

(** A computation that leaves [original] as it is. *)
Definition keepsOriginal {A} (m : Engine A) : Prop :=
  forall c a c', m c = Ok (a, c') -> original c' = original c.

(* ================================================================ *)
(** ** [model.ts]: the migration of the stored data *)

Module Migration.

(** A value of the stored data: what [JSON.parse] yields, and [undefined].
    Numbers are integers here.  An object is the list of its own
    properties; the code below reads a property, tests for one, spreads the
    properties into an object literal and writes a property, so an object is
    read through its properties only. *)
#[local] Unset Elimination Schemes.
Inductive Value : Type :=
| VUndefined
| VNull
| VBool (b : bool)
| VNumber (n : Z)
| VString (s : str)
| VArray (items : list Value)
| VObject (props : list (str * Value)).
#[local] Set Elimination Schemes.

Definition Props : Type := list (str * Value).

(** The own property [k], if there is one. *)
Fixpoint lookup (props : Props) (k : str) : option Value :=
  match props with
  | [] => None
  | (k', v) :: more => if str_eqb k' k then Some v else lookup more k
  end.

(** [Object.hasOwn(o, k)] on the properties of [o]. *)
Definition hasOwn (props : Props) (k : str) : bool :=
  match lookup props k with Some _ => true | None => false end.

(** [o.k] on the properties of [o]: [undefined] when there is none. *)
Definition get (props : Props) (k : str) : Value :=
  match lookup props k with Some v => v | None => VUndefined end.

(** [k: v] in an object literal, after the properties [props]: the
    property is replaced where it is, or added at the end. *)
Fixpoint set (k : str) (v : Value) (props : Props) : Props :=
  match props with
  | [] => [(k, v)]
  | (k', v') :: more =>
      if str_eqb k' k then (k, v) :: more else (k', v') :: set k v more
  end.

Fixpoint indexed (i : nat) (items : list Value) : Props :=
  match items with
  | [] => []
  | x :: more => (numberToString (Z.of_nat i), x) :: indexed (S i) more
  end.

(** The own properties of a value, which a spread [...v] copies: those of
    an object, the indices of an array or of a string, none of another
    value. *)
Definition ownProps (v : Value) : Props :=
  match v with
  | VObject props => props
  | VArray items => indexed 0 items
  | VString s => indexed 0 (map (fun c => VString [c]) s)
  | _ => []
  end.

(** [...v] in an object literal, after the properties [props]. *)
Definition spread (props : Props) (v : Value) : Props :=
  fold_left (fun o kv => set (fst kv) (snd kv) o) (ownProps v) props.

(** [isNullish(data)] *)
Definition isNullish (data : Value) : bool :=
  match data with VUndefined | VNull => true | _ => false end.

(** [isPlainObject(data)] *)
Definition isPlainObject (data : Value) : bool :=
  match data with VObject _ => true | _ => false end.

(** [v === n] for a number [n]. *)
Definition isNumber (v : Value) (n : Z) : bool :=
  match v with VNumber m => m =? n | _ => false end.

Section Versions.

(** [versionStrToNum] of [src/utils/version.ts], which is not among the
    sources, and the version of the manifest the build puts in
    [process.env.MANIFEST], when there is one. *)
Variable versionStrToNum : str -> Z.
Variable manifest : option str.

(** [getDefaultFormatOptions()] *)
Definition getDefaultFormatOptions : Value :=
  VObject [(lit "trailingComma", VString (lit "es5"));
           (lit "tabWidth", VNumber 4);
           (lit "semi", VBool false);
           (lit "singleQuote", VBool true)].

(** [getDefaultIgnorePatterns()] *)
Definition getDefaultIgnorePatterns : str :=
  trim ([10] ++ lit "**/.git" ++ [10] ++ lit "**/.svn" ++ [10]
        ++ lit "**/.hg" ++ [10] ++ lit "**/node_modules" ++ [10]).

(** [getCurrentVersion()] *)
Definition getCurrentVersion : Z :=
  match manifest with
  | Some version => versionStrToNum version
  | None => versionStrToNum (lit "0.0.0")
  end.

(** The object of lines 70-76 and 123-129. *)
Definition emptyTencentCos : Value :=
  VObject [(lit "secretId", VString []); (lit "secretKey", VString []);
           (lit "bucket", VString []); (lit "region", VString []);
           (lit "domain", VString [])].

(** [getDefaultSettings()], as a value of the stored data. *)
Definition getDefaultSettings : Value :=
  VObject [(lit "formatOnSave", VBool false);
           (lit "formatOnFileChange", VBool false);
           (lit "formatCodeBlock", VBool false);
           (lit "removeExtraSpaces", VBool false);
           (lit "addTrailingSpaces", VBool false);
           (lit "headerStartLevel", VNumber 1);
           (lit "autoNumbering", VBool false);
           (lit "tencentCos", emptyTencentCos);
           (lit "languageMappings", VObject []);
           (lit "formatOptions", getDefaultFormatOptions);
           (lit "ignorePatterns", VString getDefaultIgnorePatterns)].

(** [migrate(data)]: the recursion of the source is on the version, not on
    the data, so it is counted out by [fuel]; [None] when the fuel does not
    reach. *)
Fixpoint migrate (fuel : nat) (data : Value) : option Value :=
  match fuel with
  | O => None
  | S fuel' =>
      if isNullish data || negb (isPlainObject data) then
        Some (VObject [(lit "version", VNumber getCurrentVersion);
                       (lit "settings", getDefaultSettings)])
      else
        let props := ownProps data in
        if negb (hasOwn props (lit "version")) then
          let dataV2 :=
            VObject
              [(lit "version", VNumber (versionStrToNum (lit "2.0.0")));
               (lit "settings",
                VObject (set (lit "removeExtraSpaces") (VBool false)
                           (spread [] data)))] in
          migrate fuel' dataV2
        else if isNumber (get props (lit "version"))
                  (versionStrToNum (lit "2.0.0")) then
          let dataV2_0_1 :=
            VObject
              [(lit "version", VNumber (versionStrToNum (lit "2.0.1")));
               (lit "settings",
                VObject (spread [(lit "languageMappings", VObject [])]
                           (get props (lit "settings"))))] in
          migrate fuel' dataV2_0_1
        else if isNumber (get props (lit "version"))
                  (versionStrToNum (lit "2.0.1")) then
          let dataV2_0_2 :=
            VObject
              [(lit "version", VNumber (versionStrToNum (lit "2.0.2")));
               (lit "settings",
                VObject
                  (set (lit "tencentCos") emptyTencentCos
                     (set (lit "autoNumbering") (VBool false)
                        (set (lit "headerStartLevel") (VNumber 1)
                           (spread [] (get props (lit "settings")))))))] in
          migrate fuel' dataV2_0_2
        else Some data
  end.

End Versions.

(** The three versions the migration tells apart are different numbers. *)
Definition versionsApart (versionStrToNum : str -> Z) : Prop :=
  versionStrToNum (lit "2.0.0") <> versionStrToNum (lit "2.0.1")
  /\ versionStrToNum (lit "2.0.0") <> versionStrToNum (lit "2.0.2")
  /\ versionStrToNum (lit "2.0.1") <> versionStrToNum (lit "2.0.2").

(** No two properties of the object have the same key. *)
Definition distinctKeys (props : Props) : Prop := NoDup (map fst props).

End Migration.

(** A line the list passes that are switched on leave alone: [r] and [a]
    say whether [removeExtraSpaces] and [addTrailingSpaces] are. *)
Definition settled (r a : bool) (l : str) : Prop :=
  (r = true -> extraSpacesParts l = None)
  /\ (a = true -> isEmptyListItem l = false).

(** The text with the span of every edit replaced by the text of the edit;
    [rest] is the text from the offset [off] on, and the edits are in the
    order of the text. *)
Fixpoint rewriteText (off : Z) (es : list Edit) (rest : str) : str :=
  match es with
  | [] => rest
  | e :: more =>
      firstn (Z.to_nat (start e - off)) rest ++ text e
      ++ rewriteText (end_ e) more (skipn (Z.to_nat (end_ e - off)) rest)
  end.

(** Edits in the order of the text, between [lo] and [hi], none reaching
    into the next. *)
Fixpoint inOrder (lo hi : Z) (es : list Edit) : Prop :=
  match es with
  | [] => True
  | e :: more =>
      lo <= start e /\ start e <= end_ e /\ end_ e <= hi
      /\ inOrder (end_ e) hi more
  end.

(** The replacement [uploadImages] makes for a result, lines 70-74: none
    when the upload returned no URL. *)
Definition urlEdit (r : UploadResult) : list Edit :=
  match newUrl r with
  | Some v =>
      if truthy v
      then [ {| start := urlStart (resultMatch r);
                end_ := urlEnd (resultMatch r); text := v |} ]
      else []
  | None => []
  end.

(** Images in the order of the text, from [lo] on, none empty and none
    reaching into the next. *)
Fixpoint apart (lo : Z) (ms : list ImageMatch) : Prop :=
  match ms with
  | [] => True
  | m :: more =>
      lo <= imgStart m /\ imgStart m < imgEnd m /\ apart (imgEnd m) more
  end.

(** A buffer whose text ends with a newline exactly when the text it was
    made of does: what lines 141-147 of [formatSelection] establish. *)
Definition reconciled (c : MagicString) : Prop :=
  endsWith [10] (current c) = endsWith [10] (original c).

(** The lines of a text that ends with a newline: the last one is empty and
    is not the only one. *)
Definition lastLineEmpty (lines : list str) : bool :=
  match rev lines with
  | [] :: _ :: _ => true
  | _ => false
  end.

(** A tracked offset that lies in the text of the buffer, its end included. *)
Definition inside (offset : Z) (c : MagicString) : Prop :=
  0 <= offset /\ offset <= len (current c).

(** A result whose upload returned a URL: the test of line 71. *)
Definition uploaded (r : UploadResult) : bool :=
  match newUrl r with
  | Some v => truthy v
  | None => false
  end.

(** Two worlds that differ at most in what a request of the URL [u]
    returns. *)
Definition sameBut (u : str) (net net' : Network) : Prop :=
  (forall v, v <> u -> requestUrl net' v = requestUrl net v)
  /\ getFirstLinkpathDest net' = getFirstLinkpathDest net
  /\ readBinary net' = readBinary net
  /\ now net' = now net
  /\ putObject net' = putObject net.

(* ================================================================ *)
(** * Proofs *)

(** ** Lists of code units *)

Lemma len_nonneg (s : str) : 0 <= len s.
Proof. unfold len. lia. Qed.

Lemma len_app (a b : str) : len (a ++ b) = len a + len b.
Proof. unfold len. rewrite length_app. lia. Qed.

Lemma len_cons (c : Z) (s : str) : len (c :: s) = 1 + len s.
Proof. unfold len. simpl length. lia. Qed.

Lemma len_nil : len [] = 0.
Proof. reflexivity. Qed.

Lemma str_eqb_eq (a b : str) : str_eqb a b = true <-> a = b.
Proof.
  revert b. induction a as [|x a IH]; intros [|y b]; simpl; split; intro H;
    try discriminate; try reflexivity.
  - apply andb_true_iff in H. destruct H as [H1 H2].
    apply Z.eqb_eq in H1. apply IH in H2. congruence.
  - injection H as -> ->. rewrite Z.eqb_refl. simpl. apply IH. reflexivity.
Qed.

Lemma str_eqb_refl (a : str) : str_eqb a a = true.
Proof. apply str_eqb_eq. reflexivity. Qed.

Lemma take_drop_while (p : Z -> bool) (s : str) :
  takeWhile p s ++ dropWhile p s = s.
Proof.
  induction s as [|c s IH]; simpl; [reflexivity|].
  destruct (p c); simpl; [rewrite IH|]; reflexivity.
Qed.

Lemma dropWhile_head (p : Z -> bool) (s : str) (c : Z) (r : str) :
  dropWhile p s = c :: r -> p c = false.
Proof.
  induction s as [|x s IH]; simpl; [discriminate|].
  destruct (p x) eqn:E; [exact IH|]. intros [= <- <-]. exact E.
Qed.

Lemma takeWhile_all (p : Z -> bool) (s : str) :
  forallb p (takeWhile p s) = true.
Proof.
  induction s as [|c s IH]; simpl; [reflexivity|].
  destruct (p c) eqn:E; simpl; [rewrite E, IH|]; reflexivity.
Qed.

Lemma takeWhile_app (p : Z -> bool) (a b : str) :
  forallb p a = true ->
  takeWhile p (a ++ b) = a ++ takeWhile p b
  /\ dropWhile p (a ++ b) = dropWhile p b.
Proof.
  induction a as [|c a IH]; simpl; intro H; [split; reflexivity|].
  apply andb_true_iff in H. destruct H as [Hc Ha]. rewrite Hc.
  destruct (IH Ha) as [-> ->]. split; reflexivity.
Qed.

Lemma takeWhile_stop (p : Z -> bool) (s : str) :
  match s with [] => True | c :: _ => p c = false end ->
  takeWhile p s = [] /\ dropWhile p s = s.
Proof.
  destruct s as [|c s]; simpl; [split; reflexivity|].
  intros ->. split; reflexivity.
Qed.

Lemma truthy_len (s : str) : truthy s = true <-> 0 < len s.
Proof.
  destruct s; simpl; unfold len; simpl length; split; intro; try lia;
    try discriminate; reflexivity.
Qed.

Lemma firstn_len_app (a b : str) : firstn (Z.to_nat (len a)) (a ++ b) = a.
Proof.
  unfold len. rewrite Nat2Z.id. rewrite firstn_app, Nat.sub_diag, firstn_all.
  simpl. apply app_nil_r.
Qed.

Lemma skipn_len_app (a b : str) : skipn (Z.to_nat (len a)) (a ++ b) = b.
Proof.
  unfold len. rewrite Nat2Z.id. rewrite skipn_app, Nat.sub_diag, skipn_all.
  reflexivity.
Qed.

Lemma substring_mid (a b c : str) :
  substring (len a) (len a + len b) (a ++ b ++ c) = b.
Proof.
  unfold substring. rewrite skipn_len_app.
  replace (len a + len b - len a) with (len b) by lia.
  apply firstn_len_app.
Qed.

(** Splicing inside the middle part of a text. *)
Lemma splice_mid (a l c t : str) (s e : Z) :
  0 <= s -> s <= e -> e <= len l ->
  splice (len a + s) (len a + e) t (a ++ l ++ c) = a ++ splice s e t l ++ c.
Proof.
  intros Hs Hse He. unfold splice, len in *.
  rewrite !Z2Nat.inj_add, !Nat2Z.id by lia.
  rewrite firstn_app, skipn_app.
  replace (length a + Z.to_nat s - length a)%nat with (Z.to_nat s) by lia.
  replace (length a + Z.to_nat e - length a)%nat with (Z.to_nat e) by lia.
  rewrite firstn_all2 by lia. rewrite skipn_all2 by lia.
  rewrite firstn_app, skipn_app.
  replace (Z.to_nat s - length l)%nat with 0%nat by lia.
  replace (Z.to_nat e - length l)%nat with 0%nat by lia.
  simpl. rewrite !app_nil_r, <- !app_assoc. reflexivity.
Qed.

Lemma len_splice (s e : Z) (t l : str) :
  0 <= s -> s <= e -> e <= len l ->
  len (splice s e t l) = len l + len t - (e - s).
Proof.
  intros Hs Hse He. unfold splice. rewrite !len_app. unfold len in *.
  rewrite length_firstn, length_skipn. lia.
Qed.

(** ** Lines *)

Lemma split_not_nil (sep : Z) (s : str) : split sep s <> [].
Proof.
  destruct s as [|c s]; simpl; [discriminate|].
  destruct (c =? sep); [discriminate|]. destruct (split sep s); discriminate.
Qed.

(** [split] and [join] are inverse: the lines of a text give it back. *)
Lemma join_split (sep : Z) (s : str) : join [sep] (split sep s) = s.
Proof.
  induction s as [|c s IH]; simpl; [reflexivity|].
  destruct (c =? sep) eqn:E.
  - apply Z.eqb_eq in E. subst c.
    pose proof (split_not_nil sep s) as Hn.
    destruct (split sep s) as [|l ls] eqn:Es; [contradiction|].
    change (join [sep] ([] :: l :: ls)) with ([] ++ [sep] ++ join [sep] (l :: ls)).
    rewrite IH. reflexivity.
  - pose proof (split_not_nil sep s) as Hn.
    destruct (split sep s) as [|l ls] eqn:Es; [contradiction|].
    destruct ls as [|l2 ls]; simpl in *; rewrite <- IH; reflexivity.
Qed.

(** No line of [split] holds the separator. *)
Lemma split_no_sep (sep : Z) (s : str) :
  Forall (fun l => forallb (fun c => negb (c =? sep)) l = true) (split sep s).
Proof.
  induction s as [|c s IH]; simpl; [repeat constructor|].
  destruct (c =? sep) eqn:E; [constructor; [reflexivity|exact IH]|].
  destruct (split sep s) as [|l ls]; [repeat constructor; simpl; rewrite E; reflexivity|].
  inversion IH; subst. constructor; [simpl; rewrite E; simpl; assumption|assumption].
Qed.

Lemma join_cons (l : str) (more : list str) :
  join [10] (l :: more) = l ++ tailText more.
Proof. destruct more; simpl; [rewrite app_nil_r|]; reflexivity. Qed.

Lemma lineStartOf_nonneg (lines : list str) (n : nat) : 0 <= lineStartOf lines n.
Proof.
  revert lines. induction n as [|n IH]; intros [|l more]; simpl; try lia.
  pose proof (IH more). pose proof (len_nonneg l). lia.
Qed.

(** ** The regular-expression matcher *)

Lemma rmatch_cat a b s i caps k :
  rmatch (Cat a b) s i caps k
  = rmatch a s i caps (fun s' i' caps' => rmatch b s' i' caps' k).
Proof. reflexivity. Qed.

Lemma rmatch_group n a s i caps k :
  rmatch (Group n a) s i caps k
  = rmatch a s i caps
      (fun s' i' caps' => k s' i' ((n, {| sp_start := i; sp_end := i' |}) :: caps')).
Proof. reflexivity. Qed.

Lemma rmatch_or a b s i caps k :
  rmatch (Or a b) s i caps k
  = match rmatch a s i caps k with
    | Some x => Some x
    | None => rmatch b s i caps k
    end.
Proof. reflexivity. Qed.

Lemma rmatch_class p s i caps k :
  rmatch (Class p) s i caps k
  = match s with
    | c :: s' => if p c then k s' (i + 1) caps else None
    | [] => None
    end.
Proof. reflexivity. Qed.

Lemma rmatch_eol s i caps k :
  rmatch Eol s i caps k = match s with [] => k s i caps | _ :: _ => None end.
Proof. reflexivity. Qed.

Lemma rmatch_empty s i caps k : rmatch Empty s i caps k = k s i caps.
Proof. reflexivity. Qed.

Lemma star_class_loop p k : forall fuel s i caps,
  (length s <= fuel)%nat ->
  (fix loop (fuel : nat) (s : str) (i : Z) (caps : Captures) {struct fuel} :=
     match fuel with
     | O => k s i caps
     | S fuel' =>
         let more :=
           rmatch (Class p) s i caps
             (fun s' i' caps' =>
                if i' =? i then None else loop fuel' s' i' caps') in
         match more with Some x => Some x | None => k s i caps end
     end) fuel s i caps = greedy p s i caps k.
Proof.
  induction fuel as [|fuel IH]; intros s i caps Hlen.
  - destruct s; simpl in *; [reflexivity | lia].
  - destruct s as [|c s']; simpl; [reflexivity|].
    destruct (p c); [|reflexivity].
    replace (i + 1 =? i) with false by (symmetry; apply Z.eqb_neq; lia).
    rewrite IH by (simpl in Hlen; lia). reflexivity.
Qed.

(** A greedy star over a class is the scan. *)
Lemma rmatch_star_class p s i caps k :
  rmatch (Star true (Class p)) s i caps k = greedy p s i caps k.
Proof. simpl. apply star_class_loop. lia. Qed.

(** When what follows cannot start with a unit of the class, the run is
    the longest one. *)
Lemma greedy_commit p k : forall s i caps,
  (forall c t j cs, p c = true -> k (c :: t) j cs = None) ->
  greedy p s i caps k = k (dropWhile p s) (i + len (takeWhile p s)) caps.
Proof.
  induction s as [|c s IH]; intros i caps Hk; simpl.
  - f_equal. rewrite len_nil. lia.
  - destruct (p c) eqn:Hc.
    + rewrite IH by assumption. rewrite len_cons.
      replace (i + 1 + len (takeWhile p s)) with (i + (1 + len (takeWhile p s)))
        by lia.
      destruct (k (dropWhile p s) _ caps) eqn:E; [reflexivity|].
      rewrite Hk by assumption. reflexivity.
    + f_equal. rewrite len_nil. lia.
Qed.

(** When what follows matches after the longest run, that is the match. *)
Lemma greedy_first p k : forall s i caps x,
  k (dropWhile p s) (i + len (takeWhile p s)) caps = Some x ->
  greedy p s i caps k = Some x.
Proof.
  induction s as [|c s IH]; intros i caps x Hk; simpl in *.
  - rewrite <- Hk. f_equal. rewrite len_nil. lia.
  - destruct (p c) eqn:Hc.
    + rewrite (IH (i + 1) caps x); [reflexivity|].
      rewrite <- Hk. f_equal. rewrite len_cons. lia.
    + rewrite <- Hk. f_equal. rewrite len_nil. lia.
Qed.

(** When what follows matches after no run, there is no match. *)
Lemma greedy_none p k : forall s i caps,
  (forall a b j cs, s = a ++ b -> forallb p a = true -> k b j cs = None) ->
  greedy p s i caps k = None.
Proof.
  induction s as [|c s IH]; intros i caps Hk; simpl.
  - apply (Hk [] []); reflexivity.
  - destruct (p c) eqn:Hc.
    + rewrite IH.
      * apply (Hk [] (c :: s)); reflexivity.
      * intros a b j cs -> Ha. apply (Hk (c :: a) b); [reflexivity|].
        simpl. rewrite Hc. exact Ha.
    + apply (Hk [] (c :: s)); reflexivity.
Qed.

(** One or more units of a class, when what follows cannot start with one. *)
Lemma rmatch_plus_commit p k s i caps :
  (forall c t j cs, p c = true -> k (c :: t) j cs = None) ->
  rmatch (Plus (Class p)) s i caps k
  = if truthy (takeWhile p s)
    then k (dropWhile p s) (i + len (takeWhile p s)) caps
    else None.
Proof.
  intro Hk. unfold Plus. rewrite rmatch_cat, rmatch_class.
  destruct s as [|c s]; [reflexivity|]. simpl takeWhile. simpl dropWhile.
  destruct (p c) eqn:Hc; [|reflexivity].
  rewrite rmatch_star_class, greedy_commit by assumption.
  simpl truthy. rewrite len_cons. f_equal. lia.
Qed.

(** One or more units of a class, when what follows matches after the
    longest run. *)
Lemma rmatch_plus_first p k s i caps x :
  truthy (takeWhile p s) = true ->
  k (dropWhile p s) (i + len (takeWhile p s)) caps = Some x ->
  rmatch (Plus (Class p)) s i caps k = Some x.
Proof.
  intros Ht Hk. unfold Plus. rewrite rmatch_cat, rmatch_class.
  destruct s as [|c s]; [discriminate|]. simpl in Ht, Hk.
  destruct (p c) eqn:Hc; [|discriminate].
  rewrite rmatch_star_class. apply greedy_first.
  rewrite <- Hk. f_equal. rewrite len_cons. lia.
Qed.

Lemma rmatch_plus_empty p k s i caps :
  truthy (takeWhile p s) = false ->
  rmatch (Plus (Class p)) s i caps k = None.
Proof.
  intro Ht. unfold Plus. rewrite rmatch_cat, rmatch_class.
  destruct s as [|c s]; [reflexivity|]. simpl in Ht.
  destruct (p c); [discriminate|reflexivity].
Qed.

(** One or more units of a class, when what follows matches after no run. *)
Lemma rmatch_plus_none p k s i caps :
  (forall a b j cs, s = a ++ b -> forallb p a = true -> k b j cs = None) ->
  rmatch (Plus (Class p)) s i caps k = None.
Proof.
  intro Hk. unfold Plus. rewrite rmatch_cat, rmatch_class.
  destruct s as [|c s]; [reflexivity|].
  destruct (p c) eqn:Hc; [|reflexivity].
  rewrite rmatch_star_class. apply greedy_none.
  intros a b j cs -> Ha. apply (Hk (c :: a) b); [reflexivity|].
  simpl. rewrite Hc. exact Ha.
Qed.

Lemma forallb_takeWhile (p : Z -> bool) (s : str) :
  forallb p s = true -> takeWhile p s = s /\ dropWhile p s = [].
Proof.
  induction s as [|c s IH]; simpl; [split; reflexivity|].
  intro H. apply andb_true_iff in H. destruct H as [-> Hs].
  destruct (IH Hs) as [-> ->]. split; reflexivity.
Qed.

Lemma forallb_dropWhile (p : Z -> bool) (s : str) :
  forallb p s = false -> exists c r, dropWhile p s = c :: r.
Proof.
  induction s as [|c s IH]; simpl; [discriminate|].
  destruct (p c); simpl; [exact IH|]. intros _. eexists _, _. reflexivity.
Qed.

(** The pattern ".*$" takes a text that has no line terminator, whole. *)
Lemma rmatch_dots_eol s i caps k :
  rmatch (Star true Dot) s i caps
    (fun s' i' caps' => rmatch Eol s' i' (k i' caps') done)
  = if noLineTerminator s then Some (i + len s, k (i + len s) caps) else None.
Proof.
  unfold Dot. rewrite rmatch_star_class, greedy_commit by reflexivity.
  rewrite rmatch_eol. unfold noLineTerminator.
  destruct (forallb (fun c => negb (isLineTerminator c)) s) eqn:E.
  - destruct (forallb_takeWhile _ _ E) as [-> ->]. reflexivity.
  - destruct (forallb_dropWhile _ _ E) as (c & r & ->). reflexivity.
Qed.

(** A pattern anchored with [^] matches at the start only. *)
Lemma searchFrom_bol r : forall s i,
  0 < i -> searchFrom (Cat Bol r) s i = None.
Proof.
  induction s as [|c s IH]; intros i Hi; simpl;
    destruct (Z.eqb_spec i 0); try lia; try reflexivity.
  apply IH. lia.
Qed.

(** So its search is one attempt at offset 0. *)
Lemma exec_bol r s :
  exec (Cat Bol r) s
  = match rmatch r s 0 [] done with
    | Some (e, caps) => Some {| m_index := 0; m_end := e; m_groups := caps |}
    | None => None
    end.
Proof.
  unfold exec. destruct s as [|c s]; simpl.
  - destruct (rmatch r [] 0 [] done) as [[e caps]|]; reflexivity.
  - destruct (rmatch r (c :: s) 0 [] done) as [[e caps]|]; [reflexivity|].
    apply searchFrom_bol. lia.
Qed.

(** ** The classes of the patterns *)

Ltac class_prop H :=
  unfold isHSpace, isWhiteSpace, isLineTerminator, isDigitOrDot, isDigit,
    isBullet, isHash, isQuote in H;
  repeat rewrite ?orb_true_iff, ?andb_true_iff, ?negb_true_iff,
    ?orb_false_iff, ?andb_false_iff, ?negb_false_iff,
    ?Z.eqb_eq, ?Z.eqb_neq, ?Z.leb_le, ?Z.leb_gt in H.

(** [p c] holds, so [q c] cannot. *)
Ltac class_disjoint :=
  match goal with
  | H : ?p ?c = true |- ?q ?c = false =>
      let E := fresh "E" in
      destruct (q c) eqn:E; [exfalso; class_prop H; class_prop E; lia | reflexivity]
  end.

Lemma hash_not_space c : isHash c = true -> isWhiteSpace c = false.
Proof. intro H. class_disjoint. Qed.

Lemma space_not_hash c : isWhiteSpace c = true -> isHash c = false.
Proof. intro H. class_disjoint. Qed.

Lemma hspace_space c : isHSpace c = true -> isWhiteSpace c = true.
Proof. unfold isHSpace. intro H. apply andb_true_iff in H. tauto. Qed.

Lemma hspace_not_bullet c : isHSpace c = true -> isBullet c = false.
Proof. intro H. class_disjoint. Qed.

Lemma hspace_not_digit c : isHSpace c = true -> isDigit c = false.
Proof. intro H. class_disjoint. Qed.

Lemma hspace_not_bracket c : isHSpace c = true -> (91 =? c) = false.
Proof. intro H. apply Z.eqb_neq. class_prop H. lia. Qed.

Lemma digit_not_dot c : isDigit c = true -> (46 =? c) = false.
Proof. intro H. apply Z.eqb_neq. class_prop H. lia. Qed.

Lemma digit_not_bullet c : isDigit c = true -> isBullet c = false.
Proof. intro H. class_disjoint. Qed.

Lemma bullet_not_digit c : isBullet c = true -> isDigit c = false.
Proof. intro H. class_disjoint. Qed.

Lemma number_not_space c : isDigitOrDot c = true -> isWhiteSpace c = false.
Proof. intro H. class_disjoint. Qed.

(** ** What the patterns of the passes match *)

(** The pattern of a heading matches a line exactly at its [headerParts],
    and its groups are the indent, the hashes and the space. *)
Lemma exec_header (l : str) :
  exec REGEXP_HEADER l
  = match headerParts l with
    | Some (indent, hashes, sp, _) =>
        Some {| m_index := 0;
                m_end := len indent + len hashes + len sp;
                m_groups :=
                  [(3%nat, {| sp_start := len indent + len hashes;
                              sp_end := len indent + len hashes + len sp |});
                   (2%nat, {| sp_start := len indent;
                              sp_end := len indent + len hashes |});
                   (1%nat, {| sp_start := 0; sp_end := len indent |})] |}
    | None => None
    end.
Proof.
  unfold REGEXP_HEADER. cbn [Seq]. rewrite exec_bol.
  rewrite rmatch_cat, rmatch_group. unfold space at 1.
  rewrite rmatch_star_class, greedy_commit.
  2:{ intros c t j cs Hc. rewrite rmatch_cat, rmatch_group. unfold Plus.
      rewrite rmatch_cat, rmatch_class, (space_not_hash c Hc). reflexivity. }
  rewrite rmatch_cat, rmatch_group, rmatch_plus_commit.
  2:{ intros c t j cs Hc. rewrite rmatch_group. unfold Plus, space.
      rewrite rmatch_cat, rmatch_class, (hash_not_space c Hc). reflexivity. }
  unfold headerParts.
  set (indent := takeWhile isWhiteSpace l).
  set (r1 := dropWhile isWhiteSpace l).
  set (hashes := takeWhile isHash r1).
  set (r2 := dropWhile isHash r1).
  destruct (truthy hashes) eqn:Hh; simpl andb; [|reflexivity].
  rewrite rmatch_group. unfold space.
  destruct (truthy (takeWhile isWhiteSpace r2)) eqn:Hs.
  - erewrite rmatch_plus_first; [|exact Hs|reflexivity].
    cbv beta iota. rewrite !Z.add_0_l. reflexivity.
  - rewrite rmatch_plus_empty by exact Hs. reflexivity.
Qed.

(** A group of ".*" before "$". *)
Lemma rmatch_text_group n t i caps :
  rmatch (Group n (Star true Dot)) t i caps
    (fun s' i' caps' => rmatch Eol s' i' caps' done)
  = if noLineTerminator t
    then Some (i + len t, (n, {| sp_start := i; sp_end := i + len t |}) :: caps)
    else None.
Proof.
  rewrite rmatch_group.
  exact (rmatch_dots_eol t i caps
           (fun i' caps' => (n, {| sp_start := i; sp_end := i' |}) :: caps')).
Qed.

Lemma noLineTerminator_app a b :
  noLineTerminator (a ++ b) = noLineTerminator a && noLineTerminator b.
Proof. unfold noLineTerminator. apply forallb_app. Qed.

(** "\s+(.*)$": the space is the longest run, the text is the rest. *)
Lemma rmatch_space_text n s i caps (f : Z -> Captures -> Captures) :
  rmatch (Plus space) s i caps
    (fun s' i' caps' =>
       rmatch (Group n (Star true Dot)) s' i' (f i' caps')
         (fun s'' i'' caps'' => rmatch Eol s'' i'' caps'' done))
  = if truthy (takeWhile isWhiteSpace s)
       && noLineTerminator (dropWhile isWhiteSpace s)
    then Some (i + len s,
               (n, {| sp_start := i + len (takeWhile isWhiteSpace s);
                      sp_end := i + len s |})
               :: f (i + len (takeWhile isWhiteSpace s)) caps)
    else None.
Proof.
  unfold space.
  assert (Hlen : len s = len (takeWhile isWhiteSpace s)
                         + len (dropWhile isWhiteSpace s))
    by (rewrite <- len_app, take_drop_while; reflexivity).
  destruct (truthy (takeWhile isWhiteSpace s)) eqn:Ht; simpl andb;
    [|apply rmatch_plus_empty; exact Ht].
  destruct (noLineTerminator (dropWhile isWhiteSpace s)) eqn:Hn.
  - apply rmatch_plus_first; [exact Ht|].
    rewrite rmatch_text_group, Hn, Hlen, !Z.add_assoc. reflexivity.
  - apply rmatch_plus_none. intros a b j cs -> Ha.
    rewrite rmatch_text_group.
    destruct (takeWhile_app isWhiteSpace a b Ha) as [_ Hd].
    rewrite Hd in Hn.
    rewrite <- (take_drop_while isWhiteSpace b), noLineTerminator_app, Hn.
    rewrite andb_false_r. reflexivity.
Qed.

(** The pattern of a heading with its text. *)
Lemma exec_header_text (l : str) :
  exec REGEXP_HEADER_TEXT l
  = match headerTextParts l with
    | Some (indent, hashes, sp, rest) =>
        Some {| m_index := 0;
                m_end := len l;
                m_groups :=
                  [(4%nat, {| sp_start := len indent + len hashes + len sp;
                              sp_end := len l |});
                   (3%nat, {| sp_start := len indent + len hashes;
                              sp_end := len indent + len hashes + len sp |});
                   (2%nat, {| sp_start := len indent;
                              sp_end := len indent + len hashes |});
                   (1%nat, {| sp_start := 0; sp_end := len indent |})] |}
    | None => None
    end.
Proof.
  unfold REGEXP_HEADER_TEXT. cbn [Seq]. rewrite exec_bol.
  rewrite rmatch_cat, rmatch_group. unfold space at 1.
  rewrite rmatch_star_class, greedy_commit.
  2:{ intros c t j cs Hc. rewrite rmatch_cat, rmatch_group. unfold Plus.
      rewrite rmatch_cat, rmatch_class, (space_not_hash c Hc). reflexivity. }
  rewrite rmatch_cat, rmatch_group, rmatch_plus_commit.
  2:{ intros c t j cs Hc. rewrite rmatch_cat, rmatch_group. unfold Plus, space.
      rewrite rmatch_cat, rmatch_class, (hash_not_space c Hc). reflexivity. }
  unfold headerTextParts, headerParts.
  assert (Hl : len l = len (takeWhile isWhiteSpace l)
                       + len (dropWhile isWhiteSpace l))
    by (rewrite <- len_app, take_drop_while; reflexivity).
  set (indent := takeWhile isWhiteSpace l) in *.
  set (r1 := dropWhile isWhiteSpace l) in *.
  assert (Hr1 : len r1 = len (takeWhile isHash r1) + len (dropWhile isHash r1))
    by (rewrite <- len_app, take_drop_while; reflexivity).
  set (hashes := takeWhile isHash r1) in *.
  set (r2 := dropWhile isHash r1) in *.
  destruct (truthy hashes) eqn:Hh; simpl andb; [|reflexivity].
  rewrite rmatch_cat, rmatch_group.
  rewrite (rmatch_space_text 4 r2 (0 + len indent + len hashes) _
             (fun i' caps' =>
                (3%nat, {| sp_start := 0 + len indent + len hashes;
                           sp_end := i' |}) :: caps')).
  destruct (truthy (takeWhile isWhiteSpace r2)); simpl andb; [|reflexivity].
  destruct (noLineTerminator (dropWhile isWhiteSpace r2)); [|reflexivity].
  rewrite !Z.add_0_l.
  replace (len indent + len hashes + len r2) with (len l) by lia.
  reflexivity.
Qed.

(** The pattern of an existing number: group 1 is the [numberToken]. *)
Lemma exec_number (t : str) :
  exec REGEXP_NUMBER t
  = match numberToken t with
    | Some num =>
        Some {| m_index := 0;
                m_end := len t;
                m_groups :=
                  (if truthy (dropWhile isDigitOrDot t)
                   then [(2%nat,
                          {| sp_start :=
                               len num
                               + len (takeWhile isWhiteSpace
                                        (dropWhile isDigitOrDot t));
                             sp_end := len t |})]
                   else [])
                  ++ [(1%nat, {| sp_start := 0; sp_end := len num |})] |}
    | None => None
    end.
Proof.
  unfold REGEXP_NUMBER. cbn [Seq]. rewrite exec_bol.
  rewrite rmatch_cat, rmatch_group, rmatch_plus_commit.
  2:{ intros c t' j cs Hc. rewrite rmatch_cat. unfold Opt.
      rewrite rmatch_or, rmatch_cat. unfold Plus at 1, space at 1.
      rewrite rmatch_cat, rmatch_class, (number_not_space c Hc).
      rewrite rmatch_empty, rmatch_eol. reflexivity. }
  unfold numberToken.
  assert (Hl : len t = len (takeWhile isDigitOrDot t)
                       + len (dropWhile isDigitOrDot t))
    by (rewrite <- len_app, take_drop_while; reflexivity).
  set (num := takeWhile isDigitOrDot t) in *.
  remember (dropWhile isDigitOrDot t) as rest eqn:Hrest.
  destruct (truthy num) eqn:Hnum; simpl andb; [|reflexivity].
  rewrite rmatch_cat. unfold Opt. rewrite rmatch_or, rmatch_cat.
  rewrite (rmatch_space_text 2 rest (0 + len num) _ (fun _ caps' => caps')).
  rewrite rmatch_empty, rmatch_eol.
  destruct rest as [|c rest'].
  - simpl. unfold done. rewrite len_nil in Hl.
    replace (0 + len num) with (len t) by lia.
    replace (len num) with (len t) by lia. reflexivity.
  - cbn [truthy negb orb].
    destruct (truthy (takeWhile isWhiteSpace (c :: rest'))
              && noLineTerminator (dropWhile isWhiteSpace (c :: rest')));
      [|reflexivity].
    rewrite !Z.add_0_l. replace (len num + len (c :: rest')) with (len t) by lia.
    reflexivity.
Qed.

(** The pattern of a bullet with extra spaces: group 1 is the extra
    spaces. *)
Lemma exec_extra_spaces (l : str) :
  exec REGEXP_UNORDERED_LIST_ITEMS_WITH_EXTRA_SPACES l
  = match extraSpacesParts l with
    | Some (indent, marker, extra, _) =>
        Some {| m_index := 0;
                m_end := len indent + 2 + len extra;
                m_groups :=
                  [(1%nat, {| sp_start := len indent + 2;
                              sp_end := len indent + 2 + len extra |})] |}
    | None => None
    end.
Proof.
  unfold REGEXP_UNORDERED_LIST_ITEMS_WITH_EXTRA_SPACES. cbn [Seq].
  rewrite exec_bol. rewrite rmatch_cat. unfold hspace at 1.
  rewrite rmatch_star_class, greedy_commit.
  2:{ intros c t j cs Hc.
      rewrite rmatch_cat, rmatch_class, (hspace_not_bullet c Hc). reflexivity. }
  unfold extraSpacesParts.
  set (indent := takeWhile isHSpace l).
  destruct (dropWhile isHSpace l) as [|marker [|sp more]];
    rewrite rmatch_cat, rmatch_class; [reflexivity| |].
  - destruct (isBullet marker); [|reflexivity].
    unfold hspace at 1. rewrite rmatch_cat, rmatch_class. reflexivity.
  - destruct (isBullet marker); simpl andb; [|reflexivity].
    unfold hspace at 1. rewrite rmatch_cat, rmatch_class.
    destruct (isHSpace sp); simpl andb; [|reflexivity].
    rewrite rmatch_group. unfold hspace.
    destruct (truthy (takeWhile isHSpace more)) eqn:Ht.
    + erewrite rmatch_plus_first; [|exact Ht|reflexivity].
      cbv beta iota. rewrite !Z.add_0_l.
      replace (len indent + 1 + 1) with (len indent + 2) by lia. reflexivity.
    + rewrite rmatch_plus_empty by exact Ht. reflexivity.
Qed.

Lemma len_take_drop (p : Z -> bool) (s : str) :
  len s = len (takeWhile p s) + len (dropWhile p s).
Proof. rewrite <- len_app, take_drop_while. reflexivity. Qed.

(** Two matches that differ in the arithmetic of their offsets only. *)
Ltac same_match := unfold done; repeat first [lia | progress f_equal].

(** The pattern of an empty list item: the whole line, when it is one. *)
Lemma exec_empty_item (l : str) :
  exec REGEXP_EMPTY_LIST_ITEMS_WITHOUT_TRAILING_SPACES l
  = if isEmptyListItem l
    then Some {| m_index := 0;
                 m_end := len l;
                 m_groups := [(1%nat, {| sp_start := 0; sp_end := len l |})] |}
    else None.
Proof.
  unfold REGEXP_EMPTY_LIST_ITEMS_WITHOUT_TRAILING_SPACES. cbn [Seq].
  unfold hspace.
  rewrite exec_bol, rmatch_cat, rmatch_group, rmatch_or.
  (* the bullet alternative *)
  rewrite rmatch_cat.
  rewrite rmatch_star_class, greedy_commit.
  2:{ intros c t j cs Hc.
      rewrite rmatch_cat, rmatch_class, (hspace_not_bullet c Hc). reflexivity. }
  (* the numbered alternative *)
  rewrite (rmatch_cat (Star true (Class isHSpace))).
  rewrite rmatch_star_class, greedy_commit.
  2:{ intros c t j cs Hc. rewrite rmatch_cat. unfold Plus.
      rewrite rmatch_cat, rmatch_class, (hspace_not_digit c Hc). reflexivity. }
  rewrite (rmatch_cat (Plus (Class isDigit))), rmatch_plus_commit.
  2:{ intros c t j cs Hc. unfold Chr.
      rewrite rmatch_class, (digit_not_dot c Hc). reflexivity. }
  unfold isEmptyListItem.
  pose proof (len_take_drop isHSpace l) as Hl.
  set (indent := takeWhile isHSpace l) in *.
  destruct (dropWhile isHSpace l) as [|marker more] eqn:Hr.
  { rewrite rmatch_cat, rmatch_class. reflexivity. }
  rewrite rmatch_cat, rmatch_class.
  pose proof (len_take_drop isDigit (marker :: more)) as Hd.
  destruct (isBullet marker) eqn:Hb.
  - (* a bullet: the numbered alternative cannot match *)
    replace (truthy (takeWhile isDigit (marker :: more))) with false
      by (simpl; rewrite (bullet_not_digit marker Hb); reflexivity).
    unfold Opt. rewrite rmatch_or, rmatch_empty, rmatch_eol.
    rewrite rmatch_cat.
    rewrite rmatch_plus_commit.
    2:{ intros c t j cs Hc. unfold Chr.
        rewrite rmatch_cat, rmatch_class, (hspace_not_bracket c Hc). reflexivity. }
    destruct more as [|c0 more'].
    + simpl. rewrite !len_cons, len_nil in Hl. same_match.
    + pose proof (len_take_drop isHSpace (c0 :: more')) as Hm.
      destruct (truthy (takeWhile isHSpace (c0 :: more'))); cbn [andb];
        [|reflexivity].
      unfold Chr, Dot.
      destruct (dropWhile isHSpace (c0 :: more')) as [|a [|c [|b [|d t]]]];
        rewrite ?(Z.eqb_sym _ 91), ?(Z.eqb_sym _ 93);
        repeat (rewrite ?rmatch_cat, ?rmatch_class, ?rmatch_eol; cbv beta);
        repeat (match goal with
                | |- context [if ?b then _ else _] => destruct b
                end; cbn [andb]);
        try reflexivity.
      rewrite !len_cons, len_nil in *. same_match.
  - (* no bullet: digits and a dot *)
    destruct (truthy (takeWhile isDigit (marker :: more))); cbn [andb];
      [|reflexivity].
    unfold Chr. rewrite rmatch_class.
    destruct (dropWhile isDigit (marker :: more)) as [|c [|d t]];
      [reflexivity| |].
    + simpl str_eqb. rewrite (Z.eqb_sym c 46), andb_true_r.
      destruct (46 =? c); [|reflexivity].
      rewrite rmatch_eol. rewrite !len_cons, len_nil in *. same_match.
    + simpl str_eqb. rewrite andb_false_r.
      destruct (46 =? c); [|reflexivity].
      rewrite rmatch_eol. reflexivity.
Qed.

(** ** The parts of a line *)

Lemma substring_parts (a b c d : str) :
  substring 0 (len a) (a ++ b ++ c ++ d) = a
  /\ substring (len a) (len a + len b) (a ++ b ++ c ++ d) = b
  /\ substring (len a + len b) (len a + len b + len c) (a ++ b ++ c ++ d) = c
  /\ substring (len a + len b + len c) (len (a ++ b ++ c ++ d))
       (a ++ b ++ c ++ d) = d.
Proof.
  repeat split.
  - unfold substring. rewrite Z.sub_0_r. simpl skipn. apply firstn_len_app.
  - apply substring_mid.
  - rewrite <- len_app.
    replace (a ++ b ++ c ++ d) with ((a ++ b) ++ c ++ d)
      by (rewrite <- app_assoc; reflexivity).
    apply substring_mid.
  - replace (a ++ b ++ c ++ d) with ((a ++ b ++ c) ++ d ++ [])
      by (rewrite app_nil_r, <- !app_assoc; reflexivity).
    replace (len a + len b + len c) with (len (a ++ b ++ c))
      by (rewrite !len_app; lia).
    replace (len ((a ++ b ++ c) ++ d ++ []))
      with (len (a ++ b ++ c) + len d)
      by (rewrite !len_app, len_nil; lia).
    apply substring_mid.
Qed.

Lemma headerParts_inv (l indent hashes sp rest : str) :
  headerParts l = Some (indent, hashes, sp, rest) ->
  l = indent ++ hashes ++ sp ++ rest /\ 0 < len hashes /\ 0 < len sp
  /\ forallb isHash hashes = true.
Proof.
  unfold headerParts.
  destruct (truthy (takeWhile isHash (dropWhile isWhiteSpace l))) eqn:Hh;
    [|discriminate].
  destruct (truthy (takeWhile isWhiteSpace
                      (dropWhile isHash (dropWhile isWhiteSpace l)))) eqn:Hs;
    [|discriminate].
  simpl. intros [= <- <- <- <-].
  rewrite !take_drop_while. repeat split.
  - apply truthy_len, Hh.
  - apply truthy_len, Hs.
  - apply takeWhile_all.
Qed.

Lemma header_groups (l indent hashes sp rest : str) :
  headerParts l = Some (indent, hashes, sp, rest) ->
  substring 0 (len indent) l = indent
  /\ substring (len indent) (len indent + len hashes) l = hashes
  /\ substring (len indent + len hashes) (len indent + len hashes + len sp) l
     = sp
  /\ substring (len indent + len hashes + len sp) (len l) l = rest.
Proof.
  intro Hp. destruct (headerParts_inv _ _ _ _ _ Hp) as (Hl & _).
  subst l. apply substring_parts.
Qed.

Lemma headerTextParts_inv (l indent hashes sp rest : str) :
  headerTextParts l = Some (indent, hashes, sp, rest) ->
  headerParts l = Some (indent, hashes, sp, rest).
Proof.
  unfold headerTextParts.
  destruct (headerParts l) as [[[[i h] s] r]|]; [|discriminate].
  destruct (noLineTerminator r); [|discriminate]. intros [= <- <- <- <-].
  reflexivity.
Qed.

(** ** The loops, on the parts of their lines *)

Lemma scanLine_eq (st : Scan) (l : str) :
  scanLine st l
  = let b := toggle l (scanInCodeBlock st) in
    match (if b then None else headerParts l) with
    | Some (_, hashes, _, _) =>
        {| scanInCodeBlock := b; hasHeader := true;
           minLevel := Z.min (len hashes) (minLevel st) |}
    | None =>
        {| scanInCodeBlock := b; hasHeader := hasHeader st;
           minLevel := minLevel st |}
    end.
Proof.
  unfold scanLine, toggle. cbv zeta.
  destruct (if isFence l then negb (scanInCodeBlock st) else scanInCodeBlock st);
    [reflexivity|].
  simpl negb. cbv iota. rewrite exec_header.
  destruct (headerParts l) as [[[[indent hashes] sp] rest]|] eqn:Hp;
    [|reflexivity].
  destruct (header_groups _ _ _ _ _ Hp) as (_ & H2 & _).
  unfold group. simpl groupSpan. cbv iota. cbn [m_index m_end sp_start sp_end].
  rewrite !H2. cbn [orEmpty].
  f_equal. destruct (Z.ltb_spec (len hashes) (minLevel st)); lia.
Qed.

Lemma minLevelLine_eq (st : bool * Z) (l : str) :
  minLevelLine st l
  = let b := toggle l (fst st) in
    match (if b then None else headerParts l) with
    | Some (_, hashes, _, _) => (b, Z.min (len hashes) (snd st))
    | None => (b, snd st)
    end.
Proof.
  unfold minLevelLine, toggle. cbv zeta.
  destruct (if isFence l then negb (fst st) else fst st); [reflexivity|].
  simpl negb. cbv iota. rewrite exec_header.
  destruct (headerParts l) as [[[[indent hashes] sp] rest]|] eqn:Hp;
    [|reflexivity].
  destruct (header_groups _ _ _ _ _ Hp) as (_ & H2 & _).
  unfold group. simpl groupSpan. cbv iota. cbn [m_index m_end sp_start sp_end].
  rewrite !H2. cbn [orEmpty].
  f_equal. destruct (Z.ltb_spec (len hashes) (snd st)); lia.
Qed.

Lemma shiftLine_eq (shift : Z) (st : Walk) (l : str) :
  shiftLine shift st l
  = let b := toggle l (inCodeBlock st) in
    {| inCodeBlock := b;
       currentOffset := currentOffset st + (len l + 1);
       edits := pushEdit (currentOffset st)
                  (if b then None else shiftEditOf shift l) (edits st) |}.
Proof.
  unfold shiftLine, toggle. cbv zeta. f_equal.
  destruct (if isFence l then negb (inCodeBlock st) else inCodeBlock st);
    [reflexivity|].
  simpl negb. cbv iota. rewrite exec_header. unfold shiftEditOf.
  destruct (headerParts l) as [[[[indent hashes] sp] rest]|] eqn:Hp;
    [|reflexivity].
  destruct (header_groups _ _ _ _ _ Hp) as (H1 & H2 & _).
  unfold group. simpl groupSpan. cbv iota. cbn [m_index m_end sp_start sp_end].
  rewrite !H1, !H2. cbn [orEmpty]. cbv zeta.
  destruct (negb (len hashes + shift =? len hashes)
            && (1 <=? len hashes + shift) && (len hashes + shift <=? 6));
    [|reflexivity].
  unfold pushEdit, moveEdit. cbn [start end_ text].
  rewrite Z.add_assoc. reflexivity.
Qed.

Lemma numberToken_inv (t num : str) :
  numberToken t = Some num ->
  t = num ++ dropWhile isDigitOrDot t /\ 0 < len num
  /\ substring 0 (len num) t = num.
Proof.
  unfold numberToken.
  destruct (truthy (takeWhile isDigitOrDot t)) eqn:Hn; [|discriminate].
  match goal with |- (if ?b then _ else _) = _ -> _ => destruct b end;
    [|discriminate].
  intros [= <-]. split; [|split].
  - symmetry. apply take_drop_while.
  - apply truthy_len, Hn.
  - unfold substring. rewrite Z.sub_0_r. simpl skipn.
    rewrite <- (take_drop_while isDigitOrDot t) at 2. apply firstn_len_app.
Qed.

Lemma numberLine_eq (minLevel : Z) (st : Numbering) (l : str) :
  numberLine minLevel st l
  = let w := walk st in
    let b := toggle l (inCodeBlock w) in
    match (if b then None else headerTextParts l) with
    | Some (indent, hashes, sp, t) =>
        let level := len hashes - minLevel + 1 in
        let cs := bumpCounters level (counters st) in
        {| walk :=
             {| inCodeBlock := b;
                currentOffset := currentOffset w + (len l + 1);
                edits := pushEdit (currentOffset w)
                           (numberEditOf (numberingPrefix level cs)
                              indent hashes sp t)
                           (edits w) |};
           counters := cs |}
    | None =>
        {| walk := {| inCodeBlock := b;
                      currentOffset := currentOffset w + (len l + 1);
                      edits := edits w |};
           counters := counters st |}
    end.
Proof.
  unfold numberLine, toggle. cbv zeta.
  destruct (if isFence l then negb (inCodeBlock (walk st))
            else inCodeBlock (walk st)); [reflexivity|].
  simpl negb. cbv iota. rewrite exec_header_text.
  destruct (headerTextParts l) as [[[[indent hashes] sp] t]|] eqn:Hp;
    [|reflexivity].
  destruct (header_groups _ _ _ _ _ (headerTextParts_inv _ _ _ _ _ Hp))
    as (H1 & H2 & H3 & H4).
  unfold group.
  simpl groupSpan. cbv iota. cbn [m_index m_end sp_start sp_end].
  rewrite ?H1, ?H2, ?H3, ?H4. cbn [orEmpty].
  rewrite exec_number. unfold numberEditOf.
  destruct (numberToken t) as [num|] eqn:Hn.
  - destruct (numberToken_inv _ _ Hn) as (_ & _ & Hs).
    unfold group. cbn [m_groups].
    destruct (truthy (dropWhile isDigitOrDot t)); simpl groupSpan;
      cbn [sp_start sp_end orEmpty]; rewrite ?H1, ?H2, ?H3, ?H4, ?Hs;
      (destruct (negb (str_eqb num _)); unfold pushEdit, moveEdit;
       cbn [start end_ text]; [|reflexivity]);
      same_match.
  - unfold pushEdit, moveEdit. cbn [start end_ text]. same_match.
Qed.

(** ** The loops as a whole *)

Lemma globalEdits_shift (shift : Z) : forall lines st,
  fold_left (shiftLine shift) lines st
  = {| inCodeBlock := inCodeBlock (fold_left (shiftLine shift) lines st);
       currentOffset := currentOffset (fold_left (shiftLine shift) lines st);
       edits := edits st
                ++ globalEdits (currentOffset st)
                     (shiftLines shift (inCodeBlock st) lines) |}.
Proof.
  induction lines as [|l more IH]; intro st; simpl.
  - rewrite app_nil_r. destruct st; reflexivity.
  - rewrite IH at 1. f_equal. rewrite shiftLine_eq. cbv zeta.
    cbn [inCodeBlock currentOffset edits].
    rewrite Z.add_assoc.
    destruct (if toggle l (inCodeBlock st) then None else shiftEditOf shift l);
      simpl; [rewrite <- app_assoc|]; reflexivity.
Qed.

(** The edits of the level shift are those of its lines. *)
Lemma shiftEdits_lines (shift : Z) (lines : list str) :
  shiftEdits shift lines = globalEdits 0 (shiftLines shift false lines).
Proof.
  unfold shiftEdits. rewrite globalEdits_shift. reflexivity.
Qed.

Lemma globalEdits_number (minLevel : Z) : forall lines st,
  edits (walk (fold_left (numberLine minLevel) lines st))
  = edits (walk st)
    ++ globalEdits (currentOffset (walk st))
         (numberLines minLevel (inCodeBlock (walk st)) (counters st) lines).
Proof.
  induction lines as [|l more IH]; intro st; simpl.
  - rewrite app_nil_r. reflexivity.
  - rewrite IH. rewrite numberLine_eq. cbv zeta.
    destruct (if toggle l (inCodeBlock (walk st)) then None
              else headerTextParts l) as [[[[indent hashes] sp] t]|];
      cbn [walk counters inCodeBlock currentOffset edits globalEdits];
      rewrite Z.add_assoc; [|reflexivity].
    destruct (numberEditOf _ indent hashes sp t); simpl;
      [rewrite <- app_assoc|]; reflexivity.
Qed.

(** The edits of the renumbering are those of its lines. *)
Lemma numberingEdits_lines (minLevel : Z) (lines : list str) :
  numberingEdits minLevel lines
  = globalEdits 0 (numberLines minLevel false [] lines).
Proof.
  unfold numberingEdits. rewrite globalEdits_number. reflexivity.
Qed.

Lemma scan_levels : forall lines st,
  fold_left scanLine lines st
  = {| scanInCodeBlock := scanInCodeBlock (fold_left scanLine lines st);
       hasHeader := hasHeader st
                    || truthy (visibleLevels (scanInCodeBlock st) lines);
       minLevel := fold_left Z.min
                     (visibleLevels (scanInCodeBlock st) lines) (minLevel st) |}.
Proof.
  induction lines as [|l more IH]; intro st; simpl.
  - rewrite orb_false_r. destruct st; reflexivity.
  - rewrite IH at 1. rewrite scanLine_eq. cbv zeta. unfold hashesOfLine.
    destruct (toggle l (scanInCodeBlock st)); cbn [scanInCodeBlock hasHeader minLevel];
      [reflexivity|].
    destruct (headerParts l) as [[[[indent hashes] sp] rest]|];
      cbn [scanInCodeBlock hasHeader minLevel]; [|reflexivity].
    simpl. rewrite orb_true_r, (Z.min_comm (len hashes)). reflexivity.
Qed.

Lemma fold_right_min_acc (levels : list Z) (a b : Z) :
  fold_right Z.min (Z.min a b) levels = Z.min b (fold_right Z.min a levels).
Proof.
  induction levels as [|y levels IH]; simpl; [lia|]. rewrite IH. lia.
Qed.

Lemma fold_left_min (levels : list Z) : forall m,
  fold_left Z.min levels m = fold_right Z.min m levels.
Proof.
  induction levels as [|x levels IH]; intro m; simpl; [reflexivity|].
  rewrite IH. apply fold_right_min_acc.
Qed.

(** The first loop of [adjustHeaderLevels] finds the least level of the
    headings outside fenced blocks, and whether there is one. *)
Lemma scanLines_levels (lines : list str) :
  hasHeader (scanLines lines) = truthy (visibleLevels false lines)
  /\ minLevel (scanLines lines) = leastLevel (visibleLevels false lines).
Proof.
  unfold scanLines, leastLevel. rewrite scan_levels.
  cbn [hasHeader minLevel scanInCodeBlock]. split; [reflexivity|].
  apply fold_left_min.
Qed.

Lemma minLevel_levels : forall lines st,
  snd (fold_left minLevelLine lines st)
  = fold_left Z.min (visibleLevels (fst st) lines) (snd st).
Proof.
  induction lines as [|l more IH]; intro st; simpl; [reflexivity|].
  rewrite IH, minLevelLine_eq. cbv zeta. unfold hashesOfLine.
  destruct (toggle l (fst st)); cbn [fst snd]; [reflexivity|].
  destruct (headerParts l) as [[[[indent hashes] sp] rest]|]; cbn [fst snd];
    [|reflexivity].
  simpl. rewrite (Z.min_comm (len hashes)). reflexivity.
Qed.

(** The first loop of [addHeaderNumbering] finds the same least level. *)
Lemma minLevelOf_levels (lines : list str) :
  minLevelOf lines = leastLevel (visibleLevels false lines).
Proof.
  unfold minLevelOf, leastLevel. rewrite minLevel_levels. apply fold_left_min.
Qed.

(** ** Replaying edits back to front *)

Lemma forEach_app {A} (f : Z -> A -> Engine Z) (xs ys : list A) (index : Z)
    (c : MagicString) :
  forEach f (xs ++ ys) index c
  = (index' <- forEach f xs index ;; forEach f ys index') c.
Proof.
  revert index c. induction xs as [|x xs IH]; intros index c; simpl.
  - reflexivity.
  - unfold bind. destruct (f index x c) as [[i' c']|e]; [|reflexivity].
    rewrite IH. reflexivity.
Qed.

(** An edit on a line of the text changes that line only. *)
Lemma update_on_line (pre l suf t o : str) (s e T : Z) :
  0 <= s -> s <= e -> e <= len l ->
  update (len pre + s) (len pre + e) t T
    {| original := o; current := pre ++ l ++ suf |}
  = Ok (remap (len pre + s) (len pre + e) (len t) T,
        {| original := o; current := pre ++ splice s e t l ++ suf |}).
Proof.
  intros Hs Hse He. unfold update, validSpan. cbn [current original].
  rewrite !len_app.
  pose proof (len_nonneg pre). pose proof (len_nonneg suf).
  replace (0 <=? len pre + s) with true by (symmetry; apply Z.leb_le; lia).
  replace (len pre + s <=? len pre + e) with true
    by (symmetry; apply Z.leb_le; lia).
  replace (len pre + e <=? len pre + (len l + len suf)) with true
    by (symmetry; apply Z.leb_le; lia).
  simpl andb. cbv iota. rewrite splice_mid by assumption. reflexivity.
Qed.

(** Replayed back to front, the edits of the lines rewrite each line in
    its place: the engine never refuses one of them. *)
Lemma applyEdits_lines (o : str) : forall les pre T,
  editsOnLines les ->
  exists T',
    applyEdits (globalEdits (len pre) les) T
      {| original := o; current := pre ++ join [10] (map fst les) |}
    = Ok (T', {| original := o;
                 current := pre ++ join [10] (map rewriteLine les) |}).
Proof.
  unfold applyEdits.
  induction les as [|[l oe] more IH]; intros pre T Hok.
  - exists T. reflexivity.
  - inversion Hok as [|? ? Hl Hmore]; subst. cbn [fst snd] in Hl.
    cbn [globalEdits map fst]. rewrite rev_app_distr, forEach_app.
    rewrite !join_cons. unfold bind.
    assert (Hrest : exists T1,
      forEach (fun index e => update (start e) (end_ e) (text e) index)
        (rev (globalEdits (len pre + len l + 1) more)) T
        {| original := o; current := pre ++ l ++ tailText (map fst more) |}
      = Ok (T1, {| original := o;
                   current := pre ++ l ++ tailText (map rewriteLine more) |})).
    { destruct more as [|le more'].
      - exists T. reflexivity.
      - specialize (IH (pre ++ l ++ [10]) T Hmore).
        rewrite !len_app, Z.add_assoc in IH. change (len [10]) with 1 in IH.
        destruct IH as [T1 IH]. exists T1.
        cbn [tailText map]. 
        replace (pre ++ l ++ 10 :: join [10] (fst le :: map fst more'))
          with ((pre ++ l ++ [10]) ++ join [10] (map fst (le :: more')))
          by (rewrite <- !app_assoc; reflexivity).
        rewrite IH. rewrite <- !app_assoc. reflexivity. }
    destruct Hrest as [T1 ->].
    destruct oe as [e|]; cbn [rev app forEach rewriteLine fst snd].
    + destruct Hl as (H0 & H1 & H2). unfold moveEdit, bind.
      cbn [start end_ text].
      rewrite update_on_line by assumption. eexists. reflexivity.
    + exists T1. reflexivity.
Qed.

(** A replay that starts untracked stays untracked. *)
Lemma forEach_untracked {A} (f : Z -> A -> Engine Z) :
  (forall x c T c', f (-1) x c = Ok (T, c') -> T = -1) ->
  forall xs c T c', forEach f xs (-1) c = Ok (T, c') -> T = -1.
Proof.
  intros Hf. induction xs as [|x xs IH]; intros c T c'; simpl.
  - unfold ret. intros [= <- _]. reflexivity.
  - unfold bind. destruct (f (-1) x c) as [[T1 c1]|e] eqn:E; [|discriminate].
    apply Hf in E. subst T1. apply IH.
Qed.

Lemma update_untracked (s e : Z) (t : str) (c c' : MagicString) (T : Z) :
  update s e t (-1) c = Ok (T, c') -> T = -1.
Proof.
  unfold update. destruct (validSpan s e c); [|discriminate].
  intros [= <- _]. reflexivity.
Qed.

Lemma insert_untracked (a : Z) (t : str) (c c' : MagicString) (T : Z) :
  insert a t (-1) c = Ok (T, c') -> T = -1.
Proof.
  unfold insert. destruct (validSpan a a c); [|discriminate].
  intros [= <- _]. reflexivity.
Qed.

Lemma delete_untracked (s : Z) (e : option Z) (c c' : MagicString) (T : Z) :
  delete s e (-1) c = Ok (T, c') -> T = -1.
Proof.
  unfold delete. cbv zeta.
  match goal with |- (if ?b then _ else _) = _ -> _ => destruct b end;
    [|discriminate].
  intros [= <- _]. reflexivity.
Qed.

Lemma applyEdits_untracked (es : list Edit) (c c' : MagicString) (T : Z) :
  applyEdits es (-1) c = Ok (T, c') -> T = -1.
Proof.
  apply forEach_untracked. intros x c0 T0 c1. apply update_untracked.
Qed.

(** ** Fenced blocks *)

Lemma insideFence_fenceAt (lines : list str) (i : nat) :
  insideFence lines i = fenceAt false lines i.
Proof. reflexivity. Qed.

Lemma fenceAt_O (b : bool) (l : str) (more : list str) :
  fenceAt b (l :: more) 0 = toggle l b.
Proof.
  unfold fenceAt, toggle. simpl. destruct (isFence l), b; reflexivity.
Qed.

Lemma fenceAt_S (b : bool) (l : str) (more : list str) (i : nat) :
  fenceAt b (l :: more) (S i) = fenceAt (toggle l b) more i.
Proof.
  unfold fenceAt, toggle. cbn [firstn filter].
  destruct (isFence l); [|reflexivity].
  cbn [length]. rewrite Nat.odd_succ, <- Nat.negb_odd.
  destruct b, (Nat.odd _); reflexivity.
Qed.

Lemma shiftLines_nth (shift : Z) : forall lines b i,
  nth_error (shiftLines shift b lines) i
  = match nth_error lines i with
    | Some l => Some (l, if fenceAt b lines i then None else shiftEditOf shift l)
    | None => None
    end.
Proof.
  induction lines as [|l more IH]; intros b [|i]; simpl; try reflexivity.
  - rewrite fenceAt_O. reflexivity.
  - rewrite IH, fenceAt_S. reflexivity.
Qed.

Lemma numberLines_nth (minLevel : Z) : forall lines b cs i l oe,
  nth_error (numberLines minLevel b cs lines) i = Some (l, oe) ->
  nth_error lines i = Some l /\ (fenceAt b lines i = true -> oe = None).
Proof.
  induction lines as [|l0 more IH]; intros b cs i l oe; [destruct i; discriminate|].
  cbn [numberLines]. cbv zeta.
  destruct i as [|i].
  - rewrite fenceAt_O.
    destruct (toggle l0 b).
    + simpl. intros [= <- <-]. split; reflexivity.
    + destruct (headerTextParts l0) as [[[[indent hashes] sp] t]|]; simpl;
        intros [= <- <-]; (split; [reflexivity|discriminate]).
  - rewrite fenceAt_S.
    destruct (if toggle l0 b then None else headerTextParts l0)
      as [[[[indent hashes] sp] t]|]; simpl; apply IH.
Qed.

Lemma shiftLines_fst (shift : Z) : forall lines b,
  map fst (shiftLines shift b lines) = lines.
Proof.
  induction lines as [|l more IH]; intro b; simpl; [|rewrite IH]; reflexivity.
Qed.

Lemma numberLines_fst (minLevel : Z) : forall lines b cs,
  map fst (numberLines minLevel b cs lines) = lines.
Proof.
  induction lines as [|l more IH]; intros b cs; simpl; [reflexivity|].
  destruct (if toggle l b then None else headerTextParts l)
    as [[[[indent hashes] sp] t]|]; simpl; rewrite IH; reflexivity.
Qed.

(** ** Every edit lies on its line *)

Lemma shiftEditOf_onLine (shift : Z) (l : str) (e : Edit) :
  shiftEditOf shift l = Some e -> onLine e l.
Proof.
  unfold shiftEditOf.
  destruct (headerParts l) as [[[[indent hashes] sp] rest]|] eqn:Hp;
    [|discriminate].
  destruct (headerParts_inv _ _ _ _ _ Hp) as (Hl & Hh & Hs & _).
  cbv zeta. match goal with |- (if ?b then _ else _) = _ -> _ => destruct b end;
    [|discriminate].
  intros [= <-]. unfold onLine. cbn [start end_]. subst l. rewrite !len_app.
  pose proof (len_nonneg indent). pose proof (len_nonneg rest). lia.
Qed.

Lemma numberEditOf_onLine (prefix l indent hashes sp t : str) (e : Edit) :
  headerTextParts l = Some (indent, hashes, sp, t) ->
  numberEditOf prefix indent hashes sp t = Some e -> onLine e l.
Proof.
  intros Hp. apply headerTextParts_inv in Hp.
  destruct (headerParts_inv _ _ _ _ _ Hp) as (Hl & Hh & Hs & _).
  unfold numberEditOf. cbv zeta.
  pose proof (len_nonneg indent). pose proof (len_nonneg t).
  destruct (numberToken t) as [num|] eqn:Hn.
  - destruct (numberToken_inv _ _ Hn) as (Ht & Hnum & _).
    assert (len num <= len t).
    { pose proof (f_equal len Ht) as Hlen. rewrite len_app in Hlen.
      pose proof (len_nonneg (dropWhile isDigitOrDot t)). lia. }
    destruct (negb (str_eqb num prefix)); [|discriminate].
    intros [= <-]. unfold onLine. cbn [start end_]. subst l.
    rewrite !len_app. lia.
  - intros [= <-]. unfold onLine. cbn [start end_]. subst l.
    rewrite !len_app. lia.
Qed.

Lemma shiftLines_ok (shift : Z) : forall lines b,
  editsOnLines (shiftLines shift b lines).
Proof.
  unfold editsOnLines.
  induction lines as [|l more IH]; intro b; simpl; constructor; [|apply IH].
  cbn [fst snd]. destruct (toggle l b); [exact I|].
  destruct (shiftEditOf shift l) eqn:E; [|exact I].
  eapply shiftEditOf_onLine, E.
Qed.

Lemma numberLines_ok (minLevel : Z) : forall lines b cs,
  editsOnLines (numberLines minLevel b cs lines).
Proof.
  unfold editsOnLines.
  induction lines as [|l more IH]; intros b cs; simpl; [constructor|].
  destruct (toggle l b); [constructor; [exact I|apply IH]|].
  destruct (headerTextParts l) as [[[[indent hashes] sp] t]|] eqn:Hp;
    (constructor; [|apply IH]); [|exact I].
  cbn [fst snd].
  destruct (numberEditOf _ indent hashes sp t) eqn:E; [|exact I].
  eapply numberEditOf_onLine; eassumption.
Qed.

(** ** Where the edits of the lines are *)

Lemma globalEdits_In : forall les off e,
  In e (globalEdits off les) ->
  exists j l e0,
    nth_error les j = Some (l, Some e0)
    /\ e = moveEdit (off + lineStartOf (map fst les) j) e0.
Proof.
  induction les as [|[l oe] more IH]; intros off e Hin; [destruct Hin|].
  cbn [globalEdits] in Hin. apply in_app_or in Hin. destruct Hin as [Hin|Hin].
  - destruct oe as [e0|]; [|destruct Hin].
    destruct Hin as [<-|[]]. exists 0%nat, l, e0. split; [reflexivity|].
    simpl. rewrite Z.add_0_r. reflexivity.
  - destruct (IH _ _ Hin) as (j & l' & e0 & Hj & ->).
    exists (S j), l', e0. split; [exact Hj|].
    simpl. f_equal. lia.
Qed.

(** Lines lie apart: an earlier line ends before a later one starts. *)
Lemma lineStartOf_apart : forall lines i j li,
  nth_error lines i = Some li -> (i < j)%nat ->
  lineStartOf lines i + len li < lineStartOf lines j
  \/ nth_error lines j = None.
Proof.
  induction lines as [|l more IH]; intros i j li Hi Hij; [destruct i; discriminate|].
  destruct j as [|j]; [lia|].
  destruct i as [|i].
  - simpl in Hi. injection Hi as <-. simpl.
    destruct (nth_error more j) eqn:Hj; [left|right; reflexivity].
    pose proof (lineStartOf_nonneg more j). lia.
  - simpl in *. destruct (IH i j li Hi ltac:(lia)) as [H|H]; [left; lia|right; exact H].
Qed.

(** An edit on line [j] does not touch line [i]. *)
Lemma edit_off_line (lines : list str) (i j : nat) (li lj : str) (e0 : Edit) :
  nth_error lines i = Some li -> nth_error lines j = Some lj ->
  i <> j -> onLine e0 lj ->
  let e := moveEdit (lineStartOf lines j) e0 in
  end_ e < lineStartOf lines i \/ lineStartOf lines i + len li < start e.
Proof.
  intros Hi Hj Hne (H0 & H1 & H2). cbv zeta. unfold moveEdit. cbn [start end_].
  destruct (Nat.lt_ge_cases j i) as [Hlt|Hge].
  - destruct (lineStartOf_apart lines j i lj Hj Hlt) as [H|H]; [left; lia|congruence].
  - assert (Hlt : (i < j)%nat) by lia.
    destruct (lineStartOf_apart lines i j li Hi Hlt) as [H|H]; [right; lia|congruence].
Qed.

(** ** Fenced lines and the first loops *)

Lemma scanLine_fence (st : Scan) (l : str) :
  scanInCodeBlock (scanLine st l) = toggle l (scanInCodeBlock st).
Proof.
  rewrite scanLine_eq. cbv zeta.
  destruct (if toggle l (scanInCodeBlock st) then None else headerParts l)
    as [[[[? ?] ?] ?]|]; reflexivity.
Qed.

Lemma toggle_same_fence (l l' : str) (b : bool) :
  isFence l' = isFence l -> toggle l' b = toggle l b.
Proof. unfold toggle. intros ->. reflexivity. Qed.

Lemma scanLines_replace : forall lines st i l l',
  nth_error lines i = Some l ->
  fenceAt (scanInCodeBlock st) lines i = true ->
  isFence l' = isFence l ->
  fold_left scanLine (replaceLine i l' lines) st = fold_left scanLine lines st.
Proof.
  induction lines as [|l0 more IH]; intros st i l l' Hi Hf Hl';
    [destruct i; discriminate|].
  destruct i as [|i].
  - simpl in Hi. injection Hi as ->. rewrite fenceAt_O in Hf.
    simpl. f_equal. rewrite !scanLine_eq. cbv zeta.
    rewrite (toggle_same_fence l l' _ Hl'), Hf. reflexivity.
  - simpl in Hi. rewrite fenceAt_S in Hf. simpl.
    apply (IH _ i l l' Hi); [|exact Hl']. rewrite scanLine_fence. exact Hf.
Qed.

Lemma minLevelLine_fence (st : bool * Z) (l : str) :
  fst (minLevelLine st l) = toggle l (fst st).
Proof.
  rewrite minLevelLine_eq. cbv zeta.
  destruct (if toggle l (fst st) then None else headerParts l)
    as [[[[? ?] ?] ?]|]; reflexivity.
Qed.

Lemma minLevel_replace : forall lines st i l l',
  nth_error lines i = Some l ->
  fenceAt (fst st) lines i = true ->
  isFence l' = isFence l ->
  fold_left minLevelLine (replaceLine i l' lines) st
  = fold_left minLevelLine lines st.
Proof.
  induction lines as [|l0 more IH]; intros st i l l' Hi Hf Hl';
    [destruct i; discriminate|].
  destruct i as [|i].
  - simpl in Hi. injection Hi as ->. rewrite fenceAt_O in Hf.
    simpl. f_equal. rewrite !minLevelLine_eq. cbv zeta.
    rewrite (toggle_same_fence l l' _ Hl'), Hf. reflexivity.
  - simpl in Hi. rewrite fenceAt_S in Hf. simpl.
    apply (IH _ i l l' Hi); [|exact Hl']. rewrite minLevelLine_fence. exact Hf.
Qed.

(** An edit of the lines does not touch a line that has none. *)
Lemma lines_edit_apart (les : list (str * option Edit)) (i : nat) (l : str)
    (e : Edit) :
  editsOnLines les ->
  nth_error les i = Some (l, None) ->
  In e (globalEdits 0 les) ->
  end_ e < lineStartOf (map fst les) i
  \/ lineStartOf (map fst les) i + len l < start e.
Proof.
  intros Hok Hi Hin.
  destruct (globalEdits_In _ _ _ Hin) as (j & lj & e0 & Hj & ->).
  rewrite Z.add_0_l.
  assert (Hne : i <> j) by (intros ->; congruence).
  unfold editsOnLines in Hok. rewrite Forall_forall in Hok.
  specialize (Hok _ (nth_error_In _ _ Hj)). cbn [fst snd] in Hok.
  apply (edit_off_line (map fst les) i j l lj e0); try assumption.
  - rewrite nth_error_map, Hi. reflexivity.
  - rewrite nth_error_map, Hj. reflexivity.
Qed.

(** No edit of either pass touches a line inside a fenced block, and the
    line does not count in either minimum-level loop. *)
Lemma fenced_lines_no_edit (lines : list str) (i : nat) (l : str)
    (shift minLevel : Z) :
  nth_error lines i = Some l ->
  insideFence lines i = true ->
  (forall e,
      In e (shiftEdits shift lines) \/ In e (numberingEdits minLevel lines) ->
      end_ e < lineStartOf lines i \/ lineStartOf lines i + len l < start e)
  /\ (forall l',
        isFence l' = isFence l ->
        scanLines (replaceLine i l' lines) = scanLines lines
        /\ minLevelOf (replaceLine i l' lines) = minLevelOf lines).
Proof.
  intros Hi Hf. rewrite insideFence_fenceAt in Hf. split.
  - intros e [Hin|Hin].
    + rewrite shiftEdits_lines in Hin.
      rewrite <- (shiftLines_fst shift lines false).
      apply (lines_edit_apart _ i l e (shiftLines_ok shift lines false));
        [|exact Hin].
      rewrite shiftLines_nth, Hi, Hf. reflexivity.
    + rewrite numberingEdits_lines in Hin.
      rewrite <- (numberLines_fst minLevel lines false []).
      apply (lines_edit_apart _ i l e (numberLines_ok minLevel lines false []));
        [|exact Hin].
      pose proof (numberLines_fst minLevel lines false []) as Hfst.
      destruct (nth_error (numberLines minLevel false [] lines) i)
        as [[l1 oe]|] eqn:Hn.
      * destruct (numberLines_nth _ _ _ _ _ _ _ Hn) as (Hl1 & Hoe).
        rewrite Hi in Hl1. injection Hl1 as <-. rewrite (Hoe Hf). reflexivity.
      * exfalso. apply (f_equal (fun ls => nth_error ls i)) in Hfst.
        rewrite nth_error_map, Hn, Hi in Hfst. discriminate.
  - intros l' Hl'. split.
    + unfold scanLines. apply (scanLines_replace _ _ i l l' Hi); assumption.
    + unfold minLevelOf. f_equal.
      apply (minLevel_replace _ _ i l l' Hi); assumption.
Qed.

(** ** The lines of a text after a pass *)

Lemma split_oneLine (l : str) : oneLine l = true -> split 10 l = [l].
Proof.
  induction l as [|c l IH]; simpl; [reflexivity|].
  intro H. apply andb_true_iff in H. destruct H as [Hc Hl].
  apply negb_true_iff in Hc. rewrite Hc, (IH Hl). reflexivity.
Qed.

Lemma split_line_more (l r : str) :
  oneLine l = true -> split 10 (l ++ 10 :: r) = l :: split 10 r.
Proof.
  induction l as [|c l IH]; simpl; [reflexivity|].
  intro H. apply andb_true_iff in H. destruct H as [Hc Hl].
  apply negb_true_iff in Hc. rewrite Hc, (IH Hl). reflexivity.
Qed.

(** Lines that hold no newline are the lines of their text. *)
Lemma split_join (ls : list str) :
  ls <> [] -> forallb oneLine ls = true -> split 10 (join [10] ls) = ls.
Proof.
  induction ls as [|l more IH]; intros Hne Hall; [contradiction|].
  simpl in Hall. apply andb_true_iff in Hall. destruct Hall as [Hl Hmore].
  destruct more as [|l2 more].
  - simpl. apply split_oneLine, Hl.
  - change (join [10] (l :: l2 :: more)) with (l ++ 10 :: join [10] (l2 :: more)).
    rewrite split_line_more by exact Hl. rewrite IH; [reflexivity|discriminate|exact Hmore].
Qed.

Lemma split_lines_oneLine (s : str) : forallb oneLine (split 10 s) = true.
Proof.
  apply forallb_forall. intros l Hl.
  pose proof (split_no_sep 10 s) as H. rewrite Forall_forall in H.
  exact (H l Hl).
Qed.

Lemma oneLine_app (a b : str) : oneLine (a ++ b) = oneLine a && oneLine b.
Proof. apply forallb_app. Qed.

Lemma oneLine_firstn (n : nat) (s : str) :
  oneLine s = true -> oneLine (firstn n s) = true.
Proof.
  revert n. induction s as [|c s IH]; intros [|n]; simpl; try reflexivity.
  intro H. apply andb_true_iff in H. destruct H as [-> Hs]. simpl. apply IH, Hs.
Qed.

Lemma oneLine_skipn (n : nat) (s : str) :
  oneLine s = true -> oneLine (skipn n s) = true.
Proof.
  revert n. induction s as [|c s IH]; intros [|n]; simpl; try reflexivity.
  - intro H. exact H.
  - intro H. apply andb_true_iff in H. destruct H as [_ Hs]. apply IH, Hs.
Qed.

Lemma oneLine_splice (s e : Z) (t l : str) :
  oneLine t = true -> oneLine l = true -> oneLine (splice s e t l) = true.
Proof.
  intros Ht Hl. unfold splice. rewrite !oneLine_app, Ht.
  rewrite oneLine_firstn, oneLine_skipn by exact Hl. reflexivity.
Qed.

Lemma oneLine_hashesOf (n : Z) : oneLine (hashesOf n) = true.
Proof.
  unfold hashesOf. induction (Z.to_nat n) as [|k IH]; simpl; [reflexivity|exact IH].
Qed.

Lemma oneLine_uint (d : Decimal.uint) :
  oneLine (lit (DecimalString.NilEmpty.string_of_uint d)) = true.
Proof. induction d; simpl; try reflexivity; exact IHd. Qed.

Lemma oneLine_numberToString (n : Z) : oneLine (numberToString n) = true.
Proof.
  unfold numberToString, DecimalString.NilZero.string_of_int,
    DecimalString.NilZero.string_of_uint.
  destruct (Z.to_int n) as [d|d]; destruct d; simpl; try reflexivity;
    apply oneLine_uint.
Qed.

Lemma oneLine_join_dots (parts : list str) :
  forallb oneLine parts = true -> oneLine (join (lit ".") parts) = true.
Proof.
  induction parts as [|p more IH]; simpl; [reflexivity|].
  intro H. apply andb_true_iff in H. destruct H as [Hp Hmore].
  destruct more as [|p2 more]; [exact Hp|].
  rewrite !oneLine_app, Hp. simpl. apply IH, Hmore.
Qed.

Lemma oneLine_numberingPrefix (level : Z) (cs : list Z) :
  oneLine (numberingPrefix level cs) = true.
Proof.
  unfold numberingPrefix.
  assert (H : oneLine (join (lit ".") (map numberToString cs)) = true).
  { apply oneLine_join_dots. apply forallb_forall. intros p Hp.
    apply in_map_iff in Hp. destruct Hp as (n & <- & _).
    apply oneLine_numberToString. }
  destruct (level =? 1); [rewrite oneLine_app, H; reflexivity|exact H].
Qed.

Lemma shiftLines_keep (shift : Z) : forall lines b,
  editsKeepLines (shiftLines shift b lines).
Proof.
  unfold editsKeepLines.
  induction lines as [|l more IH]; intro b; simpl; constructor; [|apply IH].
  cbn [snd]. destruct (toggle l b); [exact I|]. unfold shiftEditOf.
  destruct (headerParts l) as [[[[indent hashes] sp] rest]|]; [|exact I].
  cbv zeta. match goal with |- match (if ?b then _ else _) with _ => _ end =>
    destruct b end; [|exact I].
  apply oneLine_hashesOf.
Qed.

Lemma numberLines_keep (minLevel : Z) : forall lines b cs,
  editsKeepLines (numberLines minLevel b cs lines).
Proof.
  unfold editsKeepLines.
  induction lines as [|l more IH]; intros b cs; simpl; [constructor|].
  destruct (toggle l b); [constructor; [exact I|apply IH]|].
  destruct (headerTextParts l) as [[[[indent hashes] sp] t]|];
    (constructor; [|apply IH]); [|exact I].
  cbn [snd]. unfold numberEditOf. cbv zeta.
  destruct (numberToken t) as [num|].
  - destruct (negb (str_eqb num _)); [|exact I].
    apply oneLine_numberingPrefix.
  - cbn [text]. rewrite oneLine_app, oneLine_numberingPrefix. reflexivity.
Qed.

Lemma rewriteLine_oneLine (les : list (str * option Edit)) :
  editsKeepLines les ->
  forallb oneLine (map fst les) = true ->
  forallb oneLine (map rewriteLine les) = true.
Proof.
  unfold editsKeepLines.
  induction les as [|[l oe] more IH]; intros Hk Hl; [reflexivity|].
  inversion Hk as [|? ? Hoe Hmore]; subst.
  simpl in Hl. apply andb_true_iff in Hl. destruct Hl as [Hl Hls].
  simpl. rewrite (IH Hmore Hls), andb_true_r.
  unfold rewriteLine. cbn [fst snd] in *. destruct oe as [e|]; [|exact Hl].
  apply oneLine_splice; assumption.
Qed.

(** Replaying the edits of the lines of a text rewrites its lines, one by
    one. *)
Lemma applyEdits_text (c : MagicString) (les : list (str * option Edit))
    (T : Z) :
  map fst les = split 10 (current c) ->
  editsOnLines les -> editsKeepLines les ->
  exists T' c',
    applyEdits (globalEdits 0 les) T c = Ok (T', c')
    /\ original c' = original c
    /\ split 10 (current c') = map rewriteLine les.
Proof.
  intros Hfst Hok Hkeep.
  destruct (applyEdits_lines (original c) les [] T Hok) as [T' H].
  change (len []) with 0 in H. cbn [app] in H.
  rewrite Hfst, join_split in H.
  exists T', {| original := original c;
                current := join [10] (map rewriteLine les) |}.
  split; [destruct c; exact H|]. split; [reflexivity|].
  cbn [current]. apply split_join.
  - intro E. apply (f_equal (@length _)) in E.
    rewrite length_map, <- (length_map fst), Hfst in E.
    pose proof (split_not_nil 10 (current c)).
    destruct (split 10 (current c)); [contradiction|discriminate].
  - apply rewriteLine_oneLine; [exact Hkeep|].
    rewrite Hfst. apply split_lines_oneLine.
Qed.

(** ** The two heading passes never throw *)

Lemma rewrite_unedited (les : list (str * option Edit)) (i : nat) (l : str) :
  nth_error les i = Some (l, None) ->
  nth_error (map rewriteLine les) i = Some l.
Proof. intro H. rewrite nth_error_map, H. reflexivity. Qed.

(** The level shift returns, and leaves every line inside a fenced block
    as it was. *)
Lemma adjustHeaderLevels_runs (s : Model.Settings) (T : Z) (c : MagicString) :
  exists T' c',
    adjustHeaderLevels s T c = Ok (T', c')
    /\ original c' = original c
    /\ forall i l,
         nth_error (split 10 (current c)) i = Some l ->
         insideFence (split 10 (current c)) i = true ->
         nth_error (split 10 (current c')) i = Some l.
Proof.
  unfold adjustHeaderLevels. cbv zeta.
  destruct (negb (hasHeader (scanLines (split 10 (current c)))));
    [exists T, c; repeat split; auto|].
  set (shift := Model.headerStartLevel s
                - minLevel (scanLines (split 10 (current c)))).
  destruct (shift =? 0); [exists T, c; repeat split; auto|].
  rewrite shiftEdits_lines.
  destruct (applyEdits_text c (shiftLines shift false (split 10 (current c))) T
              (shiftLines_fst _ _ _) (shiftLines_ok _ _ _)
              (shiftLines_keep _ _ _)) as (T' & c' & Hrun & Ho & Hsplit).
  exists T', c'. repeat split; [exact Hrun|exact Ho|].
  intros i l Hi Hf. rewrite Hsplit. apply rewrite_unedited.
  rewrite shiftLines_nth, Hi. rewrite insideFence_fenceAt in Hf.
  rewrite Hf. reflexivity.
Qed.

(** So does the renumbering. *)
Lemma addHeaderNumbering_runs (T : Z) (c : MagicString) :
  exists T' c',
    addHeaderNumbering T c = Ok (T', c')
    /\ original c' = original c
    /\ forall i l,
         nth_error (split 10 (current c)) i = Some l ->
         insideFence (split 10 (current c)) i = true ->
         nth_error (split 10 (current c')) i = Some l.
Proof.
  unfold addHeaderNumbering. cbv zeta.
  set (m := minLevelOf (split 10 (current c))).
  destruct (m =? 100); [exists T, c; repeat split; auto|].
  rewrite numberingEdits_lines.
  destruct (applyEdits_text c (numberLines m false [] (split 10 (current c))) T
              (numberLines_fst _ _ _ _) (numberLines_ok _ _ _ _)
              (numberLines_keep _ _ _ _)) as (T' & c' & Hrun & Ho & Hsplit).
  exists T', c'. repeat split; [exact Hrun|exact Ho|].
  intros i l Hi Hf. rewrite Hsplit. apply rewrite_unedited.
  rewrite insideFence_fenceAt in Hf.
  pose proof (numberLines_fst m (split 10 (current c)) false []) as Hfst.
  destruct (nth_error (numberLines m false [] (split 10 (current c))) i)
    as [[l1 oe]|] eqn:Hn.
  - destruct (numberLines_nth _ _ _ _ _ _ _ Hn) as (Hl1 & Hoe).
    rewrite Hi in Hl1. injection Hl1 as <-. rewrite (Hoe Hf). reflexivity.
  - exfalso. apply (f_equal (fun ls => nth_error ls i)) in Hfst.
    rewrite nth_error_map, Hn, Hi in Hfst. discriminate.
Qed.

(* ================================================================ *)
(** * The claims *)

(** C3: a line inside a fenced block (the fence lines up to it are odd in
    number), such as one that looks like a heading, is never modified by the
    level shift or by the renumbering: every edit of either pass ends before
    the line starts or starts after it ends; the line does not count in
    either minimum-level loop (any line with the same fence status in its
    place gives the same result); and both passes return with the line
    unchanged at its place in the text. *)
Theorem fenced_lines_untouched (s : Model.Settings) (c : MagicString) (T : Z)
    (i : nat) (l : str) :
  let lines := split 10 (current c) in
  nth_error lines i = Some l ->
  insideFence lines i = true ->
  (forall shift minLevel e,
      In e (shiftEdits shift lines) \/ In e (numberingEdits minLevel lines) ->
      end_ e < lineStartOf lines i \/ lineStartOf lines i + len l < start e)
  /\ (forall l',
        isFence l' = isFence l ->
        scanLines (replaceLine i l' lines) = scanLines lines
        /\ minLevelOf (replaceLine i l' lines) = minLevelOf lines)
  /\ (exists T' c',
        adjustHeaderLevels s T c = Ok (T', c')
        /\ nth_error (split 10 (current c')) i = Some l)
  /\ (exists T' c',
        addHeaderNumbering T c = Ok (T', c')
        /\ nth_error (split 10 (current c')) i = Some l).
Proof.
  intros lines Hi Hf. repeat split.
  - intros shift m e He.
    exact (proj1 (fenced_lines_no_edit lines i l shift m Hi Hf) e He).
  - apply (proj2 (fenced_lines_no_edit lines i l 0 0 Hi Hf)); assumption.
  - apply (proj2 (fenced_lines_no_edit lines i l 0 0 Hi Hf)); assumption.
  - destruct (adjustHeaderLevels_runs s T c) as (T' & c' & Hrun & _ & Hl).
    exists T', c'. split; [exact Hrun|]. apply Hl; assumption.
  - destruct (addHeaderNumbering_runs T c) as (T' & c' & Hrun & _ & Hl).
    exists T', c'. split; [exact Hrun|]. apply Hl; assumption.
Qed.

Lemma fenced_lines_untouched_witness :
  let s := Model.getDefaultSettings in
  let c := newMagicString (join [10] (map lit ["## a"; "```"; "# x"; "```"])) in
  nth_error (split 10 (current c)) 2 = Some (lit "# x")
  /\ insideFence (split 10 (current c)) 2 = true
  /\ exists T' c',
       addHeaderNumbering (-1) c = Ok (T', c')
       /\ nth_error (split 10 (current c')) 2 = Some (lit "# x").
Proof.
  intros s c.
  split; [reflexivity|]. split; [reflexivity|].
  apply (fenced_lines_untouched s c (-1) 2 (lit "# x")); reflexivity.
Defined.

(** ** The level shift as a no-op *)

Lemma adjustHeaderLevels_noop (s : Model.Settings) (c : MagicString)
    (offset : Z) :
  hasHeader (scanLines (split 10 (current c))) = false
  \/ Model.headerStartLevel s - minLevel (scanLines (split 10 (current c))) = 0 ->
  adjustHeaderLevels s offset c = Ok (offset, c).
Proof.
  intro H. unfold adjustHeaderLevels. cbv zeta.
  destruct (hasHeader (scanLines (split 10 (current c)))); simpl negb;
    cbv iota; [|reflexivity].
  destruct H as [H|H]; [discriminate|]. rewrite H. reflexivity.
Qed.

(** C7: when the first loop of the level shift finds no heading, or the
    shift it computes (the target start level minus the minimum level) is
    0, the pass returns the offset it was given and leaves the buffer, so
    its current text, exactly as it was.  The loop finds a heading when a
    line outside the fenced blocks is one, and its minimum is the least of
    100 and the levels of these headings. *)
Theorem shift_noop (s : Model.Settings) (c : MagicString) (offset : Z) :
  let sc := scanLines (split 10 (current c)) in
  let levels := visibleLevels false (split 10 (current c)) in
  hasHeader sc = false \/ Model.headerStartLevel s - minLevel sc = 0
  \/ levels = [] \/ Model.headerStartLevel s = leastLevel levels ->
  adjustHeaderLevels s offset c = Ok (offset, c)
  /\ hasHeader sc = truthy levels
  /\ minLevel sc = leastLevel levels.
Proof.
  intros sc levels H.
  destruct (scanLines_levels (split 10 (current c))) as [Hh Hm].
  fold sc levels in Hh, Hm. split; [|split; assumption].
  apply adjustHeaderLevels_noop. fold sc.
  destruct H as [H|[H|[H|H]]].
  - left. exact H.
  - right. exact H.
  - left. rewrite Hh, H. reflexivity.
  - right. rewrite Hm. lia.
Qed.

Lemma shift_noop_witness :
  let s := {| Model.formatOnSave := false; Model.formatOnFileChange := false;
              Model.removeExtraSpaces := false;
              Model.addTrailingSpaces := false;
              Model.headerStartLevel := 2; Model.autoNumbering := false;
              Model.tencentCos := None |} in
  let c := newMagicString (join [10] (map lit ["## a"; "### b"; "text"])) in
  adjustHeaderLevels s 7 c = Ok (7, c)
  /\ adjustHeaderLevels s 7 (newMagicString (lit "no heading"))
     = Ok (7, newMagicString (lit "no heading")).
Proof.
  intros s c. split.
  - apply (shift_noop s c 7). right. left. reflexivity.
  - apply (shift_noop s (newMagicString (lit "no heading")) 7). left.
    reflexivity.
Defined.

(** ** The counters of the renumbering *)

Lemma increment_last (cs : list Z) (x : Z) :
  increment (length cs) (cs ++ [x]) = cs ++ [x + 1].
Proof. induction cs as [|c cs IH]; simpl; [|rewrite IH]; reflexivity. Qed.

Lemma firstn_snoc (n : nat) (cs : list Z) :
  (n < length cs)%nat -> firstn (S n) cs = firstn n cs ++ [nth n cs 0].
Proof.
  revert cs. induction n as [|n IH]; intros [|c cs] H; simpl in *; try lia.
  - reflexivity.
  - rewrite <- IH by lia. reflexivity.
Qed.

Lemma bumpCounters_deeper (d : Z) (cs : list Z) :
  len cs < d -> bumpCounters d cs = cs ++ repeat 1 (Z.to_nat (d - len cs)).
Proof.
  intro H. unfold bumpCounters.
  replace (d >? len cs) with true by (symmetry; apply Z.gtb_lt; lia).
  reflexivity.
Qed.

Lemma bumpCounters_within (d : Z) (cs : list Z) :
  1 <= d -> d <= len cs ->
  bumpCounters d cs
  = firstn (Z.to_nat (d - 1)) cs ++ [nth (Z.to_nat (d - 1)) cs 0 + 1].
Proof.
  intros H1 H2. unfold bumpCounters, sliceTo.
  destruct (Z.gtb_spec d (len cs)); [lia|].
  destruct (Z.ltb_spec d 0); [lia|].
  destruct (Z.ltb_spec (d - 1) 0); [lia|].
  unfold len in H2.
  replace (Z.to_nat d) with (S (Z.to_nat (d - 1))) by lia.
  rewrite firstn_snoc by lia.
  replace (Z.to_nat (d - 1))
    with (length (firstn (Z.to_nat (d - 1)) cs)) at 1
    by (rewrite length_firstn; lia).
  apply increment_last.
Qed.

Lemma bumpCounters_length (d : Z) (cs : list Z) :
  1 <= d -> len (bumpCounters d cs) = d.
Proof.
  intro H1. destruct (Z.lt_ge_cases (len cs) d) as [H|H].
  - rewrite bumpCounters_deeper by exact H. rewrite len_app.
    unfold len at 2. rewrite repeat_length. pose proof (len_nonneg cs). lia.
  - rewrite bumpCounters_within by lia. rewrite len_app. unfold len in *.
    rewrite length_firstn. simpl length. lia.
Qed.

Lemma leastLevel_le (levels : list Z) (x : Z) :
  In x levels -> leastLevel levels <= x.
Proof.
  unfold leastLevel. induction levels as [|y levels IH]; intros []; simpl.
  - subst. lia.
  - specialize (IH H). lia.
Qed.

Lemma visibleLevels_In : forall lines b i l hashes,
  nth_error lines i = Some l ->
  fenceAt b lines i = false ->
  hashesOfLine l = Some hashes ->
  In (len hashes) (visibleLevels b lines).
Proof.
  induction lines as [|l0 more IH]; intros b i l hashes Hi Hf Hh;
    [destruct i; discriminate|].
  destruct i as [|i].
  - simpl in Hi. injection Hi as ->. rewrite fenceAt_O in Hf.
    simpl. rewrite Hf, Hh. left. reflexivity.
  - simpl in Hi. rewrite fenceAt_S in Hf. simpl.
    specialize (IH _ _ _ _ Hi Hf Hh).
    destruct (if toggle l0 b then None else hashesOfLine l0);
      [right|]; exact IH.
Qed.

(** Every heading the renumbering numbers has a relative depth of 1 or
    more. *)
Lemma relative_depth_positive (lines : list str) (i : nat)
    (l indent hashes sp t : str) :
  nth_error lines i = Some l ->
  insideFence lines i = false ->
  headerTextParts l = Some (indent, hashes, sp, t) ->
  1 <= len hashes - minLevelOf lines + 1.
Proof.
  intros Hi Hf Hp. rewrite minLevelOf_levels.
  assert (Hh : hashesOfLine l = Some hashes).
  { unfold hashesOfLine. rewrite (headerTextParts_inv _ _ _ _ _ Hp). reflexivity. }
  pose proof (leastLevel_le _ _ (visibleLevels_In lines false i l hashes Hi Hf Hh)).
  lia.
Qed.

(** The edits of the renumbering put on the headings, one after the other,
    the prefixes of their relative depths. *)
Lemma numberLines_prefixes (minLevel : Z) : forall lines b cs,
  numberLines minLevel b cs lines
  = prefixLines (prefixesFrom cs (headingDepths minLevel b lines)) b lines.
Proof.
  induction lines as [|l more IH]; intros b cs; simpl; [reflexivity|].
  destruct (if toggle l b then None else headerTextParts l)
    as [[[[indent hashes] sp] t]|]; simpl; rewrite IH; reflexivity.
Qed.

Lemma headingDepths_positive (minLevel : Z) : forall lines b,
  (forall x, In x (visibleLevels b lines) -> minLevel <= x) ->
  Forall (fun d => 1 <= d) (headingDepths minLevel b lines).
Proof.
  induction lines as [|l more IH]; intros b H; simpl; [constructor|].
  simpl in H. unfold hashesOfLine in H.
  destruct (toggle l b); [apply IH, H|].
  unfold headerTextParts.
  destruct (headerParts l) as [[[[indent hashes] sp] t]|].
  - destruct (noLineTerminator t).
    + constructor; [specialize (H (len hashes) (or_introl eq_refl)); lia|].
      apply IH. intros x Hx. apply H. right. exact Hx.
    + apply IH. intros x Hx. apply H. right. exact Hx.
  - apply IH, H.
Qed.

(** C1: the renumbering keeps a vector of counters indexed by relative
    depth, [hashes - minLevel + 1].  For every document, the headings it
    numbers have relative depths of 1 or more, and its edits put on them,
    one after the other, the tokens [prefixesFrom [] depths] of these
    depths.  From the counters [cs], a heading of relative depth [d]
    replaces them by [bumpCounters d cs]: [cs] extended with 1s to length
    [d] when [d] exceeds its length, otherwise [cs] cut to length [d] with
    its last slot incremented; the result has length [d].  Its token is the
    new counters joined with dots, with a dot after them exactly when
    [d = 1].  Headings at the relative depths 1, 2, 2, 1, 2, 3 get the
    tokens 1., 1.1, 1.2, 2., 2.1, 2.1.1, also through the pass on a
    document. *)
Theorem renumbering_counters :
  (forall lines : list str,
      let depths := headingDepths (minLevelOf lines) false lines in
      Forall (fun d => 1 <= d) depths
      /\ numberingEdits (minLevelOf lines) lines
         = globalEdits 0 (prefixLines (prefixesFrom [] depths) false lines))
  /\ (forall (d : Z) (cs : list Z) (more : list Z),
        prefixesFrom cs (d :: more)
        = numberingPrefix d (bumpCounters d cs)
          :: prefixesFrom (bumpCounters d cs) more)
  /\ (forall (d : Z) (cs : list Z),
        1 <= d ->
        (len cs < d ->
         bumpCounters d cs = cs ++ repeat 1 (Z.to_nat (d - len cs)))
        /\ (d <= len cs ->
            bumpCounters d cs
            = firstn (Z.to_nat (d - 1)) cs
              ++ [nth (Z.to_nat (d - 1)) cs 0 + 1])
        /\ len (bumpCounters d cs) = d
        /\ numberingPrefix d (bumpCounters d cs)
           = join (lit ".") (map numberToString (bumpCounters d cs))
             ++ (if d =? 1 then lit "." else []))
  /\ prefixesFrom [] [1; 2; 2; 1; 2; 3]
     = map lit ["1."; "1.1"; "1.2"; "2."; "2.1"; "2.1.1"]
  /\ textOf (addHeaderNumbering (-1)
               (newMagicString
                  (join [10] (map lit ["## a"; "### b"; "### c"; "## d";
                                       "### e"; "#### f"]))))
     = Some (join [10] (map lit ["## 1. a"; "### 1.1 b"; "### 1.2 c";
                                 "## 2. d"; "### 2.1 e"; "#### 2.1.1 f"])).
Proof.
  split; [|split; [|split; [|split]]].
  - intros lines depths. split.
    + apply headingDepths_positive. intros x Hx. rewrite minLevelOf_levels.
      apply leastLevel_le, Hx.
    + rewrite numberingEdits_lines, numberLines_prefixes. reflexivity.
  - reflexivity.
  - intros d cs Hd. repeat split.
    + apply bumpCounters_deeper.
    + apply bumpCounters_within, Hd.
    + apply bumpCounters_length, Hd.
    + unfold numberingPrefix. destruct (d =? 1); [reflexivity|].
      rewrite app_nil_r. reflexivity.
  - vm_compute. reflexivity.
  - vm_compute. reflexivity.
Qed.

Lemma renumbering_counters_witness :
  bumpCounters 3 [4] = [4; 1; 1]
  /\ bumpCounters 2 [4; 7; 9] = [4; 8]
  /\ numberingPrefix 1 (bumpCounters 1 [4; 7; 9]) = lit "5."
  /\ numberingPrefix 2 (bumpCounters 2 [4; 7; 9]) = lit "4.8".
Proof.
  destruct renumbering_counters as (_ & _ & H & _).
  split; [|split; [|split]].
  - rewrite (proj1 (H 3 [4] ltac:(lia))); [reflexivity|reflexivity].
  - rewrite (proj1 (proj2 (H 2 [4; 7; 9] ltac:(lia)))); [reflexivity|].
    unfold len; simpl; lia.
  - rewrite (proj2 (proj2 (proj2 (H 1 [4; 7; 9] ltac:(lia))))). reflexivity.
  - rewrite (proj2 (proj2 (proj2 (H 2 [4; 7; 9] ltac:(lia))))). reflexivity.
Defined.

(** ** The tracked offset through an edit *)

Lemma validSpan_iff (s e : Z) (c : MagicString) :
  validSpan s e c = true <-> 0 <= s /\ s <= e /\ e <= len (current c).
Proof.
  unfold validSpan. rewrite !andb_true_iff, !Z.leb_le. tauto.
Qed.

(** C2: for every buffer, an insertion of [t] at an offset [k] of the
    buffer returns the tracked offset [T] itself when [T < k] and
    [T + len t] when [T >= k]; a deletion of a span [s, e) of the buffer
    returns [T] when [T < s], [T - (e - s)] when [T >= e], and [s] when
    [s <= T < e].  Both also make the edit. *)
Theorem offset_remap (c : MagicString) :
  (forall (k : Z) (t : str) (T : Z),
      0 <= k -> k <= len (current c) ->
      exists c',
        insert k t T c = Ok ((if T <? k then T else T + len t), c')
        /\ current c' = splice k k t (current c))
  /\ (forall (s e T : Z),
        0 <= s -> s <= e -> e <= len (current c) ->
        exists c',
          delete s (Some e) T c
          = Ok ((if T <? s then T else if e <=? T then T - (e - s) else s), c')
          /\ current c' = splice s e [] (current c)).
Proof.
  split.
  - intros k t T H0 H1. unfold insert.
    rewrite (proj2 (validSpan_iff k k c)) by lia.
    exists {| original := original c; current := splice k k t (current c) |}.
    split; [|reflexivity]. f_equal. f_equal.
    destruct (Z.eqb_spec T (-1)) as [->|Hne].
    + destruct (Z.ltb_spec (-1) k); [reflexivity|lia].
    + destruct (Z.leb_spec k T), (Z.ltb_spec T k); try lia; reflexivity.
  - intros s e T H0 H1 H2. unfold delete.
    rewrite (proj2 (validSpan_iff s e c)) by lia.
    exists {| original := original c; current := splice s e [] (current c) |}.
    split; [|reflexivity]. f_equal. f_equal.
    destruct (Z.eqb_spec T (-1)) as [->|Hne]; [|reflexivity].
    destruct (Z.ltb_spec (-1) s); [reflexivity|lia].
Qed.

Lemma offset_remap_witness :
  let c := newMagicString (lit "- a") in
  (exists c', insert 1 (lit "  ") 3 c = Ok (5, c') /\ current c' = lit "-   a")
  /\ (exists c', insert 1 (lit "  ") 0 c = Ok (0, c') /\ current c' = lit "-   a")
  /\ (exists c', delete 1 (Some 3) 2 c = Ok (1, c') /\ current c' = lit "-")
  /\ (exists c', delete 1 (Some 2) 3 c = Ok (2, c') /\ current c' = lit "-a").
Proof.
  intro c. destruct (offset_remap c) as [Hi Hd].
  split; [|split; [|split]].
  - apply (Hi 1 (lit "  ") 3); unfold len; simpl; lia.
  - apply (Hi 1 (lit "  ") 0); unfold len; simpl; lia.
  - apply (Hd 1 3 2); unfold len; simpl; lia.
  - apply (Hd 1 2 3); unfold len; simpl; lia.
Defined.

(** [insert] and [delete] are the two halves of [update]. *)
Lemma insert_update (a : Z) (t : str) (T : Z) (c : MagicString) :
  insert a t T c = update a a t T c.
Proof.
  unfold insert, update, remap. destruct (validSpan a a c); [|reflexivity].
  f_equal. f_equal.
  destruct (T =? -1); [reflexivity|].
  destruct (Z.leb_spec a T), (Z.ltb_spec T a); try lia; reflexivity.
Qed.

Lemma delete_update (s e T : Z) (c : MagicString) :
  delete s (Some e) T c = update s e [] T c.
Proof.
  unfold delete, update, remap. destruct (validSpan s e c); [|reflexivity].
  f_equal. f_equal.
  destruct (T =? -1); [reflexivity|].
  destruct (T <? s); [reflexivity|].
  destruct (e <=? T); [|reflexivity]. rewrite len_nil. lia.
Qed.

(** ** The untracked offset through the passes *)

Lemma applyResults_untracked (results : list UploadResult)
    (c c' : MagicString) (T : Z) :
  applyResults results (-1) c = Ok (T, c') -> T = -1.
Proof.
  apply forEach_untracked. intros r c0 T0 c1.
  destruct (newUrl r) as [u|]; [destruct (truthy u)|].
  - apply update_untracked.
  - unfold ret. intros [= <- _]. reflexivity.
  - unfold ret. intros [= <- _]. reflexivity.
Qed.

Lemma uploadImages_untracked (s : Model.Settings) (nets : nat -> Network)
    (file : TFile) (failed : UrlSet) (c c' : MagicString) (r : Z * UrlSet) :
  uploadImages s nets file (-1) failed c = Ok (r, c') -> fst r = -1.
Proof.
  unfold uploadImages, ret.
  destruct (Model.tencentCos s) as [cos|]; [|intros [= <- _]; reflexivity].
  destruct (negb (truthy (Model.bucket cos)) || negb (truthy (Model.region cos)));
    [intros [= <- _]; reflexivity|].
  destruct (negb (initCos s)); [intros [= <- _]; reflexivity|].
  destruct (findImageMatches (original c)) as [|m ms];
    [intros [= <- _]; reflexivity|].
  destruct (runUploads s nets file 0 _ failed) as [results failed'].
  unfold bind.
  destruct (applyResults (sortResults results) (-1) c) as [[T c1]|e] eqn:E;
    [|discriminate].
  intros [= <- _]. cbn [fst]. exact (applyResults_untracked _ _ _ _ E).
Qed.

Lemma removeExtraSpaces_untracked (c c' : MagicString) (T : Z) :
  removeExtraSpaces (-1) c = Ok (T, c') -> T = -1.
Proof.
  unfold removeExtraSpaces, bind, match_.
  apply forEach_untracked. intros m c0 T0 c1.
  destruct (groupSpan 1 m); [apply delete_untracked|discriminate].
Qed.

Lemma addTrailingSpaces_untracked (c c' : MagicString) (T : Z) :
  addTrailingSpaces (-1) c = Ok (T, c') -> T = -1.
Proof.
  unfold addTrailingSpaces, bind, match_.
  apply forEach_untracked. intros m c0 T0 c1.
  destruct (groupSpan 1 m); [apply insert_untracked|discriminate].
Qed.

Lemma adjustHeaderLevels_untracked (s : Model.Settings) (c c' : MagicString)
    (T : Z) :
  adjustHeaderLevels s (-1) c = Ok (T, c') -> T = -1.
Proof.
  unfold adjustHeaderLevels, ret. cbv zeta.
  destruct (negb (hasHeader _)); [intros [= <- _]; reflexivity|].
  destruct (_ =? 0); [intros [= <- _]; reflexivity|].
  apply applyEdits_untracked.
Qed.

Lemma addHeaderNumbering_untracked (c c' : MagicString) (T : Z) :
  addHeaderNumbering (-1) c = Ok (T, c') -> T = -1.
Proof.
  unfold addHeaderNumbering, ret. cbv zeta.
  destruct (_ =? 100); [intros [= <- _]; reflexivity|].
  apply applyEdits_untracked.
Qed.

Lemma structuralPasses_untracked (s : Model.Settings) (c c' : MagicString)
    (T : Z) :
  structuralPasses s (-1) c = Ok (T, c') -> T = -1.
Proof.
  unfold structuralPasses, bind.
  destruct ((if Model.removeExtraSpaces s then removeExtraSpaces (-1)
             else ret (-1)) c) as [[T1 c1]|e] eqn:E1; [|discriminate].
  assert (T1 = -1) as ->.
  { destruct (Model.removeExtraSpaces s);
      [exact (removeExtraSpaces_untracked _ _ _ E1)|].
    unfold ret in E1. congruence. }
  destruct ((if Model.addTrailingSpaces s then addTrailingSpaces (-1)
             else ret (-1)) c1) as [[T2 c2]|e] eqn:E2; [|discriminate].
  assert (T2 = -1) as ->.
  { destruct (Model.addTrailingSpaces s);
      [exact (addTrailingSpaces_untracked _ _ _ E2)|].
    unfold ret in E2. congruence. }
  destruct ((if Model.headerStartLevel s >? 1 then adjustHeaderLevels s (-1)
             else ret (-1)) c2) as [[T3 c3]|e] eqn:E3; [|discriminate].
  assert (T3 = -1) as ->.
  { destruct (Model.headerStartLevel s >? 1);
      [exact (adjustHeaderLevels_untracked _ _ _ _ E3)|].
    unfold ret in E3. congruence. }
  destruct (Model.autoNumbering s);
    [apply addHeaderNumbering_untracked|].
  unfold ret. congruence.
Qed.

(** In fast mode the passes of [formatContent] end untracked. *)
Lemma contentPasses_fast (h : Host) (s : Model.Settings) (editor : Editor)
    (file : TFile) (failed failed' : UrlSet) (c c' : MagicString) (T : Z) :
  shouldUseFastMode h file = true ->
  contentPasses h s editor file failed c = Ok ((T, failed'), c') -> T = -1.
Proof.
  intro Hfast. unfold contentPasses. rewrite Hfast. simpl negb. cbv iota.
  unfold bind.
  destruct (uploadImages s (nets h) file (-1) failed c) as [[r c1]|e] eqn:E1;
    [|discriminate].
  rewrite (uploadImages_untracked _ _ _ _ _ _ _ E1).
  unfold getCurrent, awaitFormat, mutate, ret.
  destruct (prettierFormat h (current c1)); [|discriminate].
  destruct (structuralPasses s (-1) _) as [[T3 c3]|e] eqn:E3; [|discriminate].
  intros [= <- _ _]. exact (structuralPasses_untracked _ _ _ _ E3).
Qed.

(** ** The gate of the level shift *)

(** C10: the level shift is invoked only when the setting
    [headerStartLevel] is greater than 1: otherwise the structural passes
    are the other three alone.  So with [headerStartLevel = 1] a document
    whose least heading level is 2 keeps its levels, although the pass
    itself, called with that setting, computes the shift -1 and would turn
    "## a" into "# a". *)
Theorem shift_gated :
  (forall (s : Model.Settings) (offset : Z) (c : MagicString),
      Model.headerStartLevel s <= 1 ->
      structuralPasses s offset c
      = (o1 <- (if Model.removeExtraSpaces s then removeExtraSpaces offset
                else ret offset) ;;
         o2 <- (if Model.addTrailingSpaces s then addTrailingSpaces o1
                else ret o1) ;;
         if Model.autoNumbering s then addHeaderNumbering o2 else ret o2) c)
  /\ (let s := Model.getDefaultSettings in
      let c := newMagicString (join [10] (map lit ["## a"; "### b"])) in
      Model.headerStartLevel s = 1
      /\ minLevel (scanLines (split 10 (current c))) = 2
      /\ structuralPasses s (-1) c = Ok (-1, c)
      /\ textOf (adjustHeaderLevels s (-1) c)
         = Some (join [10] (map lit ["# a"; "## b"]))).
Proof.
  split.
  - intros s offset c H. unfold structuralPasses.
    replace (Model.headerStartLevel s >? 1) with false
      by (symmetry; rewrite Z.gtb_ltb; apply Z.ltb_ge; lia).
    unfold bind.
    destruct ((if Model.removeExtraSpaces s then removeExtraSpaces offset
               else ret offset) c) as [[o1 c1]|e]; [|reflexivity].
    destruct ((if Model.addTrailingSpaces s then addTrailingSpaces o1
               else ret o1) c1) as [[o2 c2]|e]; reflexivity.
  - vm_compute. repeat split; reflexivity.
Qed.

Lemma shift_gated_witness :
  let s := Model.getDefaultSettings in
  let c := newMagicString (lit "### deep") in
  structuralPasses s 4 c = Ok (4, c).
Proof.
  intros s c. rewrite (proj1 shift_gated s 4 c); [reflexivity|].
  simpl. lia.
Defined.

(** ** The list passes as edits of lines *)

Lemma forEach_edits {A} (f : Z -> A -> Engine Z)
    (R : A -> Edit -> Prop) :
  (forall x e T c, R x e -> f T x c = update (start e) (end_ e) (text e) T c) ->
  forall xs es T c,
    Forall2 R xs es ->
    forEach f xs T c
    = forEach (fun index e => update (start e) (end_ e) (text e) index) es T c.
Proof.
  intros Hf xs es T c H. revert T c.
  induction H as [|x e xs es Hx _ IH]; intros T c; simpl; [reflexivity|].
  unfold bind. rewrite (Hf x e T c Hx).
  destruct (update (start e) (end_ e) (text e) T c) as [[T1 c1]|err];
    [apply IH|reflexivity].
Qed.

Lemma Forall2_rev {A B} (R : A -> B -> Prop) (xs : list A) (ys : list B) :
  Forall2 R xs ys -> Forall2 R (rev xs) (rev ys).
Proof.
  induction 1 as [|x y xs ys Hxy _ IH]; simpl; [constructor|].
  apply Forall2_app; [exact IH|]. constructor; [exact Hxy|constructor].
Qed.

Lemma matchLines_extra : forall lines off,
  Forall2 deletionOfMatch
    (matchLines REGEXP_UNORDERED_LIST_ITEMS_WITH_EXTRA_SPACES lines off)
    (globalEdits off (map (fun l => (l, extraSpacesEdit l)) lines)).
Proof.
  induction lines as [|l more IH]; intro off; simpl; [constructor|].
  rewrite exec_extra_spaces. unfold extraSpacesEdit.
  destruct (extraSpacesParts l) as [[[[indent marker] extra] rest]|]; simpl.
  - constructor; [|apply IH].
    split; [|reflexivity]. simpl. unfold shiftSpan.
    cbn [sp_start sp_end start end_]. same_match.
  - apply IH.
Qed.

Lemma matchLines_empty : forall lines off,
  Forall2 insertionOfMatch
    (matchLines REGEXP_EMPTY_LIST_ITEMS_WITHOUT_TRAILING_SPACES lines off)
    (globalEdits off (map (fun l => (l, trailingSpaceEdit l)) lines)).
Proof.
  induction lines as [|l more IH]; intro off; simpl; [constructor|].
  rewrite exec_empty_item. unfold trailingSpaceEdit.
  destruct (isEmptyListItem l); simpl.
  - constructor; [|apply IH].
    split; [|split; reflexivity]. exists (0 + off). simpl. unfold shiftSpan.
    cbn [sp_start sp_end start end_]. same_match.
  - apply IH.
Qed.

(** [removeExtraSpaces] replays the deletions of its lines. *)
Lemma removeExtraSpaces_edits (T : Z) (c : MagicString) :
  removeExtraSpaces T c
  = applyEdits
      (globalEdits 0 (map (fun l => (l, extraSpacesEdit l))
                        (split 10 (current c)))) T c.
Proof.
  unfold removeExtraSpaces, applyEdits, bind, match_.
  apply (forEach_edits _ deletionOfMatch).
  - intros m e T0 c0 [Hg Ht]. rewrite Hg. cbn [sp_start sp_end].
    rewrite delete_update, Ht. reflexivity.
  - apply Forall2_rev, matchLines_extra.
Qed.

(** [addTrailingSpaces] replays the insertions of its lines. *)
Lemma addTrailingSpaces_edits (T : Z) (c : MagicString) :
  addTrailingSpaces T c
  = applyEdits
      (globalEdits 0 (map (fun l => (l, trailingSpaceEdit l))
                        (split 10 (current c)))) T c.
Proof.
  unfold addTrailingSpaces, applyEdits, bind, match_.
  apply (forEach_edits _ insertionOfMatch).
  - intros m e T0 c0 [[a Hg] [He Ht]]. rewrite Hg. cbn [sp_start sp_end].
    rewrite insert_update, He, Ht. reflexivity.
  - apply Forall2_rev, matchLines_empty.
Qed.

Lemma extraSpacesParts_inv (l indent marker extra rest : str) :
  extraSpacesParts l = Some (indent, marker, extra, rest) ->
  l = indent ++ marker ++ extra ++ rest /\ len marker = 2 /\ 0 < len extra.
Proof.
  unfold extraSpacesParts.
  pose proof (take_drop_while isHSpace l) as Hl.
  destruct (dropWhile isHSpace l) as [|m [|w more]]; try discriminate.
  destruct (isBullet m && isHSpace w && truthy (takeWhile isHSpace more))
    eqn:E; [|discriminate].
  intros [= <- <- <- <-].
  apply andb_true_iff in E. destruct E as [_ E].
  split; [|split; [reflexivity|apply truthy_len, E]].
  rewrite <- Hl at 1. cbn [app]. rewrite take_drop_while. reflexivity.
Qed.

Lemma splice_whole (t l : str) : splice 0 (len l) t l = t.
Proof.
  unfold splice, len. rewrite Nat2Z.id, skipn_all. simpl. apply app_nil_r.
Qed.

Lemma splice_end (t l : str) : splice (len l) (len l) t l = l ++ t.
Proof.
  unfold splice, len. rewrite Nat2Z.id, skipn_all, firstn_all, app_nil_r.
  reflexivity.
Qed.

Lemma rewrite_extraSpaces (l : str) :
  rewriteLine (l, extraSpacesEdit l) = collapseSpaces l.
Proof.
  unfold rewriteLine, extraSpacesEdit, collapseSpaces. cbn [fst snd].
  destruct (extraSpacesParts l) as [[[[indent marker] extra] rest]|] eqn:E;
    [|reflexivity].
  destruct (extraSpacesParts_inv _ _ _ _ _ E) as (Hl & Hm & He).
  cbn [start end_ text]. subst l.
  replace (len indent + 2) with (len (indent ++ marker) + 0)
    by (rewrite len_app; lia).
  replace (len (indent ++ marker) + 0 + len extra)
    with (len (indent ++ marker) + len extra) by lia.
  replace (indent ++ marker ++ extra ++ rest)
    with ((indent ++ marker) ++ extra ++ rest)
    by (rewrite <- app_assoc; reflexivity).
  rewrite splice_mid by lia. rewrite splice_whole, <- app_assoc. reflexivity.
Qed.

Lemma rewrite_trailingSpace (l : str) :
  rewriteLine (l, trailingSpaceEdit l) = addTrailingSpace l.
Proof.
  unfold rewriteLine, trailingSpaceEdit, addTrailingSpace. cbn [fst snd].
  destruct (isEmptyListItem l); [|reflexivity].
  cbn [start end_ text]. apply splice_end.
Qed.

Lemma extraSpaces_ok (lines : list str) :
  editsOnLines (map (fun l => (l, extraSpacesEdit l)) lines)
  /\ editsKeepLines (map (fun l => (l, extraSpacesEdit l)) lines).
Proof.
  unfold editsOnLines, editsKeepLines. rewrite !Forall_map.
  split; apply Forall_forall; intros l _; cbn [fst snd]; unfold extraSpacesEdit;
    destruct (extraSpacesParts l) as [[[[indent marker] extra] rest]|] eqn:E;
    try exact I; [|reflexivity].
  destruct (extraSpacesParts_inv _ _ _ _ _ E) as (Hl & Hm & He).
  unfold onLine. cbn [start end_]. subst l. rewrite !len_app.
  pose proof (len_nonneg indent). pose proof (len_nonneg rest). lia.
Qed.

Lemma trailingSpace_ok (lines : list str) :
  editsOnLines (map (fun l => (l, trailingSpaceEdit l)) lines)
  /\ editsKeepLines (map (fun l => (l, trailingSpaceEdit l)) lines).
Proof.
  unfold editsOnLines, editsKeepLines. rewrite !Forall_map.
  split; apply Forall_forall; intros l _; cbn [fst snd]; unfold trailingSpaceEdit;
    destruct (isEmptyListItem l); try exact I; [|reflexivity].
  unfold onLine. cbn [start end_]. pose proof (len_nonneg l). lia.
Qed.

Lemma map_fst_pair {A} (f : str -> A) (lines : list str) :
  map fst (map (fun l => (l, f l)) lines) = lines.
Proof. rewrite map_map. apply map_id. Qed.

(** [removeExtraSpaces] returns and collapses each line. *)
Lemma removeExtraSpaces_text (c : MagicString) (T : Z) :
  exists T' c',
    removeExtraSpaces T c = Ok (T', c')
    /\ original c' = original c
    /\ split 10 (current c') = map collapseSpaces (split 10 (current c)).
Proof.
  rewrite removeExtraSpaces_edits.
  destruct (extraSpaces_ok (split 10 (current c))) as [Hok Hkeep].
  destruct (applyEdits_text c _ T (map_fst_pair _ _) Hok Hkeep)
    as (T' & c' & Hrun & Ho & Hsplit).
  exists T', c'. split; [exact Hrun|]. split; [exact Ho|].
  rewrite Hsplit, map_map. apply map_ext. intro l. apply rewrite_extraSpaces.
Qed.

(** [addTrailingSpaces] returns and completes each line. *)
Lemma addTrailingSpaces_text (c : MagicString) (T : Z) :
  exists T' c',
    addTrailingSpaces T c = Ok (T', c')
    /\ original c' = original c
    /\ split 10 (current c') = map addTrailingSpace (split 10 (current c)).
Proof.
  rewrite addTrailingSpaces_edits.
  destruct (trailingSpace_ok (split 10 (current c))) as [Hok Hkeep].
  destruct (applyEdits_text c _ T (map_fst_pair _ _) Hok Hkeep)
    as (T' & c' & Hrun & Ho & Hsplit).
  exists T', c'. split; [exact Hrun|]. split; [exact Ho|].
  rewrite Hsplit, map_map. apply map_ext. intro l. apply rewrite_trailingSpace.
Qed.

(** ** List markers *)

Lemma bullet_not_hspace c : isBullet c = true -> isHSpace c = false.
Proof. intro H. class_disjoint. Qed.

Lemma digit_not_hspace c : isDigit c = true -> isHSpace c = false.
Proof. intro H. class_disjoint. Qed.

Lemma collapse_unordered (indent extra rest : str) (m w : Z) :
  forallb isHSpace indent = true ->
  isBullet m = true -> isHSpace w = true ->
  extra <> [] -> forallb isHSpace extra = true ->
  match rest with [] => True | x :: _ => isHSpace x = false end ->
  collapseSpaces (indent ++ [m; w] ++ extra ++ rest) = indent ++ [m; w] ++ rest.
Proof.
  intros Hi Hm Hw Hne He Hr. unfold collapseSpaces, extraSpacesParts.
  destruct (takeWhile_app isHSpace indent ([m; w] ++ extra ++ rest) Hi)
    as [Ht Hd].
  rewrite Ht, Hd. cbn [app takeWhile dropWhile].
  rewrite (bullet_not_hspace m Hm), Hm, Hw. cbn [andb].
  destruct (takeWhile_app isHSpace extra rest He) as [Ht2 Hd2].
  destruct (takeWhile_stop isHSpace rest Hr) as [Ht3 Hd3].
  rewrite Ht2, Hd2, Ht3, Hd3, !app_nil_r.
  destruct extra as [|x extra]; [contradiction|]. reflexivity.
Qed.

Lemma collapse_other (l : str) :
  (forall m r, dropWhile isHSpace l = m :: r -> isBullet m = false) ->
  collapseSpaces l = l.
Proof.
  intro H. unfold collapseSpaces, extraSpacesParts.
  destruct (dropWhile isHSpace l) as [|m [|w more]] eqn:E; try reflexivity.
  rewrite (H m (w :: more) eq_refl). reflexivity.
Qed.

Lemma complete_bullet (indent : str) (m : Z) :
  forallb isHSpace indent = true -> isBullet m = true ->
  addTrailingSpace (indent ++ [m]) = indent ++ [m] ++ lit " ".
Proof.
  intros Hi Hm. unfold addTrailingSpace, isEmptyListItem.
  destruct (takeWhile_app isHSpace indent [m] Hi) as [_ Hd].
  rewrite Hd. cbn [dropWhile]. rewrite (bullet_not_hspace m Hm), Hm.
  rewrite <- app_assoc. reflexivity.
Qed.

Lemma complete_ordered (indent digits : str) :
  forallb isHSpace indent = true ->
  digits <> [] -> forallb isDigit digits = true ->
  addTrailingSpace (indent ++ digits ++ [46])
  = indent ++ digits ++ [46] ++ lit " ".
Proof.
  intros Hi Hne Hd. unfold addTrailingSpace, isEmptyListItem.
  destruct (takeWhile_app isHSpace indent (digits ++ [46]) Hi) as [_ Hdrop].
  rewrite Hdrop.
  destruct digits as [|d ds]; [contradiction|].
  simpl in Hd. apply andb_true_iff in Hd. destruct Hd as [Hd Hds].
  cbn [app].
  destruct (takeWhile_stop isHSpace (d :: ds ++ [46]) (digit_not_hspace d Hd))
    as [_ Hstop].
  rewrite Hstop, (digit_not_bullet d Hd).
  change (d :: ds ++ [46]) with ((d :: ds) ++ [46]).
  assert (Hall : forallb isDigit (d :: ds) = true)
    by (simpl; rewrite Hd, Hds; reflexivity).
  destruct (takeWhile_app isDigit (d :: ds) [46] Hall) as [Ht2 Hd2].
  rewrite Ht2, Hd2. simpl truthy. simpl str_eqb. cbn [andb].
  rewrite <- !app_assoc. reflexivity.
Qed.

(** C5, as the code has it: on every buffer [removeExtraSpaces] returns
    with every line collapsed and [addTrailingSpaces] with every line
    completed.  A line is collapsed
    when, after its indent, a marker [-], [*] or [+] is followed by more
    than one blank: all but the first blank go; a line whose first unit
    after the indent is no such marker, an ordered marker among them, is
    left alone.  A line is completed with one space when it is the indent
    and a marker [-], [*], [+] or digits and a dot, and nothing else. *)
Theorem list_marker_cleanup :
  (forall (c : MagicString) (T : Z),
      (exists T' c',
          removeExtraSpaces T c = Ok (T', c')
          /\ split 10 (current c')
             = map collapseSpaces (split 10 (current c)))
      /\ (exists T' c',
            addTrailingSpaces T c = Ok (T', c')
            /\ split 10 (current c')
               = map addTrailingSpace (split 10 (current c))))
  /\ (forall (indent extra rest : str) (m w : Z),
        forallb isHSpace indent = true ->
        isBullet m = true -> isHSpace w = true ->
        extra <> [] -> forallb isHSpace extra = true ->
        match rest with [] => True | x :: _ => isHSpace x = false end ->
        collapseSpaces (indent ++ [m; w] ++ extra ++ rest)
        = indent ++ [m; w] ++ rest)
  /\ (forall l : str,
        (forall m r, dropWhile isHSpace l = m :: r -> isBullet m = false) ->
        collapseSpaces l = l)
  /\ (forall (indent : str) (m : Z),
        forallb isHSpace indent = true -> isBullet m = true ->
        addTrailingSpace (indent ++ [m]) = indent ++ [m] ++ lit " ")
  /\ (forall indent digits : str,
        forallb isHSpace indent = true ->
        digits <> [] -> forallb isDigit digits = true ->
        addTrailingSpace (indent ++ digits ++ [46])
        = indent ++ digits ++ [46] ++ lit " ").
Proof.
  split; [|split; [|split; [|split]]].
  - intros c T. split.
    + destruct (removeExtraSpaces_text c T) as (T' & c' & H & _ & Hs).
      exists T', c'. split; assumption.
    + destruct (addTrailingSpaces_text c T) as (T' & c' & H & _ & Hs).
      exists T', c'. split; assumption.
  - exact collapse_unordered.
  - exact collapse_other.
  - exact complete_bullet.
  - exact complete_ordered.
Qed.

Lemma list_marker_cleanup_witness :
  collapseSpaces (lit "  " ++ [45; 32] ++ lit "   " ++ lit "item")
  = lit "  " ++ [45; 32] ++ lit "item"
  /\ addTrailingSpace (lit " " ++ lit "12" ++ [46])
     = lit " " ++ lit "12" ++ [46] ++ lit " ".
Proof.
  destruct list_marker_cleanup as (_ & Hc & _ & _ & Ho). split.
  - apply (Hc (lit "  ") (lit "   ") (lit "item") 45 32);
      try reflexivity; discriminate.
  - apply (Ho (lit " ") (lit "12")); try reflexivity; discriminate.
Defined.

(** C5 as stated fails for an ordered marker: the extra spaces after
    "1." stay, and the pattern does not even match the line. *)
Lemma ordered_marker_keeps_spaces :
  exec REGEXP_UNORDERED_LIST_ITEMS_WITH_EXTRA_SPACES (lit "1.   item") = None
  /\ removeExtraSpaces (-1) (newMagicString (lit "1.   item"))
     = Ok (-1, newMagicString (lit "1.   item")).
Proof. split; vm_compute; reflexivity. Qed.

(** ** Spans out of range *)

Lemma validSpan_false (s e : Z) (c : MagicString) :
  s < 0 \/ e < s \/ len (current c) < e -> validSpan s e c = false.
Proof.
  intro H. destruct (validSpan s e c) eqn:E; [|reflexivity].
  apply validSpan_iff in E. lia.
Qed.

(** The reconciliation of [formatSelection] removes the last unit with
    [delete(-1)]. *)
Lemma reconcileNewline_delete (c : MagicString) :
  endsWith [10] (original c) = false ->
  endsWith [10] (current c) = true ->
  reconcileNewline c = (_ <- delete (-1) None (-1) ;; ret tt) c.
Proof.
  intros Ho Hc. unfold reconcileNewline. rewrite Ho, Hc. reflexivity.
Qed.

(** [delete(-1)], with no end, removes the last unit of a text that has
    one. *)
Lemma delete_last (c : MagicString) :
  current c <> [] ->
  delete (-1) None (-1) c
  = Ok (-1, {| original := original c; current := removelast (current c) |}).
Proof.
  intro H. destruct (exists_last H) as (t & x & E).
  assert (V : validSpan (len (current c) - 1) (len (current c)) c = true).
  { apply validSpan_iff. rewrite E, len_app. change (len [x]) with 1.
    pose proof (len_nonneg t). lia. }
  unfold delete. cbv zeta. change (-1 =? -1) with true. cbv iota.
  rewrite V. f_equal. f_equal. f_equal.
  rewrite E, removelast_last. unfold splice. rewrite len_app.
  change (len [x]) with 1. replace (len t + 1 - 1) with (len t) by lia.
  rewrite firstn_len_app. cbn [app].
  rewrite skipn_all2; [apply app_nil_r|].
  rewrite length_app. unfold len. simpl. lia.
Qed.

Lemma endsWith_not_nil (p s : str) : p <> [] -> endsWith p s = true -> s <> [].
Proof.
  intros Hp H E. subst s. unfold endsWith in H. cbn [rev] in H.
  destruct (rev p) as [|x r] eqn:Er; [|discriminate].
  apply (f_equal (@rev Z)) in Er. rewrite rev_involutive in Er. contradiction.
Qed.

(** C6, as the code has it: an edit primitive called with a span out of
    range (a negative start, an end before the start, an end beyond the
    current text) throws and changes nothing; the four structural passes
    never pass such a span, they always return.  One call site passes a
    negative start and relies on its being accepted: when the selection ends
    in no newline and the formatted text in one, [formatSelection] calls
    [delete(-1)], which removes the last unit of the text. *)
Theorem invalid_spans_fail_fast :
  (forall (s e : Z) (t : str) (T : Z) (c : MagicString),
      s < 0 \/ e < s \/ len (current c) < e ->
      update s e t T c = Throw InvalidSpan
      /\ delete s (Some e) T c = Throw InvalidSpan)
  /\ (forall (a : Z) (t : str) (T : Z) (c : MagicString),
        a < 0 \/ len (current c) < a -> insert a t T c = Throw InvalidSpan)
  /\ (forall (s : Model.Settings) (T : Z) (c : MagicString),
        exists T' c', adjustHeaderLevels s T c = Ok (T', c'))
  /\ (forall (T : Z) (c : MagicString),
        exists T' c', addHeaderNumbering T c = Ok (T', c'))
  /\ (forall (T : Z) (c : MagicString),
        exists T' c', removeExtraSpaces T c = Ok (T', c'))
  /\ (forall (T : Z) (c : MagicString),
        exists T' c', addTrailingSpaces T c = Ok (T', c'))
  /\ (forall c : MagicString,
        endsWith [10] (original c) = false ->
        endsWith [10] (current c) = true ->
        reconcileNewline c = (_ <- delete (-1) None (-1) ;; ret tt) c
        /\ reconcileNewline c
           = Ok (tt, {| original := original c;
                        current := removelast (current c) |})).
Proof.
  split; [|split; [|split; [|split; [|split; [|split]]]]].
  - intros s e t T c H. unfold update, delete.
    rewrite (validSpan_false s e c H). split; reflexivity.
  - intros a t T c H. unfold insert.
    rewrite (validSpan_false a a c) by lia. reflexivity.
  - intros s T c. destruct (adjustHeaderLevels_runs s T c) as (T' & c' & H & _).
    exists T', c'. exact H.
  - intros T c. destruct (addHeaderNumbering_runs T c) as (T' & c' & H & _).
    exists T', c'. exact H.
  - intros T c. destruct (removeExtraSpaces_text c T) as (T' & c' & H & _).
    exists T', c'. exact H.
  - intros T c. destruct (addTrailingSpaces_text c T) as (T' & c' & H & _).
    exists T', c'. exact H.
  - intros c Ho Hc. split; [apply reconcileNewline_delete; assumption|].
    rewrite reconcileNewline_delete by assumption.
    unfold bind. rewrite delete_last; [reflexivity|].
    apply (endsWith_not_nil [10]); [discriminate|exact Hc].
Qed.

Lemma invalid_spans_fail_fast_witness :
  let c := {| original := lit "a"; current := lit "b" ++ [10] |} in
  update 1 5 (lit "x") 0 c = Throw InvalidSpan
  /\ insert (-2) (lit "x") 0 c = Throw InvalidSpan
  /\ reconcileNewline c = Ok (tt, {| original := lit "a"; current := lit "b" |}).
Proof.
  intro c. destruct invalid_spans_fail_fast as (Hu & Hi & _ & _ & _ & _ & Hr).
  split; [|split].
  - apply (Hu 1 5 (lit "x") 0 c). right. right. unfold len. simpl. lia.
  - apply (Hi (-2) (lit "x") 0 c). left. lia.
  - apply (Hr c); reflexivity.
Defined.

(** C6 as stated fails at one call site: for the selection "a", which the
    pretty-printer turns into "b" and a newline, [formatSelection] passes
    the negative start -1 to [delete] and relies on its being accepted: the
    call removes the newline, and the operation replaces the selection by
    "b". *)
Lemma selection_passes_negative_start :
  let h := {| shouldUsePrettier := fun _ => true;
              shouldUseFastMode := fun _ => false;
              prettierFormat := fun _ => Some (lit "b" ++ [10]);
              prettierFormatWithCursor := fun t o => Some (t ++ [10], o);
              vaultRead := fun _ => [];
              nets := fun _ =>
                {| requestUrl := fun _ => None;
                   getFirstLinkpathDest := fun _ _ => None;
                   readBinary := fun _ => None;
                   now := 0;
                   putObject := fun _ _ => None |} |} in
  let editor := {| getValue := lit "a"; getCursor := {| line := 0; ch := 0 |};
                   getSelection := lit "a"; getScrollInfo := (0, 0) |} in
  let file := {| path := lit "note.md"; name := lit "note.md" |} in
  let c := {| original := lit "a"; current := lit "b" ++ [10] |} in
  reconcileNewline c = (_ <- delete (-1) None (-1) ;; ret tt) c
  /\ -1 < 0
  /\ delete (-1) None (-1) c
     = Ok (-1, {| original := lit "a"; current := lit "b" |})
  /\ formatSelection h Model.getDefaultSettings editor (Some file) []
     = Ok ([replaceSelection (lit "b")], []).
Proof. vm_compute. repeat split; reflexivity. Qed.

(** ** The set of failed URLs *)

Lemma has_app (u : str) (a b : UrlSet) : has u (a ++ b) = has u a || has u b.
Proof. unfold has. apply existsb_app. Qed.

Lemma has_add_same (u : str) (s : UrlSet) : has u (add u s) = true.
Proof.
  unfold add. destruct (has u s) eqn:E; [exact E|].
  rewrite has_app. simpl. rewrite str_eqb_refl, orb_true_r. reflexivity.
Qed.

Lemma has_add_mono (u v : str) (s : UrlSet) :
  has u s = true -> has u (add v s) = true.
Proof.
  intro H. unfold add. destruct (has v s); [exact H|].
  rewrite has_app, H. reflexivity.
Qed.

Lemma has_add (u v : str) (s : UrlSet) :
  has u (add v s) = has u s || str_eqb u v.
Proof.
  unfold add. destruct (has v s) eqn:E.
  - destruct (str_eqb u v) eqn:Euv.
    + apply str_eqb_eq in Euv. subst. rewrite E. reflexivity.
    + rewrite orb_false_r. reflexivity.
  - rewrite has_app. simpl. rewrite orb_false_r. reflexivity.
Qed.

(** ** One upload *)

(** An upload leaves the failed URLs as they were or adds its own URL, and
    what it returns does not depend on them. *)
Lemma uploadImage_cases (s : Model.Settings) (net : Network) (u : str)
    (file : TFile) (failed : UrlSet) :
  fst (uploadImage s net u file failed) = uploadOutcome s net u file
  /\ snd (uploadImage s net u file failed)
     = (if uploadRecords s net u file then add u failed else failed)
  /\ (uploadRecords s net u file = true -> uploadOutcome s net u file = None).
Proof.
  unfold uploadOutcome, uploadRecords, uploadImage.
  destruct (Model.tencentCos s) as [cos|]; [|repeat split; discriminate].
  assert (Hadd : has u (add u []) = true) by apply has_add_same.
  repeat match goal with
         | |- context [if ?b then _ else _] =>
             lazymatch b with
             | has _ _ => fail
             | _ => destruct b
             end
         | |- context [match ?x with Some _ => _ | None => _ end] =>
             destruct x
         end;
    cbn [fst snd]; rewrite ?Hadd; cbn [has existsb];
    repeat split; try reflexivity; try discriminate.
Qed.

Lemma uploadImage_download_throws (s : Model.Settings) (cos : Model.TencentCos)
    (net : Network) (u : str) (file : TFile) (failed : UrlSet) :
  Model.tencentCos s = Some cos ->
  startsWith (lit "http") u = true ->
  requestUrl net u = None ->
  uploadImage s net u file failed = (None, add u failed).
Proof.
  intros Hc Hh Hr. unfold uploadImage. rewrite Hc, Hh, Hr. reflexivity.
Qed.

Lemma uploadImage_read_throws (s : Model.Settings) (cos : Model.TencentCos)
    (net : Network) (u : str) (file linked : TFile) (failed : UrlSet) :
  Model.tencentCos s = Some cos ->
  startsWith (lit "http") u = false ->
  getFirstLinkpathDest net (linkPathOf u) (path file) = Some linked ->
  readBinary net linked = None ->
  uploadImage s net u file failed = (None, add u failed).
Proof.
  intros Hc Hh Hl Hr. unfold uploadImage. unfold linkPathOf in Hl.
  rewrite Hc, Hh, Hl, Hr. reflexivity.
Qed.

Ltac put_fails Hput :=
  match goal with
  | |- match putObject ?net ?t ?body with _ => _ end = _ =>
      specialize (Hput t); destruct (putObject net t body) as [status|];
      [|reflexivity];
      destruct (Z.leb_spec 200 status), (Z.ltb_spec status 300); simpl;
      try reflexivity; lia
  end.

Lemma uploadImage_put_fails_remote (s : Model.Settings)
    (cos : Model.TencentCos) (net : Network) (u : str) (file : TFile)
    (failed : UrlSet) (body : list Z) :
  Model.tencentCos s = Some cos ->
  truthy (Model.bucket cos) = true -> truthy (Model.region cos) = true ->
  startsWith (lit "http") u = true ->
  requestUrl net u = Some body ->
  putFails net body ->
  uploadImage s net u file failed = (None, add u failed).
Proof.
  intros Hc Hb Hr Hh Hreq Hput. unfold uploadImage.
  rewrite Hc, Hh, Hreq, Hb, Hr. simpl negb. simpl orb. cbv iota.
  put_fails Hput.
Qed.

Lemma uploadImage_put_fails_local (s : Model.Settings)
    (cos : Model.TencentCos) (net : Network) (u : str) (file linked : TFile)
    (failed : UrlSet) (body : list Z) :
  Model.tencentCos s = Some cos ->
  truthy (Model.bucket cos) = true -> truthy (Model.region cos) = true ->
  startsWith (lit "http") u = false ->
  getFirstLinkpathDest net (linkPathOf u) (path file) = Some linked ->
  readBinary net linked = Some body ->
  putFails net body ->
  uploadImage s net u file failed = (None, add u failed).
Proof.
  intros Hc Hb Hr Hh Hl Hread Hput. unfold uploadImage. unfold linkPathOf in Hl.
  rewrite Hc, Hh, Hl, Hread, Hb, Hr. simpl negb. simpl orb. cbv iota.
  put_fails Hput.
Qed.

(** ** The uploads of a pass *)

Lemma runUploads_matches (s : Model.Settings) (nets : nat -> Network)
    (file : TFile) : forall ms n failed,
  map resultMatch (fst (runUploads s nets file n ms failed)) = ms.
Proof.
  induction ms as [|m ms IH]; intros n failed; simpl; [reflexivity|].
  destruct (uploadImage s (nets n) (url m) file failed) as [r f1].
  specialize (IH (S n) f1).
  destruct (runUploads s nets file (S n) ms f1) as [rs f2].
  simpl in *. rewrite IH. reflexivity.
Qed.

(** Every upload of a pass is made, and each has its own outcome. *)
Lemma runUploads_nth (s : Model.Settings) (nets : nat -> Network)
    (file : TFile) : forall ms n failed j m,
  nth_error ms j = Some m ->
  nth_error (fst (runUploads s nets file n ms failed)) j
  = Some {| resultMatch := m;
            newUrl := uploadOutcome s (nets (n + j)%nat) (url m) file |}.
Proof.
  induction ms as [|m0 ms IH]; intros n failed j m Hj; [destruct j; discriminate|].
  simpl.
  pose proof (uploadImage_cases s (nets n) (url m0) file failed) as (Hout & _).
  destruct (uploadImage s (nets n) (url m0) file failed) as [r f1].
  specialize (IH (S n) f1).
  destruct (runUploads s nets file (S n) ms f1) as [rs f2].
  destruct j as [|j]; simpl in *.
  - injection Hj as <-. rewrite Nat.add_0_r, <- Hout. reflexivity.
  - rewrite (IH j m Hj). repeat f_equal. lia.
Qed.

(** After the uploads, a URL is failed when it was before or when one of
    the uploads recorded it. *)
Lemma runUploads_failed (s : Model.Settings) (nets : nat -> Network)
    (file : TFile) (u : str) : forall ms n failed,
  has u (snd (runUploads s nets file n ms failed)) = true
  <-> has u failed = true
      \/ exists j m, nth_error ms j = Some m /\ url m = u
                     /\ uploadRecords s (nets (n + j)%nat) u file = true.
Proof.
  induction ms as [|m0 ms IH]; intros n failed; simpl.
  - split; [intro H; left; exact H|].
    intros [H|(j & m & Hj & _)]; [exact H|destruct j; discriminate].
  - pose proof (uploadImage_cases s (nets n) (url m0) file failed)
      as (_ & Hset & _).
    destruct (uploadImage s (nets n) (url m0) file failed) as [r f1].
    specialize (IH (S n) f1).
    destruct (runUploads s nets file (S n) ms f1) as [rs f2].
    cbn [fst snd] in *. rewrite IH. subst f1. split.
    + intros [H|(j & m & Hj & Hu & Hrec)].
      * destruct (uploadRecords s (nets n) (url m0) file) eqn:Erec;
          [|left; exact H].
        rewrite has_add in H. apply orb_true_iff in H.
        destruct H as [H|H]; [left; exact H|].
        apply str_eqb_eq in H. subst u.
        right. exists 0%nat, m0. rewrite Nat.add_0_r. repeat split; assumption.
      * right. exists (S j), m. rewrite Nat.add_succ_r. repeat split; assumption.
    + intros [H|(j & m & Hj & Hu & Hrec)].
      * left. destruct (uploadRecords s (nets n) (url m0) file);
          [apply has_add_mono|]; exact H.
      * destruct j as [|j]; simpl in Hj.
        -- injection Hj as ->. subst u. rewrite Nat.add_0_r in Hrec.
           left. rewrite Hrec. apply has_add_same.
        -- right. exists j, m. rewrite Nat.add_succ_r in Hrec.
           repeat split; assumption.
Qed.

Lemma insertResult_In (r x : UploadResult) (rs : list UploadResult) :
  In x (insertResult r rs) <-> x = r \/ In x rs.
Proof.
  induction rs as [|y rs IH]; simpl.
  - split; intros [H|H]; auto.
  - destruct (imgStart (resultMatch y) >? imgStart (resultMatch r)); simpl.
    + rewrite IH. split; intros [H|[H|H]]; auto.
    + split; intros [H|[H|H]]; auto.
Qed.

(** Sorting keeps the results. *)
Lemma sortResults_In (x : UploadResult) (rs : list UploadResult) :
  In x (sortResults rs) <-> In x rs.
Proof.
  induction rs as [|r rs IH]; simpl; [tauto|].
  rewrite insertResult_In, IH. split; intros [H|H]; auto.
Qed.

Lemma candidates_In (s : Model.Settings) (failed : UrlSet) (d : str)
    (ms : list ImageMatch) (m : ImageMatch) :
  In m (candidates s failed d ms)
  <-> In m ms /\ shouldUpload s failed (url m) d = true.
Proof. unfold candidates. apply filter_In. Qed.

(** The pass, when it is configured and finds an image, replays the sorted
    results of its uploads. *)
Lemma uploadImages_results (s : Model.Settings) (cos : Model.TencentCos)
    (nets : nat -> Network) (file : TFile) (T : Z) (failed : UrlSet)
    (c : MagicString) :
  Model.tencentCos s = Some cos ->
  truthy (Model.bucket cos) = true -> truthy (Model.region cos) = true ->
  initCos s = true ->
  findImageMatches (original c) <> [] ->
  uploadImages s nets file T failed c
  = (index <- applyResults
                (sortResults
                   (fst (uploadResults s cos nets file failed (original c)))) T ;;
     ret (index, snd (uploadResults s cos nets file failed (original c)))) c.
Proof.
  intros Hc Hb Hr Hi Hm. unfold uploadImages, uploadResults.
  rewrite Hc, Hb, Hr, Hi. simpl negb. simpl orb. cbv iota.
  destruct (findImageMatches (original c)) as [|m ms] eqn:E; [contradiction|].
  destruct (runUploads s nets file 0 _ failed) as [results failed'].
  reflexivity.
Qed.

(** ** The untracked offset *)

Lemma structuralPasses_runs (s : Model.Settings) (T : Z) (c : MagicString) :
  exists T' c', structuralPasses s T c = Ok (T', c').
Proof.
  unfold structuralPasses, bind.
  assert (H1 : exists T1 c1,
             (if Model.removeExtraSpaces s then removeExtraSpaces T else ret T) c
             = Ok (T1, c1)).
  { destruct (Model.removeExtraSpaces s); [|exists T, c; reflexivity].
    destruct (removeExtraSpaces_text c T) as (T1 & c1 & H & _).
    exists T1, c1. exact H. }
  destruct H1 as (T1 & c1 & ->).
  assert (H2 : exists T2 c2,
             (if Model.addTrailingSpaces s then addTrailingSpaces T1
              else ret T1) c1 = Ok (T2, c2)).
  { destruct (Model.addTrailingSpaces s); [|exists T1, c1; reflexivity].
    destruct (addTrailingSpaces_text c1 T1) as (T2 & c2 & H & _).
    exists T2, c2. exact H. }
  destruct H2 as (T2 & c2 & ->).
  assert (H3 : exists T3 c3,
             (if Model.headerStartLevel s >? 1 then adjustHeaderLevels s T2
              else ret T2) c2 = Ok (T3, c3)).
  { destruct (Model.headerStartLevel s >? 1); [|exists T2, c2; reflexivity].
    destruct (adjustHeaderLevels_runs s T2 c2) as (T3 & c3 & H & _).
    exists T3, c3. exact H. }
  destruct H3 as (T3 & c3 & ->).
  destruct (Model.autoNumbering s); [|exists T3, c3; reflexivity].
  destruct (addHeaderNumbering_runs T3 c3) as (T4 & c4 & H & _).
  exists T4, c4. exact H.
Qed.

(** C9: with tracking disabled (the offset is -1) every remap step gives
    -1 back: the upload pass when it returns, and the four structural
    passes and their sequence, which always return; [formatContent] in fast
    mode never sets the cursor, [formatFile] never does, and whenever
    [formatContent] sets the cursor the offset its passes ended with is not
    -1 and the cursor is the position of that offset. *)
Theorem untracked_offset :
  (forall s nets file failed c r c',
      uploadImages s nets file (-1) failed c = Ok (r, c') -> fst r = -1)
  /\ (forall c, exists c', removeExtraSpaces (-1) c = Ok (-1, c'))
  /\ (forall c, exists c', addTrailingSpaces (-1) c = Ok (-1, c'))
  /\ (forall s c, exists c', adjustHeaderLevels s (-1) c = Ok (-1, c'))
  /\ (forall c, exists c', addHeaderNumbering (-1) c = Ok (-1, c'))
  /\ (forall s c, exists c', structuralPasses s (-1) c = Ok (-1, c'))
  /\ (forall h s editor file failed calls failed' p,
        shouldUseFastMode h file = true ->
        formatContent h s editor (Some file) failed = Ok (calls, failed') ->
        ~ In (setCursor p) calls)
  /\ (forall h s file failed calls failed' p,
        formatFile h s file failed = Ok (calls, failed') ->
        ~ In (setCursor p) calls)
  /\ (forall h s editor file failed calls failed' p,
        formatContent h s editor (Some file) failed = Ok (calls, failed') ->
        In (setCursor p) calls ->
        exists offset content,
          contentPasses h s editor file failed
            (newMagicString (getValue editor))
          = Ok ((offset, failed'), content)
          /\ offset <> -1
          /\ p = offsetToPosition offset content).
Proof.
  repeat match goal with |- _ /\ _ => split end.
  - intros; eapply uploadImages_untracked; eassumption.
  - intro c. destruct (removeExtraSpaces_text c (-1)) as (T & c' & H & _).
    exists c'. rewrite H. rewrite (removeExtraSpaces_untracked _ _ _ H).
    reflexivity.
  - intro c. destruct (addTrailingSpaces_text c (-1)) as (T & c' & H & _).
    exists c'. rewrite H. rewrite (addTrailingSpaces_untracked _ _ _ H).
    reflexivity.
  - intros s c. destruct (adjustHeaderLevels_runs s (-1) c) as (T & c' & H & _).
    exists c'. rewrite H. rewrite (adjustHeaderLevels_untracked _ _ _ _ H).
    reflexivity.
  - intro c. destruct (addHeaderNumbering_runs (-1) c) as (T & c' & H & _).
    exists c'. rewrite H. rewrite (addHeaderNumbering_untracked _ _ _ H).
    reflexivity.
  - intros s c. destruct (structuralPasses_runs s (-1) c) as (T & c' & H).
    exists c'. rewrite H. rewrite (structuralPasses_untracked _ _ _ _ H).
    reflexivity.
  - intros h s editor file failed calls failed' p Hfast. unfold formatContent.
    destruct (negb (shouldUsePrettier h file)); [intros [= <- _] []|].
    destruct (getScrollInfo editor) as [left top].
    destruct (contentPasses h s editor file failed _)
      as [[[offset f1] content]|e] eqn:E; [|discriminate].
    rewrite (contentPasses_fast _ _ _ _ _ _ _ _ _ Hfast E).
    destruct (negb (isModified content)); intros [= <- _]; simpl; [tauto|].
    intros [H|[H|[]]]; discriminate.
  - intros h s file failed calls failed' p. unfold formatFile.
    destruct (negb (shouldUsePrettier h file)); [intros [= <- _] []|].
    match goal with |- match ?m with _ => _ end = _ -> _ =>
      destruct m as [[[offset f1] content]|e] end; [|discriminate].
    destruct (negb (isModified content)); intros [= <- _]; simpl; [tauto|].
    intros [H|[]]; discriminate.
  - intros h s editor file failed calls failed' p. unfold formatContent.
    destruct (negb (shouldUsePrettier h file)); [intros [= <- _] []|].
    destruct (getScrollInfo editor) as [left top].
    destruct (contentPasses h s editor file failed _)
      as [[[offset f1] content]|e] eqn:E; [|discriminate].
    destruct (negb (isModified content)); [intros [= <- _] []|].
    intros [= <- <-] Hin. exists offset, content. split; [reflexivity|].
    destruct (Z.eqb_spec offset (-1)) as [Heq|Hne]; simpl in Hin.
    + destruct Hin as [H|[H|[]]]; discriminate.
    + destruct Hin as [H|[H|[H|[]]]]; try discriminate.
      injection H as <-. split; [exact Hne|reflexivity].
Qed.

Lemma untracked_offset_witness :
  let h := {| shouldUsePrettier := fun _ => true;
              shouldUseFastMode := fun _ => true;
              prettierFormat := fun t => Some (t ++ [10]);
              prettierFormatWithCursor := fun t o => Some (t ++ [10], o);
              vaultRead := fun _ => [];
              nets := fun _ =>
                {| requestUrl := fun _ => None;
                   getFirstLinkpathDest := fun _ _ => None;
                   readBinary := fun _ => None;
                   now := 0;
                   putObject := fun _ _ => None |} |} in
  let s := {| Model.formatOnSave := false; Model.formatOnFileChange := false;
              Model.removeExtraSpaces := true;
              Model.addTrailingSpaces := true;
              Model.headerStartLevel := 2; Model.autoNumbering := true;
              Model.tencentCos := None |} in
  let editor := {| getValue := lit "# a"; getCursor := {| line := 0; ch := 2 |};
                   getSelection := []; getScrollInfo := (0, 0) |} in
  let file := {| path := lit "note.md"; name := lit "note.md" |} in
  let calls := [setValue (lit "## 1. a" ++ [10]); scrollTo 0 0] in
  formatContent h s editor (Some file) [] = Ok (calls, [])
  /\ ~ In (setCursor {| line := 0; ch := 2 |}) calls.
Proof.
  intros h s editor file calls.
  assert (Hrun : formatContent h s editor (Some file) [] = Ok (calls, []))
    by (vm_compute; reflexivity).
  split; [exact Hrun|].
  destruct untracked_offset as (_ & _ & _ & _ & _ & _ & Hfast & _).
  apply (Hfast h s editor file [] calls []); [reflexivity|exact Hrun].
Defined.

(* ================================================================ *)
(** * Further properties of the passes *)

(** ** The order of the edits of a pass *)

Lemma ascending_from (hi : Z) (es : list Edit) (lo lo' : Z) :
  lo' <= lo -> ascending lo hi es -> ascending lo' hi es.
Proof.
  destruct es as [|e more]; simpl; [auto|].
  intros Hlo (H1 & H2 & H3 & H4). repeat split; try assumption. lia.
Qed.

Lemma len_join_cons (l : str) (more : list str) :
  len l <= len (join [10] (l :: more))
  /\ (more <> [] ->
      len (join [10] (l :: more)) = len l + 1 + len (join [10] more)).
Proof.
  destruct more as [|l' more'].
  - simpl. split; [lia|]. intro H. contradiction H. reflexivity.
  - change (join [10] (l :: l' :: more')) with (l ++ [10] ++ join [10] (l' :: more')).
    rewrite !len_app. change (len [10]) with 1.
    pose proof (len_nonneg (join [10] (l' :: more'))). split; [lia|].
    intros _. lia.
Qed.

Lemma globalEdits_ascending : forall les off,
  editsOnLines les ->
  ascending off (off + len (join [10] (map fst les))) (globalEdits off les).
Proof.
  induction les as [|[l oe] more IH]; intros off Hok; [exact I|].
  inversion Hok as [|x xs Hl Hmore]; subst. simpl in Hl.
  cbn [globalEdits map fst].
  destruct (len_join_cons l (map fst more)) as [Hle Heq].
  assert (Hrest : ascending (off + len l + 1)
                    (off + len (join [10] (l :: map fst more)))
                    (globalEdits (off + len l + 1) more)).
  { destruct more as [|p more']; [exact I|].
    specialize (IH (off + len l + 1) Hmore).
    rewrite Heq by discriminate.
    replace (off + (len l + 1 + len (join [10] (map fst (p :: more')))))
      with (off + len l + 1 + len (join [10] (map fst (p :: more')))) by lia.
    exact IH. }
  pose proof (len_nonneg l) as Hl0.
  destruct oe as [e|]; cbn [app].
  - destruct Hl as (H1 & H2 & H3). cbn [ascending]. unfold moveEdit at 1 2 3 4.
    cbn [start end_]. repeat split; try lia.
    apply (ascending_from _ _ (off + len l + 1)); [|exact Hrest].
    unfold moveEdit. cbn [end_]. lia.
  - apply (ascending_from _ _ (off + len l + 1)); [lia|exact Hrest].
Qed.

(** X1: the edits the level shift and the renumbering collect, for any shift
    and any least level, are in the order of the text, lie inside it, and
    each one ends before the next one starts, with at least one unit between
    them: replaying them from the last to the first leaves the spans of the
    earlier ones valid. *)
Theorem heading_edits_ascending (lines : list str) (shift minLevel : Z) :
  ascending 0 (len (join [10] lines)) (shiftEdits shift lines)
  /\ ascending 0 (len (join [10] lines)) (numberingEdits minLevel lines).
Proof.
  split.
  - rewrite shiftEdits_lines.
    pose proof (globalEdits_ascending (shiftLines shift false lines) 0
                  (shiftLines_ok _ _ _)) as H.
    rewrite shiftLines_fst in H. exact H.
  - rewrite numberingEdits_lines.
    pose proof (globalEdits_ascending (numberLines minLevel false [] lines) 0
                  (numberLines_ok _ _ _ _)) as H.
    rewrite numberLines_fst in H. exact H.
Qed.

(** ** The shape of a heading line *)

Lemma dropWhile_stops (p : Z -> bool) (s : str) :
  match dropWhile p s with [] => True | c :: _ => p c = false end.
Proof.
  destruct (dropWhile p s) as [|c r] eqn:E; [exact I|].
  eapply dropWhile_head, E.
Qed.

(** What the pattern of a heading cuts a line into. *)
Lemma headerParts_shape (l indent hashes sp rest : str) :
  headerParts l = Some (indent, hashes, sp, rest) ->
  l = indent ++ hashes ++ sp ++ rest
  /\ forallb isWhiteSpace indent = true
  /\ hashes <> [] /\ forallb isHash hashes = true
  /\ sp <> [] /\ forallb isWhiteSpace sp = true
  /\ match rest with [] => True | c :: _ => isWhiteSpace c = false end.
Proof.
  intro H. destruct (headerParts_inv _ _ _ _ _ H) as (Hl & Hh & Hs & Hall).
  revert H. unfold headerParts.
  destruct (truthy (takeWhile isHash (dropWhile isWhiteSpace l))
            && truthy (takeWhile isWhiteSpace
                         (dropWhile isHash (dropWhile isWhiteSpace l))));
    [|discriminate].
  intros [= <- <- <- <-]. repeat split.
  - exact Hl.
  - apply takeWhile_all.
  - intro E. rewrite E in Hh. discriminate.
  - exact Hall.
  - intro E. rewrite E in Hs. discriminate.
  - apply takeWhile_all.
  - apply dropWhile_stops.
Qed.

(** A line put together from such parts is cut into them again. *)
Lemma headerParts_intro (indent hashes sp rest : str) :
  forallb isWhiteSpace indent = true ->
  hashes <> [] -> forallb isHash hashes = true ->
  sp <> [] -> forallb isWhiteSpace sp = true ->
  match rest with [] => True | c :: _ => isWhiteSpace c = false end ->
  headerParts (indent ++ hashes ++ sp ++ rest) = Some (indent, hashes, sp, rest).
Proof.
  intros Hi Hh Hha Hs Hsa Hr. unfold headerParts.
  destruct (takeWhile_app isWhiteSpace indent (hashes ++ sp ++ rest) Hi)
    as [T1 D1].
  assert (Hstop1 : takeWhile isWhiteSpace (hashes ++ sp ++ rest) = []
                   /\ dropWhile isWhiteSpace (hashes ++ sp ++ rest)
                      = hashes ++ sp ++ rest).
  { apply takeWhile_stop. destruct hashes as [|h hs]; [contradiction|].
    simpl in Hha. apply andb_prop in Hha. apply hash_not_space, Hha. }
  destruct Hstop1 as [T1' D1'].
  destruct (takeWhile_app isHash hashes (sp ++ rest) Hha) as [T2 D2].
  assert (Hstop2 : takeWhile isHash (sp ++ rest) = []
                   /\ dropWhile isHash (sp ++ rest) = sp ++ rest).
  { apply takeWhile_stop. destruct sp as [|x xs]; [contradiction|].
    simpl in Hsa. apply andb_prop in Hsa. apply space_not_hash, Hsa. }
  destruct Hstop2 as [T2' D2'].
  destruct (takeWhile_app isWhiteSpace sp rest Hsa) as [T3 D3].
  destruct (takeWhile_stop isWhiteSpace rest Hr) as [T3' D3'].
  rewrite T1, D1, T1', D1', app_nil_r, T2, D2, T2', D2', app_nil_r,
    T3, D3, T3', D3', app_nil_r.
  destruct hashes; [contradiction|]. destruct sp; [contradiction|].
  reflexivity.
Qed.

Lemma dropWhile_app_last (p : Z -> bool) (s : str) (c : Z) :
  p c = false -> exists y, dropWhile p (s ++ [c]) = y ++ [c].
Proof.
  intro Hc. induction s as [|x s IH]; simpl.
  - rewrite Hc. exists []. reflexivity.
  - destruct (p x); [exact IH|]. exists (x :: s). reflexivity.
Qed.

(** The first unit of a line that starts with no white space is the first
    unit of the trimmed line. *)
Lemma trim_head (c : Z) (s : str) :
  isWhiteSpace c = false -> exists y, trim (c :: s) = c :: y.
Proof.
  intro Hc. unfold trim. simpl dropWhile at 2. rewrite Hc.
  change (rev (c :: s)) with (rev s ++ [c]).
  destruct (dropWhile_app_last isWhiteSpace (rev s) c Hc) as [y ->].
  rewrite rev_app_distr. exists (rev y). reflexivity.
Qed.

Lemma trim_indent (indent s : str) :
  forallb isWhiteSpace indent = true -> trim (indent ++ s) = trim s.
Proof.
  intro H. unfold trim.
  destruct (takeWhile_app isWhiteSpace indent s H) as [_ ->]. reflexivity.
Qed.

(** A heading line is no fence line, whatever its level. *)
Lemma heading_not_fence (indent hashes more : str) :
  forallb isWhiteSpace indent = true ->
  hashes <> [] -> forallb isHash hashes = true ->
  isFence (indent ++ hashes ++ more) = false.
Proof.
  intros Hi Hh Hha. unfold isFence. rewrite (trim_indent _ _ Hi).
  destruct hashes as [|h hs]; [contradiction|].
  simpl in Hha. apply andb_prop in Hha. destruct Hha as [Hh1 _].
  change ((h :: hs) ++ more) with (h :: (hs ++ more)).
  destruct (trim_head h (hs ++ more) (hash_not_space _ Hh1)) as [y ->].
  unfold isHash in Hh1. apply Z.eqb_eq in Hh1. subst h. reflexivity.
Qed.

Lemma headerParts_not_fence (l indent hashes sp rest : str) :
  headerParts l = Some (indent, hashes, sp, rest) -> isFence l = false.
Proof.
  intro H. destruct (headerParts_shape _ _ _ _ _ H) as (-> & Hi & Hh & Hha & _).
  apply heading_not_fence; assumption.
Qed.

Lemma forallb_hashesOf (n : Z) : forallb isHash (hashesOf n) = true.
Proof.
  unfold hashesOf. induction (Z.to_nat n); simpl; [reflexivity|assumption].
Qed.

Lemma len_hashesOf (n : Z) : 0 <= n -> len (hashesOf n) = n.
Proof.
  intro H. unfold hashesOf, len. rewrite repeat_length. lia.
Qed.

Lemma hashesOf_len (hashes : str) :
  forallb isHash hashes = true -> hashesOf (len hashes) = hashes.
Proof.
  unfold hashesOf, len. rewrite Nat2Z.id.
  induction hashes as [|h hs IH]; simpl; [reflexivity|].
  intro H. apply andb_prop in H. destruct H as [H1 H2].
  unfold isHash in H1. apply Z.eqb_eq in H1. subst h. rewrite IH by exact H2.
  reflexivity.
Qed.

Lemma hashesOf_not_nil (n : Z) : 1 <= n -> hashesOf n <> [].
Proof.
  intros H E. apply (f_equal len) in E. rewrite len_hashesOf in E by lia.
  change (len []) with 0 in E. lia.
Qed.

(** A heading line at another level is a heading line with the same indent,
    space and rest, and no fence line either. *)
Lemma withLevel_parts (n : Z) (l indent hashes sp rest : str) :
  1 <= n ->
  headerParts l = Some (indent, hashes, sp, rest) ->
  headerParts (withLevel n l) = Some (indent, hashesOf n, sp, rest)
  /\ isFence (withLevel n l) = isFence l.
Proof.
  intros Hn H. unfold withLevel. rewrite H.
  destruct (headerParts_shape _ _ _ _ _ H)
    as (Hl & Hi & Hh & Hha & Hs & Hsa & Hr).
  split.
  - apply headerParts_intro; auto using hashesOf_not_nil, forallb_hashesOf.
  - rewrite (headerParts_not_fence _ _ _ _ _ H).
    apply heading_not_fence; auto using hashesOf_not_nil, forallb_hashesOf.
Qed.

Lemma withLevel_same (l indent hashes sp rest : str) :
  headerParts l = Some (indent, hashes, sp, rest) ->
  withLevel (len hashes) l = l.
Proof.
  intro H. unfold withLevel. rewrite H.
  destruct (headerParts_shape _ _ _ _ _ H) as (Hl & _ & _ & Hha & _).
  rewrite (hashesOf_len _ Hha). symmetry. exact Hl.
Qed.

(** ** The level shift on the levels *)

Lemma splice_parts (a b c t : str) :
  splice (len a) (len a + len b) t (a ++ b ++ c) = a ++ t ++ c.
Proof.
  unfold splice. rewrite firstn_len_app. rewrite <- len_app, (app_assoc a b c).
  rewrite skipn_len_app. reflexivity.
Qed.

Lemma shiftedLevel_positive (shift level : Z) :
  1 <= level -> 1 <= shiftedLevel shift level.
Proof.
  intro H. unfold shiftedLevel. cbv zeta.
  destruct (Z.leb_spec 1 (level + shift)); simpl; [|exact H].
  destruct (level + shift <=? 6); [assumption|exact H].
Qed.

(** A line after its edit of the level shift. *)
Lemma rewrite_shiftEdit (shift : Z) (l : str) :
  rewriteLine (l, shiftEditOf shift l)
  = match hashesOfLine l with
    | Some hashes => withLevel (shiftedLevel shift (len hashes)) l
    | None => l
    end.
Proof.
  unfold rewriteLine, shiftEditOf, hashesOfLine. cbn [fst snd].
  destruct (headerParts l) as [[[[indent hashes] sp] rest]|] eqn:Hp;
    [|reflexivity].
  cbv zeta. unfold shiftedLevel. cbv zeta.
  destruct (headerParts_shape _ _ _ _ _ Hp) as (Hl & _).
  destruct (Z.eqb_spec (len hashes + shift) (len hashes)) as [He|Hne];
    cbn [negb andb].
  - rewrite He.
    destruct ((1 <=? len hashes) && (len hashes <=? 6));
      symmetry; eapply withLevel_same, Hp.
  - destruct ((1 <=? len hashes + shift) && (len hashes + shift <=? 6)).
    + cbn [start end_ text]. unfold withLevel. rewrite Hp.
      etransitivity; [|apply (splice_parts indent hashes (sp ++ rest))].
      f_equal. exact Hl.
    + symmetry. eapply withLevel_same, Hp.
Qed.

Lemma shiftLines_rewritten (shift : Z) : forall lines b,
  map rewriteLine (shiftLines shift b lines) = shiftedLines shift b lines.
Proof.
  induction lines as [|l more IH]; intro b; [reflexivity|].
  cbn [shiftLines shiftedLines map]. cbv zeta. rewrite IH. f_equal.
  destruct (toggle l b); [reflexivity|]. apply rewrite_shiftEdit.
Qed.

Lemma shiftedLines_levels (shift : Z) : forall lines b,
  visibleLevels b (shiftedLines shift b lines)
  = map (shiftedLevel shift) (visibleLevels b lines).
Proof.
  induction lines as [|l more IH]; intro b; [reflexivity|].
  cbn [shiftedLines visibleLevels]. cbv zeta.
  destruct (toggle l b) eqn:Ht.
  - rewrite Ht. apply IH.
  - destruct (hashesOfLine l) as [h|] eqn:Hh0.
    + unfold hashesOfLine in Hh0.
      destruct (headerParts l) as [[[[indent hashes] sp] rest]|] eqn:Hp;
        [|discriminate].
      injection Hh0 as <-.
      destruct (headerParts_inv _ _ _ _ _ Hp) as (_ & Hh & _).
      assert (Hn : 1 <= shiftedLevel shift (len hashes))
        by (apply shiftedLevel_positive; lia).
      destruct (withLevel_parts _ _ _ _ _ _ Hn Hp) as [Hp' Hf'].
      rewrite (toggle_same_fence l _ b Hf'), Ht.
      unfold hashesOfLine. rewrite Hp'. cbn [map]. rewrite IH.
      rewrite len_hashesOf by lia. reflexivity.
    + rewrite Ht, Hh0. apply IH.
Qed.

Lemma shiftedLines_zero : forall lines b, shiftedLines 0 b lines = lines.
Proof.
  induction lines as [|l more IH]; intro b; [reflexivity|].
  cbn [shiftedLines]. cbv zeta. rewrite IH. f_equal.
  destruct (toggle l b); [reflexivity|]. unfold hashesOfLine.
  destruct (headerParts l) as [[[[indent hashes] sp] rest]|] eqn:Hp;
    [|reflexivity].
  replace (shiftedLevel 0 (len hashes)) with (len hashes).
  - eapply withLevel_same, Hp.
  - unfold shiftedLevel. cbv zeta. rewrite Z.add_0_r.
    destruct ((1 <=? len hashes) && (len hashes <=? 6)); reflexivity.
Qed.

Lemma shiftedLines_no_heading (shift : Z) : forall lines b,
  visibleLevels b lines = [] -> shiftedLines shift b lines = lines.
Proof.
  induction lines as [|l more IH]; intro b; [reflexivity|].
  cbn [shiftedLines visibleLevels]. cbv zeta.
  destruct (toggle l b).
  - intro H. rewrite IH by exact H. reflexivity.
  - destruct (hashesOfLine l); [discriminate|].
    intro H. rewrite IH by exact H. reflexivity.
Qed.

(** The level shift returns, and its text is the text with every heading
    outside fenced blocks at its shifted level. *)
Lemma adjustHeaderLevels_text (s : Model.Settings) (c : MagicString) (T : Z) :
  let lines := split 10 (current c) in
  let shift :=
    Model.headerStartLevel s - leastLevel (visibleLevels false lines) in
  exists T' c',
    adjustHeaderLevels s T c = Ok (T', c')
    /\ original c' = original c
    /\ split 10 (current c') = shiftedLines shift false lines.
Proof.
  intros lines shift. unfold adjustHeaderLevels. cbv zeta. fold lines.
  destruct (scanLines_levels lines) as [Hhas Hmin]. rewrite Hhas, Hmin.
  fold shift.
  destruct (visibleLevels false lines) eqn:Hv.
  - exists T, c. simpl. repeat split.
    symmetry. apply shiftedLines_no_heading, Hv.
  - cbn [truthy negb]. destruct (Z.eqb_spec shift 0) as [H0|H0].
    + exists T, c. unfold ret. repeat split. rewrite H0.
      symmetry. apply shiftedLines_zero.
    + rewrite shiftEdits_lines.
      destruct (applyEdits_text c (shiftLines shift false lines) T
                  (shiftLines_fst _ _ _) (shiftLines_ok _ _ _)
                  (shiftLines_keep _ _ _)) as (T' & c' & Hrun & Ho & Hsplit).
      exists T', c'. repeat split; [exact Hrun|exact Ho|].
      rewrite Hsplit. apply shiftLines_rewritten.
Qed.

Lemma shiftedLines_nth (shift : Z) : forall lines b i,
  nth_error (shiftedLines shift b lines) i
  = match nth_error lines i with
    | Some l =>
        Some (if fenceAt b lines i then l
              else match hashesOfLine l with
                   | Some hashes => withLevel (shiftedLevel shift (len hashes)) l
                   | None => l
                   end)
    | None => None
    end.
Proof.
  induction lines as [|l more IH]; intros b [|i]; simpl; try reflexivity.
  - rewrite fenceAt_O. reflexivity.
  - rewrite IH, fenceAt_S. reflexivity.
Qed.

Lemma shiftedLines_length (shift : Z) : forall lines b,
  length (shiftedLines shift b lines) = length lines.
Proof.
  induction lines as [|l more IH]; intro b; [reflexivity|].
  simpl. rewrite IH. reflexivity.
Qed.

(** X2: the level shift always returns.  With [shift] the start level of the
    settings minus the least level of the headings outside fenced blocks
    (100 when all have more hashes, or there is none), a
    heading outside fenced blocks of level [n] has the level [n + shift]
    afterwards when that is between 1 and 6 and keeps its level otherwise
    (it is not clamped); its indent, the space after the hashes and its text
    stay.  A line inside a fenced block or without the shape of a heading
    stays as it is, and the lines are as many as before. *)
Theorem shift_moves_levels (s : Model.Settings) (c : MagicString) (T : Z) :
  let lines := split 10 (current c) in
  let levels := visibleLevels false lines in
  let shift := Model.headerStartLevel s - leastLevel levels in
  exists T' c',
    adjustHeaderLevels s T c = Ok (T', c')
    /\ length (split 10 (current c')) = length lines
    /\ visibleLevels false (split 10 (current c'))
       = map (shiftedLevel shift) levels
    /\ (forall i l,
          nth_error lines i = Some l ->
          insideFence lines i = true \/ headerParts l = None ->
          nth_error (split 10 (current c')) i = Some l)
    /\ (forall i l indent hashes sp rest,
          nth_error lines i = Some l ->
          insideFence lines i = false ->
          headerParts l = Some (indent, hashes, sp, rest) ->
          nth_error (split 10 (current c')) i
          = Some (indent ++ hashesOf (shiftedLevel shift (len hashes))
                  ++ sp ++ rest)).
Proof.
  intros lines levels shift.
  destruct (adjustHeaderLevels_text s c T) as (T' & c' & Hrun & _ & Hsplit).
  fold lines in Hsplit. fold levels in Hsplit. fold shift in Hsplit.
  exists T', c'. rewrite Hsplit. split; [exact Hrun|]. split; [|split; [|split]].
  - apply shiftedLines_length.
  - apply shiftedLines_levels.
  - intros i l Hi H. rewrite shiftedLines_nth, Hi.
    rewrite insideFence_fenceAt in H. destruct H as [H|H].
    + rewrite H. reflexivity.
    + unfold hashesOfLine. rewrite H.
      destruct (fenceAt false lines i); reflexivity.
  - intros i l indent hashes sp rest Hi Hf Hp. rewrite shiftedLines_nth, Hi.
    rewrite insideFence_fenceAt in Hf. rewrite Hf.
    unfold hashesOfLine, withLevel. rewrite Hp. reflexivity.
Qed.

(** ** The level shift reaches the start level *)

Lemma leastLevel_In (levels : list Z) :
  leastLevel levels < 100 -> In (leastLevel levels) levels.
Proof.
  unfold leastLevel. induction levels as [|x xs IH]; simpl; [lia|].
  intro H. destruct (Z.min_spec x (fold_right Z.min 100 xs)) as [[_ E]|[Hle E]].
  - left. symmetry. exact E.
  - right. rewrite E in *. apply IH, H.
Qed.

Lemma leastLevel_bound (levels : list Z) : leastLevel levels <= 100.
Proof.
  unfold leastLevel. induction levels as [|x xs IH]; simpl; lia.
Qed.

Lemma leastLevel_unique (levels : list Z) (n : Z) :
  n < 100 -> In n levels -> (forall x, In x levels -> n <= x) ->
  leastLevel levels = n.
Proof.
  intros Hn Hin Hle. pose proof (leastLevel_le levels n Hin) as H1.
  assert (H2 : leastLevel levels < 100) by lia.
  pose proof (Hle _ (leastLevel_In levels H2)). lia.
Qed.

(** X3: when some heading outside fenced blocks has fewer than 100 hashes
    and every such heading has a shifted level between 1 and 6, the least
    level after the level shift is the start level of the settings, and the
    level shift on its own result changes nothing: it returns the buffer and
    the offset it was given. *)
Theorem shift_reaches_start_level (s : Model.Settings) (c : MagicString)
    (T : Z) :
  let levels := visibleLevels false (split 10 (current c)) in
  let shift := Model.headerStartLevel s - leastLevel levels in
  leastLevel levels < 100 ->
  Forall (fun level => 1 <= level + shift /\ level + shift <= 6) levels ->
  exists T' c',
    adjustHeaderLevels s T c = Ok (T', c')
    /\ leastLevel (visibleLevels false (split 10 (current c')))
       = Model.headerStartLevel s
    /\ forall T2, adjustHeaderLevels s T2 c' = Ok (T2, c').
Proof.
  intros levels shift Hleast Hfit.
  destruct (adjustHeaderLevels_text s c T) as (T' & c' & Hrun & _ & Hsplit).
  fold levels in Hsplit. fold shift in Hsplit.
  exists T', c'. split; [exact Hrun|].
  assert (Hlevels : visibleLevels false (split 10 (current c'))
                    = map (fun level => level + shift) levels).
  { rewrite Hsplit, shiftedLines_levels. fold levels.
    apply map_ext_in. intros x Hx. rewrite Forall_forall in Hfit.
    destruct (Hfit x Hx) as [H1 H6]. unfold shiftedLevel. cbv zeta.
    destruct (Z.leb_spec 1 (x + shift)); [|lia].
    destruct (Z.leb_spec (x + shift) 6); [reflexivity|lia]. }
  assert (Hnew : leastLevel (visibleLevels false (split 10 (current c')))
                 = Model.headerStartLevel s).
  { rewrite Hlevels. pose proof (leastLevel_In levels Hleast) as Hin.
    rewrite Forall_forall in Hfit. destruct (Hfit _ Hin) as [H1 H6].
    apply leastLevel_unique.
    - unfold shift in H6. lia.
    - apply in_map_iff. exists (leastLevel levels). split; [|exact Hin].
      unfold shift. lia.
    - intros x Hx. apply in_map_iff in Hx. destruct Hx as (y & <- & Hy).
      pose proof (leastLevel_le levels y Hy). unfold shift. lia. }
  split; [exact Hnew|].
  intro T2. apply adjustHeaderLevels_noop. right.
  destruct (scanLines_levels (split 10 (current c'))) as [_ ->].
  rewrite Hnew. lia.
Qed.

Lemma shift_reaches_start_level_witness :
  let s := Model.getDefaultSettings in
  let c := newMagicString (join [10] (map lit ["### a"; "text"; "#### b"])) in
  exists T' c',
    adjustHeaderLevels s 3 c = Ok (T', c')
    /\ leastLevel (visibleLevels false (split 10 (current c'))) = 1
    /\ forall T2, adjustHeaderLevels s T2 c' = Ok (T2, c').
Proof.
  intros s c. apply (shift_reaches_start_level s c 3).
  - vm_compute. reflexivity.
  - assert (E : visibleLevels false (split 10 (current c)) = [3; 4])
      by (vm_compute; reflexivity).
    rewrite E. change (leastLevel [3; 4]) with 3.
    change (Model.headerStartLevel s) with 1.
    repeat constructor; lia.
Defined.

(** ** The prefixes are dotted numbers *)

Lemma digits_uint (d : Decimal.uint) :
  forallb isDigit (lit (DecimalString.NilEmpty.string_of_uint d)) = true.
Proof. induction d; simpl; try reflexivity; exact IHd. Qed.

Lemma numberToString_digits (n : Z) :
  0 <= n ->
  forallb isDigit (numberToString n) = true /\ numberToString n <> [].
Proof.
  intro Hn. unfold numberToString, DecimalString.NilZero.string_of_int,
    DecimalString.NilZero.string_of_uint.
  destruct n as [|p|p]; [split; [reflexivity|discriminate]| |lia].
  cbn [Z.to_int]. destruct (Pos.to_uint p) as [|d|d|d|d|d|d|d|d|d|d];
    (split; [first [reflexivity | apply (digits_uint (_ d)) | idtac]
            |try discriminate]).
  all: try (simpl; apply digits_uint).
Qed.

Lemma digit_is_number c : isDigit c = true -> isDigitOrDot c = true.
Proof. intro H. unfold isDigitOrDot. rewrite H. reflexivity. Qed.

Lemma forallb_weaken (p q : Z -> bool) (s : str) :
  (forall c, p c = true -> q c = true) ->
  forallb p s = true -> forallb q s = true.
Proof.
  intros Hpq. induction s as [|c s IH]; simpl; [reflexivity|].
  intro H. apply andb_prop in H. destruct H as [H1 H2].
  rewrite (Hpq _ H1), (IH H2). reflexivity.
Qed.

Lemma join_dots_number (parts : list str) :
  Forall (fun p => forallb isDigitOrDot p = true) parts ->
  forallb isDigitOrDot (join (lit ".") parts) = true.
Proof.
  induction 1 as [|p more Hp Hmore IH]; [reflexivity|].
  destruct more as [|p2 more]; [exact Hp|].
  change (join (lit ".") (p :: p2 :: more))
    with (p ++ lit "." ++ join (lit ".") (p2 :: more)).
  rewrite !forallb_app, Hp, IH. reflexivity.
Qed.

(** The prefix of counters that are not negative is a run of digits and
    dots that is not empty. *)
Lemma numberingPrefix_number (level : Z) (cs : list Z) :
  cs <> [] -> Forall (fun x => 0 <= x) cs ->
  forallb isDigitOrDot (numberingPrefix level cs) = true
  /\ numberingPrefix level cs <> [].
Proof.
  intros Hne Hpos.
  assert (Hall : forallb isDigitOrDot (join (lit ".") (map numberToString cs))
                 = true).
  { apply join_dots_number. apply Forall_map.
    eapply Forall_impl; [|exact Hpos]. intros x Hx. cbv beta.
    apply (forallb_weaken isDigit); [exact digit_is_number|].
    apply numberToString_digits, Hx. }
  assert (Hnn : join (lit ".") (map numberToString cs) <> []).
  { destruct cs as [|x cs]; [contradiction|].
    inversion Hpos as [|? ? Hx _]; subst.
    destruct (numberToString_digits x Hx) as [_ Hx'].
    cbn [map]. destruct (map numberToString cs); simpl.
    - exact Hx'.
    - destruct (numberToString x); [contradiction|discriminate]. }
  unfold numberingPrefix. cbv zeta. destruct (level =? 1).
  - split.
    + rewrite forallb_app, Hall. reflexivity.
    + intro E. apply app_eq_nil in E. destruct E as [E _]. contradiction.
  - split; assumption.
Qed.

Lemma In_firstn {A} (n : nat) (xs : list A) (x : A) :
  In x (firstn n xs) -> In x xs.
Proof.
  revert xs. induction n as [|n IH]; intros [|y ys]; simpl; try tauto.
  intros [H|H]; [left; exact H|right; apply IH, H].
Qed.

Lemma increment_positive : forall cs i,
  Forall (fun x => 1 <= x) cs -> Forall (fun x => 1 <= x) (increment i cs).
Proof.
  induction cs as [|c cs IH]; intros i H; [destruct i; exact H|].
  inversion H; subst. destruct i; simpl; constructor; auto; lia.
Qed.

(** The counters stay at 1 or more. *)
Lemma bumpCounters_positive (level : Z) (cs : list Z) :
  Forall (fun x => 1 <= x) cs ->
  Forall (fun x => 1 <= x) (bumpCounters level cs).
Proof.
  intro H. unfold bumpCounters.
  destruct (level >? len cs).
  - apply Forall_app. split; [exact H|]. apply Forall_forall.
    intros x Hx. apply repeat_spec in Hx. lia.
  - cbv zeta.
    assert (Hs : Forall (fun x => 1 <= x) (sliceTo level cs)).
    { unfold sliceTo. apply Forall_forall. intros x Hx.
      rewrite Forall_forall in H. apply H.
      destruct (level <? 0); eapply In_firstn, Hx. }
    destruct (level - 1 <? 0); [exact Hs|].
    apply increment_positive, Hs.
Qed.

Lemma prefix_of_bump (level : Z) (cs : list Z) :
  1 <= level -> Forall (fun x => 1 <= x) cs ->
  forallb isDigitOrDot (numberingPrefix level (bumpCounters level cs)) = true
  /\ numberingPrefix level (bumpCounters level cs) <> [].
Proof.
  intros Hl Hcs. apply numberingPrefix_number.
  - intro E. pose proof (bumpCounters_length level cs Hl) as Hlen.
    rewrite E in Hlen. change (len []) with 0 in Hlen. lia.
  - eapply Forall_impl; [|apply bumpCounters_positive, Hcs].
    intros x Hx. cbv beta in *. lia.
Qed.

(** ** A numbered heading is left alone *)

Lemma noLineTerminator_dropWhile (p : Z -> bool) (t : str) :
  noLineTerminator t = true -> noLineTerminator (dropWhile p t) = true.
Proof.
  intro H. rewrite <- (take_drop_while p t), noLineTerminator_app in H.
  apply andb_prop in H. apply H.
Qed.

Lemma number_no_terminator (p : str) :
  forallb isDigitOrDot p = true -> noLineTerminator p = true.
Proof.
  apply forallb_weaken. intros c Hc.
  destruct (isLineTerminator c) eqn:E; [|reflexivity].
  exfalso. class_prop Hc. class_prop E. lia.
Qed.

(** The token of a text that starts with a dotted number [p], followed by
    nothing, or by white space and a text on the same line. *)
Lemma numberToken_intro (p r : str) :
  p <> [] -> forallb isDigitOrDot p = true ->
  match r with [] => True | c :: _ => isDigitOrDot c = false end ->
  negb (truthy r)
  || (truthy (takeWhile isWhiteSpace r)
      && noLineTerminator (dropWhile isWhiteSpace r)) = true ->
  numberToken (p ++ r) = Some p.
Proof.
  intros Hne Hp Hr Hc. unfold numberToken.
  destruct (takeWhile_app isDigitOrDot p r Hp) as [T1 D1].
  destruct (takeWhile_stop isDigitOrDot r Hr) as [T2 D2].
  rewrite T1, D1, T2, D2, app_nil_r, Hc.
  destruct p; [contradiction|]. reflexivity.
Qed.

Lemma numberToken_rest (t num : str) :
  numberToken t = Some num ->
  negb (truthy (dropWhile isDigitOrDot t))
  || (truthy (takeWhile isWhiteSpace (dropWhile isDigitOrDot t))
      && noLineTerminator (dropWhile isWhiteSpace (dropWhile isDigitOrDot t)))
  = true.
Proof.
  unfold numberToken.
  destruct (truthy (takeWhile isDigitOrDot t)); [|discriminate].
  cbn [andb].
  match goal with |- (if ?b then _ else _) = _ -> _ => destruct b end;
    [reflexivity|discriminate].
Qed.

(** A heading line after the edit of the renumbering for the prefix [p]: it
    is a heading line with the same indent, hashes and space, its text
    starts with the number [p], and it is no fence line either. *)
Lemma numbered_line (p l indent hashes sp t : str) :
  headerTextParts l = Some (indent, hashes, sp, t) ->
  p <> [] -> forallb isDigitOrDot p = true ->
  exists t',
    headerTextParts (rewriteLine (l, numberEditOf p indent hashes sp t))
    = Some (indent, hashes, sp, t')
    /\ numberToken t' = Some p
    /\ isFence (rewriteLine (l, numberEditOf p indent hashes sp t)) = isFence l.
Proof.
  intros Hparts Hne Hp.
  assert (Hhp := headerTextParts_inv _ _ _ _ _ Hparts).
  assert (Hnl : noLineTerminator t = true).
  { revert Hparts. unfold headerTextParts. rewrite Hhp.
    destruct (noLineTerminator t); [reflexivity|discriminate]. }
  destruct (headerParts_shape _ _ _ _ _ Hhp)
    as (Hl & Hi & Hh & Hha & Hs & Hsa & Hr).
  assert (Hhead : forall r, match p ++ r with
                            | [] => True
                            | c :: _ => isWhiteSpace c = false
                            end).
  { intro r. destruct p as [|c p']; [contradiction|]. simpl in Hp |- *.
    apply andb_prop in Hp. apply number_not_space, Hp. }
  assert (Hgoal : forall oe t',
             noLineTerminator t' = true ->
             numberToken t' = Some p ->
             (match t' with [] => True | c :: _ => isWhiteSpace c = false end) ->
             rewriteLine (l, oe) = indent ++ hashes ++ sp ++ t' ->
             exists t'0,
               headerTextParts (rewriteLine (l, oe))
               = Some (indent, hashes, sp, t'0)
               /\ numberToken t'0 = Some p
               /\ isFence (rewriteLine (l, oe)) = isFence l).
  { intros oe t' Hnl' Htok Hst E. exists t'. rewrite E. split; [|split].
    - unfold headerTextParts.
      rewrite (headerParts_intro indent hashes sp t') by assumption.
      rewrite Hnl'. reflexivity.
    - exact Htok.
    - rewrite (headerParts_not_fence _ _ _ _ _ Hhp).
      apply heading_not_fence; assumption. }
  assert (Hts : len indent + len hashes + len sp = len ((indent ++ hashes) ++ sp))
    by (rewrite !len_app; reflexivity).
  assert (Hl' : l = ((indent ++ hashes) ++ sp) ++ t)
    by (rewrite Hl, <- !app_assoc; reflexivity).
  unfold numberEditOf. cbv zeta.
  destruct (numberToken t) as [num|] eqn:Hn.
  - destruct (numberToken_inv _ _ Hn) as (Ht & Hnum & _).
    destruct (str_eqb num p) eqn:Heq; cbn [negb].
    + apply str_eqb_eq in Heq. subst num.
      apply (Hgoal _ t); [exact Hnl|exact Hn|exact Hr|].
      unfold rewriteLine. cbn [fst snd]. exact Hl.
    + apply (Hgoal _ (p ++ dropWhile isDigitOrDot t)).
      * rewrite noLineTerminator_app, (number_no_terminator _ Hp).
        apply noLineTerminator_dropWhile, Hnl.
      * apply numberToken_intro; [exact Hne|exact Hp| |].
        -- apply dropWhile_stops.
        -- eapply numberToken_rest, Hn.
      * apply Hhead.
      * unfold rewriteLine. cbn [fst snd start end_ text]. rewrite Hts.
        rewrite Hl' at 1. rewrite Ht at 1.
        rewrite (splice_parts ((indent ++ hashes) ++ sp) num
                   (dropWhile isDigitOrDot t) p).
        rewrite <- !app_assoc. reflexivity.
  - apply (Hgoal _ (p ++ lit " " ++ t)).
    + rewrite !noLineTerminator_app, (number_no_terminator _ Hp), Hnl.
      reflexivity.
    + apply numberToken_intro; [exact Hne|exact Hp|reflexivity|].
      change (lit " " ++ t) with (32 :: t). cbn [truthy negb orb].
      cbn [takeWhile dropWhile]. change (isWhiteSpace 32) with true.
      cbn [truthy andb]. apply noLineTerminator_dropWhile, Hnl.
    + apply Hhead.
    + unfold rewriteLine. cbn [fst snd start end_ text]. rewrite Hts.
      rewrite Hl' at 1.
      replace (len ((indent ++ hashes) ++ sp))
        with (len ((indent ++ hashes) ++ sp) + len (@nil Z)) at 2
        by (change (len []) with 0; lia).
      change (((indent ++ hashes) ++ sp) ++ t)
        with (((indent ++ hashes) ++ sp) ++ [] ++ t).
      rewrite (splice_parts ((indent ++ hashes) ++ sp) [] t (p ++ lit " ")).
      rewrite <- !app_assoc. reflexivity.
Qed.

Lemma numberEditOf_numbered (p indent hashes sp t : str) :
  numberToken t = Some p -> numberEditOf p indent hashes sp t = None.
Proof.
  intro H. unfold numberEditOf. cbv zeta. rewrite H, str_eqb_refl.
  reflexivity.
Qed.

(** The renumbering of the lines it has rewritten finds every number in
    place, and the headings at the levels they had. *)
Lemma numberLines_again (m : Z) : forall lines b cs,
  (forall x, In x (visibleLevels b lines) -> m <= x) ->
  Forall (fun x => 1 <= x) cs ->
  let lines' := map rewriteLine (numberLines m b cs lines) in
  numberLines m b cs lines' = map (fun l => (l, None)) lines'
  /\ visibleLevels b lines' = visibleLevels b lines.
Proof.
  induction lines as [|l more IH]; intros b cs Hm Hcs; [split; reflexivity|].
  cbn [numberLines]. cbv zeta.
  cbn [visibleLevels] in Hm. cbv zeta in Hm.
  destruct (toggle l b) eqn:Ht.
  - cbn [map]. change (rewriteLine (l, None)) with l.
    cbn [numberLines visibleLevels]. cbv zeta. rewrite Ht.
    destruct (IH true cs Hm Hcs) as [E1 E2]. cbv zeta in E1, E2.
    rewrite E1, E2. split; reflexivity.
  - destruct (headerTextParts l) as [[[[indent hashes] sp] t]|] eqn:Hp.
    + assert (Hhp := headerTextParts_inv _ _ _ _ _ Hp).
      unfold hashesOfLine in Hm. rewrite Hhp in Hm.
      set (level := len hashes - m + 1).
      assert (Hlevel : 1 <= level).
      { specialize (Hm (len hashes) (or_introl eq_refl)). unfold level. lia. }
      set (cs' := bumpCounters level cs).
      assert (Hcs' : Forall (fun x => 1 <= x) cs')
        by (apply bumpCounters_positive, Hcs).
      destruct (prefix_of_bump level cs Hlevel Hcs) as [Hpd Hpn].
      fold cs' in Hpd, Hpn.
      destruct (numbered_line _ _ _ _ _ _ Hp Hpn Hpd) as (t' & Hp' & Htok & Hf).
      cbn [map]. cbn [numberLines visibleLevels]. cbv zeta.
      rewrite (toggle_same_fence l _ b Hf), Ht, Hp'.
      fold level. fold cs'. rewrite (numberEditOf_numbered _ _ _ _ _ Htok).
      destruct (IH false cs' (fun x Hx => Hm x (or_intror Hx)) Hcs')
        as [E1 E2].
      cbv zeta in E1, E2. rewrite E1, E2.
      unfold hashesOfLine. rewrite (headerTextParts_inv _ _ _ _ _ Hp'), Hhp.
      split; reflexivity.
    + cbn [map]. change (rewriteLine (l, None)) with l.
      cbn [numberLines visibleLevels]. cbv zeta. rewrite Ht, Hp.
      assert (Hm' : forall x, In x (visibleLevels false more) -> m <= x).
      { intros x Hx. apply Hm. destruct (hashesOfLine l); [right|]; exact Hx. }
      destruct (IH false cs Hm' Hcs) as [E1 E2]. cbv zeta in E1, E2.
      rewrite E1, E2. split; reflexivity.
Qed.

Lemma globalEdits_none : forall (lines : list str) off,
  globalEdits off (map (fun l => (l, None)) lines) = [].
Proof.
  induction lines as [|l more IH]; intro off; [reflexivity|].
  simpl. apply IH.
Qed.

(** X4: the renumbering always returns, and the renumbering of its own
    result changes nothing: every number it has put is found in place, so it
    returns the buffer and the offset it was given. *)
Theorem numbering_idempotent (c : MagicString) (T : Z) :
  exists T1 c1,
    addHeaderNumbering T c = Ok (T1, c1)
    /\ forall T2, addHeaderNumbering T2 c1 = Ok (T2, c1).
Proof.
  unfold addHeaderNumbering. cbv zeta.
  set (lines := split 10 (current c)).
  destruct (minLevelOf lines =? 100) eqn:E100.
  - exists T, c. split; [reflexivity|]. intro T2. fold lines.
    rewrite E100. reflexivity.
  - rewrite numberingEdits_lines.
    destruct (applyEdits_text c (numberLines (minLevelOf lines) false [] lines)
                T (numberLines_fst _ _ _ _) (numberLines_ok _ _ _ _)
                (numberLines_keep _ _ _ _))
      as (T1 & c1 & Hrun & _ & Hsplit).
    exists T1, c1. split; [exact Hrun|]. intro T2.
    assert (Hm : forall x, In x (visibleLevels false lines) ->
                           minLevelOf lines <= x).
    { intros x Hx. rewrite minLevelOf_levels. apply leastLevel_le, Hx. }
    destruct (numberLines_again (minLevelOf lines) lines false [] Hm
                (Forall_nil _)) as [E1 E2].
    cbv zeta in E1, E2. rewrite <- Hsplit in E1, E2.
    assert (Hsame : minLevelOf (split 10 (current c1)) = minLevelOf lines)
      by (rewrite !minLevelOf_levels, E2; reflexivity).
    rewrite Hsame, E100, numberingEdits_lines, E1, globalEdits_none.
    reflexivity.
Qed.

(** ** Headings the renumbering does not take *)

Lemma numberLines_nth_none (m : Z) : forall lines b cs i l,
  nth_error lines i = Some l ->
  headerTextParts l = None ->
  nth_error (numberLines m b cs lines) i = Some (l, None).
Proof.
  induction lines as [|l0 more IH]; intros b cs i l; [destruct i; discriminate|].
  cbn [numberLines]. cbv zeta. destruct i as [|i]; simpl.
  - intros [= ->] Hp. rewrite Hp. destruct (toggle l b); reflexivity.
  - intros Hi Hp.
    destruct (if toggle l0 b then None else headerTextParts l0)
      as [[[[indent hashes] sp] t]|]; simpl; apply IH; assumption.
Qed.

(** X5: a line with the shape of a heading whose text, after the hashes and
    the white space that follows them, holds a carriage return or another
    line terminator other than the newline (as the line "# a" followed by a
    carriage return, of a text with CRLF line ends) is not matched by the
    pattern of the renumbering, whose text group has to reach the end of the
    line: the renumbering returns and leaves the line as it is.  Outside a
    fenced block the line still counts for the least level. *)
Theorem numbering_skips_line_terminators (c : MagicString) (T : Z) (i : nat)
    (l indent hashes sp rest : str) :
  let lines := split 10 (current c) in
  nth_error lines i = Some l ->
  headerParts l = Some (indent, hashes, sp, rest) ->
  noLineTerminator rest = false ->
  exec REGEXP_HEADER_TEXT l = None
  /\ (exists T' c',
        addHeaderNumbering T c = Ok (T', c')
        /\ nth_error (split 10 (current c')) i = Some l)
  /\ (insideFence lines i = false -> minLevelOf lines <= len hashes).
Proof.
  intros lines Hi Hp Hrest.
  assert (Htext : headerTextParts l = None).
  { unfold headerTextParts. rewrite Hp, Hrest. reflexivity. }
  split; [|split].
  - rewrite exec_header_text, Htext. reflexivity.
  - unfold addHeaderNumbering. cbv zeta. fold lines.
    destruct (minLevelOf lines =? 100); [exists T, c; split; [reflexivity|exact Hi]|].
    rewrite numberingEdits_lines.
    destruct (applyEdits_text c (numberLines (minLevelOf lines) false [] lines)
                T (numberLines_fst _ _ _ _) (numberLines_ok _ _ _ _)
                (numberLines_keep _ _ _ _))
      as (T' & c' & Hrun & _ & Hsplit).
    exists T', c'. split; [exact Hrun|].
    rewrite Hsplit. apply rewrite_unedited.
    apply numberLines_nth_none; assumption.
  - intro Hf. rewrite minLevelOf_levels. apply leastLevel_le.
    apply (visibleLevels_In lines false i l hashes Hi).
    + rewrite <- insideFence_fenceAt. exact Hf.
    + unfold hashesOfLine. rewrite Hp. reflexivity.
Qed.

Lemma numbering_skips_line_terminators_witness :
  let c := newMagicString (join [10] [lit "# a" ++ [13]; lit "## b"]) in
  exec REGEXP_HEADER_TEXT (lit "# a" ++ [13]) = None
  /\ (exists T' c',
        addHeaderNumbering 0 c = Ok (T', c')
        /\ nth_error (split 10 (current c')) 0 = Some (lit "# a" ++ [13]))
  /\ (insideFence (split 10 (current c)) 0 = false ->
      minLevelOf (split 10 (current c)) <= len (lit "#")).
Proof.
  intro c.
  apply (numbering_skips_line_terminators c 0 0 (lit "# a" ++ [13])
           [] (lit "#") (lit " ") (lit "a" ++ [13])); reflexivity.
Defined.

(** ** The numbers as an outline *)

Lemma prefixesFrom_app : forall ds cs more,
  prefixesFrom cs (ds ++ more)
  = prefixesFrom cs ds
    ++ prefixesFrom (fold_left (fun cs x => bumpCounters x cs) ds cs) more.
Proof.
  induction ds as [|d ds IH]; intros cs more; [reflexivity|].
  cbn [app prefixesFrom fold_left]. cbv zeta. rewrite IH. reflexivity.
Qed.

Lemma firstn_app_exact {A} (a b : list A) : firstn (length a) (a ++ b) = a.
Proof.
  induction a as [|x a IH]; simpl; [destruct b; reflexivity|].
  rewrite IH. reflexivity.
Qed.

Lemma increment_app (a b : list Z) (i : nat) :
  increment (length a + i) (a ++ b) = a ++ increment i b.
Proof.
  induction a as [|x a IH]; simpl; [reflexivity|]. rewrite IH. reflexivity.
Qed.

(** A deeper heading keeps the counters of the levels above it. *)
Lemma bumpCounters_keeps (d x : Z) (cs : list Z) :
  1 <= d -> d < x -> d <= len cs ->
  exists extra,
    extra <> []
    /\ bumpCounters x cs = firstn (Z.to_nat d) cs ++ extra.
Proof.
  intros Hd Hx Hlen.
  assert (Hcut : cs = firstn (Z.to_nat d) cs ++ skipn (Z.to_nat d) cs)
    by (symmetry; apply firstn_skipn).
  destruct (Z.ltb_spec (len cs) x) as [Hdeep|Hin].
  - rewrite bumpCounters_deeper by exact Hdeep.
    exists (skipn (Z.to_nat d) cs ++ repeat 1 (Z.to_nat (x - len cs))).
    split.
    + intro E. apply app_eq_nil in E. destruct E as [_ E].
      apply (f_equal (@length Z)) in E. rewrite repeat_length in E.
      simpl in E. lia.
    + rewrite app_assoc, <- Hcut. reflexivity.
  - rewrite bumpCounters_within by lia.
    assert (Hn : (Z.to_nat d <= Z.to_nat (x - 1))%nat) by lia.
    assert (Hl : (Z.to_nat (x - 1) < length cs)%nat) by (unfold len in Hin; lia).
    exists (skipn (Z.to_nat d) (firstn (Z.to_nat (x - 1)) cs)
            ++ [nth (Z.to_nat (x - 1)) cs 0 + 1]).
    split.
    + intro E. apply app_eq_nil in E. destruct E as [_ E]. discriminate.
    + rewrite app_assoc. f_equal.
      rewrite <- (firstn_skipn (Z.to_nat d) (firstn (Z.to_nat (x - 1)) cs)) at 1.
      f_equal. rewrite firstn_firstn. f_equal. lia.
Qed.

Lemma len_firstn_app (d : Z) (cs extra : list Z) :
  0 <= d -> d <= len cs ->
  len (firstn (Z.to_nat d) cs ++ extra) = d + len extra
  /\ firstn (Z.to_nat d) (firstn (Z.to_nat d) cs ++ extra)
     = firstn (Z.to_nat d) cs.
Proof.
  intros H0 Hd. unfold len in *.
  assert (Hl : length (firstn (Z.to_nat d) cs) = Z.to_nat d)
    by (apply firstn_length_le; lia).
  split.
  - rewrite length_app, Hl. lia.
  - rewrite <- Hl at 1. apply firstn_app_exact.
Qed.

(** The headings below a heading: each of their prefixes is the dotted
    counters of the heading with more counters after them, and the counters
    of the heading are still there after them. *)
Lemma descendants_extend (d : Z) (cs : list Z) : forall deeper cs',
  1 <= d -> len cs = d ->
  Forall (fun x => d < x) deeper ->
  firstn (Z.to_nat d) cs' = cs -> d <= len cs' ->
  Forall (fun p => exists extra,
              extra <> []
              /\ p = join (lit ".") (map numberToString (cs ++ extra)))
    (prefixesFrom cs' deeper)
  /\ firstn (Z.to_nat d)
       (fold_left (fun cs x => bumpCounters x cs) deeper cs') = cs
  /\ d <= len (fold_left (fun cs x => bumpCounters x cs) deeper cs').
Proof.
  induction deeper as [|x deeper IH]; intros cs' Hd Hcs Hdeep Hfirst Hlen.
  - simpl. repeat split; [constructor|exact Hfirst|exact Hlen].
  - inversion Hdeep as [|? ? Hx Hmore]; subst x0 l.
    destruct (bumpCounters_keeps d x cs' Hd Hx Hlen) as (extra & Hne & Hb).
    rewrite Hfirst in Hb.
    assert (Hfirst' : firstn (Z.to_nat d) (bumpCounters x cs') = cs).
    { rewrite Hb. replace (Z.to_nat d) with (length cs)
        by (unfold len in Hcs; lia).
      apply firstn_app_exact. }
    assert (Hlen' : d <= len (bumpCounters x cs')).
    { rewrite bumpCounters_length by lia. lia. }
    destruct (IH (bumpCounters x cs') Hd Hcs Hmore Hfirst' Hlen')
      as (H1 & H2 & H3).
    cbn [prefixesFrom fold_left]. cbv zeta. repeat split; try assumption.
    constructor; [|exact H1].
    exists extra. split; [exact Hne|].
    unfold numberingPrefix. cbv zeta.
    destruct (Z.eqb_spec x 1); [lia|]. rewrite Hb. reflexivity.
Qed.

(** X6: the numbers form an outline.  After a heading at relative depth [d]
    has set the counters [cs], the prefixes of the headings below it (at
    depths greater than [d]) are the dotted counters [cs] with more
    counters after them, and the next heading at depth [d] gets [cs] with
    its last counter incremented, whatever lies between the two.  When the
    first heading of a document is deeper than the least level, at relative
    depth [d > 1], its prefix is [d] ones, and the first heading at the
    least level after it, with only deeper headings between, gets the
    number 2. *)
Theorem numbering_outline (d : Z) (cs deeper : list Z) :
  1 <= d -> len cs = d -> Forall (fun x => d < x) deeper ->
  Forall (fun p => exists extra,
              extra <> []
              /\ p = join (lit ".") (map numberToString (cs ++ extra)))
    (prefixesFrom cs deeper)
  /\ prefixesFrom cs (deeper ++ [d])
     = prefixesFrom cs deeper
       ++ [numberingPrefix d
             (firstn (Z.to_nat (d - 1)) cs
              ++ [nth (Z.to_nat (d - 1)) cs 0 + 1])]
  /\ (1 < d ->
      prefixesFrom [] (d :: deeper ++ [1])
      = join (lit ".") (map numberToString (repeat 1 (Z.to_nat d)))
        :: prefixesFrom (repeat 1 (Z.to_nat d)) deeper ++ [lit "2."]).
Proof.
  intros Hd Hcs Hdeep.
  assert (Hcs0 : firstn (Z.to_nat d) cs = cs).
  { apply firstn_all2. unfold len in Hcs. lia. }
  destruct (descendants_extend d cs deeper cs Hd Hcs Hdeep Hcs0)
    as (H1 & H2 & H3); [lia|].
  split; [exact H1|]. split.
  - rewrite prefixesFrom_app. f_equal. cbn [prefixesFrom]. cbv zeta. f_equal.
    set (cs' := fold_left (fun cs x => bumpCounters x cs) deeper cs) in *.
    assert (A1 : firstn (Z.to_nat (d - 1)) cs' = firstn (Z.to_nat (d - 1)) cs).
    { rewrite <- H2. rewrite firstn_firstn. f_equal. lia. }
    assert (A2 : nth (Z.to_nat (d - 1)) cs' 0 = nth (Z.to_nat (d - 1)) cs 0).
    { rewrite <- (firstn_skipn (Z.to_nat d) cs') at 1. rewrite H2.
      apply app_nth1. unfold len in Hcs. lia. }
    rewrite bumpCounters_within, A1, A2 by assumption. reflexivity.
  - intro H1d. cbn [prefixesFrom]. cbv zeta.
    assert (Hb : bumpCounters d [] = repeat 1 (Z.to_nat d)).
    { rewrite bumpCounters_deeper by (change (len []) with 0; lia).
      change (len []) with 0. rewrite Z.sub_0_r. reflexivity. }
    rewrite Hb. unfold numberingPrefix at 1. cbv zeta.
    destruct (Z.eqb_spec d 1); [lia|]. f_equal.
    rewrite prefixesFrom_app. f_equal. cbn [prefixesFrom]. cbv zeta.
    set (ones := repeat 1 (Z.to_nat d)).
    assert (Hones : len ones = d).
    { unfold ones, len. rewrite repeat_length. lia. }
    assert (Hdeep1 : Forall (fun x => 1 < x) deeper).
    { eapply Forall_impl; [|exact Hdeep]. intros x Hx. cbv beta in *. lia. }
    assert (Hf1 : firstn (Z.to_nat 1) ones = [1]).
    { unfold ones. destruct (Z.to_nat d) eqn:E; [lia|]. reflexivity. }
    destruct (descendants_extend 1 [1] deeper ones) as (_ & G2 & G3);
      [lia|reflexivity|exact Hdeep1|exact Hf1|lia|].
    set (cs' := fold_left (fun cs x => bumpCounters x cs) deeper ones) in *.
    rewrite bumpCounters_within by lia.
    change (Z.to_nat (1 - 1)) with 0%nat. cbn [firstn app].
    destruct cs' as [|x cs'']; [change (len []) with 0 in G3; lia|].
    simpl in G2. injection G2 as ->. reflexivity.
Qed.

Lemma numbering_outline_witness :
  Forall (fun p => exists extra,
              extra <> []
              /\ p = join (lit ".") (map numberToString ([2; 3] ++ extra)))
    (prefixesFrom [2; 3] [3; 4; 3])
  /\ prefixesFrom [2; 3] ([3; 4; 3] ++ [2])
     = prefixesFrom [2; 3] [3; 4; 3] ++ [numberingPrefix 2 ([2] ++ [3 + 1])]
  /\ (1 < 2 ->
      prefixesFrom [] (2 :: [3; 4; 3] ++ [1])
      = join (lit ".") (map numberToString (repeat 1 (Z.to_nat 2)))
        :: prefixesFrom (repeat 1 (Z.to_nat 2)) [3; 4; 3] ++ [lit "2."]).
Proof.
  apply (numbering_outline 2 [2; 3] [3; 4; 3]);
    [lia|reflexivity|repeat constructor; lia].
Defined.

(** ** The list passes on their own results *)

Lemma applyEdits_nil (T : Z) (c : MagicString) : applyEdits [] T c = Ok (T, c).
Proof. reflexivity. Qed.

(** A line without its extra spaces has none left. *)
Lemma collapseSpaces_done (l : str) : extraSpacesParts (collapseSpaces l) = None.
Proof.
  unfold collapseSpaces.
  destruct (extraSpacesParts l) as [[[[indent marker] extra] rest]|] eqn:E;
    [|exact E].
  revert E. unfold extraSpacesParts at 1.
  destruct (dropWhile isHSpace l) as [|m [|w more]] eqn:Hd; try discriminate.
  destruct (isBullet m && isHSpace w && truthy (takeWhile isHSpace more))
    eqn:Hc; [|discriminate].
  intros [= <- <- <- <-].
  apply andb_true_iff in Hc. destruct Hc as [Hc _].
  apply andb_true_iff in Hc. destruct Hc as [Hm Hw].
  unfold extraSpacesParts.
  destruct (takeWhile_app isHSpace (takeWhile isHSpace l)
              ([m; w] ++ dropWhile isHSpace more) (takeWhile_all _ _))
    as [_ D1].
  rewrite D1. cbn [app dropWhile]. rewrite (bullet_not_hspace _ Hm).
  destruct (takeWhile_stop isHSpace (dropWhile isHSpace more)
              (dropWhile_stops _ _)) as [T2 _].
  rewrite T2, Hm, Hw. reflexivity.
Qed.

Lemma extraSpacesEdit_done (lines : list str) :
  map (fun l => (l, extraSpacesEdit l)) (map collapseSpaces lines)
  = map (fun l => (l, None)) (map collapseSpaces lines).
Proof.
  rewrite !map_map. apply map_ext. intro l. unfold extraSpacesEdit.
  rewrite collapseSpaces_done. reflexivity.
Qed.

(** X7: [removeExtraSpaces] always returns; after it the pattern of the
    extra spaces matches no line of the text, so on its own result it
    changes nothing and returns the buffer and the offset it was given. *)
Theorem removeExtraSpaces_idempotent (c : MagicString) (T : Z) :
  exists T1 c1,
    removeExtraSpaces T c = Ok (T1, c1)
    /\ Forall (fun l =>
                 exec REGEXP_UNORDERED_LIST_ITEMS_WITH_EXTRA_SPACES l = None)
         (split 10 (current c1))
    /\ forall T2, removeExtraSpaces T2 c1 = Ok (T2, c1).
Proof.
  destruct (removeExtraSpaces_text c T) as (T1 & c1 & Hrun & _ & Hsplit).
  exists T1, c1. split; [exact Hrun|]. split.
  - rewrite Hsplit. apply Forall_map, Forall_forall. intros l _.
    rewrite exec_extra_spaces, collapseSpaces_done. reflexivity.
  - intro T2. rewrite removeExtraSpaces_edits, Hsplit, extraSpacesEdit_done,
      globalEdits_none. apply applyEdits_nil.
Qed.

Lemma dropWhile_app_stop (p : Z -> bool) (a : str) (c : Z) (r : str) :
  dropWhile p a = c :: r -> forall b, dropWhile p (a ++ b) = c :: r ++ b.
Proof.
  induction a as [|x a IH]; simpl; [discriminate|].
  destruct (p x) eqn:E.
  - intros H b. apply IH, H.
  - intros [= -> ->] b. reflexivity.
Qed.

Lemma takeWhile_app_stop (p : Z -> bool) (a : str) (c : Z) (r : str) :
  dropWhile p a = c :: r ->
  forall b, takeWhile p (a ++ b) = takeWhile p a.
Proof.
  induction a as [|x a IH]; simpl; [discriminate|].
  destruct (p x) eqn:E.
  - intros H b. rewrite (IH H). reflexivity.
  - reflexivity.
Qed.

(** A marker line with its space is no longer a line of a marker alone. *)
Lemma addTrailingSpace_done (l : str) :
  isEmptyListItem (addTrailingSpace l) = false.
Proof.
  unfold addTrailingSpace.
  destruct (isEmptyListItem l) eqn:E; [|exact E].
  revert E. unfold isEmptyListItem.
  destruct (dropWhile isHSpace l) as [|m more] eqn:Hd; [discriminate|].
  rewrite (dropWhile_app_stop _ _ _ _ Hd).
  destruct (isBullet m) eqn:Hm.
  - destruct more as [|x more']; [intros _; reflexivity|].
    intro H. apply andb_true_iff in H. destruct H as [Ht H].
    destruct (dropWhile isHSpace (x :: more')) as [|a [|c1 [|b [|? ?]]]] eqn:Hd2;
      try discriminate.
    cbn [app]. change (x :: more' ++ lit " ") with ((x :: more') ++ lit " ").
    rewrite (dropWhile_app_stop _ _ _ _ Hd2).
    apply andb_false_r.
  - intro H. apply andb_true_iff in H. destruct H as [Ht H].
    apply str_eqb_eq in H.
    change (m :: more ++ lit " ") with ((m :: more) ++ lit " ").
    destruct (dropWhile isDigit (m :: more)) as [|d [|? ?]] eqn:Hd3;
      try discriminate.
    rewrite (dropWhile_app_stop _ _ _ _ Hd3).
    change (str_eqb (d :: [] ++ lit " ") [46]) with ((d =? 46) && false).
    rewrite !andb_false_r. reflexivity.
Qed.

Lemma trailingSpaceEdit_done (lines : list str) :
  map (fun l => (l, trailingSpaceEdit l)) (map addTrailingSpace lines)
  = map (fun l => (l, None)) (map addTrailingSpace lines).
Proof.
  rewrite !map_map. apply map_ext. intro l. unfold trailingSpaceEdit.
  rewrite addTrailingSpace_done. reflexivity.
Qed.

(** X8: [addTrailingSpaces] always returns; after it the pattern of the
    empty list items matches no line of the text, so on its own result it
    changes nothing and returns the buffer and the offset it was given. *)
Theorem addTrailingSpaces_idempotent (c : MagicString) (T : Z) :
  exists T1 c1,
    addTrailingSpaces T c = Ok (T1, c1)
    /\ Forall (fun l =>
                 exec REGEXP_EMPTY_LIST_ITEMS_WITHOUT_TRAILING_SPACES l = None)
         (split 10 (current c1))
    /\ forall T2, addTrailingSpaces T2 c1 = Ok (T2, c1).
Proof.
  destruct (addTrailingSpaces_text c T) as (T1 & c1 & Hrun & _ & Hsplit).
  exists T1, c1. split; [exact Hrun|]. split.
  - rewrite Hsplit. apply Forall_map, Forall_forall. intros l _.
    rewrite exec_empty_item, addTrailingSpace_done. reflexivity.
  - intro T2. rewrite addTrailingSpaces_edits, Hsplit, trailingSpaceEdit_done,
      globalEdits_none. apply applyEdits_nil.
Qed.

(* ================================================================ *)
(** * Further properties of the image uploader *)

(** ** Where a match ends *)

Lemma len_skipn (n : nat) (s : str) :
  (n <= length s)%nat -> len (skipn n s) = len s - Z.of_nat n.
Proof. intro H. unfold len. rewrite length_skipn. lia. Qed.

Lemma len_firstn (n : nat) (s : str) :
  (n <= length s)%nat -> len (firstn n s) = Z.of_nat n.
Proof. intro H. unfold len. rewrite firstn_length_le by exact H. reflexivity. Qed.

(** A star, whatever it iterates: when it matches, what follows it has
    matched at some position of the text that is left.  [R] relates the
    groups before and after an iteration. *)
Lemma star_position (R : Captures -> Captures -> Prop) (g : bool) (a : Regex)
    (k : Cont) :
  (forall c, R c c) -> (forall c1 c2 c3, R c1 c2 -> R c2 c3 -> R c1 c3) ->
  (forall s i caps k' x,
      rmatch a s i caps k' = Some x ->
      exists n caps', (n <= length s)%nat /\ R caps caps'
                      /\ k' (skipn n s) (i + Z.of_nat n) caps' = Some x) ->
  forall fuel s i caps x,
    (fix loop (fuel : nat) (s : str) (i : Z) (caps : Captures) {struct fuel} :=
       match fuel with
       | O => k s i caps
       | S fuel' =>
           let more :=
             rmatch a s i caps
               (fun s' i' caps' =>
                  if i' =? i then None else loop fuel' s' i' caps') in
           if g
           then match more with Some x => Some x | None => k s i caps end
           else match k s i caps with Some x => Some x | None => more end
       end) fuel s i caps = Some x ->
    exists n caps', (n <= length s)%nat /\ R caps caps'
                    /\ k (skipn n s) (i + Z.of_nat n) caps' = Some x.
Proof.
  intros Hrefl Htrans Ha.
  assert (Hstop : forall s i caps x,
             k s i caps = Some x ->
             exists n caps', (n <= length s)%nat /\ R caps caps'
                             /\ k (skipn n s) (i + Z.of_nat n) caps' = Some x).
  { intros s i caps x H. exists 0%nat, caps. split; [lia|].
    split; [apply Hrefl|]. simpl. rewrite Z.add_0_r. exact H. }
  induction fuel as [|fuel IH]; intros s i caps x H; [apply (Hstop _ _ _ _ H)|].
  cbv zeta in H.
  match type of H with
  | context [rmatch a s i caps ?f] => set (more := rmatch a s i caps f) in H
  end.
  assert (Hmore : more = Some x ->
                  exists n caps', (n <= length s)%nat /\ R caps caps'
                    /\ k (skipn n s) (i + Z.of_nat n) caps' = Some x).
  { unfold more. intro Hm. apply Ha in Hm.
    destruct Hm as (n1 & caps1 & Hn1 & HR1 & Hm).
    destruct (i + Z.of_nat n1 =? i); [discriminate|].
    apply IH in Hm. destruct Hm as (n2 & caps2 & Hn2 & HR2 & Hm).
    rewrite length_skipn in Hn2.
    exists (n2 + n1)%nat, caps2. split; [lia|].
    split; [eapply Htrans; eassumption|].
    rewrite skipn_skipn in Hm.
    replace (i + Z.of_nat (n2 + n1)) with (i + Z.of_nat n1 + Z.of_nat n2)
      by lia.
    exact Hm. }
  clearbody more. destruct g.
  - destruct more as [y|].
    + apply Hmore. exact H.
    + apply (Hstop _ _ _ _ H).
  - destruct (k s i caps) as [y|] eqn:Hk.
    + injection H as ->. apply (Hstop _ _ _ _ Hk).
    + apply Hmore, H.
Qed.

(** A match of any pattern ends inside the text: what follows the pattern
    has matched at a position of the text that is left. *)
Lemma rmatch_position : forall r s i caps k x,
  rmatch r s i caps k = Some x ->
  exists n caps', (n <= length s)%nat
                  /\ k (skipn n s) (i + Z.of_nat n) caps' = Some x.
Proof.
  assert (Hstop : forall (k : Cont) s i caps x,
             k s i caps = Some x ->
             exists n caps', (n <= length s)%nat
                             /\ k (skipn n s) (i + Z.of_nat n) caps' = Some x).
  { intros k s i caps x H. exists 0%nat, caps. split; [lia|].
    simpl. rewrite Z.add_0_r. exact H. }
  induction r as [|p|a IHa b IHb|a IHa b IHb|g a IHa|n a IHa| |];
    intros s i caps k x H.
  - apply (Hstop _ _ _ _ _ H).
  - rewrite rmatch_class in H. destruct s as [|c s']; [discriminate|].
    destruct (p c); [|discriminate].
    exists 1%nat, caps. split; [simpl; lia|exact H].
  - rewrite rmatch_cat in H. apply IHa in H.
    destruct H as (n1 & caps1 & Hn1 & H). apply IHb in H.
    destruct H as (n2 & caps2 & Hn2 & H). rewrite length_skipn in Hn2.
    exists (n2 + n1)%nat, caps2. split; [lia|].
    rewrite skipn_skipn in H.
    replace (i + Z.of_nat (n2 + n1)) with (i + Z.of_nat n1 + Z.of_nat n2) by lia.
    exact H.
  - rewrite rmatch_or in H. destruct (rmatch a s i caps k) as [y|] eqn:E.
    + injection H as ->. apply (IHa _ _ _ _ _ E).
    + apply (IHb _ _ _ _ _ H).
  - assert (Ha : forall s i caps k' x,
               rmatch a s i caps k' = Some x ->
               exists n caps', (n <= length s)%nat /\ True
                 /\ k' (skipn n s) (i + Z.of_nat n) caps' = Some x).
    { intros s0 i0 caps0 k' x0 H0. apply IHa in H0.
      destruct H0 as (n0 & caps' & Hn0 & H0). exists n0, caps'. auto. }
    destruct (star_position (fun _ _ => True) g a k (fun _ => I)
                (fun _ _ _ _ _ => I) Ha (length s) s i caps x H)
      as (n1 & caps1 & Hn1 & _ & H1).
    exists n1, caps1. auto.
  - rewrite rmatch_group in H. apply IHa in H.
    destruct H as (n1 & caps1 & Hn1 & H). eexists n1, _. split; [exact Hn1|].
    exact H.
  - simpl in H. destruct (i =? 0); [|discriminate]. apply (Hstop _ _ _ _ _ H).
  - rewrite rmatch_eol in H. destruct s; [|discriminate].
    apply (Hstop _ _ _ _ _ H).
Qed.

(** A star over a class closes no group. *)
Lemma star_class_position (g : bool) (p : Z -> bool) (s : str) (i : Z)
    (caps : Captures) (k : Cont) (x : Z * Captures) :
  rmatch (Star g (Class p)) s i caps k = Some x ->
  exists n, (n <= length s)%nat
            /\ k (skipn n s) (i + Z.of_nat n) caps = Some x.
Proof.
  intro H.
  assert (Ha : forall s i caps k' x,
             rmatch (Class p) s i caps k' = Some x ->
             exists n caps', (n <= length s)%nat /\ caps = caps'
               /\ k' (skipn n s) (i + Z.of_nat n) caps' = Some x).
  { intros s0 i0 caps0 k' x0 H0. rewrite rmatch_class in H0.
    destruct s0 as [|c s']; [discriminate|].
    destruct (p c); [|discriminate].
    exists 1%nat, caps0. split; [simpl; lia|]. split; [reflexivity|exact H0]. }
  destruct (star_position eq g (Class p) k (fun c => eq_refl)
              (fun c1 c2 c3 H1 H2 => eq_trans H1 H2) Ha (length s) s i caps x H)
    as (n & caps' & Hn & <- & Hk).
  exists n. split; assumption.
Qed.

Lemma startsWith_app (p s : str) :
  startsWith p s = true -> s = p ++ skipn (length p) s.
Proof.
  revert s. induction p as [|c p IH]; intros [|d s]; simpl; try discriminate;
    try reflexivity.
  intro H. apply andb_prop in H. destruct H as [Hc Hp].
  apply Z.eqb_eq in Hc. subst d. f_equal. apply IH, Hp.
Qed.

(** A literal matches when the text starts with it. *)
Lemma rmatch_lit : forall p s i caps k,
  rmatch (Lit p) s i caps k
  = if startsWith p s then k (skipn (length p) s) (i + len p) caps else None.
Proof.
  induction p as [|c p IH]; intros s i caps k.
  - simpl. change (len []) with 0. rewrite Z.add_0_r. destruct s; reflexivity.
  - cbn [Lit]. rewrite rmatch_cat. unfold Chr. rewrite rmatch_class.
    destruct s as [|d s]; [reflexivity|]. cbn [startsWith].
    destruct (c =? d); [|reflexivity]. cbn [andb]. rewrite IH.
    rewrite len_cons. cbn [length skipn].
    replace (i + 1 + len p) with (i + (1 + len p)) by lia. reflexivity.
Qed.

(** The first match from a position on starts at a position of the text. *)
Lemma searchFrom_position (r : Regex) : forall s i m,
  searchFrom r s i = Some m ->
  exists n, (n <= length s)%nat
            /\ m_index m = i + Z.of_nat n
            /\ rmatch r (skipn n s) (i + Z.of_nat n) [] done
               = Some (m_end m, m_groups m).
Proof.
  induction s as [|c s IH]; intros i m; cbn [searchFrom].
  - destruct (rmatch r [] i [] done) as [[e caps]|] eqn:E; [|discriminate].
    intros [= <-]. exists 0%nat. simpl. rewrite Z.add_0_r. repeat split.
    + lia.
    + exact E.
  - destruct (rmatch r (c :: s) i [] done) as [[e caps]|] eqn:E.
    + intros [= <-]. exists 0%nat. simpl. rewrite Z.add_0_r. repeat split.
      * lia.
      * exact E.
    + intro H. apply IH in H. destruct H as (n & Hn & Hi & Hm).
      exists (S n). simpl skipn. split; [simpl; lia|].
      replace (i + Z.of_nat (S n)) with (i + 1 + Z.of_nat n) by lia.
      split; assumption.
Qed.

(** Every match of the loop over a [g] pattern is a match of the pattern at
    a position of the text. *)
Lemma execLoop_position (r : Regex) (text : str) : forall fuel lastIndex m,
  0 <= lastIndex <= len text ->
  In m (execLoop fuel r text lastIndex) ->
  exists j, (j <= length text)%nat
            /\ m_index m = Z.of_nat j
            /\ rmatch r (skipn j text) (Z.of_nat j) [] done
               = Some (m_end m, m_groups m).
Proof.
  induction fuel as [|fuel IH]; intros lastIndex m Hlast; [intros []|].
  cbn [execLoop].
  destruct (searchFrom r (skipn (Z.to_nat lastIndex) text) lastIndex)
    as [m0|] eqn:E; [|intros []].
  apply searchFrom_position in E. destruct E as (n & Hn & Hi & Hm).
  rewrite length_skipn in Hn. rewrite skipn_skipn in Hm.
  unfold len in Hlast.
  assert (Hj : lastIndex + Z.of_nat n = Z.of_nat (n + Z.to_nat lastIndex)) by lia.
  rewrite Hj in Hi, Hm.
  intros [<-|Hin].
  - exists (n + Z.to_nat lastIndex)%nat. repeat split; [lia|exact Hi|exact Hm].
  - apply (IH (m_end m0)); [|exact Hin].
    destruct (rmatch_position _ _ _ _ _ _ Hm) as (n' & caps' & Hn' & Hd).
    unfold done in Hd. injection Hd as He _.
    rewrite length_skipn in Hn'. unfold len. lia.
Qed.

Lemma execAll_position (r : Regex) (text : str) (m : RegExpMatch) :
  In m (execAll r text) ->
  exists j n, (j + n <= length text)%nat
              /\ m_index m = Z.of_nat j
              /\ m_end m = Z.of_nat (j + n)
              /\ rmatch r (skipn j text) (Z.of_nat j) [] done
                 = Some (m_end m, m_groups m).
Proof.
  intro H. apply execLoop_position in H;
    [|pose proof (len_nonneg text); lia].
  destruct H as (j & Hj & Hi & Hm).
  destruct (rmatch_position _ _ _ _ _ _ Hm) as (n & caps' & Hn & Hd).
  unfold done in Hd. injection Hd as He _. rewrite length_skipn in Hn.
  exists j, n. repeat split; [lia|exact Hi|lia|exact Hm].
Qed.

(** ** The images of a text *)

(** What a match of the pattern of a Markdown image is made of. *)
Lemma markdown_match (s : str) (i e : Z) (caps : Captures) :
  rmatch regex s i [] done = Some (e, caps) ->
  exists alt url post,
    s = lit "![" ++ alt ++ lit "](" ++ url ++ [41] ++ post
    /\ e = i + len alt + len url + 5
    /\ caps = [(2%nat, {| sp_start := i + len alt + 4;
                          sp_end := i + len alt + 4 + len url |});
               (1%nat, {| sp_start := i + 2; sp_end := i + 2 + len alt |})].
Proof.
  unfold regex. cbn [Seq]. rewrite rmatch_cat, rmatch_lit.
  destruct (startsWith (lit "![") s) eqn:S1; [|discriminate].
  rewrite rmatch_cat, rmatch_group. unfold Dot. intro H.
  apply star_class_position in H. destruct H as (n1 & Hn1 & H).
  cbv beta in H. rewrite rmatch_cat, rmatch_lit in H.
  set (s1 := skipn (length (lit "![")) s) in *.
  destruct (startsWith (lit "](") (skipn n1 s1)) eqn:S2; [|discriminate].
  rewrite rmatch_cat, rmatch_group in H.
  apply star_class_position in H. destruct H as (n2 & Hn2 & H).
  cbv beta in H. unfold Chr in H. rewrite rmatch_class in H.
  set (s2 := skipn (length (lit "](")) (skipn n1 s1)) in *.
  destruct (skipn n2 s2) as [|c post] eqn:S3; [discriminate|].
  destruct (Z.eqb_spec 41 c) as [<-|]; [|discriminate].
  unfold done in H. injection H as <- <-.
  exists (firstn n1 s1), (firstn n2 s2), post.
  rewrite !len_firstn by assumption.
  change (len (lit "![")) with 2. change (len (lit "](")) with 2.
  split; [|split].
  - rewrite (startsWith_app _ _ S1) at 1. fold s1. f_equal.
    rewrite <- (firstn_skipn n1 s1) at 1. f_equal.
    rewrite (startsWith_app _ _ S2) at 1. fold s2. f_equal.
    rewrite <- (firstn_skipn n2 s2) at 1. f_equal. exact S3.
  - lia.
  - same_match.
Qed.

(** [indexOf] finds an occurrence. *)
Lemma indexOfFrom_found (p : str) : forall s i,
  indexOfFrom p s i <> -1 ->
  0 <= i ->
  exists a b, s = a ++ p ++ b /\ indexOfFrom p s i = i + len a.
Proof.
  induction s as [|c s IH]; intros i Hr Hi; cbn [indexOfFrom] in *.
  - destruct (startsWith p []) eqn:E; [|contradiction Hr; reflexivity].
    exists [], (skipn (length p) []). split.
    + apply (startsWith_app _ _ E).
    + change (len []) with 0. lia.
  - destruct (startsWith p (c :: s)) eqn:E.
    + exists [], (skipn (length p) (c :: s)). split.
      * apply (startsWith_app _ _ E).
      * change (len []) with 0. lia.
    + destruct (IH (i + 1) Hr) as (a & b & Hs & Hx); [lia|].
      exists (c :: a), b. split.
      * rewrite Hs. reflexivity.
      * rewrite Hx, len_cons. lia.
Qed.

Lemma substring_at (a u b : str) (n : Z) :
  n = len a -> substring n (n + len u) (a ++ u ++ b) = u.
Proof. intros ->. apply substring_mid. Qed.

(** Where a Markdown image and its URL are. *)
Lemma markdown_spans (text : str) (m : ImageMatch) :
  In m (map (fun m =>
               let alt := orEmpty (group 1 text m) in
               let url := orEmpty (group 2 text m) in
               let start := m_index m in
               let end_ := start + len (wholeMatch text m) in
               let urlStart := start + 2 + len alt + 2 in
               let urlEnd := urlStart + len url in
               {| alt := alt; url := url; imgStart := start; imgEnd := end_;
                  urlStart := urlStart; urlEnd := urlEnd |})
          (execAll regex text)) ->
  0 <= imgStart m
  /\ imgStart m <= urlStart m
  /\ urlEnd m = urlStart m + len (url m)
  /\ urlEnd m <= imgEnd m
  /\ imgEnd m <= len text
  /\ substring (urlStart m) (urlEnd m) text = url m.
Proof.
  cbv zeta. intro H.
  apply in_map_iff in H. destruct H as (m' & <- & Hin).
  apply execAll_position in Hin.
  destruct Hin as (j & n & Hjn & Hi & He & Hm).
  apply markdown_match in Hm.
  destruct Hm as (al & ur & post & Hs & He' & Hcaps).
  assert (Ht : text = firstn j text ++ skipn j text)
    by (symmetry; apply firstn_skipn).
  set (pre := firstn j text) in *.
  assert (Hpre : len pre = Z.of_nat j)
    by (unfold pre; apply len_firstn; lia).
  rewrite Hs in Ht.
  assert (Halt : group 1 text m' = Some al).
  { unfold group. rewrite Hcaps. cbn [groupSpan Nat.eqb sp_start sp_end].
    f_equal. rewrite Ht at 1.
    replace (pre ++ lit "![" ++ al ++ lit "](" ++ ur ++ [41] ++ post)
      with ((pre ++ lit "![") ++ al ++ lit "](" ++ ur ++ [41] ++ post)
      by (rewrite <- app_assoc; reflexivity).
    apply substring_at. rewrite len_app. change (len (lit "![")) with 2. lia. }
  assert (Hurl : group 2 text m' = Some ur).
  { unfold group. rewrite Hcaps. cbn [groupSpan Nat.eqb sp_start sp_end].
    f_equal. rewrite Ht at 1.
    replace (pre ++ lit "![" ++ al ++ lit "](" ++ ur ++ [41] ++ post)
      with ((pre ++ lit "![" ++ al ++ lit "](") ++ ur ++ [41] ++ post)
      by (rewrite <- !app_assoc; reflexivity).
    apply substring_at. rewrite !len_app.
    change (len (lit "![")) with 2. change (len (lit "](")) with 2. lia. }
  assert (Hwhole : len (wholeMatch text m') = len al + len ur + 5).
  { unfold wholeMatch. rewrite Ht at 1.
    replace (pre ++ lit "![" ++ al ++ lit "](" ++ ur ++ [41] ++ post)
      with (pre ++ (lit "![" ++ al ++ lit "](" ++ ur ++ [41]) ++ post)
      by (rewrite <- !app_assoc; reflexivity).
    replace (m_end m')
      with (m_index m' + len (lit "![" ++ al ++ lit "](" ++ ur ++ [41])).
    - rewrite substring_at by lia. rewrite !len_app.
      change (len (lit "![")) with 2. change (len (lit "](")) with 2.
      change (len [41]) with 1. lia.
    - rewrite !len_app. change (len (lit "![")) with 2.
      change (len (lit "](")) with 2. change (len [41]) with 1. lia. }
  cbn [imgStart urlStart urlEnd imgEnd url]. rewrite Halt, Hurl, Hwhole.
  cbn [orEmpty]. pose proof (len_nonneg al). pose proof (len_nonneg ur).
  unfold len in Hjn |- *. fold (len al). fold (len ur). fold (len text).
  repeat split; try lia.
  - unfold len in *. lia.
  - rewrite Ht at 1.
    replace (pre ++ lit "![" ++ al ++ lit "](" ++ ur ++ [41] ++ post)
      with ((pre ++ lit "![" ++ al ++ lit "](") ++ ur ++ [41] ++ post)
      by (rewrite <- !app_assoc; reflexivity).
    apply substring_at. rewrite !len_app.
    change (len (lit "![")) with 2. change (len (lit "](")) with 2. lia.
Qed.

(** Where the image of a tag and its URL are. *)
Lemma tag_spans (text : str) (m : ImageMatch) :
  In m (flat_map (fun m =>
                    let url := orEmpty (group 1 text m) in
                    let start := m_index m in
                    let end_ := start + len (wholeMatch text m) in
                    let srcIndex := indexOf url (wholeMatch text m) in
                    if negb (srcIndex =? -1) then
                      let urlStart := start + srcIndex in
                      let urlEnd := urlStart + len url in
                      [ {| alt := []; url := url; imgStart := start;
                           imgEnd := end_; urlStart := urlStart;
                           urlEnd := urlEnd |} ]
                    else [])
          (execAll imgTagRegex text)) ->
  0 <= imgStart m
  /\ imgStart m <= urlStart m
  /\ urlEnd m = urlStart m + len (url m)
  /\ urlEnd m <= imgEnd m
  /\ imgEnd m <= len text
  /\ substring (urlStart m) (urlEnd m) text = url m.
Proof.
  cbv zeta. intro H.
  apply in_flat_map in H. destruct H as (m' & Hin & H).
  apply execAll_position in Hin.
  destruct Hin as (j & n & Hjn & Hi & He & _).
  set (u := orEmpty (group 1 text m')) in *.
  destruct (indexOf u (wholeMatch text m') =? -1) eqn:E; [destruct H|].
  cbn [negb] in H. destruct H as [<-|[]].
  apply Z.eqb_neq in E. unfold indexOf in *.
  destruct (indexOfFrom_found u (wholeMatch text m') 0 E) as (a & b & Hw & Hx);
    [lia|].
  rewrite Hx. cbn [imgStart urlStart urlEnd imgEnd url].
  assert (Hwhole : wholeMatch text m' = firstn n (skipn j text)).
  { unfold wholeMatch, substring. rewrite Hi, He.
    f_equal; [|f_equal]; lia. }
  assert (Hlen : len (wholeMatch text m') = Z.of_nat n).
  { rewrite Hwhole. apply len_firstn. rewrite length_skipn. lia. }
  assert (Ht : text = (firstn j text ++ a) ++ u ++ (b ++ skipn n (skipn j text))).
  { rewrite <- (firstn_skipn j text) at 1.
    rewrite <- (firstn_skipn n (skipn j text)) at 1.
    rewrite <- Hwhole, Hw, <- !app_assoc. reflexivity. }
  assert (Hpre : len (firstn j text) = Z.of_nat j)
    by (apply len_firstn; lia).
  rewrite Hw, !len_app in Hlen.
  pose proof (len_nonneg a). pose proof (len_nonneg b).
  pose proof (len_nonneg u).
  rewrite Hw, !len_app.
  repeat split; try lia.
  - unfold len in *. lia.
  - rewrite Ht at 1. apply substring_at. rewrite len_app. lia.
Qed.

(** X9: every image [findImageMatches] finds in a text, written in
    Markdown or as a tag, lies inside the text, the span of its URL lies
    inside the image and has the length of the URL, and the text of that
    span, in the text the images were found in, is the URL. *)
Theorem image_match_spans (text : str) (m : ImageMatch) :
  In m (findImageMatches text) ->
  0 <= imgStart m
  /\ imgStart m <= urlStart m
  /\ urlEnd m = urlStart m + len (url m)
  /\ urlEnd m <= imgEnd m
  /\ imgEnd m <= len text
  /\ substring (urlStart m) (urlEnd m) text = url m.
Proof.
  unfold findImageMatches. cbv zeta. intro H. apply in_app_or in H.
  destruct H as [H|H].
  - exact (markdown_spans text m H).
  - exact (tag_spans text m H).
Qed.

Lemma image_match_spans_witness :
  let text := lit "a ![x](p.png) <img alt='p' src='q.png'>" in
  let m := {| alt := []; url := lit "q.png"; imgStart := 14; imgEnd := 39;
              urlStart := 32; urlEnd := 37 |} in
  0 <= imgStart m
  /\ imgStart m <= urlStart m
  /\ urlEnd m = urlStart m + len (url m)
  /\ urlEnd m <= imgEnd m
  /\ imgEnd m <= len text
  /\ substring (urlStart m) (urlEnd m) text = url m.
Proof.
  intros text m. apply (image_match_spans text m).
  vm_compute. right. left. reflexivity.
Defined.

(** ** An upload that succeeds *)

(** What an upload that returns a URL has met, and the URL it returns. *)
Lemma uploadImage_success (s : Model.Settings) (cos : Model.TencentCos)
    (net : Network) (u : str) (file : TFile) (failed failed' : UrlSet)
    (v : str) :
  Model.tencentCos s = Some cos ->
  uploadImage s net u file failed = (Some v, failed') ->
  failed' = failed
  /\ truthy (Model.bucket cos) = true /\ truthy (Model.region cos) = true
  /\ exists filename body status,
       (if startsWith (lit "http") u
        then requestUrl net u = Some body /\ filename = guessedName net u
        else exists linked,
               getFirstLinkpathDest net (linkPathOf u) (path file) = Some linked
               /\ readBinary net linked = Some body
               /\ filename = name linked)
       /\ putObject net (uploadUrlOf cos (keyOf net filename)) body = Some status
       /\ 200 <= status /\ status < 300
       /\ v = publicUrlOf cos (keyOf net filename).
Proof.
  intros Hcos. unfold uploadImage. rewrite Hcos. cbv zeta.
  assert (Hup : forall body filename,
             (if negb (truthy (Model.bucket cos))
                 || negb (truthy (Model.region cos))
              then (None, failed)
              else
                match
                  putObject net
                    (lit "https://" ++ Model.bucket cos ++ lit ".cos."
                     ++ Model.region cos ++ lit ".myqcloud.com/"
                     ++ lit "obsidian/" ++ numberToString (now net)
                     ++ lit "_" ++ filename) body
                with
                | Some status =>
                    if (200 <=? status) && (status <? 300)
                    then
                      if truthy (Model.domain cos)
                      then (Some (cleanDomainOf (Model.domain cos) ++ lit "/"
                                  ++ lit "obsidian/"
                                  ++ numberToString (now net) ++ lit "_"
                                  ++ filename), failed)
                      else (Some (lit "https://" ++ Model.bucket cos
                                  ++ lit ".cos." ++ Model.region cos
                                  ++ lit ".myqcloud.com/" ++ lit "obsidian/"
                                  ++ numberToString (now net) ++ lit "_"
                                  ++ filename), failed)
                    else (None, add u failed)
                | None => (None, add u failed)
                end) = (Some v, failed') ->
             failed' = failed
             /\ truthy (Model.bucket cos) = true
             /\ truthy (Model.region cos) = true
             /\ exists status,
                  putObject net (uploadUrlOf cos (keyOf net filename)) body
                  = Some status
                  /\ 200 <= status /\ status < 300
                  /\ v = publicUrlOf cos (keyOf net filename)).
  { intros body filename. unfold uploadUrlOf, publicUrlOf, keyOf.
    destruct (truthy (Model.bucket cos)); [|discriminate].
    destruct (truthy (Model.region cos)); [|discriminate]. cbn [negb orb].
    match goal with
    | |- match putObject net ?t body with _ => _ end = _ -> _ =>
        destruct (putObject net t body) as [status|]; [|discriminate]
    end.
    destruct (Z.leb_spec 200 status); [|discriminate].
    destruct (Z.ltb_spec status 300); [|discriminate]. cbn [andb].
    destruct (truthy (Model.domain cos)); intros [= <- <-];
      (repeat split; try reflexivity; exists status; repeat split; assumption). }
  destruct (startsWith (lit "http") u).
  - destruct (requestUrl net u) as [body|]; [|discriminate].
    intro H. apply Hup in H. destruct H as (H1 & H2 & H3 & status & H4).
    repeat split; try assumption.
    exists (guessedName net u), body, status. split; [split; reflexivity|].
    exact H4.
  - fold (linkPathOf u).
    destruct (getFirstLinkpathDest net (linkPathOf u) (path file))
      as [linked|] eqn:Hl; [|discriminate].
    destruct (readBinary net linked) as [body|] eqn:Hr; [|discriminate].
    intro H. apply Hup in H. destruct H as (H1 & H2 & H3 & status & H4).
    repeat split; try assumption.
    exists (name linked), body, status. split; [|exact H4].
    exists linked. repeat split; assumption.
Qed.

(** ** The name of the file of a remote image *)

Lemma split_keeps (q : Z -> bool) (sep : Z) : forall s,
  forallb q s = true -> Forall (fun l => forallb q l = true) (split sep s).
Proof.
  induction s as [|c s IH]; intro H; [repeat constructor|].
  simpl in H. apply andb_prop in H. destruct H as [Hc Hs].
  specialize (IH Hs). cbn [split]. destruct (c =? sep).
  - constructor; [reflexivity|exact IH].
  - destruct (split sep s) as [|l ls]; [repeat constructor; simpl; rewrite Hc; reflexivity|].
    inversion IH; subst. constructor; [|assumption].
    simpl. rewrite Hc. assumption.
Qed.

Lemma Forall_last {A} (P : A -> Prop) (l : list A) (d : A) :
  Forall P l -> P d -> P (last l d).
Proof.
  induction 1 as [|x l Hx Hl IH]; intro Hd; [exact Hd|].
  destruct l; [exact Hx|]. apply IH, Hd.
Qed.

Lemma Forall_hd {A} (P : A -> Prop) (l : list A) (d : A) :
  Forall P l -> P d -> P (hd d l).
Proof. destruct 1; auto. Qed.

Lemma plain_uint (d : Decimal.uint) :
  plainName (lit (DecimalString.NilEmpty.string_of_uint d)) = true.
Proof. induction d; simpl; try reflexivity; exact IHd. Qed.

Lemma plain_numberToString (n : Z) : plainName (numberToString n) = true.
Proof.
  unfold numberToString, DecimalString.NilZero.string_of_int,
    DecimalString.NilZero.string_of_uint.
  destruct (Z.to_int n) as [d|d]; destruct d; simpl; try reflexivity;
    apply plain_uint.
Qed.

(** The name guessed for a remote image is not empty and holds no slash and
    no question mark. *)
Lemma guessedName_plain (net : Network) (u : str) :
  guessedName net u <> [] /\ plainName (guessedName net u) = true.
Proof.
  unfold guessedName. cbv zeta.
  destruct (truthy (firstPart (split 63 (lastPart (split 47 u))))) eqn:E.
  - split; [intro H; rewrite H in E; discriminate|].
    unfold plainName.
    assert (H47 : forallb (fun c => negb (c =? 47)) (lastPart (split 47 u))
                  = true).
    { unfold lastPart.
      apply (Forall_last (fun l => forallb (fun c => negb (c =? 47)) l = true));
        [apply split_no_sep|reflexivity]. }
    pose proof (split_keeps _ 63 _ H47) as K47.
    pose proof (split_no_sep 63 (lastPart (split 47 u))) as K63.
    unfold firstPart.
    destruct (split 63 (lastPart (split 47 u))) as [|l ls]; [reflexivity|].
    inversion K47; subst. inversion K63; subst. cbn [hd].
    rewrite forallb_forall in *. intros c Hc.
    rewrite (H1 c Hc), (H3 c Hc). reflexivity.
  - split; [discriminate|]. unfold plainName. rewrite !forallb_app.
    fold (plainName (numberToString (now net))).
    rewrite plain_numberToString. reflexivity.
Qed.

(** X10: when [uploadImage] returns a URL, the set of failed URLs is as it
    was, the bucket and the region are set, the body came from the download
    of a URL that starts with "http" or from the file the link path resolves
    to, the PUT of the body to the standard URL of the key
    [obsidian/<now>_<filename>] answered with a status from 200 to 299, and
    the URL returned is the custom domain, without a slash at its end, a
    slash and the key, or the standard URL when no custom domain is set.
    The file name of a remote image is never empty and holds no slash and no
    question mark. *)
Theorem upload_success_shape (s : Model.Settings) (cos : Model.TencentCos)
    (net : Network) (u : str) (file : TFile) (failed failed' : UrlSet)
    (v : str) :
  Model.tencentCos s = Some cos ->
  uploadImage s net u file failed = (Some v, failed') ->
  failed' = failed
  /\ truthy (Model.bucket cos) = true /\ truthy (Model.region cos) = true
  /\ (exists filename body status,
        (if startsWith (lit "http") u
         then requestUrl net u = Some body /\ filename = guessedName net u
         else exists linked,
                getFirstLinkpathDest net (linkPathOf u) (path file)
                = Some linked
                /\ readBinary net linked = Some body
                /\ filename = name linked)
        /\ putObject net (uploadUrlOf cos (keyOf net filename)) body
           = Some status
        /\ 200 <= status /\ status < 300
        /\ v = publicUrlOf cos (keyOf net filename))
  /\ guessedName net u <> [] /\ plainName (guessedName net u) = true.
Proof.
  intros Hcos H.
  destruct (uploadImage_success _ _ _ _ _ _ _ _ Hcos H) as (H1 & H2 & H3 & H4).
  destruct (guessedName_plain net u) as [H5 H6].
  repeat split; assumption.
Qed.

Lemma upload_success_shape_witness :
  let cos := {| Model.secretId := lit "id"; Model.secretKey := lit "key";
                Model.bucket := lit "b-1"; Model.region := lit "ap-x";
                Model.domain := lit "https://img.example.com/" |} in
  let s := {| Model.formatOnSave := false; Model.formatOnFileChange := false;
              Model.removeExtraSpaces := false;
              Model.addTrailingSpaces := false;
              Model.headerStartLevel := 1; Model.autoNumbering := false;
              Model.tencentCos := Some cos |} in
  let net := {| requestUrl := fun _ => Some [1; 2];
                getFirstLinkpathDest := fun _ _ => None;
                readBinary := fun _ => None;
                now := 7;
                putObject := fun _ _ => Some 204 |} in
  let file := {| path := lit "note.md"; name := lit "note.md" |} in
  let u := lit "http://x.org/a/b.png?w=1" in
  uploadImage s net u file [lit "old"]
  = (Some (lit "https://img.example.com/obsidian/7_b.png"), [lit "old"])
  /\ plainName (guessedName net u) = true
  /\ truthy (Model.bucket cos) = true.
Proof.
  intros cos s net file u.
  assert (Hrun : uploadImage s net u file [lit "old"]
                 = (Some (lit "https://img.example.com/obsidian/7_b.png"),
                    [lit "old"])) by (vm_compute; reflexivity).
  split; [exact Hrun|].
  destruct (upload_success_shape s cos net u file [lit "old"] [lit "old"] _
              eq_refl Hrun) as (_ & Hb & _ & _ & _ & Hp).
  split; [exact Hp|exact Hb].
Defined.

(** ** A URL that was uploaded *)

Lemma startsWith_prefix (p b : str) : startsWith p (p ++ b) = true.
Proof.
  induction p as [|c p IH]; [reflexivity|].
  simpl. rewrite Z.eqb_refl. exact IH.
Qed.

Lemma includes_mid (p : str) : forall a b, includes p (a ++ p ++ b) = true.
Proof.
  induction a as [|c a IH]; intro b.
  - cbn [app]. destruct (p ++ b) eqn:E; cbn [includes];
      rewrite <- E, startsWith_prefix; reflexivity.
  - cbn [app includes]. rewrite IH. apply orb_true_r.
Qed.

Lemma endsWith_last (c : Z) (d : str) :
  endsWith [c] d = true -> d = removelast d ++ [c].
Proof.
  unfold endsWith. cbn [rev app]. intro H.
  destruct (rev d) as [|x y] eqn:E; [discriminate|].
  cbn [startsWith] in H. apply andb_prop in H. destruct H as [H _].
  apply Z.eqb_eq in H. subst x.
  assert (Hd : d = rev y ++ [c]).
  { rewrite <- (rev_involutive d), E. reflexivity. }
  rewrite Hd at 1 2. rewrite removelast_last. reflexivity.
Qed.

(** The URL returned for a custom domain that starts with "http" starts
    with "http" and holds the domain. *)
Lemma publicUrl_custom (d key : str) :
  startsWith (lit "http") d = true ->
  startsWith (lit "http") (cleanDomainOf d ++ lit "/" ++ key) = true
  /\ includes d (cleanDomainOf d ++ lit "/" ++ key) = true.
Proof.
  intro H. unfold cleanDomainOf.
  destruct (endsWith [47] d) eqn:E.
  - pose proof (endsWith_last _ _ E) as Hd.
    assert (Hv : removelast d ++ lit "/" ++ key = d ++ key).
    { rewrite Hd at 2. rewrite <- app_assoc. reflexivity. }
    rewrite Hv. split.
    + apply startsWith_app in H. rewrite H, <- app_assoc.
      apply startsWith_prefix.
    + apply (includes_mid d [] key).
  - split.
    + apply startsWith_app in H. rewrite H, <- app_assoc.
      apply startsWith_prefix.
    + apply (includes_mid d [] (lit "/" ++ key)).
Qed.

(** The URL returned for a custom domain that does not start with "http"
    does not start with "http". *)
Lemma publicUrl_no_scheme (d key : str) :
  startsWith (lit "http") d = false ->
  startsWith (lit "http") (cleanDomainOf d ++ lit "/" ++ key) = false.
Proof.
  unfold cleanDomainOf, endsWith.
  change (lit "http") with [104; 116; 116; 112]. change (lit "/") with [47].
  destruct d as [|a [|b [|c [|e [|x rest]]]]]; cbn [rev app startsWith removelast];
    intro H;
    repeat match goal with
           | |- context [if ?t then _ else _] => destruct t
           end;
    cbn [app startsWith] in *;
    repeat match goal with
           | |- context [?x =? ?y] =>
               destruct (Z.eqb_spec x y); subst; cbn [andb] in *
           end;
    try reflexivity; try discriminate; try lia.
Qed.

(** X11: a URL that [uploadImage] has returned is refused by
    [shouldUpload], whatever the set of failed URLs, when the custom domain
    is empty or starts with "http": an image that was uploaded is not
    uploaded again.  When the custom domain is set and does not start with
    "http", the URL returned does not start with "http" either, so
    [shouldUpload] takes it for a local path and accepts it unless it was
    recorded as failed. *)
Theorem uploaded_url_is_skipped (s : Model.Settings) (cos : Model.TencentCos)
    (net : Network) (u : str) (file : TFile) (failed later : UrlSet)
    (v : str) :
  Model.tencentCos s = Some cos ->
  fst (uploadImage s net u file failed) = Some v ->
  (truthy (Model.domain cos) = false
   \/ startsWith (lit "http") (Model.domain cos) = true ->
   shouldUpload s later v (Model.domain cos) = false)
  /\ (truthy (Model.domain cos) = true ->
      startsWith (lit "http") (Model.domain cos) = false ->
      shouldUpload s later v (Model.domain cos) = negb (has v later)).
Proof.
  intros Hcos H.
  destruct (uploadImage s net u file failed) as [r failed'] eqn:E.
  cbn [fst] in H. subst r.
  destruct (uploadImage_success _ _ _ _ _ _ _ _ Hcos E)
    as (_ & Hb & Hr & filename & body & status & _ & _ & _ & _ & Hv).
  unfold publicUrlOf in Hv. unfold shouldUpload. rewrite Hcos, Hb, Hr.
  cbn [andb]. split.
  - intro Hd. destruct (has v later); [reflexivity|].
    destruct (truthy (Model.domain cos)) eqn:Ht.
    + destruct Hd as [Hd|Hd]; [discriminate|].
      destruct (publicUrl_custom _ (keyOf net filename) Hd) as [H1 H2].
      rewrite Hv, H1, H2. reflexivity.
    + rewrite Hv. unfold uploadUrlOf.
      change (startsWith (lit "http")
                (lit "https://" ++ Model.bucket cos ++ lit ".cos."
                 ++ Model.region cos ++ lit ".myqcloud.com/"
                 ++ keyOf net filename)) with true.
      cbn [andb]. unfold standardDomainOf.
      replace (lit "https://" ++ Model.bucket cos ++ lit ".cos."
               ++ Model.region cos ++ lit ".myqcloud.com/"
               ++ keyOf net filename)
        with (lit "https://"
              ++ (Model.bucket cos ++ lit ".cos." ++ Model.region cos
                  ++ lit ".myqcloud.com")
              ++ lit "/" ++ keyOf net filename)
        by (rewrite <- !app_assoc; reflexivity).
      rewrite includes_mid. reflexivity.
  - intros Ht Hd. rewrite Ht in Hv. rewrite Hv.
    rewrite (publicUrl_no_scheme _ _ Hd).
    destruct (has _ later); reflexivity.
Qed.

Lemma uploaded_url_is_skipped_witness :
  let cos := {| Model.secretId := lit "id"; Model.secretKey := lit "key";
                Model.bucket := lit "b-1"; Model.region := lit "ap-x";
                Model.domain := [] |} in
  let s := {| Model.formatOnSave := false; Model.formatOnFileChange := false;
              Model.removeExtraSpaces := false;
              Model.addTrailingSpaces := false;
              Model.headerStartLevel := 1; Model.autoNumbering := false;
              Model.tencentCos := Some cos |} in
  let net := {| requestUrl := fun _ => Some [1; 2];
                getFirstLinkpathDest := fun _ _ => None;
                readBinary := fun _ => None;
                now := 7;
                putObject := fun _ _ => Some 200 |} in
  let file := {| path := lit "note.md"; name := lit "note.md" |} in
  shouldUpload s [] (lit "https://b-1.cos.ap-x.myqcloud.com/obsidian/7_a.png")
    [] = false.
Proof.
  intros cos s net file.
  apply (proj1 (uploaded_url_is_skipped s cos net (lit "http://x.org/a.png")
                  file [] [] _ eq_refl eq_refl)).
  left. reflexivity.
Defined.

(** ** No upload without the configuration *)

(** X12: unless the secret id, the secret key, the bucket and the region
    are all set, [uploadImages] starts no upload, whatever the text holds:
    it returns the offset it was given and leaves the buffer and the set of
    failed URLs as they are.  So it does with the default settings, and on a
    text in which [findImageMatches] finds no image. *)
Theorem upload_needs_configuration (s : Model.Settings)
    (nets : nat -> Network) (file : TFile) (T : Z) (failed : UrlSet)
    (c : MagicString) :
  configured s = false \/ findImageMatches (original c) = [] ->
  uploadImages s nets file T failed c = Ok ((T, failed), c).
Proof.
  unfold configured, uploadImages, initCos.
  destruct (Model.tencentCos s) as [cos|]; [|reflexivity].
  destruct (truthy (Model.bucket cos)); [|reflexivity].
  destruct (truthy (Model.region cos)); [|reflexivity].
  destruct (truthy (Model.secretId cos)); [|reflexivity].
  destruct (truthy (Model.secretKey cos)); [|reflexivity].
  cbn [negb orb andb]. intros [H|H]; [discriminate|]. rewrite H. reflexivity.
Qed.

Lemma upload_needs_configuration_witness :
  let nets := fun _ : nat =>
                {| requestUrl := fun _ => Some [1];
                   getFirstLinkpathDest := fun _ _ => None;
                   readBinary := fun _ => None;
                   now := 7;
                   putObject := fun _ _ => Some 200 |} in
  let file := {| path := lit "note.md"; name := lit "note.md" |} in
  let c := newMagicString (lit "![a](http://x.org/a.png)") in
  uploadImages Model.getDefaultSettings nets file 3 [] c = Ok ((3, []), c).
Proof.
  intros nets file c.
  apply (upload_needs_configuration Model.getDefaultSettings nets file 3 [] c).
  left. reflexivity.
Defined.

(* ================================================================ *)
(** * Further properties of the formatting operations *)

(** ** The text at construction *)

Lemma keeps_ret {A} (a : A) : keepsOriginal (ret a).
Proof. intros c a' c' [= _ <-]. reflexivity. Qed.

Lemma keeps_bind {A B} (m : Engine A) (k : A -> Engine B) :
  keepsOriginal m -> (forall a, keepsOriginal (k a)) ->
  keepsOriginal (bind m k).
Proof.
  intros Hm Hk c b c'. unfold bind.
  destruct (m c) as [[a c1]|e] eqn:E; [|discriminate].
  intro H. rewrite (Hk a _ _ _ H). apply (Hm _ _ _ E).
Qed.

Lemma keeps_if {A} (b : bool) (m1 m2 : Engine A) :
  keepsOriginal m1 -> keepsOriginal m2 -> keepsOriginal (if b then m1 else m2).
Proof. destruct b; auto. Qed.

Lemma keeps_update (s e : Z) (t : str) (T : Z) : keepsOriginal (update s e t T).
Proof.
  intros c a c'. unfold update. destruct (validSpan s e c); [|discriminate].
  intros [= _ <-]. reflexivity.
Qed.

Lemma keeps_delete (s : Z) (e : option Z) (T : Z) : keepsOriginal (delete s e T).
Proof.
  intros c a c'. unfold delete. cbv zeta.
  match goal with |- (if ?b then _ else _) = _ -> _ => destruct b end;
    [|discriminate].
  intros [= _ <-]. reflexivity.
Qed.

Lemma keeps_mutate (t : str) : keepsOriginal (mutate t).
Proof. intros c a c' [= _ <-]. reflexivity. Qed.

Lemma keeps_append (t : str) : keepsOriginal (append t).
Proof. intros c a c' [= _ <-]. reflexivity. Qed.

Lemma keeps_getCurrent : keepsOriginal getCurrent.
Proof. intros c a c' [= _ <-]. reflexivity. Qed.

Lemma keeps_awaitFormat {A} (x : option A) : keepsOriginal (awaitFormat x).
Proof.
  intros c a c'. unfold awaitFormat. destruct x; [|discriminate].
  intros [= _ <-]. reflexivity.
Qed.

Lemma keeps_forEach {A} (f : Z -> A -> Engine Z) :
  (forall T x, keepsOriginal (f T x)) ->
  forall xs T, keepsOriginal (forEach f xs T).
Proof.
  intro Hf. induction xs as [|x xs IH]; intro T; cbn [forEach].
  - apply keeps_ret.
  - apply keeps_bind; [apply Hf|]. intro a. apply IH.
Qed.

Lemma keeps_removeExtraSpaces (T : Z) : keepsOriginal (removeExtraSpaces T).
Proof.
  intros c a c' H.
  destruct (removeExtraSpaces_text c T) as (T1 & c1 & Hrun & Ho & _).
  rewrite Hrun in H. injection H as _ <-. exact Ho.
Qed.

Lemma keeps_addTrailingSpaces (T : Z) : keepsOriginal (addTrailingSpaces T).
Proof.
  intros c a c' H.
  destruct (addTrailingSpaces_text c T) as (T1 & c1 & Hrun & Ho & _).
  rewrite Hrun in H. injection H as _ <-. exact Ho.
Qed.

Lemma keeps_adjustHeaderLevels (s : Model.Settings) (T : Z) :
  keepsOriginal (adjustHeaderLevels s T).
Proof.
  intros c a c' H.
  destruct (adjustHeaderLevels_runs s T c) as (T1 & c1 & Hrun & Ho & _).
  rewrite Hrun in H. injection H as _ <-. exact Ho.
Qed.

Lemma keeps_addHeaderNumbering (T : Z) : keepsOriginal (addHeaderNumbering T).
Proof.
  intros c a c' H.
  destruct (addHeaderNumbering_runs T c) as (T1 & c1 & Hrun & Ho & _).
  rewrite Hrun in H. injection H as _ <-. exact Ho.
Qed.

Lemma keeps_structuralPasses (s : Model.Settings) (T : Z) :
  keepsOriginal (structuralPasses s T).
Proof.
  unfold structuralPasses.
  apply keeps_bind;
    [apply keeps_if; [apply keeps_removeExtraSpaces|apply keeps_ret]|].
  intro o1. apply keeps_bind;
    [apply keeps_if; [apply keeps_addTrailingSpaces|apply keeps_ret]|].
  intro o2. apply keeps_bind;
    [apply keeps_if; [apply keeps_adjustHeaderLevels|apply keeps_ret]|].
  intro o3. apply keeps_if; [apply keeps_addHeaderNumbering|apply keeps_ret].
Qed.

Lemma keeps_uploadImages (s : Model.Settings) (nets : nat -> Network)
    (file : TFile) (T : Z) (failed : UrlSet) :
  keepsOriginal (uploadImages s nets file T failed).
Proof.
  intros c a c'. unfold uploadImages.
  destruct (Model.tencentCos s) as [cos|]; [|apply keeps_ret].
  destruct (negb (truthy (Model.bucket cos)) || negb (truthy (Model.region cos)));
    [apply keeps_ret|].
  destruct (negb (initCos s)); [apply keeps_ret|].
  destruct (findImageMatches (original c)) as [|m ms]; [apply keeps_ret|].
  destruct (runUploads s nets file 0 _ failed) as [results failed'].
  apply keeps_bind; [|intro; apply keeps_ret].
  unfold applyResults. apply keeps_forEach. intros T0 r.
  destruct (newUrl r) as [v|]; [|apply keeps_ret].
  destruct (truthy v); [apply keeps_update|apply keeps_ret].
Qed.

Lemma keeps_reconcileNewline : keepsOriginal reconcileNewline.
Proof.
  intros c a c'. unfold reconcileNewline. cbv zeta.
  destruct (endsWith [10] (original c) && negb (endsWith [10] (current c)));
    [apply keeps_append|].
  destruct (negb (endsWith [10] (original c)) && endsWith [10] (current c));
    [|apply keeps_ret].
  apply keeps_bind; [apply keeps_delete|intro; apply keeps_ret].
Qed.

Lemma modified_differs (text : str) (c : MagicString) :
  original c = text -> isModified c = true -> current c <> text.
Proof.
  intros <- H E. unfold isModified in H. rewrite E, str_eqb_refl in H.
  discriminate.
Qed.

(** X13: the operations write only a text that has changed (with
    [isModified] true iff the current text differs from the text at
    construction, and that text kept by every edit).  [formatFile]
    makes no call or the one call [vault.modify] with a text that differs
    from the text it read; [formatContent] makes no call or [setValue] with
    a text that differs from the value of the editor, [scrollTo] with the
    scroll position read before, and at most a [setCursor] after them;
    [formatSelection] makes no call or the one call [replaceSelection] with
    a text that differs from the selection.  An operation on a file that
    [shouldUsePrettier] refuses makes no call and leaves the set of failed
    URLs as it is. *)
Theorem operations_write_changed_text (h : Host) (s : Model.Settings)
    (editor : Editor) (file : TFile) (failed : UrlSet) :
  (forall calls failed',
      formatFile h s file failed = Ok (calls, failed') ->
      calls = []
      \/ exists t, calls = [vaultModify file t] /\ t <> vaultRead h file)
  /\ (forall calls failed',
        formatContent h s editor (Some file) failed = Ok (calls, failed') ->
        calls = []
        \/ exists t,
             t <> getValue editor
             /\ (calls = [setValue t;
                          scrollTo (fst (getScrollInfo editor))
                            (snd (getScrollInfo editor))]
                 \/ exists p,
                      calls = [setValue t;
                               scrollTo (fst (getScrollInfo editor))
                                 (snd (getScrollInfo editor));
                               setCursor p]))
  /\ (forall calls failed',
        formatSelection h s editor (Some file) failed = Ok (calls, failed') ->
        calls = []
        \/ exists t,
             calls = [replaceSelection t] /\ t <> getSelection editor)
  /\ (shouldUsePrettier h file = false ->
      formatFile h s file failed = Ok ([], failed)
      /\ formatContent h s editor (Some file) failed = Ok ([], failed)
      /\ formatSelection h s editor (Some file) failed = Ok ([], failed)).
Proof.
  split; [|split; [|split]].
  - intros calls failed'. unfold formatFile.
    destruct (negb (shouldUsePrettier h file)); [intros [= <- _]; left; reflexivity|].
    cbv zeta.
    match goal with
    | |- match ?m ?c0 with _ => _ end = _ -> _ =>
        assert (Hk : keepsOriginal m); [|destruct (m c0) as [[[o f1] c1]|e] eqn:E]
    end.
    + apply keeps_bind; [apply keeps_uploadImages|]. intro r.
      apply keeps_bind; [apply keeps_getCurrent|]. intro cur.
      apply keeps_bind; [apply keeps_awaitFormat|]. intro formatted.
      apply keeps_bind; [apply keeps_mutate|]. intros _.
      apply keeps_bind; [apply keeps_structuralPasses|]. intro o.
      apply keeps_ret.
    + destruct (isModified c1) eqn:Hm; cbn [negb]; intros [= <- _];
        [right|left; reflexivity].
      exists (current c1). split; [reflexivity|].
      apply modified_differs; [|exact Hm]. apply (Hk _ _ _ E).
    + discriminate.
  - intros calls failed'. unfold formatContent.
    destruct (negb (shouldUsePrettier h file)); [intros [= <- _]; left; reflexivity|].
    destruct (getScrollInfo editor) as [left top]. cbv zeta.
    assert (Hk : keepsOriginal (contentPasses h s editor file failed)).
    { intros c0. unfold contentPasses. cbv zeta.
      apply keeps_bind; [apply keeps_uploadImages|]. intro r.
      apply keeps_bind.
      - apply keeps_if.
        + apply keeps_bind; [apply keeps_getCurrent|]. intro cur.
          apply keeps_bind; [apply keeps_awaitFormat|]. intro formatted.
          apply keeps_bind; [apply keeps_mutate|]. intros _. apply keeps_ret.
        + apply keeps_bind; [apply keeps_getCurrent|]. intro cur.
          apply keeps_bind; [apply keeps_awaitFormat|]. intro result.
          apply keeps_bind; [apply keeps_mutate|]. intros _. apply keeps_ret.
      - intro o. apply keeps_bind; [apply keeps_structuralPasses|]. intro o'.
        apply keeps_ret. }
    destruct (contentPasses h s editor file failed
                (newMagicString (getValue editor))) as [[[o f1] c1]|e] eqn:E;
      [|discriminate].
    destruct (isModified c1) eqn:Hm; cbn [negb]; intros [= <- _];
      [right|left; reflexivity].
    exists (current c1). split.
    + apply modified_differs; [|exact Hm]. apply (Hk _ _ _ E).
    + cbn [fst snd]. destruct (negb (o =? -1)); [right; eexists|left];
        reflexivity.
  - intros calls failed'. unfold formatSelection.
    destruct (negb (shouldUsePrettier h file)); [intros [= <- _]; left; reflexivity|].
    cbv zeta.
    match goal with
    | |- match ?m ?c0 with _ => _ end = _ -> _ =>
        assert (Hk : keepsOriginal m); [|destruct (m c0) as [[f1 c1]|e] eqn:E]
    end.
    + apply keeps_bind; [apply keeps_uploadImages|]. intro r.
      apply keeps_bind; [apply keeps_getCurrent|]. intro cur.
      apply keeps_bind; [apply keeps_awaitFormat|]. intro formatted.
      apply keeps_bind; [apply keeps_mutate|]. intros _.
      apply keeps_bind; [apply keeps_reconcileNewline|]. intros _.
      apply keeps_bind;
        [apply keeps_if; [apply keeps_removeExtraSpaces|apply keeps_ret]|].
      intros _. apply keeps_bind;
        [apply keeps_if; [apply keeps_addTrailingSpaces|apply keeps_ret]|].
      intros _. apply keeps_ret.
    + destruct (isModified c1) eqn:Hm; cbn [negb]; intros [= <- _];
        [right|left; reflexivity].
      exists (current c1). split; [reflexivity|].
      apply modified_differs; [|exact Hm]. apply (Hk _ _ _ E).
    + discriminate.
  - intro H. unfold formatFile, formatContent, formatSelection.
    rewrite H. repeat split; reflexivity.
Qed.

Lemma operations_write_changed_text_witness :
  let h := {| shouldUsePrettier := fun _ => true;
              shouldUseFastMode := fun _ => false;
              prettierFormat := fun _ => Some (lit "b" ++ [10]);
              prettierFormatWithCursor := fun t o => Some (t, o);
              vaultRead := fun _ => [];
              nets := fun _ =>
                {| requestUrl := fun _ => None;
                   getFirstLinkpathDest := fun _ _ => None;
                   readBinary := fun _ => None;
                   now := 0;
                   putObject := fun _ _ => None |} |} in
  let editor := {| getValue := lit "a"; getCursor := {| line := 0; ch := 0 |};
                   getSelection := lit "a"; getScrollInfo := (0, 0) |} in
  let file := {| path := lit "note.md"; name := lit "note.md" |} in
  formatSelection h Model.getDefaultSettings editor (Some file) []
  = Ok ([replaceSelection (lit "b")], [])
  /\ ([replaceSelection (lit "b")] = []
      \/ exists t, [replaceSelection (lit "b")] = [replaceSelection t]
                   /\ t <> getSelection editor).
Proof.
  intros h editor file.
  assert (Hrun : formatSelection h Model.getDefaultSettings editor (Some file) []
                 = Ok ([replaceSelection (lit "b")], []))
    by (vm_compute; reflexivity).
  split; [exact Hrun|].
  destruct (operations_write_changed_text h Model.getDefaultSettings editor
              file []) as (_ & _ & H & _).
  exact (H _ _ Hrun).
Defined.

(* ================================================================ *)
(** * Properties of the migration of the stored data *)

Import Migration.

(** ** Properties of objects *)

Lemma lookup_here (k : str) (v : Value) (more : Props) :
  lookup ((k, v) :: more) k = Some v.
Proof. simpl. rewrite str_eqb_refl. reflexivity. Qed.

Lemma str_eqb_neq (a b : str) : a <> b -> str_eqb a b = false.
Proof.
  intro H. destruct (str_eqb a b) eqn:E; [|reflexivity].
  apply str_eqb_eq in E. contradiction.
Qed.

Lemma lookup_set (k k' : str) (v : Value) : forall props,
  lookup (set k v props) k'
  = if str_eqb k k' then Some v else lookup props k'.
Proof.
  induction props as [|[k0 v0] more IH]; simpl.
  - reflexivity.
  - destruct (str_eqb k0 k) eqn:E0.
    + apply str_eqb_eq in E0. subst k0. simpl.
      destruct (str_eqb k k'); reflexivity.
    + simpl. rewrite IH. destruct (str_eqb k0 k') eqn:E1; [|reflexivity].
      apply str_eqb_eq in E1. subst k0.
      destruct (str_eqb k k') eqn:E2; [|reflexivity].
      apply str_eqb_eq in E2. subst k'. rewrite str_eqb_refl in E0.
      discriminate.
Qed.

Lemma lookup_none_keys (props : Props) (k : str) :
  lookup props k = None <-> ~ In k (map fst props).
Proof.
  induction props as [|[k0 v0] more IH]; simpl; [tauto|].
  destruct (str_eqb k0 k) eqn:E.
  - apply str_eqb_eq in E. split; [discriminate|]. intro H. contradiction H.
    left. exact E.
  - rewrite IH. split.
    + intros H [H1|H1]; [|contradiction].
      subst k0. rewrite str_eqb_refl in E. discriminate.
    + tauto.
Qed.

Lemma keys_set (k : str) (v : Value) : forall props k',
  In k' (map fst (set k v props)) <-> k' = k \/ In k' (map fst props).
Proof.
  induction props as [|[k0 v0] more IH]; intro k'; simpl.
  - split; [intros [H|[]]; left; symmetry; exact H|].
    intros [H|[]]. left. symmetry. exact H.
  - destruct (str_eqb k0 k) eqn:E; simpl.
    + apply str_eqb_eq in E. subst k0. split; [intros [H|H]; auto|].
      intros [H|[H|H]]; auto.
    + rewrite IH. tauto.
Qed.

Lemma distinct_set (k : str) (v : Value) : forall props,
  distinctKeys props -> distinctKeys (set k v props).
Proof.
  unfold distinctKeys.
  induction props as [|[k0 v0] more IH]; simpl; intro H.
  - constructor; [intros []|constructor].
  - inversion H as [|? ? Hn Hd]; subst.
    destruct (str_eqb k0 k) eqn:E; simpl.
    + apply str_eqb_eq in E. subst k0. constructor; assumption.
    + constructor; [|apply IH, Hd].
      rewrite keys_set. intros [H1|H1]; [|contradiction].
      subst k0. rewrite str_eqb_refl in E. discriminate.
Qed.

Lemma distinct_fold (source : Props) : forall props,
  distinctKeys props ->
  distinctKeys (fold_left (fun o kv => set (fst kv) (snd kv) o) source props).
Proof.
  induction source as [|[k v] more IH]; intros props H; [exact H|].
  simpl. apply IH, distinct_set, H.
Qed.

Lemma distinct_spread (props : Props) (v : Value) :
  distinctKeys props -> distinctKeys (spread props v).
Proof. apply distinct_fold. Qed.

Lemma lookup_fold (k : str) : forall source props,
  distinctKeys source ->
  lookup (fold_left (fun o kv => set (fst kv) (snd kv) o) source props) k
  = match lookup source k with
    | Some v => Some v
    | None => lookup props k
    end.
Proof.
  induction source as [|[k0 v0] more IH]; intros props H; [reflexivity|].
  inversion H as [|? ? Hn Hd]; subst. cbn [fold_left fst snd lookup].
  rewrite (IH _ Hd), lookup_set.
  destruct (str_eqb k0 k) eqn:E; [|reflexivity].
  apply str_eqb_eq in E. subst k0.
  apply lookup_none_keys in Hn. rewrite Hn. reflexivity.
Qed.

(** A property of a spread is the one of the value spread, or else the one
    that was there. *)
Lemma lookup_spread (props source : Props) (k : str) :
  distinctKeys source ->
  lookup (spread props (VObject source)) k
  = match lookup source k with
    | Some v => Some v
    | None => lookup props k
    end.
Proof. apply lookup_fold. Qed.

Section Versions.

Variable versionStrToNum : str -> Z.
Variable manifest : option str.

Local Notation "'migrate'" := (Migration.migrate versionStrToNum manifest).
Local Notation "'v200'" := (versionStrToNum (lit "2.0.0")).
Local Notation "'v201'" := (versionStrToNum (lit "2.0.1")).
Local Notation "'v202'" := (versionStrToNum (lit "2.0.2")).

(** ** The steps of the migration *)

Lemma migrate_new (fuel : nat) (data : Value) :
  isPlainObject data = false ->
  migrate (S fuel) data
  = Some (VObject [(lit "version", VNumber (getCurrentVersion versionStrToNum manifest));
                   (lit "settings", getDefaultSettings)]).
Proof.
  intro H. cbn [Migration.migrate]. rewrite H, orb_true_r. reflexivity.
Qed.

Lemma migrate_final (fuel : nat) (props : Props) :
  hasOwn props (lit "version") = true ->
  isNumber (get props (lit "version")) v200 = false ->
  isNumber (get props (lit "version")) v201 = false ->
  migrate (S fuel) (VObject props) = Some (VObject props).
Proof.
  intros H0 H1 H2. cbn [Migration.migrate isNullish isPlainObject negb orb ownProps].
  cbv zeta. rewrite H0, H1, H2. reflexivity.
Qed.

Lemma versioned (n : Z) (settings : Value) :
  hasOwn [(lit "version", VNumber n); (lit "settings", settings)]
    (lit "version") = true
  /\ get [(lit "version", VNumber n); (lit "settings", settings)]
       (lit "version") = VNumber n
  /\ get [(lit "version", VNumber n); (lit "settings", settings)]
       (lit "settings") = settings.
Proof. repeat split. Qed.

(** From 2.0.1: one step. *)
Lemma migrate_from_2_0_1 (fuel : nat) (props : Props) :
  versionsApart versionStrToNum ->
  hasOwn props (lit "version") = true ->
  isNumber (get props (lit "version")) v200 = false ->
  isNumber (get props (lit "version")) v201 = true ->
  migrate (S (S fuel)) (VObject props)
  = Some (VObject
            [(lit "version", VNumber v202);
             (lit "settings",
              VObject
                (set (lit "tencentCos") emptyTencentCos
                   (set (lit "autoNumbering") (VBool false)
                      (set (lit "headerStartLevel") (VNumber 1)
                         (spread [] (get props (lit "settings")))))))]).
Proof.
  intros (A1 & A2 & A3) H0 H1 H2.
  change (migrate (S (S fuel)) (VObject props))
    with (if negb (hasOwn props (lit "version")) then
            migrate (S fuel)
              (VObject
                 [(lit "version", VNumber v200);
                  (lit "settings",
                   VObject (set (lit "removeExtraSpaces") (VBool false)
                              (spread [] (VObject props))))])
          else if isNumber (get props (lit "version")) v200 then
            migrate (S fuel)
              (VObject
                 [(lit "version", VNumber v201);
                  (lit "settings",
                   VObject (spread [(lit "languageMappings", VObject [])]
                              (get props (lit "settings"))))])
          else if isNumber (get props (lit "version")) v201 then
            migrate (S fuel)
              (VObject
                 [(lit "version", VNumber v202);
                  (lit "settings",
                   VObject
                     (set (lit "tencentCos") emptyTencentCos
                        (set (lit "autoNumbering") (VBool false)
                           (set (lit "headerStartLevel") (VNumber 1)
                              (spread [] (get props (lit "settings")))))))])
          else Some (VObject props)).
  rewrite H0, H1, H2. cbn [negb].
  apply migrate_final.
  - reflexivity.
  - change (isNumber _ v200) with (v202 =? v200).
    apply Z.eqb_neq. congruence.
  - change (isNumber _ v201) with (v202 =? v201).
    apply Z.eqb_neq. congruence.
Qed.

(** From 2.0.0: two steps. *)
Lemma migrate_from_2_0_0 (fuel : nat) (props : Props) :
  versionsApart versionStrToNum ->
  hasOwn props (lit "version") = true ->
  isNumber (get props (lit "version")) v200 = true ->
  migrate (S (S (S fuel))) (VObject props)
  = Some (VObject
            [(lit "version", VNumber v202);
             (lit "settings",
              VObject
                (set (lit "tencentCos") emptyTencentCos
                   (set (lit "autoNumbering") (VBool false)
                      (set (lit "headerStartLevel") (VNumber 1)
                         (spread []
                            (VObject
                               (spread [(lit "languageMappings", VObject [])]
                                  (get props (lit "settings")))))))))]).
Proof.
  intros HA H0 H1.
  change (migrate (S (S (S fuel))) (VObject props))
    with (if negb (hasOwn props (lit "version")) then
            migrate (S (S fuel))
              (VObject
                 [(lit "version", VNumber v200);
                  (lit "settings",
                   VObject (set (lit "removeExtraSpaces") (VBool false)
                              (spread [] (VObject props))))])
          else if isNumber (get props (lit "version")) v200 then
            migrate (S (S fuel))
              (VObject
                 [(lit "version", VNumber v201);
                  (lit "settings",
                   VObject (spread [(lit "languageMappings", VObject [])]
                              (get props (lit "settings"))))])
          else if isNumber (get props (lit "version")) v201 then
            migrate (S (S fuel))
              (VObject
                 [(lit "version", VNumber v202);
                  (lit "settings",
                   VObject
                     (set (lit "tencentCos") emptyTencentCos
                        (set (lit "autoNumbering") (VBool false)
                           (set (lit "headerStartLevel") (VNumber 1)
                              (spread [] (get props (lit "settings")))))))])
          else Some (VObject props)).
  rewrite H0, H1. cbn [negb].
  rewrite migrate_from_2_0_1; [reflexivity|exact HA|reflexivity| |].
  - change (isNumber _ v200) with (v201 =? v200).
    apply Z.eqb_neq. destruct HA as (A1 & _). congruence.
  - change (isNumber _ v201) with (v201 =? v201). apply Z.eqb_refl.
Qed.

(** From the data of 1.x.x, which has no version: three steps. *)
Lemma migrate_from_1 (fuel : nat) (props : Props) :
  versionsApart versionStrToNum ->
  hasOwn props (lit "version") = false ->
  migrate (S (S (S (S fuel)))) (VObject props)
  = Some (VObject
            [(lit "version", VNumber v202);
             (lit "settings",
              VObject
                (set (lit "tencentCos") emptyTencentCos
                   (set (lit "autoNumbering") (VBool false)
                      (set (lit "headerStartLevel") (VNumber 1)
                         (spread []
                            (VObject
                               (spread [(lit "languageMappings", VObject [])]
                                  (VObject
                                     (set (lit "removeExtraSpaces")
                                        (VBool false)
                                        (spread [] (VObject props)))))))))))]).
Proof.
  intros HA H0.
  change (migrate (S (S (S (S fuel)))) (VObject props))
    with (if negb (hasOwn props (lit "version")) then
            migrate (S (S (S fuel)))
              (VObject
                 [(lit "version", VNumber v200);
                  (lit "settings",
                   VObject (set (lit "removeExtraSpaces") (VBool false)
                              (spread [] (VObject props))))])
          else if isNumber (get props (lit "version")) v200 then
            migrate (S (S (S fuel)))
              (VObject
                 [(lit "version", VNumber v201);
                  (lit "settings",
                   VObject (spread [(lit "languageMappings", VObject [])]
                              (get props (lit "settings"))))])
          else if isNumber (get props (lit "version")) v201 then
            migrate (S (S (S fuel)))
              (VObject
                 [(lit "version", VNumber v202);
                  (lit "settings",
                   VObject
                     (set (lit "tencentCos") emptyTencentCos
                        (set (lit "autoNumbering") (VBool false)
                           (set (lit "headerStartLevel") (VNumber 1)
                              (spread [] (get props (lit "settings")))))))])
          else Some (VObject props)).
  rewrite H0. cbn [negb].
  rewrite migrate_from_2_0_0; [reflexivity|exact HA|reflexivity|].
  change (isNumber _ v200) with (v200 =? v200). apply Z.eqb_refl.
Qed.

(** The result of a migration is migrated no further. *)
Lemma migrated_final (n : Z) (settings : Value) (fuel : nat) :
  n <> v200 -> n <> v201 ->
  migrate (S fuel)
    (VObject [(lit "version", VNumber n); (lit "settings", settings)])
  = Some (VObject [(lit "version", VNumber n); (lit "settings", settings)]).
Proof.
  intros H1 H2. apply migrate_final.
  - reflexivity.
  - change (isNumber _ v200) with (n =? v200). apply Z.eqb_neq, H1.
  - change (isNumber _ v201) with (n =? v201). apply Z.eqb_neq, H2.
Qed.

(** X14: when the three versions the migration tells apart are different
    numbers, [migrate] returns for every stored data, after at most three
    calls of itself.  The result is a plain object.  For data that is no
    plain object it is the current version with the default settings.  For
    a plain object it is an object that [migrate] returns as it is; so is
    every result when the current version is neither 2.0.0 nor 2.0.1. *)
Theorem migrate_returns (data : Value) :
  versionsApart versionStrToNum ->
  exists r,
    (forall fuel, (4 <= fuel)%nat -> migrate fuel data = Some r)
    /\ isPlainObject r = true
    /\ (isPlainObject data = false ->
        r = VObject [(lit "version",
                      VNumber (getCurrentVersion versionStrToNum manifest));
                     (lit "settings", getDefaultSettings)])
    /\ (isPlainObject data = true
        \/ (getCurrentVersion versionStrToNum manifest <> v200
            /\ getCurrentVersion versionStrToNum manifest <> v201) ->
        forall fuel, (1 <= fuel)%nat -> migrate fuel r = Some r).
Proof.
  intros HA.
  assert (Hfuel4 : forall fuel, (4 <= fuel)%nat ->
                                exists n, fuel = S (S (S (S n)))).
  { intros fuel H. exists (fuel - 4)%nat. lia. }
  assert (Hfuel1 : forall fuel, (1 <= fuel)%nat -> exists n, fuel = S n).
  { intros fuel H. exists (fuel - 1)%nat. lia. }
  destruct HA as (A1 & A2 & A3).
  assert (HA : versionsApart versionStrToNum) by (repeat split; assumption).
  destruct (isPlainObject data) eqn:Hobj.
  - destruct data as [| | | | | |props]; try discriminate.
    destruct (hasOwn props (lit "version")) eqn:H0.
    + destruct (isNumber (get props (lit "version")) v200) eqn:H1.
      * eexists. split; [|split; [|split]].
        -- intros fuel Hf. destruct (Hfuel4 _ Hf) as [n ->].
           apply (migrate_from_2_0_0 _ _ HA H0 H1).
        -- reflexivity.
        -- discriminate.
        -- intros _ fuel Hf. destruct (Hfuel1 _ Hf) as [n ->].
           apply migrated_final; congruence.
      * destruct (isNumber (get props (lit "version")) v201) eqn:H2.
        -- eexists. split; [|split; [|split]].
           ++ intros fuel Hf. destruct (Hfuel4 _ Hf) as [n ->].
              apply (migrate_from_2_0_1 _ _ HA H0 H1 H2).
           ++ reflexivity.
           ++ discriminate.
           ++ intros _ fuel Hf. destruct (Hfuel1 _ Hf) as [n ->].
              apply migrated_final; congruence.
        -- exists (VObject props). split; [|split; [|split]].
           ++ intros fuel Hf. destruct (Hfuel4 _ Hf) as [n ->].
              apply (migrate_final _ _ H0 H1 H2).
           ++ reflexivity.
           ++ discriminate.
           ++ intros _ fuel Hf. destruct (Hfuel1 _ Hf) as [n ->].
              apply (migrate_final _ _ H0 H1 H2).
    + eexists. split; [|split; [|split]].
      * intros fuel Hf. destruct (Hfuel4 _ Hf) as [n ->].
        apply (migrate_from_1 _ _ HA H0).
      * reflexivity.
      * discriminate.
      * intros _ fuel Hf. destruct (Hfuel1 _ Hf) as [n ->].
        apply migrated_final; congruence.
  - eexists. split; [|split; [|split]].
    + intros fuel Hf. destruct (Hfuel4 _ Hf) as [n ->].
      apply (migrate_new _ _ Hobj).
    + reflexivity.
    + reflexivity.
    + intros [H|[H1 H2]] fuel Hf; [discriminate|].
      destruct (Hfuel1 _ Hf) as [n ->]. apply migrated_final; assumption.
Qed.

Lemma from_fuel (fuel : nat) :
  (4 <= fuel)%nat -> exists n, fuel = S (S (S (S n))).
Proof. intro H. exists (fuel - 4)%nat. lia. Qed.

Ltac literal_keys :=
  repeat match goal with
         | |- context [str_eqb (lit ?a) (lit ?b)] =>
             let r := eval vm_compute in (str_eqb (lit a) (lit b)) in
             change (str_eqb (lit a) (lit b)) with r
         end;
  cbv iota.

Lemma key_differs (a k : str) : a <> k -> str_eqb a k = false.
Proof. apply str_eqb_neq. Qed.

(** The settings of the data of 1.x.x, and what the three steps make of
    them. *)
Lemma lookup_migrated_1 (props : Props) (k : str) :
  distinctKeys props ->
  lookup
    (set (lit "tencentCos") emptyTencentCos
       (set (lit "autoNumbering") (VBool false)
          (set (lit "headerStartLevel") (VNumber 1)
             (spread []
                (VObject
                   (spread [(lit "languageMappings", VObject [])]
                      (VObject
                         (set (lit "removeExtraSpaces") (VBool false)
                            (spread [] (VObject props))))))))))
    k
  = if str_eqb (lit "tencentCos") k then Some emptyTencentCos
    else if str_eqb (lit "autoNumbering") k then Some (VBool false)
    else if str_eqb (lit "headerStartLevel") k then Some (VNumber 1)
    else if str_eqb (lit "removeExtraSpaces") k then Some (VBool false)
    else match lookup props k with
         | Some v => Some v
         | None =>
             if str_eqb (lit "languageMappings") k then Some (VObject [])
             else None
         end.
Proof.
  intro Hd.
  assert (D0 : distinctKeys []) by constructor.
  assert (D1 : distinctKeys (set (lit "removeExtraSpaces") (VBool false)
                               (spread [] (VObject props))))
    by (apply distinct_set, distinct_spread, D0).
  assert (D2 : distinctKeys
                 (spread [(lit "languageMappings", VObject [])]
                    (VObject (set (lit "removeExtraSpaces") (VBool false)
                                (spread [] (VObject props)))))).
  { apply distinct_spread. constructor; [intros []|constructor]. }
  rewrite !lookup_set.
  destruct (str_eqb (lit "tencentCos") k); [reflexivity|].
  destruct (str_eqb (lit "autoNumbering") k); [reflexivity|].
  destruct (str_eqb (lit "headerStartLevel") k); [reflexivity|].
  rewrite (lookup_spread _ _ _ D2), (lookup_spread _ _ _ D1), lookup_set.
  destruct (str_eqb (lit "removeExtraSpaces") k); [reflexivity|].
  rewrite (lookup_spread _ _ _ Hd).
  destruct (lookup props k); [reflexivity|]. cbn [lookup].
  destruct (str_eqb (lit "languageMappings") k); reflexivity.
Qed.

(** X15: the stored data of 1.x.x, a plain object without a version whose
    properties are the settings, is migrated to the version 2.0.2 with
    these settings: [removeExtraSpaces] is false, [headerStartLevel] is 1,
    [autoNumbering] is false and [tencentCos] is the empty configuration,
    whatever the data held for them; [languageMappings] is the one of the
    data, or the empty object when the data has none; every other property
    is the one of the data. *)
Theorem migrate_old_settings (props : Props) :
  versionsApart versionStrToNum ->
  distinctKeys props ->
  hasOwn props (lit "version") = false ->
  exists settings,
    (forall fuel, (4 <= fuel)%nat ->
       migrate fuel (VObject props)
       = Some (VObject [(lit "version", VNumber v202);
                        (lit "settings", VObject settings)]))
    /\ get settings (lit "removeExtraSpaces") = VBool false
    /\ get settings (lit "headerStartLevel") = VNumber 1
    /\ get settings (lit "autoNumbering") = VBool false
    /\ get settings (lit "tencentCos") = emptyTencentCos
    /\ get settings (lit "languageMappings")
       = (if hasOwn props (lit "languageMappings")
          then get props (lit "languageMappings") else VObject [])
    /\ (forall k,
          ~ In k [lit "removeExtraSpaces"; lit "headerStartLevel";
                  lit "autoNumbering"; lit "tencentCos";
                  lit "languageMappings"] ->
          lookup settings k = lookup props k).
Proof.
  intros HA Hd H0. eexists. split; [|split; [|split; [|split; [|split; [|split]]]]].
  - intros fuel Hf. destruct (from_fuel _ Hf) as [n ->].
    apply (migrate_from_1 _ _ HA H0).
  - unfold get. rewrite (lookup_migrated_1 _ _ Hd). literal_keys. reflexivity.
  - unfold get. rewrite (lookup_migrated_1 _ _ Hd). literal_keys. reflexivity.
  - unfold get. rewrite (lookup_migrated_1 _ _ Hd). literal_keys. reflexivity.
  - unfold get. rewrite (lookup_migrated_1 _ _ Hd). literal_keys. reflexivity.
  - unfold get, hasOwn. rewrite (lookup_migrated_1 _ _ Hd). literal_keys.
    destruct (lookup props (lit "languageMappings")); reflexivity.
  - intros k Hk. rewrite (lookup_migrated_1 _ _ Hd).
    rewrite !key_differs by (intro E; apply Hk; rewrite <- E; simpl; tauto).
    destruct (lookup props k); reflexivity.
Qed.

(** The settings of the data of 2.0.0 or 2.0.1 after the steps. *)
Lemma lookup_migrated_2 (first : Props) (sprops : Props) (k : str) :
  distinctKeys first -> distinctKeys sprops ->
  lookup
    (set (lit "tencentCos") emptyTencentCos
       (set (lit "autoNumbering") (VBool false)
          (set (lit "headerStartLevel") (VNumber 1)
             (spread [] (VObject (spread first (VObject sprops)))))))
    k
  = if str_eqb (lit "tencentCos") k then Some emptyTencentCos
    else if str_eqb (lit "autoNumbering") k then Some (VBool false)
    else if str_eqb (lit "headerStartLevel") k then Some (VNumber 1)
    else match lookup sprops k with
         | Some v => Some v
         | None => lookup first k
         end.
Proof.
  intros Hf Hd.
  assert (D2 : distinctKeys (spread first (VObject sprops)))
    by (apply distinct_spread, Hf).
  rewrite !lookup_set.
  destruct (str_eqb (lit "tencentCos") k); [reflexivity|].
  destruct (str_eqb (lit "autoNumbering") k); [reflexivity|].
  destruct (str_eqb (lit "headerStartLevel") k); [reflexivity|].
  rewrite (lookup_spread _ _ _ D2), (lookup_spread _ _ _ Hd).
  destruct (lookup sprops k); [reflexivity|]. cbn [lookup].
  destruct (lookup first k); reflexivity.
Qed.

Lemma spread_nil (sprops : Props) :
  distinctKeys sprops ->
  forall k, lookup (spread [] (VObject sprops)) k = lookup sprops k.
Proof.
  intros Hd k. rewrite (lookup_spread _ _ _ Hd).
  destruct (lookup sprops k); reflexivity.
Qed.

(** X16: stored data of the version 2.0.0 or 2.0.1 whose settings are an
    object is migrated to the version 2.0.2 with these settings:
    [headerStartLevel] is 1, [autoNumbering] is false and [tencentCos] is
    the empty configuration, whatever the settings held for them; every
    other property is the one of the settings, and from 2.0.0 the settings
    without [languageMappings] get the empty object for it. *)
Theorem migrate_newer_settings (props sprops : Props) :
  versionsApart versionStrToNum ->
  distinctKeys sprops ->
  hasOwn props (lit "version") = true ->
  get props (lit "settings") = VObject sprops ->
  isNumber (get props (lit "version")) v200 = true
  \/ isNumber (get props (lit "version")) v201 = true ->
  exists settings,
    (forall fuel, (4 <= fuel)%nat ->
       migrate fuel (VObject props)
       = Some (VObject [(lit "version", VNumber v202);
                        (lit "settings", VObject settings)]))
    /\ get settings (lit "headerStartLevel") = VNumber 1
    /\ get settings (lit "autoNumbering") = VBool false
    /\ get settings (lit "tencentCos") = emptyTencentCos
    /\ (forall k,
          ~ In k [lit "headerStartLevel"; lit "autoNumbering";
                  lit "tencentCos"] ->
          lookup settings k
          = match lookup sprops k with
            | Some v => Some v
            | None =>
                if isNumber (get props (lit "version")) v200
                   && str_eqb (lit "languageMappings") k
                then Some (VObject []) else None
            end).
Proof.
  intros HA Hd H0 Hs Hv.
  assert (Dlm : distinctKeys [(lit "languageMappings", VObject [])])
    by (constructor; [intros []|constructor]).
  destruct (isNumber (get props (lit "version")) v200) eqn:H1.
  - eexists. split; [|split; [|split; [|split]]].
    + intros fuel Hf. destruct (from_fuel _ Hf) as [n ->].
      rewrite (migrate_from_2_0_0 _ _ HA H0 H1), Hs. reflexivity.
    + unfold get. rewrite (lookup_migrated_2 _ _ _ Dlm Hd). literal_keys.
      reflexivity.
    + unfold get. rewrite (lookup_migrated_2 _ _ _ Dlm Hd). literal_keys.
      reflexivity.
    + unfold get. rewrite (lookup_migrated_2 _ _ _ Dlm Hd). literal_keys.
      reflexivity.
    + intros k Hk. rewrite (lookup_migrated_2 _ _ _ Dlm Hd).
      rewrite !key_differs by (intro E; apply Hk; rewrite <- E; simpl; tauto).
      cbn [lookup andb].
      destruct (lookup sprops k); [reflexivity|].
      destruct (str_eqb (lit "languageMappings") k); reflexivity.
  - destruct Hv as [Hv|H2]; [discriminate|].
    eexists. split; [|split; [|split; [|split]]].
    + intros fuel Hf. destruct (from_fuel _ Hf) as [n ->].
      rewrite (migrate_from_2_0_1 _ _ HA H0 H1 H2), Hs. reflexivity.
    + unfold get. rewrite !lookup_set. literal_keys. reflexivity.
    + unfold get. rewrite !lookup_set. literal_keys. reflexivity.
    + unfold get. rewrite !lookup_set. literal_keys. reflexivity.
    + intros k Hk. rewrite !lookup_set.
      rewrite !key_differs by (intro E; apply Hk; rewrite <- E; simpl; tauto).
      rewrite (spread_nil _ Hd). cbn [andb].
      destruct (lookup sprops k); reflexivity.
Qed.

End Versions.

(** A way to number versions that tells the three versions apart. *)
Lemma unitsApart :
  versionsApart (fun s => fold_left (fun a c => a * 256 + c) s 0).
Proof. repeat split; intro H; vm_compute in H; discriminate. Qed.

Lemma migrate_returns_witness :
  exists r,
    (forall fuel, (4 <= fuel)%nat ->
       migrate (fun s => fold_left (fun a c => a * 256 + c) s 0)
         (Some (lit "2.0.2")) fuel (VArray [VNumber 1])
       = Some r)
    /\ isPlainObject r = true.
Proof.
  destruct (migrate_returns (fun s => fold_left (fun a c => a * 256 + c) s 0)
              (Some (lit "2.0.2")) (VArray [VNumber 1]) unitsApart)
    as (r & H1 & H2 & _).
  exists r. split; assumption.
Defined.

Lemma migrate_old_settings_witness :
  let v := fun s => fold_left (fun a c => a * 256 + c) s 0 in
  let props := [(lit "formatOnSave", VBool true);
                (lit "removeExtraSpaces", VBool true)] in
  exists settings,
    (forall fuel, (4 <= fuel)%nat ->
       migrate v None fuel (VObject props)
       = Some (VObject [(lit "version", VNumber (v (lit "2.0.2")));
                        (lit "settings", VObject settings)]))
    /\ get settings (lit "removeExtraSpaces") = VBool false
    /\ lookup settings (lit "formatOnSave") = Some (VBool true).
Proof.
  intros v props.
  destruct (migrate_old_settings v None props unitsApart)
    as (settings & H1 & H2 & _ & _ & _ & _ & H7).
  - repeat constructor; simpl; intuition discriminate.
  - reflexivity.
  - exists settings. split; [exact H1|]. split; [exact H2|].
    rewrite H7; [reflexivity|].
    simpl. intuition discriminate.
Defined.

Lemma migrate_newer_settings_witness :
  let v := fun s => fold_left (fun a c => a * 256 + c) s 0 in
  let sprops := [(lit "autoNumbering", VBool true);
                 (lit "formatOnSave", VBool true)] in
  let props := [(lit "version", VNumber (v (lit "2.0.0")));
                (lit "settings", VObject sprops)] in
  exists settings,
    (forall fuel, (4 <= fuel)%nat ->
       migrate v None fuel (VObject props)
       = Some (VObject [(lit "version", VNumber (v (lit "2.0.2")));
                        (lit "settings", VObject settings)]))
    /\ get settings (lit "autoNumbering") = VBool false
    /\ lookup settings (lit "languageMappings") = Some (VObject []).
Proof.
  intros v sprops props.
  destruct (migrate_newer_settings v None props sprops unitsApart)
    as (settings & H1 & _ & H3 & _ & H5).
  - repeat constructor; simpl; intuition discriminate.
  - reflexivity.
  - reflexivity.
  - left. vm_compute. reflexivity.
  - exists settings. split; [exact H1|]. split; [exact H3|].
    rewrite H5; [vm_compute; reflexivity|].
    simpl. intuition discriminate.
Defined.

(* ================================================================ *)
(** * The structural passes on their own result *)

Lemma space_not_bullet c : isWhiteSpace c = true -> isBullet c = false.
Proof. intro H. class_disjoint. Qed.

Lemma space_not_digit c : isWhiteSpace c = true -> isDigit c = false.
Proof. intro H. class_disjoint. Qed.

(** The first unit of a heading line after its horizontal space is no
    bullet and no digit. *)
Lemma heading_first_unit (more : str) : forall indent,
  forallb isWhiteSpace indent = true ->
  exists c r,
    dropWhile isHSpace (indent ++ 35 :: more) = c :: r
    /\ isBullet c = false /\ isDigit c = false.
Proof.
  induction indent as [|x indent IH]; intro H.
  - exists 35, more. repeat split.
  - simpl in H. apply andb_prop in H. destruct H as [Hx Hi].
    cbn [app dropWhile]. destruct (isHSpace x); [apply IH, Hi|].
    exists x, (indent ++ 35 :: more). repeat split.
    + apply space_not_bullet, Hx.
    + apply space_not_digit, Hx.
Qed.

(** The list passes leave a heading line alone. *)
Lemma heading_settled (l indent hashes sp rest : str) (r a : bool) :
  headerParts l = Some (indent, hashes, sp, rest) -> settled r a l.
Proof.
  intro H.
  destruct (headerParts_shape _ _ _ _ _ H) as (Hl & Hi & Hh & Hha & _).
  destruct hashes as [|h hs]; [contradiction|].
  simpl in Hha. apply andb_prop in Hha. destruct Hha as [Hh1 _].
  unfold isHash in Hh1. apply Z.eqb_eq in Hh1. subst h.
  destruct (heading_first_unit (hs ++ sp ++ rest) indent Hi)
    as (c & r0 & Hd & Hb & Hg).
  change ((35 :: hs) ++ sp ++ rest) with (35 :: hs ++ sp ++ rest) in Hl.
  rewrite <- Hl in Hd. split; intros _.
  - unfold extraSpacesParts. rewrite Hd.
    destruct r0 as [|w more]; [reflexivity|]. rewrite Hb. reflexivity.
  - unfold isEmptyListItem. rewrite Hd, Hb. cbn [takeWhile]. rewrite Hg.
    reflexivity.
Qed.

(** A line without extra spaces has none after [addTrailingSpaces]. *)
Lemma addTrailingSpace_collapsed (l : str) :
  extraSpacesParts l = None -> extraSpacesParts (addTrailingSpace l) = None.
Proof.
  unfold addTrailingSpace. destruct (isEmptyListItem l) eqn:E; [|auto].
  revert E. unfold isEmptyListItem, extraSpacesParts.
  destruct (dropWhile isHSpace l) as [|m more] eqn:Hd; [discriminate|].
  rewrite (dropWhile_app_stop _ _ _ _ Hd).
  destruct (isBullet m) eqn:Hm.
  - destruct more as [|x more']; [reflexivity|].
    intro H. apply andb_true_iff in H. destruct H as [Ht H].
    cbn [app]. cbn [takeWhile truthy] in Ht.
    destruct (isHSpace x) eqn:Hx; [|discriminate]. cbn [andb].
    destruct (dropWhile isHSpace (x :: more')) as [|b0 [|c1 [|b1 [|? ?]]]] eqn:Hd2;
      try discriminate.
    cbn [dropWhile] in Hd2. rewrite Hx in Hd2.
    destruct (takeWhile isHSpace more') as [|y ys] eqn:Ht2; [|discriminate].
    intros _.
    destruct more' as [|z more'']; [discriminate|].
    cbn [takeWhile] in Ht2. destruct (isHSpace z) eqn:Hz; [discriminate|].
    cbn [app takeWhile]. rewrite Hz. reflexivity.
  - intros _. destruct (more ++ lit " "); reflexivity.
Qed.

Lemma removeExtraSpaces_settled (c : MagicString) (T : Z) :
  Forall (fun l => extraSpacesParts l = None) (split 10 (current c)) ->
  removeExtraSpaces T c = Ok (T, c).
Proof.
  intro H. rewrite removeExtraSpaces_edits.
  replace (map (fun l => (l, extraSpacesEdit l)) (split 10 (current c)))
    with (map (fun l : str => (l, @None Edit)) (split 10 (current c))).
  - rewrite globalEdits_none. reflexivity.
  - apply map_ext_in. intros l Hl. rewrite Forall_forall in H.
    unfold extraSpacesEdit. rewrite (H l Hl). reflexivity.
Qed.

Lemma addTrailingSpaces_settled (c : MagicString) (T : Z) :
  Forall (fun l => isEmptyListItem l = false) (split 10 (current c)) ->
  addTrailingSpaces T c = Ok (T, c).
Proof.
  intro H. rewrite addTrailingSpaces_edits.
  replace (map (fun l => (l, trailingSpaceEdit l)) (split 10 (current c)))
    with (map (fun l : str => (l, @None Edit)) (split 10 (current c))).
  - rewrite globalEdits_none. reflexivity.
  - apply map_ext_in. intros l Hl. rewrite Forall_forall in H.
    unfold trailingSpaceEdit. rewrite (H l Hl). reflexivity.
Qed.

(** Every line the renumbering leaves is a line it found or a heading
    line. *)
Lemma numberLines_lines (m : Z) : forall lines b cs,
  (forall x, In x (visibleLevels b lines) -> m <= x) ->
  Forall (fun x => 1 <= x) cs ->
  Forall (fun l' => In l' lines \/ headerParts l' <> None)
    (map rewriteLine (numberLines m b cs lines)).
Proof.
  induction lines as [|l more IH]; intros b cs Hm Hcs; [constructor|].
  cbn [numberLines]. cbv zeta.
  cbn [visibleLevels] in Hm. cbv zeta in Hm.
  assert (Hweak : forall ls : list str,
             Forall (fun l' => In l' more \/ headerParts l' <> None) ls ->
             Forall (fun l' => In l' (l :: more) \/ headerParts l' <> None) ls).
  { intros ls H. eapply Forall_impl; [|exact H].
    intros l' [H1|H1]; [left; right; exact H1|right; exact H1]. }
  destruct (toggle l b) eqn:Ht.
  - cbn [map]. constructor; [left; left; reflexivity|].
    apply Hweak, IH; assumption.
  - destruct (headerTextParts l) as [[[[indent hashes] sp] t]|] eqn:Hp.
    + assert (Hhp := headerTextParts_inv _ _ _ _ _ Hp).
      unfold hashesOfLine in Hm. rewrite Hhp in Hm.
      set (level := len hashes - m + 1).
      assert (Hlevel : 1 <= level).
      { specialize (Hm (len hashes) (or_introl eq_refl)). unfold level. lia. }
      destruct (prefix_of_bump level cs Hlevel Hcs) as [Hpd Hpn].
      destruct (numbered_line _ _ _ _ _ _ Hp Hpn Hpd) as (t' & Hp' & _ & _).
      cbn [map]. constructor.
      * right. rewrite (headerTextParts_inv _ _ _ _ _ Hp'). discriminate.
      * apply Hweak, IH; [|apply bumpCounters_positive, Hcs].
        intros x Hx. apply Hm. right. exact Hx.
    + cbn [map]. constructor; [left; left; reflexivity|].
      apply Hweak, IH; [|exact Hcs].
      intros x Hx. apply Hm. destruct (hashesOfLine l); [right|]; exact Hx.
Qed.

(** The renumbering returns, changes nothing on its own result, and leaves
    lines it found or heading lines. *)
Lemma addHeaderNumbering_settles (c : MagicString) (T : Z) :
  exists T1 c1,
    addHeaderNumbering T c = Ok (T1, c1)
    /\ (forall T2, addHeaderNumbering T2 c1 = Ok (T2, c1))
    /\ Forall (fun l' => In l' (split 10 (current c))
                         \/ headerParts l' <> None)
         (split 10 (current c1))
    /\ visibleLevels false (split 10 (current c1))
       = visibleLevels false (split 10 (current c)).
Proof.
  unfold addHeaderNumbering. cbv zeta.
  set (lines := split 10 (current c)).
  destruct (minLevelOf lines =? 100) eqn:E100.
  - exists T, c. split; [reflexivity|]. split; [|split].
    + intro T2. fold lines. rewrite E100. reflexivity.
    + fold lines. apply Forall_forall. intros l Hl. left. exact Hl.
    + reflexivity.
  - rewrite numberingEdits_lines.
    destruct (applyEdits_text c (numberLines (minLevelOf lines) false [] lines)
                T (numberLines_fst _ _ _ _) (numberLines_ok _ _ _ _)
                (numberLines_keep _ _ _ _))
      as (T1 & c1 & Hrun & _ & Hsplit).
    exists T1, c1. split; [exact Hrun|].
    assert (Hm : forall x, In x (visibleLevels false lines) ->
                           minLevelOf lines <= x).
    { intros x Hx. rewrite minLevelOf_levels. apply leastLevel_le, Hx. }
    destruct (numberLines_again (minLevelOf lines) lines false [] Hm
                (Forall_nil _)) as [E1 E2].
    cbv zeta in E1, E2. rewrite <- Hsplit in E1, E2.
    split; [|split].
    + intro T2.
      assert (Hsame : minLevelOf (split 10 (current c1)) = minLevelOf lines)
        by (rewrite !minLevelOf_levels, E2; reflexivity).
      rewrite Hsame, E100, numberingEdits_lines, E1, globalEdits_none.
      reflexivity.
    + rewrite Hsplit. apply numberLines_lines; [exact Hm|constructor].
    + exact E2.
Qed.

(** ** The list passes and the headings *)

(** A line whose first unit after its horizontal space is a bullet or a
    digit is no fence line and no heading line. *)
Lemma list_line_plain (l : str) (m : Z) (more : str) :
  dropWhile isHSpace l = m :: more ->
  isBullet m || isDigit m = true ->
  isFence l = false /\ hashesOfLine l = None.
Proof.
  intros Hd Hm.
  assert (Hws : isWhiteSpace m = false).
  { destruct (isWhiteSpace m) eqn:E; [|reflexivity].
    rewrite (space_not_bullet _ E), (space_not_digit _ E) in Hm. discriminate. }
  assert (Hl : l = takeWhile isHSpace l ++ m :: more)
    by (rewrite <- Hd; symmetry; apply take_drop_while).
  assert (Hi : forallb isWhiteSpace (takeWhile isHSpace l) = true).
  { apply (forallb_weaken isHSpace); [exact hspace_space|apply takeWhile_all]. }
  split.
  - rewrite Hl. unfold isFence. rewrite (trim_indent _ _ Hi).
    destruct (trim_head m more Hws) as [y ->].
    change (lit "```") with [96; 96; 96]. cbn [startsWith].
    destruct (Z.eqb_spec 96 m) as [<-|]; [discriminate|reflexivity].
  - unfold hashesOfLine, headerParts. rewrite Hl.
    destruct (takeWhile_app isWhiteSpace _ (m :: more) Hi) as [_ D1].
    rewrite D1. cbn [dropWhile takeWhile]. rewrite Hws. cbn [takeWhile].
    destruct (isHash m) eqn:Eh; [|reflexivity].
    unfold isHash in Eh. apply Z.eqb_eq in Eh. subst m. discriminate.
Qed.

Lemma collapseSpaces_plain (l : str) :
  isFence (collapseSpaces l) = isFence l
  /\ hashesOfLine (collapseSpaces l) = hashesOfLine l.
Proof.
  unfold collapseSpaces.
  destruct (extraSpacesParts l) as [[[[indent marker] extra] rest]|] eqn:E;
    [|split; reflexivity].
  revert E. unfold extraSpacesParts.
  destruct (dropWhile isHSpace l) as [|m [|w more]] eqn:Hd; try discriminate.
  destruct (isBullet m && isHSpace w && truthy (takeWhile isHSpace more))
    eqn:Hc; [|discriminate].
  intros [= <- <- <- <-].
  apply andb_true_iff in Hc. destruct Hc as [Hc _].
  apply andb_true_iff in Hc. destruct Hc as [Hm Hw].
  assert (Hb : isBullet m || isDigit m = true) by (rewrite Hm; reflexivity).
  destruct (list_line_plain l m (w :: more) Hd Hb) as [F1 H1].
  assert (Hd' : dropWhile isHSpace
                  (takeWhile isHSpace l ++ [m; w] ++ dropWhile isHSpace more)
                = m :: w :: dropWhile isHSpace more).
  { destruct (takeWhile_app isHSpace (takeWhile isHSpace l)
                ([m; w] ++ dropWhile isHSpace more) (takeWhile_all _ _))
      as [_ ->].
    cbn [app dropWhile]. rewrite (bullet_not_hspace _ Hm). reflexivity. }
  destruct (list_line_plain _ m _ Hd' Hb) as [F2 H2].
  rewrite F1, F2, H1, H2. split; reflexivity.
Qed.

Lemma addTrailingSpace_plain (l : str) :
  isFence (addTrailingSpace l) = isFence l
  /\ hashesOfLine (addTrailingSpace l) = hashesOfLine l.
Proof.
  unfold addTrailingSpace.
  destruct (isEmptyListItem l) eqn:E; [|split; reflexivity].
  revert E. unfold isEmptyListItem.
  destruct (dropWhile isHSpace l) as [|m more] eqn:Hd; [discriminate|].
  intro E.
  assert (Hb : isBullet m || isDigit m = true).
  { destruct (isBullet m); [reflexivity|].
    apply andb_true_iff in E. destruct E as [E _].
    cbn [takeWhile] in E. destruct (isDigit m); [reflexivity|discriminate]. }
  destruct (list_line_plain l m more Hd Hb) as [F1 H1].
  destruct (list_line_plain _ m _ (dropWhile_app_stop _ _ _ _ Hd (lit " ")) Hb)
    as [F2 H2].
  rewrite F1, F2, H1, H2. split; reflexivity.
Qed.

Lemma visibleLevels_map (f : str -> str) :
  (forall l, isFence (f l) = isFence l /\ hashesOfLine (f l) = hashesOfLine l) ->
  forall lines b, visibleLevels b (map f lines) = visibleLevels b lines.
Proof.
  intro Hf. induction lines as [|l more IH]; intro b; [reflexivity|].
  cbn [map visibleLevels]. cbv zeta. destruct (Hf l) as [F H].
  rewrite (toggle_same_fence l _ b F), H, !IH. reflexivity.
Qed.

(** The level shift leaves lines it found or heading lines. *)
Lemma shiftedLines_settled (r a : bool) (shift : Z) : forall lines b,
  Forall (settled r a) lines ->
  Forall (settled r a) (shiftedLines shift b lines).
Proof.
  induction lines as [|l more IH]; intros b H; [constructor|].
  inversion H as [|? ? Hl Hmore]; subst. cbn [shiftedLines]. cbv zeta.
  constructor; [|apply IH, Hmore].
  destruct (toggle l b); [exact Hl|]. unfold hashesOfLine.
  destruct (headerParts l) as [[[[indent hashes] sp] rest]|] eqn:Hp;
    [|exact Hl].
  destruct (headerParts_inv _ _ _ _ _ Hp) as (_ & Hh & _).
  assert (Hn : 1 <= shiftedLevel shift (len hashes))
    by (apply shiftedLevel_positive; lia).
  destruct (withLevel_parts _ _ _ _ _ _ Hn Hp) as [Hp' _].
  eapply heading_settled, Hp'.
Qed.

Lemma leastLevel_nonempty (levels : list Z) :
  levels <> [] -> Forall (fun level => level <= 100) levels ->
  In (leastLevel levels) levels.
Proof.
  unfold leastLevel. induction levels as [|x xs IH]; [contradiction|].
  intros _ H. inversion H as [|? ? Hx Hxs]; subst. simpl.
  destruct xs as [|y ys].
  - left. simpl. lia.
  - destruct (Z.min_spec x (fold_right Z.min 100 (y :: ys))) as [[_ E]|[_ E]].
    + left. symmetry. exact E.
    + right. rewrite E. apply IH; [discriminate|exact Hxs].
Qed.

(** X17: when the level shift is switched off ([headerStartLevel] is 1 or
    less), or no heading outside fenced blocks has more than 100 hashes and
    each has a shifted level between 1 and 6, the structural passes that
    are switched on, run one after the other, return, and run again on their
    own result they change nothing: they return the buffer and the offset
    they were given. *)
Theorem structural_passes_idempotent (s : Model.Settings) (c : MagicString)
    (T : Z) :
  let levels := visibleLevels false (split 10 (current c)) in
  let shift := Model.headerStartLevel s - leastLevel levels in
  Model.headerStartLevel s <= 1
  \/ Forall (fun level =>
               level <= 100 /\ 1 <= level + shift /\ level + shift <= 6)
       levels ->
  exists T1 c1,
    structuralPasses s T c = Ok (T1, c1)
    /\ forall T2, structuralPasses s T2 c1 = Ok (T2, c1).
Proof.
  intros levels shift Hgate. unfold structuralPasses, bind.
  set (r := Model.removeExtraSpaces s). set (a := Model.addTrailingSpaces s).
  (* the first list pass *)
  assert (H1 : exists Tr cr,
             (if r then removeExtraSpaces T else ret T) c = Ok (Tr, cr)
             /\ Forall (settled r false) (split 10 (current cr))
             /\ visibleLevels false (split 10 (current cr)) = levels).
  { destruct r.
    - destruct (removeExtraSpaces_text c T) as (Tr & cr & Hrun & _ & Hs).
      exists Tr, cr. split; [exact Hrun|]. rewrite Hs. split.
      + apply Forall_map, Forall_forall. intros l _.
        split; [intros _; apply collapseSpaces_done|discriminate].
      + apply visibleLevels_map, collapseSpaces_plain.
    - exists T, c. split; [reflexivity|]. split; [|reflexivity].
      apply Forall_forall. intros l _. split; discriminate. }
  destruct H1 as (Tr & cr & -> & Hr & Lr).
  (* the second list pass *)
  assert (H2 : exists Ta ca,
             (if a then addTrailingSpaces Tr else ret Tr) cr = Ok (Ta, ca)
             /\ Forall (settled r a) (split 10 (current ca))
             /\ visibleLevels false (split 10 (current ca)) = levels).
  { destruct a.
    - destruct (addTrailingSpaces_text cr Tr) as (Ta & ca & Hrun & _ & Hs).
      exists Ta, ca. split; [exact Hrun|]. rewrite Hs. split.
      + apply Forall_map. eapply Forall_impl; [|exact Hr].
        intros l [Hl _]. split.
        * intro Hr1. apply addTrailingSpace_collapsed, Hl, Hr1.
        * intros _. apply addTrailingSpace_done.
      + rewrite <- Lr. apply visibleLevels_map, addTrailingSpace_plain.
    - exists Tr, cr. split; [reflexivity|]. split; [|exact Lr].
      eapply Forall_impl; [|exact Hr]. intros l [Hl _].
      split; [exact Hl|discriminate]. }
  destruct H2 as (Ta & ca & -> & Ha & La).
  (* the level shift *)
  assert (H3 : exists Ts cs,
             (if Model.headerStartLevel s >? 1 then adjustHeaderLevels s Ta
              else ret Ta) ca = Ok (Ts, cs)
             /\ Forall (settled r a) (split 10 (current cs))
             /\ forall cn,
                  visibleLevels false (split 10 (current cn))
                  = visibleLevels false (split 10 (current cs)) ->
                  forall T2,
                    (if Model.headerStartLevel s >? 1
                     then adjustHeaderLevels s T2 else ret T2) cn
                    = Ok (T2, cn)).
  { destruct (Z.gtb_spec (Model.headerStartLevel s) 1) as [Hon|Hoff].
    - destruct Hgate as [Hgate|Hfit]; [lia|].
      destruct (adjustHeaderLevels_text s ca Ta) as (Ts & cs & Hrun & _ & Hs).
      rewrite La in Hs. fold shift in Hs.
      exists Ts, cs. split; [exact Hrun|]. rewrite Hs. split.
      + apply shiftedLines_settled, Ha.
      + intros cn Hn T2. apply adjustHeaderLevels_noop.
        destruct (scanLines_levels (split 10 (current cn))) as [Hhas Hmin].
        rewrite Hhas, Hmin, Hn, shiftedLines_levels, La.
        destruct levels as [|x xs] eqn:El; [left; reflexivity|right].
        assert (Hin : In (leastLevel (x :: xs)) (x :: xs)).
        { apply leastLevel_nonempty; [discriminate|].
          eapply Forall_impl; [|exact Hfit]. intros y Hy. apply Hy. }
        assert (Hmap : map (shiftedLevel shift) (x :: xs)
                       = map (fun level => level + shift) (x :: xs)).
        { apply map_ext_in. intros y Hy. rewrite Forall_forall in Hfit.
          destruct (Hfit y Hy) as (_ & H1 & H6). unfold shiftedLevel.
          cbv zeta. destruct (Z.leb_spec 1 (y + shift)); [|lia].
          destruct (Z.leb_spec (y + shift) 6); [reflexivity|lia]. }
        rewrite Hmap.
        rewrite Forall_forall in Hfit.
        destruct (Hfit _ Hin) as (_ & H1 & H6).
        rewrite (leastLevel_unique _ (Model.headerStartLevel s)); [lia| | |].
        * unfold shift in H6. lia.
        * apply in_map_iff. exists (leastLevel (x :: xs)).
          split; [unfold shift; lia|exact Hin].
        * intros y Hy. apply in_map_iff in Hy. destruct Hy as (z & <- & Hz).
          pose proof (leastLevel_le _ z Hz). unfold shift. lia.
    - exists Ta, ca. split; [reflexivity|]. split; [exact Ha|].
      intros cn _ T2. reflexivity. }
  destruct H3 as (Ts & cs & -> & Hs & Hshift).
  (* the renumbering *)
  assert (H4 : exists Tn cn,
             (if Model.autoNumbering s then addHeaderNumbering Ts else ret Ts) cs
             = Ok (Tn, cn)
             /\ (forall T2,
                   (if Model.autoNumbering s then addHeaderNumbering T2
                    else ret T2) cn = Ok (T2, cn))
             /\ Forall (settled r a) (split 10 (current cn))
             /\ visibleLevels false (split 10 (current cn))
                = visibleLevels false (split 10 (current cs))).
  { destruct (Model.autoNumbering s).
    - destruct (addHeaderNumbering_settles cs Ts)
        as (Tn & cn & Hrun & Hn & Hl & Hv).
      exists Tn, cn. split; [exact Hrun|]. split; [exact Hn|].
      split; [|exact Hv].
      eapply Forall_impl; [|exact Hl]. intros l [Hin|Hh].
      + rewrite Forall_forall in Hs. apply Hs, Hin.
      + destruct (headerParts l) as [[[[indent hashes] sp] rest]|] eqn:Hp;
          [|contradiction Hh; reflexivity].
        eapply heading_settled, Hp.
    - exists Ts, cs. split; [reflexivity|]. split; [reflexivity|].
      split; [exact Hs|reflexivity]. }
  destruct H4 as (Tn & cn & Hrun & Hn & Hsn & Hvn).
  exists Tn, cn. split; [exact Hrun|].
  intro T2.
  assert (R2 : (if r then removeExtraSpaces T2 else ret T2) cn = Ok (T2, cn)).
  { destruct r eqn:Er; [|reflexivity]. apply removeExtraSpaces_settled.
    eapply Forall_impl; [|exact Hsn]. intros l [Hl _]. apply Hl. reflexivity. }
  rewrite R2.
  assert (A2 : (if a then addTrailingSpaces T2 else ret T2) cn = Ok (T2, cn)).
  { destruct a eqn:Ea; [|reflexivity]. apply addTrailingSpaces_settled.
    eapply Forall_impl; [|exact Hsn]. intros l [_ Hl]. apply Hl. reflexivity. }
  rewrite A2, (Hshift cn Hvn T2). apply Hn.
Qed.

Lemma structural_passes_idempotent_witness :
  let s := {| Model.formatOnSave := false; Model.formatOnFileChange := false;
              Model.removeExtraSpaces := true;
              Model.addTrailingSpaces := true;
              Model.headerStartLevel := 2; Model.autoNumbering := true;
              Model.tencentCos := None |} in
  let c := newMagicString (join [10] (map lit ["# a"; "-   b"; "-"; "## c"])) in
  exists T1 c1,
    structuralPasses s 2 c = Ok (T1, c1)
    /\ forall T2, structuralPasses s T2 c1 = Ok (T2, c1).
Proof.
  intros s c. apply (structural_passes_idempotent s c 2). right.
  assert (E : visibleLevels false (split 10 (current c)) = [1; 2])
    by (vm_compute; reflexivity).
  rewrite E. change (leastLevel [1; 2]) with 1.
  change (Model.headerStartLevel s) with 2.
  repeat constructor; lia.
Defined.

(** ** What the uploads do to the text *)

Lemma inOrder_from (lo lo' hi : Z) (es : list Edit) :
  lo' <= lo -> inOrder lo hi es -> inOrder lo' hi es.
Proof.
  intros Hlo H. destruct es as [|e more]; [exact I|].
  cbn [inOrder] in *. destruct H as (H1 & H2 & H3 & H4).
  repeat split; try assumption. lia.
Qed.

Lemma apart_from (lo lo' : Z) (ms : list ImageMatch) :
  lo' <= lo -> apart lo ms -> apart lo' ms.
Proof.
  intros Hlo H. destruct ms as [|m more]; [exact I|].
  cbn [apart] in *. destruct H as (H1 & H2 & H3).
  repeat split; try assumption. lia.
Qed.

(** Replayed back to front, edits in the order of the text replace each
    its own span: the engine refuses none of them. *)
Lemma replay_in_order (o : str) : forall es pre suf T,
  inOrder (len pre) (len pre + len suf) es ->
  exists T',
    applyEdits es T {| original := o; current := pre ++ suf |}
    = Ok (T', {| original := o;
                 current := pre ++ rewriteText (len pre) es suf |}).
Proof.
  unfold applyEdits.
  induction es as [|e more IH]; intros pre suf T H.
  - exists T. reflexivity.
  - cbn [inOrder] in H. destruct H as (H1 & H2 & H3 & Hmore).
    pose proof (len_nonneg pre) as Hpre. pose proof (len_nonneg suf) as Hsuf.
    set (a := start e - len pre) in *.
    set (b := end_ e - len pre) in *.
    assert (Hb : (Z.to_nat b <= length suf)%nat) by (unfold len in *; lia).
    assert (Hfb : len (firstn (Z.to_nat b) suf) = b).
    { rewrite len_firstn by exact Hb. unfold b. lia. }
    specialize (IH (pre ++ firstn (Z.to_nat b) suf) (skipn (Z.to_nat b) suf) T).
    rewrite len_app, Hfb, len_skipn in IH by exact Hb.
    replace (len pre + b) with (end_ e) in IH by (unfold b; lia).
    destruct IH as (T1 & IH).
    { replace (end_ e + (len suf - Z.of_nat (Z.to_nat b)))
        with (len pre + len suf) by (unfold b in *; lia).
      exact Hmore. }
    set (X := rewriteText (end_ e) more (skipn (Z.to_nat b) suf)) in *.
    assert (Hcur : pre ++ suf
                   = (pre ++ firstn (Z.to_nat b) suf) ++ skipn (Z.to_nat b) suf)
      by (rewrite <- app_assoc, firstn_skipn; reflexivity).
    cbn [rev]. rewrite forEach_app. unfold bind. rewrite Hcur, IH.
    cbn [forEach]. unfold bind. rewrite <- app_assoc.
    pose proof (update_on_line pre (firstn (Z.to_nat b) suf) X (text e) o
                  a b T1) as Hu.
    replace (len pre + a) with (start e) in Hu by (unfold a; lia).
    replace (len pre + b) with (end_ e) in Hu by (unfold b; lia).
    rewrite Hu by (unfold a, b in *; lia).
    eexists. unfold ret. f_equal. f_equal. f_equal. f_equal.
    cbn [rewriteText]. fold a. fold b. fold X.
    unfold splice. rewrite <- !app_assoc. f_equal.
    + rewrite firstn_firstn. f_equal. unfold a, b in *. lia.
    + f_equal. rewrite skipn_all2; [reflexivity|].
      rewrite length_firstn. lia.
Qed.

(** The replacements of the results are the edits of their URLs. *)
Lemma applyResults_edits : forall rs T c,
  applyResults rs T c
  = forEach (fun index e => update (start e) (end_ e) (text e) index)
      (flat_map urlEdit rs) T c.
Proof.
  unfold applyResults.
  induction rs as [|r rs IH]; intros T c; [reflexivity|].
  cbn [forEach flat_map]. rewrite forEach_app. unfold bind, urlEdit.
  destruct (newUrl r) as [v|]; [destruct (truthy v)|].
  - cbn [forEach start end_ text]. unfold bind.
    destruct (update _ _ v T c) as [[T1 c1]|err]; [|reflexivity].
    unfold ret. apply IH.
  - cbn [forEach]. unfold ret. apply IH.
  - cbn [forEach]. unfold ret. apply IH.
Qed.

Lemma rev_flat_map_urlEdit (rs : list UploadResult) :
  rev (flat_map urlEdit rs) = flat_map urlEdit (rev rs).
Proof.
  induction rs as [|r rs IH]; [reflexivity|].
  cbn [flat_map rev]. rewrite rev_app_distr, flat_map_app, IH.
  cbn [flat_map]. rewrite app_nil_r. f_equal.
  unfold urlEdit. destruct (newUrl r) as [v|]; [destruct (truthy v)|];
    reflexivity.
Qed.

(** The edits of results whose images are apart are in order. *)
Lemma apart_inOrder (hi : Z) : forall rs lo,
  apart lo (map resultMatch rs) ->
  (forall r, In r rs ->
     imgStart (resultMatch r) <= urlStart (resultMatch r)
     /\ urlStart (resultMatch r) <= urlEnd (resultMatch r)
     /\ urlEnd (resultMatch r) <= imgEnd (resultMatch r)
     /\ imgEnd (resultMatch r) <= hi) ->
  inOrder lo hi (flat_map urlEdit rs).
Proof.
  induction rs as [|r rs IH]; intros lo Ha Hspans; [exact I|].
  cbn [map apart] in Ha. destruct Ha as (H1 & H2 & Hrest).
  destruct (Hspans r (or_introl eq_refl)) as (S1 & S2 & S3 & S4).
  assert (Hmore : inOrder (imgEnd (resultMatch r)) hi (flat_map urlEdit rs)).
  { apply IH; [exact Hrest|]. intros x Hx. apply Hspans. right. exact Hx. }
  cbn [flat_map]. unfold urlEdit at 1.
  destruct (newUrl r) as [v|]; [destruct (truthy v)|].
  - cbn [app inOrder start end_]. repeat split; try lia.
    apply (inOrder_from (imgEnd (resultMatch r))); [lia|exact Hmore].
  - apply (inOrder_from (imgEnd (resultMatch r))); [lia|exact Hmore].
  - apply (inOrder_from (imgEnd (resultMatch r))); [lia|exact Hmore].
Qed.

Lemma apart_lower : forall ms lo m,
  apart lo ms -> In m ms -> lo <= imgStart m.
Proof.
  induction ms as [|x ms IH]; intros lo m Ha Hin; [destruct Hin|].
  cbn [apart] in Ha. destruct Ha as (H1 & H2 & Hrest).
  destruct Hin as [<-|Hin].
  - exact H1.
  - specialize (IH _ _ Hrest Hin). lia.
Qed.

Lemma apart_filter (p : ImageMatch -> bool) : forall ms lo,
  apart lo ms -> apart lo (filter p ms).
Proof.
  induction ms as [|m ms IH]; intros lo Ha; [exact I|].
  cbn [apart] in Ha. destruct Ha as (H1 & H2 & Hrest).
  cbn [filter]. destruct (p m).
  - cbn [apart]. repeat split; try assumption. apply IH. exact Hrest.
  - apply (apart_from (imgEnd m)); [lia|]. apply IH. exact Hrest.
Qed.

Lemma insertResult_last (r : UploadResult) : forall rs,
  (forall x, In x rs -> imgStart (resultMatch r) < imgStart (resultMatch x)) ->
  insertResult r rs = rs ++ [r].
Proof.
  induction rs as [|x rs IH]; intro H; [reflexivity|].
  cbn [insertResult].
  replace (imgStart (resultMatch x) >? imgStart (resultMatch r)) with true.
  - cbn [app]. f_equal. apply IH. intros y Hy. apply H. right. exact Hy.
  - symmetry. apply Z.gtb_lt. apply H. left. reflexivity.
Qed.

(** Results whose images are apart are already in the order of the text:
    sorted by descending start, they are reversed. *)
Lemma sortResults_apart : forall rs lo,
  apart lo (map resultMatch rs) -> sortResults rs = rev rs.
Proof.
  induction rs as [|r rs IH]; intros lo Ha; [reflexivity|].
  cbn [map apart] in Ha. destruct Ha as (H1 & H2 & Hrest).
  unfold sortResults in *. cbn [fold_right rev]. rewrite (IH _ Hrest).
  apply insertResult_last. intros x Hx. apply in_rev in Hx.
  pose proof (apart_lower _ _ (resultMatch x) Hrest
                (in_map resultMatch _ _ Hx)). lia.
Qed.

Lemma map_flat_map {A B} (f : A -> B) (l : list A) :
  map f l = flat_map (fun x => [f x]) l.
Proof. induction l as [|x l IH]; [reflexivity|]. simpl. rewrite IH. reflexivity. Qed.

(** The matches of a pattern that matches no empty string follow each other
    in the text. *)
Lemma execLoop_apart (r : Regex) (text : str)
    (g : RegExpMatch -> list ImageMatch) :
  (forall s i e caps, rmatch r s i [] done = Some (e, caps) -> i < e) ->
  (forall m, g m = []
             \/ exists m', g m = [m'] /\ imgStart m' = m_index m
                           /\ imgEnd m' = m_index m + len (wholeMatch text m)) ->
  forall fuel lastIndex,
    0 <= lastIndex <= len text ->
    apart lastIndex (flat_map g (execLoop fuel r text lastIndex)).
Proof.
  intros Hne Hg. induction fuel as [|fuel IH]; intros lastIndex Hlast;
    [exact I|].
  cbn [execLoop].
  destruct (searchFrom r (skipn (Z.to_nat lastIndex) text) lastIndex)
    as [m0|] eqn:E; [|exact I].
  apply searchFrom_position in E. destruct E as (n & Hn & Hi & Hm).
  pose proof (Hne _ _ _ _ Hm) as Hpos.
  destruct (rmatch_position _ _ _ _ _ _ Hm) as (n' & caps' & Hn' & Hd).
  unfold done in Hd. injection Hd as He _.
  rewrite !length_skipn in Hn'. rewrite length_skipn in Hn.
  unfold len in Hlast.
  assert (Hw : len (wholeMatch text m0) = m_end m0 - m_index m0).
  { unfold wholeMatch, substring. rewrite len_firstn; [lia|].
    rewrite length_skipn. lia. }
  assert (Hend : 0 <= m_end m0 <= len text) by (unfold len; lia).
  cbn [flat_map]. destruct (Hg m0) as [->|(m' & -> & Hs & He')].
  - cbn [app]. apply (apart_from (m_end m0)); [lia|]. apply IH. exact Hend.
  - cbn [app apart]. rewrite Hs, He', Hw.
    replace (m_index m0 + (m_end m0 - m_index m0)) with (m_end m0) by lia.
    repeat split; [lia|lia|]. apply IH. exact Hend.
Qed.

Lemma tag_match_nonempty (s : str) (i e : Z) (caps : Captures) :
  rmatch imgTagRegex s i [] done = Some (e, caps) -> i < e.
Proof.
  unfold imgTagRegex. cbn [Seq]. rewrite rmatch_cat, rmatch_lit.
  destruct (startsWith (lit "<img") s); [|discriminate].
  intro H. apply rmatch_position in H.
  destruct H as (n & caps' & Hn & Hd). unfold done in Hd.
  injection Hd as He _. change (len (lit "<img")) with 4 in He. lia.
Qed.

(** In a text that holds images of one kind only, Markdown images or tags,
    the images found follow each other in the text. *)
Lemma findImageMatches_apart (text : str) :
  execAll imgTagRegex text = [] \/ execAll regex text = [] ->
  apart 0 (findImageMatches text).
Proof.
  pose proof (len_nonneg text) as Hlen.
  unfold findImageMatches. cbv zeta. intros [H|H]; rewrite H.
  - cbn [flat_map]. rewrite app_nil_r, map_flat_map. unfold execAll.
    apply execLoop_apart; [| |lia].
    + intros s i e caps Hm. apply markdown_match in Hm.
      destruct Hm as (al & ur & post & _ & He & _).
      pose proof (len_nonneg al). pose proof (len_nonneg ur). lia.
    + intro m. right. eexists. split; [reflexivity|].
      cbn [imgStart imgEnd]. split; reflexivity.
  - cbn [map app]. unfold execAll.
    apply execLoop_apart; [apply tag_match_nonempty| |lia].
    intro m.
    destruct (negb (indexOf (orEmpty (group 1 text m)) (wholeMatch text m)
                    =? -1)); [|left; reflexivity].
    right. eexists. split; [reflexivity|].
    cbn [imgStart imgEnd]. split; reflexivity.
Qed.

(** The upload pass, when it is configured, replays the sorted results of
    its uploads. *)
Lemma uploadImages_replay (s : Model.Settings) (cos : Model.TencentCos)
    (nets : nat -> Network) (file : TFile) (T : Z) (failed : UrlSet)
    (c : MagicString) :
  Model.tencentCos s = Some cos ->
  truthy (Model.bucket cos) = true -> truthy (Model.region cos) = true ->
  initCos s = true ->
  uploadImages s nets file T failed c
  = (index <- applyResults
                (sortResults
                   (fst (uploadResults s cos nets file failed (original c)))) T ;;
     ret (index, snd (uploadResults s cos nets file failed (original c)))) c.
Proof.
  intros Hc Hb Hr Hi.
  destruct (findImageMatches (original c)) as [|m0 ms] eqn:Efind.
  - unfold uploadImages, uploadResults. rewrite Hc, Hb, Hr, Hi, Efind.
    reflexivity.
  - apply uploadImages_results; try assumption. rewrite Efind. discriminate.
Qed.

(** Where the URLs of the results of a pass are. *)
Lemma results_spans (s : Model.Settings) (cos : Model.TencentCos)
    (nets : nat -> Network) (file : TFile) (failed : UrlSet) (text : str)
    (r : UploadResult) :
  In r (fst (uploadResults s cos nets file failed text)) ->
  In (resultMatch r) (findImageMatches text)
  /\ shouldUpload s failed (url (resultMatch r)) (Model.domain cos) = true
  /\ imgStart (resultMatch r) <= urlStart (resultMatch r)
  /\ urlStart (resultMatch r) <= urlEnd (resultMatch r)
  /\ urlEnd (resultMatch r) <= imgEnd (resultMatch r)
  /\ imgEnd (resultMatch r) <= len text.
Proof.
  intro Hin. apply (in_map resultMatch) in Hin. unfold uploadResults in Hin.
  rewrite runUploads_matches in Hin.
  apply candidates_In in Hin. destruct Hin as [Hin Hs].
  split; [exact Hin|]. split; [exact Hs|].
  assert (Hsp : 0 <= imgStart (resultMatch r)
                /\ imgStart (resultMatch r) <= urlStart (resultMatch r)
                /\ urlEnd (resultMatch r)
                   = urlStart (resultMatch r) + len (url (resultMatch r))
                /\ urlEnd (resultMatch r) <= imgEnd (resultMatch r)
                /\ imgEnd (resultMatch r) <= len text
                /\ substring (urlStart (resultMatch r))
                     (urlEnd (resultMatch r)) text = url (resultMatch r)).
  { unfold findImageMatches in Hin. cbv zeta in Hin.
    apply in_app_or in Hin. destruct Hin as [Hin|Hin].
    - exact (markdown_spans text _ Hin).
    - exact (tag_spans text _ Hin). }
  destruct Hsp as (_ & S1 & S2 & S3 & S4 & _).
  pose proof (len_nonneg (url (resultMatch r))). lia.
Qed.

(** On a fresh buffer, a configured pass whose uploaded images do not
    overlap returns, and leaves the text with the URL of every image whose
    upload returned a URL replaced by that URL. *)
Lemma uploadImages_rewritten (s : Model.Settings) (cos : Model.TencentCos)
    (nets : nat -> Network) (file : TFile) (T : Z) (failed : UrlSet)
    (c : MagicString) :
  let text := original c in
  let results := fst (uploadResults s cos nets file failed text) in
  let ordered := rev (sortResults results) in
  Model.tencentCos s = Some cos ->
  truthy (Model.bucket cos) = true -> truthy (Model.region cos) = true ->
  initCos s = true ->
  current c = original c ->
  apart 0 (map resultMatch ordered) ->
  exists T',
    uploadImages s nets file T failed c
    = Ok ((T', snd (uploadResults s cos nets file failed text)),
          {| original := text;
             current := rewriteText 0 (flat_map urlEdit ordered) text |}).
Proof.
  intros text results ordered Hc Hb Hr Hi Hcur Hap.
  assert (Hspans : forall r, In r ordered ->
            imgStart (resultMatch r) <= urlStart (resultMatch r)
            /\ urlStart (resultMatch r) <= urlEnd (resultMatch r)
            /\ urlEnd (resultMatch r) <= imgEnd (resultMatch r)
            /\ imgEnd (resultMatch r) <= len text).
  { intros r Hin. unfold ordered in Hin. apply in_rev in Hin.
    apply (proj1 (sortResults_In _ _)) in Hin.
    apply results_spans in Hin. tauto. }
  pose proof (apart_inOrder (len text) ordered 0 Hap Hspans) as Hord.
  destruct (replay_in_order text (flat_map urlEdit ordered) [] text T)
    as (T' & Hrun).
  { change (len []) with 0. rewrite Z.add_0_l. exact Hord. }
  change (len []) with 0 in Hrun. cbn [app] in Hrun.
  unfold applyEdits in Hrun. rewrite rev_flat_map_urlEdit in Hrun.
  unfold ordered in Hrun at 1. rewrite rev_involutive in Hrun.
  rewrite <- applyResults_edits in Hrun.
  assert (Hbuf : c = {| original := text; current := text |}).
  { destruct c as [o cur]. cbn in *. subst. reflexivity. }
  exists T'. rewrite (uploadImages_replay s cos) by assumption.
  unfold bind. fold text. fold results. rewrite Hbuf at 1. rewrite Hrun.
  reflexivity.
Qed.

(** X18: a configured pass of [uploadImages] over a fresh buffer, whose
    uploaded images do not overlap, returns, and the text it leaves is the
    text with the URL of every image whose upload returned a URL replaced by
    that URL: the rest of the text, and the URLs of the failed uploads, are
    as they were.  [ordered] is the results in the order of the text.  The
    images do not overlap when the text holds Markdown images only or tags
    only, and then the results are in the order of the text as they are. *)
Theorem uploads_replace_urls (s : Model.Settings) (cos : Model.TencentCos)
    (nets : nat -> Network) (file : TFile) (T : Z) (failed : UrlSet)
    (c : MagicString) :
  let text := original c in
  let results := fst (uploadResults s cos nets file failed text) in
  let ordered := rev (sortResults results) in
  Model.tencentCos s = Some cos ->
  truthy (Model.bucket cos) = true -> truthy (Model.region cos) = true ->
  initCos s = true ->
  current c = original c ->
  execAll imgTagRegex text = [] \/ execAll regex text = []
  \/ apart 0 (map resultMatch ordered) ->
  (exists T',
     uploadImages s nets file T failed c
     = Ok ((T', snd (uploadResults s cos nets file failed text)),
           {| original := text;
              current := rewriteText 0 (flat_map urlEdit ordered) text |}))
  /\ (execAll imgTagRegex text = [] \/ execAll regex text = [] ->
      ordered = results).
Proof.
  intros text results ordered Hc Hb Hr Hi Hcur Hcase.
  assert (Hres : map resultMatch results
                 = candidates s failed (Model.domain cos)
                     (findImageMatches text))
    by apply runUploads_matches.
  assert (Hone : execAll imgTagRegex text = [] \/ execAll regex text = [] ->
                 apart 0 (map resultMatch results)).
  { intro H. rewrite Hres. apply apart_filter.
    apply findImageMatches_apart. exact H. }
  assert (Hsame : execAll imgTagRegex text = [] \/ execAll regex text = [] ->
                  ordered = results).
  { intro H. unfold ordered. rewrite (sortResults_apart _ _ (Hone H)).
    apply rev_involutive. }
  split; [|exact Hsame].
  apply uploadImages_rewritten; try assumption.
  destruct Hcase as [H|[H|H]]; [| |exact H].
  - fold text. fold results. fold ordered.
    rewrite (Hsame (or_introl H)). apply Hone. left. exact H.
  - fold text. fold results. fold ordered.
    rewrite (Hsame (or_intror H)). apply Hone. right. exact H.
Qed.

Lemma uploads_replace_urls_witness :
  let cos := {| Model.secretId := lit "id"; Model.secretKey := lit "key";
                Model.bucket := lit "b-1"; Model.region := lit "ap-x";
                Model.domain := lit "https://img.example.com/" |} in
  let s := {| Model.formatOnSave := false; Model.formatOnFileChange := false;
              Model.removeExtraSpaces := false;
              Model.addTrailingSpaces := false;
              Model.headerStartLevel := 1; Model.autoNumbering := false;
              Model.tencentCos := Some cos |} in
  let nets := fun _ : nat =>
                {| requestUrl := fun u => if endsWith (lit "b.png") u
                                          then None else Some [1; 2];
                   getFirstLinkpathDest := fun _ _ => None;
                   readBinary := fun _ => None;
                   now := 7;
                   putObject := fun _ _ => Some 204 |} in
  let file := {| path := lit "note.md"; name := lit "note.md" |} in
  let c := newMagicString
             (lit "<img src='http://x.org/t.png'> ![a](http://x.org/a.png) ![b](http://x.org/b.png)") in
  exists T',
    uploadImages s nets file 3 [] c
    = Ok ((T', [lit "http://x.org/b.png"]),
          {| original := original c;
             current := lit "<img src='https://img.example.com/obsidian/7_t.png'> ![a](https://img.example.com/obsidian/7_a.png) ![b](http://x.org/b.png)" |}).
Proof.
  intros cos s nets file c.
  destruct (uploads_replace_urls s cos nets file 3 [] c eq_refl eq_refl eq_refl
              eq_refl eq_refl) as [(T' & H) _].
  - right. right. vm_compute.
    repeat split; try reflexivity; intro; discriminate.
  - exists T'. rewrite H. vm_compute. reflexivity.
Defined.

(** ** The last newline of a selection *)

Lemma split_snoc (x : Z) : forall t,
  split 10 (t ++ [x])
  = if x =? 10 then split 10 t ++ [[]]
    else removelast (split 10 t) ++ [last (split 10 t) [] ++ [x]].
Proof.
  induction t as [|c r IH].
  - cbn [app split]. destruct (x =? 10); reflexivity.
  - cbn [app split]. rewrite IH.
    pose proof (split_not_nil 10 r) as Hne.
    destruct (split 10 r) as [|l ls]; [contradiction|].
    destruct (x =? 10), (c =? 10); try reflexivity.
    destruct ls as [|l2 ls]; reflexivity.
Qed.

(** A text ends with a newline when its last line is empty and is not its
    only line. *)
Lemma endsWith_lines (t : str) :
  endsWith [10] t = lastLineEmpty (split 10 t).
Proof.
  destruct (rev t) as [|x r] eqn:E.
  - apply (f_equal (@rev Z)) in E. rewrite rev_involutive in E. subst t.
    reflexivity.
  - apply (f_equal (@rev Z)) in E. rewrite rev_involutive in E. subst t.
    cbn [rev]. unfold endsWith, lastLineEmpty.
    rewrite rev_app_distr, rev_involutive. cbn [rev app startsWith].
    rewrite split_snoc, Z.eqb_sym.
    pose proof (split_not_nil 10 (rev r)) as Hne.
    destruct (x =? 10).
    + rewrite rev_app_distr. cbn [rev app].
      destruct (rev (split 10 (rev r))) as [|a more] eqn:E.
      * apply (f_equal (@rev str)) in E. rewrite rev_involutive in E.
        contradiction.
      * destruct r; reflexivity.
    + rewrite rev_app_distr. cbn [rev app andb].
      destruct (last (split 10 (rev r)) []); reflexivity.
Qed.

(** A rewriting of the lines that keeps the empty line and empties no line
    keeps the last newline. *)
Lemma lastLineEmpty_map (f : str -> str) (lines : list str) :
  f [] = [] -> (forall c l, f (c :: l) <> []) ->
  lastLineEmpty (map f lines) = lastLineEmpty lines.
Proof.
  intros He Hne. unfold lastLineEmpty. rewrite <- map_rev.
  destruct (rev lines) as [|[|c a] [|b more]]; cbn [map]; try reflexivity.
  - rewrite He. reflexivity.
  - rewrite He. reflexivity.
  - pose proof (Hne c a). destruct (f (c :: a)); [contradiction|reflexivity].
  - pose proof (Hne c a). destruct (f (c :: a)); [contradiction|reflexivity].
Qed.

Lemma collapseSpaces_keeps_empty :
  collapseSpaces [] = [] /\ forall c l, collapseSpaces (c :: l) <> [].
Proof.
  split; [reflexivity|]. intros c l. unfold collapseSpaces.
  destruct (extraSpacesParts (c :: l)) as [[[[indent marker] extra] rest]|]
    eqn:E; [|discriminate].
  apply extraSpacesParts_inv in E. destruct E as (_ & Hm & _).
  intro H. apply (f_equal len) in H. rewrite !len_app in H.
  change (len []) with 0 in H.
  pose proof (len_nonneg indent). pose proof (len_nonneg rest). lia.
Qed.

Lemma addTrailingSpace_keeps_empty :
  addTrailingSpace [] = [] /\ forall c l, addTrailingSpace (c :: l) <> [].
Proof.
  split; [reflexivity|]. intros c l. unfold addTrailingSpace.
  destruct (isEmptyListItem (c :: l)); discriminate.
Qed.

(** The list passes keep the last newline of the text. *)
Lemma removeExtraSpaces_newline (T T' : Z) (c c' : MagicString) :
  removeExtraSpaces T c = Ok (T', c') ->
  original c' = original c
  /\ endsWith [10] (current c') = endsWith [10] (current c).
Proof.
  destruct (removeExtraSpaces_text c T) as (T1 & c1 & Hrun & Ho & Hs).
  rewrite Hrun. intros [= <- <-]. split; [exact Ho|].
  rewrite !endsWith_lines, Hs.
  destruct collapseSpaces_keeps_empty as [He Hne].
  apply lastLineEmpty_map; assumption.
Qed.

Lemma addTrailingSpaces_newline (T T' : Z) (c c' : MagicString) :
  addTrailingSpaces T c = Ok (T', c') ->
  original c' = original c
  /\ endsWith [10] (current c') = endsWith [10] (current c).
Proof.
  destruct (addTrailingSpaces_text c T) as (T1 & c1 & Hrun & Ho & Hs).
  rewrite Hrun. intros [= <- <-]. split; [exact Ho|].
  rewrite !endsWith_lines, Hs.
  destruct addTrailingSpace_keeps_empty as [He Hne].
  apply lastLineEmpty_map; assumption.
Qed.

Lemma endsWith_snoc (t : str) : endsWith [10] (t ++ [10]) = true.
Proof. unfold endsWith. rewrite rev_app_distr. reflexivity. Qed.

Lemma endsWith_two (t : str) :
  endsWith [10; 10] (t ++ [10]) = endsWith [10] t.
Proof. unfold endsWith. rewrite rev_app_distr. reflexivity. Qed.

(** After lines 141-147 the text ends with a newline exactly when the
    original does, unless the original ends with none and the text with
    two: the deletion of line 145 removes one. *)
Lemma reconcileNewline_reconciled (c c' : MagicString) (u : unit) :
  reconcileNewline c = Ok (u, c') ->
  original c' = original c
  /\ (endsWith [10] (original c) = true
      \/ endsWith [10; 10] (current c) = false -> reconciled c').
Proof.
  unfold reconciled.
  destruct (endsWith [10] (original c)) eqn:Ho,
           (endsWith [10] (current c)) eqn:Hc.
  - unfold reconcileNewline. cbv zeta. rewrite Ho, Hc. cbn [andb negb].
    intros [= _ <-]. rewrite Ho, Hc. split; reflexivity.
  - unfold reconcileNewline. cbv zeta. rewrite Ho, Hc. cbn [andb negb].
    unfold append. intros [= _ <-]. cbn [current original].
    rewrite endsWith_snoc, Ho. split; reflexivity.
  - rewrite (reconcileNewline_delete c Ho Hc). unfold bind.
    assert (Hne : current c <> [])
      by (apply (endsWith_not_nil [10]); [discriminate|exact Hc]).
    rewrite (delete_last c Hne). unfold ret. intros [= _ <-].
    cbn [current original]. split; [reflexivity|].
    intros [H|H]; [discriminate|]. rewrite Ho.
    destruct (exists_last Hne) as (t & x & E). rewrite E in *.
    rewrite removelast_last.
    assert (x = 10) as ->.
    { unfold endsWith in Hc. rewrite rev_app_distr in Hc.
      cbn [rev app startsWith] in Hc. apply andb_prop in Hc.
      destruct Hc as [Hc _]. apply Z.eqb_eq in Hc. symmetry. exact Hc. }
    rewrite endsWith_two in H. exact H.
  - unfold reconcileNewline. cbv zeta. rewrite Ho, Hc. cbn [andb negb].
    intros [= _ <-]. rewrite Ho, Hc. split; reflexivity.
Qed.

Lemma bind_ok {A B} (m : Engine A) (k : A -> Engine B) (c c' : MagicString)
    (b : B) :
  bind m k c = Ok (b, c') ->
  exists a c1, m c = Ok (a, c1) /\ k a c1 = Ok (b, c').
Proof.
  unfold bind. destruct (m c) as [[a c1]|e]; [|discriminate].
  intro H. exists a, c1. split; [reflexivity|exact H].
Qed.

(** X19: when [formatSelection] replaces the selection, the text it puts in
    ends with a newline exactly when the selection did, whichever list
    passes are switched on, provided the selection ends with a newline or
    the pretty-printer returns no text that ends with two newlines: a
    missing final newline is appended, a final newline the selection did
    not have is removed with [delete(-1)], and the list passes neither
    remove nor add one. *)
Theorem selection_keeps_final_newline (h : Host) (s : Model.Settings)
    (editor : Editor) (file : TFile) (failed failed' : UrlSet)
    (calls : list Call) (t : str) :
  endsWith [10] (getSelection editor) = true
  \/ (forall cur out,
        prettierFormat h cur = Some out -> endsWith [10; 10] out = false) ->
  formatSelection h s editor (Some file) failed = Ok (calls, failed') ->
  In (replaceSelection t) calls ->
  endsWith [10] t = endsWith [10] (getSelection editor).
Proof.
  intro Hp. unfold formatSelection.
  destruct (negb (shouldUsePrettier h file)); [intros [= <- _] []|].
  cbv zeta.
  match goal with
  | |- match ?m ?c0 with _ => _ end = _ -> _ =>
      destruct (m c0) as [[f1 c1]|e] eqn:E; [|discriminate]
  end.
  assert (Hrec : reconciled c1 /\ original c1 = getSelection editor).
  { apply bind_ok in E. destruct E as (r & ca & E1 & E).
    apply keeps_uploadImages in E1. cbn [newMagicString original] in E1.
    apply bind_ok in E. destruct E as (cur & cb & E2 & E).
    unfold getCurrent in E2. injection E2 as _ <-.
    apply bind_ok in E. destruct E as (formatted & cc & E3 & E).
    unfold awaitFormat in E3.
    destruct (prettierFormat h cur) as [out|] eqn:Eout; [|discriminate].
    injection E3 as <- <-.
    apply bind_ok in E. destruct E as ([] & cd & E4 & E).
    unfold mutate in E4. injection E4 as <-.
    apply bind_ok in E. destruct E as (u & ce & E5 & E).
    apply reconcileNewline_reconciled in E5. cbn [original current] in E5.
    destruct E5 as [Ho Hrec]. rewrite E1 in Ho, Hrec.
    assert (Hrec5 : reconciled ce).
    { apply Hrec. destruct Hp as [Hp|Hp]; [left; exact Hp|].
      right. exact (Hp _ _ Eout). }
    clear Hrec.
    apply bind_ok in E. destruct E as (o1 & cf & E6 & E).
    assert (H6 : reconciled cf /\ original cf = getSelection editor).
    { unfold reconciled in *. destruct (Model.removeExtraSpaces s).
      - apply removeExtraSpaces_newline in E6. destruct E6 as [H1 H2].
        rewrite H1, H2. split; [exact Hrec5|exact Ho].
      - unfold ret in E6. injection E6 as _ <-. split; [exact Hrec5|exact Ho]. }
    destruct H6 as [Hrec6 Ho6].
    apply bind_ok in E. destruct E as (o2 & cg & E7 & E).
    unfold ret in E. injection E as _ <-.
    unfold reconciled in *. destruct (Model.addTrailingSpaces s).
    - apply addTrailingSpaces_newline in E7. destruct E7 as [H1 H2].
      rewrite H1, H2. split; [exact Hrec6|exact Ho6].
    - unfold ret in E7. injection E7 as _ <-. split; [exact Hrec6|exact Ho6]. }
  destruct Hrec as [Hrec Ho]. unfold reconciled in Hrec.
  destruct (isModified c1); cbn [negb]; intros [= <- _]; [|intros []].
  intros [[= <-]|[]]. rewrite Hrec, Ho. reflexivity.
Qed.

Lemma selection_keeps_final_newline_witness :
  let h := {| shouldUsePrettier := fun _ => true;
              shouldUseFastMode := fun _ => false;
              prettierFormat := fun _ => Some (lit "- a" ++ [10]);
              prettierFormatWithCursor := fun t o => Some (t, o);
              vaultRead := fun _ => [];
              nets := fun _ =>
                {| requestUrl := fun _ => None;
                   getFirstLinkpathDest := fun _ _ => None;
                   readBinary := fun _ => None;
                   now := 0;
                   putObject := fun _ _ => None |} |} in
  let editor := {| getValue := []; getCursor := {| line := 0; ch := 0 |};
                   getSelection := lit "-  a";
                   getScrollInfo := (0, 0) |} in
  let file := {| path := lit "note.md"; name := lit "note.md" |} in
  formatSelection h Model.getDefaultSettings editor (Some file) []
  = Ok ([replaceSelection (lit "- a")], [])
  /\ endsWith [10] (lit "- a") = endsWith [10] (getSelection editor).
Proof.
  intros h editor file.
  assert (Hrun : formatSelection h Model.getDefaultSettings editor (Some file) []
                 = Ok ([replaceSelection (lit "- a")], []))
    by (vm_compute; reflexivity).
  split; [exact Hrun|].
  apply (selection_keeps_final_newline h Model.getDefaultSettings editor file
           [] [] [replaceSelection (lit "- a")] (lit "- a")).
  - right. intros cur out H. injection H as <-. reflexivity.
  - exact Hrun.
  - left. reflexivity.
Defined.

(** ** The numbers of the headings after the level shift *)

Lemma headerTextParts_parts (l indent hashes sp rest : str) :
  headerParts l = Some (indent, hashes, sp, rest) ->
  headerTextParts l
  = if noLineTerminator rest then Some (indent, hashes, sp, rest) else None.
Proof. intro H. unfold headerTextParts. rewrite H. reflexivity. Qed.

(** A shift that moves every heading leaves the relative depths as they
    are. *)
Lemma shiftedLines_depths (shift m : Z) : forall lines b,
  Forall (fun level => 1 <= level + shift /\ level + shift <= 6)
    (visibleLevels b lines) ->
  headingDepths (m + shift) b (shiftedLines shift b lines)
  = headingDepths m b lines.
Proof.
  induction lines as [|l more IH]; intros b H; [reflexivity|].
  cbn [shiftedLines headingDepths visibleLevels] in *. cbv zeta in *.
  destruct (toggle l b) eqn:Ht.
  - rewrite Ht. apply IH, H.
  - unfold hashesOfLine in *.
    destruct (headerParts l) as [[[[indent hashes] sp] rest]|] eqn:Hp.
    + inversion H as [|? ? [H1 H2] Hmore]; subst.
      assert (Hs : shiftedLevel shift (len hashes) = len hashes + shift).
      { unfold shiftedLevel. cbv zeta.
        replace (1 <=? len hashes + shift) with true
          by (symmetry; apply Z.leb_le; lia).
        replace (len hashes + shift <=? 6) with true
          by (symmetry; apply Z.leb_le; lia).
        reflexivity. }
      rewrite Hs.
      destruct (withLevel_parts (len hashes + shift) _ _ _ _ _ H1 Hp)
        as [Hp' Hf].
      rewrite (toggle_same_fence l _ b Hf), Ht.
      rewrite (headerTextParts_parts _ _ _ _ _ Hp'),
              (headerTextParts_parts _ _ _ _ _ Hp).
      destruct (noLineTerminator rest); [|apply IH, Hmore].
      rewrite len_hashesOf by lia. rewrite (IH _ Hmore). f_equal. lia.
    + rewrite Ht. unfold headerTextParts. rewrite Hp. apply IH, H.
Qed.

Lemma leastLevel_shifted (shift : Z) : forall levels,
  levels <> [] ->
  Forall (fun level => level <= 100 /\ 1 <= level + shift
                       /\ level + shift <= 6) levels ->
  leastLevel (map (shiftedLevel shift) levels) = leastLevel levels + shift.
Proof.
  unfold leastLevel. induction levels as [|x xs IH]; [contradiction|].
  intros _ H. inversion H as [|? ? (H1 & H2 & H3) Hxs]; subst.
  cbn [map fold_right].
  assert (Hs : shiftedLevel shift x = x + shift).
  { unfold shiftedLevel. cbv zeta.
    replace (1 <=? x + shift) with true by (symmetry; apply Z.leb_le; lia).
    replace (x + shift <=? 6) with true by (symmetry; apply Z.leb_le; lia).
    reflexivity. }
  rewrite Hs. destruct xs as [|y ys].
  - cbn [map fold_right]. lia.
  - rewrite IH; [lia|discriminate|exact Hxs].
Qed.

(** X20: the numbers of the headings do not depend on [headerStartLevel].
    When no heading outside fenced blocks has more than 100 hashes and each
    has a shifted level between 1 and 6, [adjustHeaderLevels] returns, the
    headings [addHeaderNumbering] numbers in the shifted text have the
    relative depths they had before the shift, and the edits of the
    renumbering on the shifted text put on them the prefixes computed from
    the text before the shift. *)
Theorem numbering_ignores_start_level (s : Model.Settings) (c : MagicString)
    (T : Z) :
  let lines := split 10 (current c) in
  let levels := visibleLevels false lines in
  let shift := Model.headerStartLevel s - leastLevel levels in
  let depths := headingDepths (minLevelOf lines) false lines in
  Forall (fun level => level <= 100 /\ 1 <= level + shift
                       /\ level + shift <= 6) levels ->
  exists T1 c1,
    adjustHeaderLevels s T c = Ok (T1, c1)
    /\ headingDepths (minLevelOf (split 10 (current c1))) false
         (split 10 (current c1)) = depths
    /\ numberingEdits (minLevelOf (split 10 (current c1)))
         (split 10 (current c1))
       = globalEdits 0
           (prefixLines (prefixesFrom [] depths) false
              (split 10 (current c1))).
Proof.
  intros lines levels shift depths H.
  destruct (adjustHeaderLevels_text s c T) as (T1 & c1 & Hrun & _ & Hs).
  cbv zeta in Hs. fold lines in Hs. fold levels in Hs. fold shift in Hs.
  exists T1, c1. split; [exact Hrun|].
  assert (Hd : headingDepths (minLevelOf (split 10 (current c1))) false
                 (split 10 (current c1)) = depths).
  { rewrite Hs. unfold depths.
    destruct levels as [|x xs] eqn:Hl.
    - unfold levels in Hl. rewrite (shiftedLines_no_heading _ _ _ Hl).
      reflexivity.
    - rewrite !minLevelOf_levels, shiftedLines_levels. fold levels.
      rewrite Hl, leastLevel_shifted; [|discriminate|exact H].
      rewrite <- Hl. apply shiftedLines_depths. unfold levels in Hl.
      rewrite Hl. eapply Forall_impl; [|exact H].
      intros a (_ & H1 & H2). split; assumption. }
  split; [exact Hd|].
  rewrite numberingEdits_lines, numberLines_prefixes, Hd. reflexivity.
Qed.

Lemma numbering_ignores_start_level_witness :
  let s := {| Model.formatOnSave := false; Model.formatOnFileChange := false;
              Model.removeExtraSpaces := false;
              Model.addTrailingSpaces := false;
              Model.headerStartLevel := 3; Model.autoNumbering := true;
              Model.tencentCos := None |} in
  let c := newMagicString (lit "# a" ++ [10] ++ lit "## b" ++ [10] ++ lit "# c") in
  exists T1 c1,
    adjustHeaderLevels s 0 c = Ok (T1, c1)
    /\ headingDepths (minLevelOf (split 10 (current c1))) false
         (split 10 (current c1)) = [1; 2; 1]
    /\ numberingEdits (minLevelOf (split 10 (current c1)))
         (split 10 (current c1))
       = globalEdits 0
           (prefixLines [lit "1."; lit "1.1"; lit "2."] false
              (split 10 (current c1))).
Proof.
  intros s c.
  apply (numbering_ignores_start_level s c 0).
  vm_compute. repeat constructor; intro; discriminate.
Defined.

(** ** The tracked offset stays in the text *)

Lemma update_inside (s e : Z) (t : str) (T T' : Z) (c c' : MagicString) :
  inside T c -> update s e t T c = Ok (T', c') -> inside T' c'.
Proof.
  unfold inside, update. intros [H0 H1].
  destruct (validSpan s e c) eqn:V; [|discriminate].
  apply validSpan_iff in V. destruct V as (Vs & Vse & Ve).
  intros [= <- <-]. cbn [current]. rewrite len_splice by lia.
  pose proof (len_nonneg t). unfold remap.
  destruct (Z.eqb_spec T (-1)); [lia|].
  destruct (Z.ltb_spec T s); [lia|].
  destruct (Z.leb_spec e T); lia.
Qed.

Lemma forEach_inside {A} (f : Z -> A -> Engine Z) :
  (forall x T T' c c', inside T c -> f T x c = Ok (T', c') -> inside T' c') ->
  forall xs T T' c c',
    inside T c -> forEach f xs T c = Ok (T', c') -> inside T' c'.
Proof.
  intro Hf. induction xs as [|x xs IH]; intros T T' c c' Hin; simpl.
  - unfold ret. intros [= <- <-]. exact Hin.
  - unfold bind. destruct (f T x c) as [[T1 c1]|e] eqn:E; [|discriminate].
    apply IH. exact (Hf _ _ _ _ _ Hin E).
Qed.

Lemma applyEdits_inside (es : list Edit) (T T' : Z) (c c' : MagicString) :
  inside T c -> applyEdits es T c = Ok (T', c') -> inside T' c'.
Proof.
  apply forEach_inside. intros e T0 T1 c0 c1. apply update_inside.
Qed.

Lemma structuralPasses_inside (s : Model.Settings) (T T' : Z)
    (c c' : MagicString) :
  inside T c -> structuralPasses s T c = Ok (T', c') -> inside T' c'.
Proof.
  intros Hin H. unfold structuralPasses in H.
  apply bind_ok in H. destruct H as (T1 & c1 & E1 & H).
  assert (H1 : inside T1 c1).
  { destruct (Model.removeExtraSpaces s).
    - rewrite removeExtraSpaces_edits in E1.
      exact (applyEdits_inside _ _ _ _ _ Hin E1).
    - unfold ret in E1. injection E1 as <- <-. exact Hin. }
  apply bind_ok in H. destruct H as (T2 & c2 & E2 & H).
  assert (H2 : inside T2 c2).
  { destruct (Model.addTrailingSpaces s).
    - rewrite addTrailingSpaces_edits in E2.
      exact (applyEdits_inside _ _ _ _ _ H1 E2).
    - unfold ret in E2. injection E2 as <- <-. exact H1. }
  apply bind_ok in H. destruct H as (T3 & c3 & E3 & H).
  assert (H3 : inside T3 c3).
  { destruct (Model.headerStartLevel s >? 1).
    - unfold adjustHeaderLevels, ret in E3. cbv zeta in E3.
      destruct (negb (hasHeader _)); [injection E3 as <- <-; exact H2|].
      destruct (_ =? 0); [injection E3 as <- <-; exact H2|].
      exact (applyEdits_inside _ _ _ _ _ H2 E3).
    - unfold ret in E3. injection E3 as <- <-. exact H2. }
  destruct (Model.autoNumbering s).
  - unfold addHeaderNumbering, ret in H. cbv zeta in H.
    destruct (_ =? 100); [injection H as <- <-; exact H3|].
    exact (applyEdits_inside _ _ _ _ _ H3 H).
  - unfold ret in H. injection H as <- <-. exact H3.
Qed.

Lemma uploadImages_inside (s : Model.Settings) (nets : nat -> Network)
    (file : TFile) (failed : UrlSet) (T : Z) (c c' : MagicString)
    (r : Z * UrlSet) :
  inside T c -> uploadImages s nets file T failed c = Ok (r, c') ->
  inside (fst r) c'.
Proof.
  intro Hin. unfold uploadImages, ret.
  destruct (Model.tencentCos s) as [cos|]; [|intros [= <- <-]; exact Hin].
  destruct (negb (truthy (Model.bucket cos)) || negb (truthy (Model.region cos)));
    [intros [= <- <-]; exact Hin|].
  destruct (negb (initCos s)); [intros [= <- <-]; exact Hin|].
  destruct (findImageMatches (original c)) as [|m ms];
    [intros [= <- <-]; exact Hin|].
  destruct (runUploads s nets file 0 _ failed) as [results failed'].
  unfold bind.
  destruct (applyResults (sortResults results) T c) as [[T1 c1]|e] eqn:E;
    [|discriminate].
  intros [= <- <-]. cbn [fst]. rewrite applyResults_edits in E.
  revert E. apply forEach_inside; [|exact Hin].
  intros e0 T0 T2 c0 c2. apply update_inside.
Qed.

(** X21: the tracked offset stays in the text.  An offset between 0 and the
    length of the text, passed to [uploadImages] or to the structural
    passes, comes back between 0 and the length of the text they leave; so
    when the pretty-printer returns a cursor offset inside its text,
    [formatContent] outside fast mode ends its passes with an offset inside
    the text it writes. *)
Theorem tracked_offset_stays_inside (h : Host) (s : Model.Settings)
    (editor : Editor) (file : TFile) (failed : UrlSet) :
  (forall T c r c',
      inside T c -> uploadImages s (nets h) file T failed c = Ok (r, c') ->
      inside (fst r) c')
  /\ (forall T c T' c',
        inside T c -> structuralPasses s T c = Ok (T', c') -> inside T' c')
  /\ (shouldUseFastMode h file = false ->
      (forall cur o t o',
          prettierFormatWithCursor h cur o = Some (t, o') ->
          0 <= o' /\ o' <= len t) ->
      forall c r c',
        contentPasses h s editor file failed c = Ok (r, c') ->
        inside (fst r) c').
Proof.
  split; [|split].
  - intros T c r c'. apply uploadImages_inside.
  - intros T c T' c'. apply structuralPasses_inside.
  - intros Hfast Hp c r c' H. unfold contentPasses in H. cbv zeta in H.
    rewrite Hfast in H. cbn [negb] in H.
    apply bind_ok in H. destruct H as (r1 & c1 & _ & H).
    apply bind_ok in H. destruct H as (T2 & c2 & E2 & H).
    apply bind_ok in E2. destruct E2 as (cur & ca & Ea & E2).
    apply bind_ok in E2. destruct E2 as ([t o'] & cb & Eb & E2).
    unfold awaitFormat in Eb.
    destruct (prettierFormatWithCursor h cur (fst r1)) as [[t0 o0]|] eqn:Ep;
      [|discriminate].
    injection Eb as <- <- <-.
    apply bind_ok in E2. destruct E2 as ([] & cc & Ec & E2).
    unfold mutate in Ec. injection Ec as <-.
    unfold ret in E2. cbn [fst snd] in E2. injection E2 as <- <-.
    apply bind_ok in H. destruct H as (T3 & c3 & E3 & H).
    unfold ret in H. injection H as <- <-. cbn [fst].
    apply (structuralPasses_inside s o0 _
             {| original := original ca; current := t0 |}); [|exact E3].
    exact (Hp _ _ _ _ Ep).
Qed.

Lemma tracked_offset_stays_inside_witness :
  let h := {| shouldUsePrettier := fun _ => true;
              shouldUseFastMode := fun _ => false;
              prettierFormat := fun t => Some t;
              prettierFormatWithCursor := fun t o => Some (t, len t);
              vaultRead := fun _ => [];
              nets := fun _ =>
                {| requestUrl := fun _ => None;
                   getFirstLinkpathDest := fun _ _ => None;
                   readBinary := fun _ => None;
                   now := 0;
                   putObject := fun _ _ => None |} |} in
  let s := {| Model.formatOnSave := false; Model.formatOnFileChange := false;
              Model.removeExtraSpaces := true;
              Model.addTrailingSpaces := true;
              Model.headerStartLevel := 2; Model.autoNumbering := true;
              Model.tencentCos := None |} in
  let editor := {| getValue := lit "# a"; getCursor := {| line := 0; ch := 3 |};
                   getSelection := []; getScrollInfo := (0, 0) |} in
  let file := {| path := lit "note.md"; name := lit "note.md" |} in
  let c := newMagicString (lit "# a") in
  contentPasses h s editor file [] c
  = Ok ((7, []), {| original := lit "# a"; current := lit "## 1. a" |})
  /\ inside 7 {| original := lit "# a"; current := lit "## 1. a" |}.
Proof.
  intros h s editor file c.
  assert (Hrun : contentPasses h s editor file [] c
                 = Ok ((7, []), {| original := lit "# a";
                                   current := lit "## 1. a" |}))
    by (vm_compute; reflexivity).
  split; [exact Hrun|].
  destruct (tracked_offset_stays_inside h s editor file []) as (_ & _ & H).
  apply (H eq_refl) in Hrun; [exact Hrun|].
  intros cur o t o' [= <- <-]. pose proof (len_nonneg cur). lia.
Defined.

(** ** The upload-skip rule *)

(** The URLs [shouldUpload] refuses. *)
Lemma shouldUpload_refused (s : Model.Settings) (cos : Model.TencentCos)
    (failed : UrlSet) (u d : str) :
  Model.tencentCos s = Some cos ->
  has u failed = true
  \/ (startsWith (lit "http") u = true
      /\ (truthy d = true /\ includes d u = true
          \/ truthy (Model.bucket cos) = true
             /\ truthy (Model.region cos) = true
             /\ includes (standardDomainOf (Model.bucket cos)
                            (Model.region cos)) u = true)) ->
  shouldUpload s failed u d = false.
Proof.
  intros Hc H. unfold shouldUpload.
  destruct (has u failed); [reflexivity|].
  destruct H as [H|[Hh [[Hd Hi]|(Hb & Hr & Hi)]]]; [discriminate| |].
  - rewrite Hh, Hd, Hi. reflexivity.
  - rewrite Hh. destruct (truthy d && includes d u); [reflexivity|].
    rewrite Hc, Hb, Hr, Hi. reflexivity.
Qed.

(** A URL that does not start with "http" is a local path: it is accepted
    unless it has failed. *)
Lemma shouldUpload_local (s : Model.Settings) (failed : UrlSet) (v d : str) :
  startsWith (lit "http") v = false -> has v failed = false ->
  shouldUpload s failed v d = true.
Proof. intros Hh Hf. unfold shouldUpload. rewrite Hf, Hh. reflexivity. Qed.

(** Every result of the uploads is the outcome of the upload of its own
    image. *)
Lemma runUploads_In (s : Model.Settings) (nets : nat -> Network)
    (file : TFile) (ms : list ImageMatch) (n : nat) (failed : UrlSet)
    (r : UploadResult) :
  In r (fst (runUploads s nets file n ms failed)) ->
  exists j,
    nth_error (fst (runUploads s nets file n ms failed)) j = Some r
    /\ nth_error ms j = Some (resultMatch r)
    /\ newUrl r = uploadOutcome s (nets (n + j)%nat) (url (resultMatch r)) file.
Proof.
  intro Hin. apply In_nth_error in Hin. destruct Hin as [j Hj].
  exists j. split; [exact Hj|].
  assert (Hm : nth_error ms j = Some (resultMatch r)).
  { rewrite <- (runUploads_matches s nets file ms n failed).
    apply map_nth_error. exact Hj. }
  split; [exact Hm|].
  rewrite (runUploads_nth s nets file ms n failed j _ Hm) in Hj.
  injection Hj as <-. reflexivity.
Qed.

(** An upload asks the network for its own URL only. *)
Lemma uploadImage_sameBut (s : Model.Settings) (net net' : Network)
    (u v : str) (file : TFile) (failed : UrlSet) :
  sameBut u net net' -> v <> u ->
  uploadImage s net' v file failed = uploadImage s net v file failed.
Proof.
  intros (Hreq & Hg & Hb & Hn & Hp) Hv. unfold uploadImage.
  rewrite Hg, Hb, Hn, Hp, (Hreq v Hv). reflexivity.
Qed.

Lemma runUploads_sameBut (s : Model.Settings) (nets nets' : nat -> Network)
    (u : str) (file : TFile) :
  (forall n, sameBut u (nets n) (nets' n)) ->
  forall ms n failed,
    (forall m, In m ms -> url m <> u) ->
    runUploads s nets' file n ms failed = runUploads s nets file n ms failed.
Proof.
  intro Hsame. induction ms as [|m ms IH]; intros n failed Hms; [reflexivity|].
  cbn [runUploads].
  rewrite (uploadImage_sameBut s (nets n) (nets' n) u (url m) file failed
             (Hsame n) (Hms m (or_introl eq_refl))).
  destruct (uploadImage s (nets n) (url m) file failed) as [o f1].
  rewrite IH; [reflexivity|]. intros x Hx. apply Hms. right. exact Hx.
Qed.

(** The pass never requests a URL [shouldUpload] refuses: what the network
    would answer for it does not count. *)
Lemma uploadImages_sameBut (s : Model.Settings) (cos : Model.TencentCos)
    (nets nets' : nat -> Network) (u : str) (file : TFile) (T : Z)
    (failed : UrlSet) (c : MagicString) :
  Model.tencentCos s = Some cos ->
  shouldUpload s failed u (Model.domain cos) = false ->
  (forall n, sameBut u (nets n) (nets' n)) ->
  uploadImages s nets' file T failed c = uploadImages s nets file T failed c.
Proof.
  intros Hc Hu Hsame. unfold uploadImages. rewrite Hc.
  destruct (negb (truthy (Model.bucket cos)) || negb (truthy (Model.region cos)));
    [reflexivity|].
  destruct (negb (initCos s)); [reflexivity|].
  destruct (findImageMatches (original c)) as [|m0 ms] eqn:E; [reflexivity|].
  rewrite (runUploads_sameBut s nets nets' u file Hsame); [reflexivity|].
  intros m Hm Hurl. apply candidates_In in Hm. destruct Hm as [_ Hm].
  rewrite Hurl, Hu in Hm. discriminate.
Qed.

(** A pass that is not configured does nothing. *)
Lemma uploadImages_off (s : Model.Settings) (cos : Model.TencentCos)
    (nets : nat -> Network) (file : TFile) (T : Z) (failed : UrlSet)
    (c : MagicString) :
  Model.tencentCos s = Some cos ->
  truthy (Model.bucket cos) = false \/ truthy (Model.region cos) = false
  \/ initCos s = false ->
  uploadImages s nets file T failed c = Ok ((T, failed), c).
Proof.
  intros Hc H. unfold uploadImages. rewrite Hc.
  destruct (truthy (Model.bucket cos)); [|reflexivity].
  destruct (truthy (Model.region cos)); [|reflexivity].
  destruct (initCos s); [|reflexivity].
  destruct H as [H|[H|H]]; discriminate.
Qed.

(** C4, as the code has it.  The pass [uploadImages] is the replay, by the
    loop of lines 70-74, of the results of its uploads, and each of them is
    the outcome of the upload of an image of the text whose URL
    [shouldUpload] accepted.  [shouldUpload] refuses a URL that was recorded
    as failed, and a URL that starts with "http" and contains the configured
    custom domain, when that is not empty, or the standard domain
    [bucket.cos.region.myqcloud.com] of the configured bucket and region:
    for such a URL the pass has no result, so it makes no replacement; the
    pass leaves it failed exactly when it was; and the pass is the same
    whatever the network would answer to a request of it, so it makes no
    upload of it.  A URL that does not start with "http" and has not failed
    is accepted even when it contains one of these domains, and a configured
    pass has a result for every image with such a URL. *)
Theorem upload_skip_rule (s : Model.Settings) (cos : Model.TencentCos)
    (nets : nat -> Network) (file : TFile) (T : Z) (failed : UrlSet)
    (c : MagicString) :
  Model.tencentCos s = Some cos ->
  exists results failed',
    uploadImages s nets file T failed c
    = (index <- applyResults results T ;; ret (index, failed')) c
    /\ (forall r, In r results ->
          In (resultMatch r) (findImageMatches (original c))
          /\ shouldUpload s failed (url (resultMatch r)) (Model.domain cos)
             = true
          /\ exists n,
               newUrl r = uploadOutcome s (nets n) (url (resultMatch r)) file)
    /\ (forall u,
          has u failed = true
          \/ (startsWith (lit "http") u = true
              /\ (truthy (Model.domain cos) = true
                  /\ includes (Model.domain cos) u = true
                  \/ truthy (Model.bucket cos) = true
                     /\ truthy (Model.region cos) = true
                     /\ includes (standardDomainOf (Model.bucket cos)
                                    (Model.region cos)) u = true)) ->
          shouldUpload s failed u (Model.domain cos) = false
          /\ (forall r, In r results -> url (resultMatch r) <> u)
          /\ (has u failed' = true <-> has u failed = true)
          /\ (forall nets',
                (forall n, sameBut u (nets n) (nets' n)) ->
                uploadImages s nets' file T failed c
                = uploadImages s nets file T failed c))
    /\ (forall v,
          startsWith (lit "http") v = false -> has v failed = false ->
          shouldUpload s failed v (Model.domain cos) = true
          /\ (truthy (Model.bucket cos) = true ->
              truthy (Model.region cos) = true -> initCos s = true ->
              forall m,
                In m (findImageMatches (original c)) -> url m = v ->
                exists r, In r results /\ resultMatch r = m)).
Proof.
  intro Hc.
  assert (Hcase :
    (truthy (Model.bucket cos) = true /\ truthy (Model.region cos) = true
     /\ initCos s = true)
    \/ (truthy (Model.bucket cos) = false \/ truthy (Model.region cos) = false
        \/ initCos s = false)).
  { destruct (truthy (Model.bucket cos)); [|right; left; reflexivity].
    destruct (truthy (Model.region cos)); [|right; right; left; reflexivity].
    destruct (initCos s); [left; repeat split|right; right; right; reflexivity]. }
  destruct Hcase as [(Hb & Hr & Hi)|Hoff].
  - set (ur := uploadResults s cos nets file failed (original c)).
    exists (sortResults (fst ur)), (snd ur).
    split; [apply uploadImages_replay; assumption|].
    assert (Hres : forall r, In r (sortResults (fst ur)) ->
              In (resultMatch r) (findImageMatches (original c))
              /\ shouldUpload s failed (url (resultMatch r)) (Model.domain cos)
                 = true
              /\ exists n,
                   newUrl r
                   = uploadOutcome s (nets n) (url (resultMatch r)) file).
    { intros r Hin. apply (proj1 (sortResults_In _ _)) in Hin.
      destruct (results_spans s cos nets file failed (original c) r Hin)
        as (H1 & H2 & _).
      split; [exact H1|]. split; [exact H2|].
      unfold ur, uploadResults in Hin. apply runUploads_In in Hin.
      destruct Hin as (j & _ & _ & Hout). exists (0 + j)%nat. exact Hout. }
    split; [exact Hres|]. split.
    + intros u Hu.
      pose proof (shouldUpload_refused s cos failed u (Model.domain cos) Hc Hu)
        as Hno.
      split; [exact Hno|]. split; [|split].
      * intros r Hin Hurl. destruct (Hres r Hin) as (_ & Hyes & _).
        rewrite Hurl, Hno in Hyes. discriminate.
      * unfold ur, uploadResults. rewrite runUploads_failed. split.
        -- intros [H|(j & m & Hj & Hurl & _)]; [exact H|].
           apply nth_error_In in Hj. apply candidates_In in Hj.
           destruct Hj as [_ Hyes]. rewrite Hurl, Hno in Hyes. discriminate.
        -- intro H. left. exact H.
      * intros nets' Hsame.
        apply (uploadImages_sameBut s cos nets nets' u); assumption.
    + intros v Hh Hf. split; [apply shouldUpload_local; assumption|].
      intros _ _ _ m Hm Hurl.
      assert (Hcand : In m (candidates s failed (Model.domain cos)
                              (findImageMatches (original c)))).
      { apply candidates_In. split; [exact Hm|]. rewrite Hurl.
        apply shouldUpload_local; assumption. }
      unfold ur, uploadResults.
      rewrite <- (runUploads_matches s nets file _ 0%nat failed) in Hcand.
      apply in_map_iff in Hcand. destruct Hcand as (r & Hr' & Hin).
      exists r. split; [|exact Hr']. apply sortResults_In. exact Hin.
  - exists [], failed.
    split; [apply (uploadImages_off s cos); assumption|].
    split; [intros r []|]. split.
    + intros u Hu.
      pose proof (shouldUpload_refused s cos failed u (Model.domain cos) Hc Hu)
        as Hno.
      split; [exact Hno|]. split; [intros r []|]. split; [tauto|].
      intros nets' _. rewrite !(uploadImages_off s cos) by assumption.
      reflexivity.
    + intros v Hh Hf. split; [apply shouldUpload_local; assumption|].
      intros Hb Hr Hi. destruct Hoff as [H|[H|H]]; congruence.
Qed.

Lemma upload_skip_rule_witness :
  let cos := {| Model.secretId := lit "id"; Model.secretKey := lit "key";
                Model.bucket := lit "b-1"; Model.region := lit "ap-x";
                Model.domain := lit "img.example.com" |} in
  let s := {| Model.formatOnSave := false; Model.formatOnFileChange := false;
              Model.removeExtraSpaces := false;
              Model.addTrailingSpaces := false;
              Model.headerStartLevel := 1; Model.autoNumbering := false;
              Model.tencentCos := Some cos |} in
  let nets := fun _ : nat =>
                {| requestUrl := fun _ => Some [1; 2];
                   getFirstLinkpathDest := fun _ _ => None;
                   readBinary := fun _ => None;
                   now := 7;
                   putObject := fun _ _ => Some 200 |} in
  let file := {| path := lit "note.md"; name := lit "note.md" |} in
  let c := newMagicString
             (lit "![a](https://img.example.com/a.png) ![b](http://x.org/b.png)") in
  let u := lit "https://img.example.com/a.png" in
  exists results failed',
    uploadImages s nets file 3 [] c
    = (index <- applyResults results 3 ;; ret (index, failed')) c
    /\ shouldUpload s [] u (Model.domain cos) = false
    /\ (forall r, In r results -> url (resultMatch r) <> u)
    /\ (has u failed' = true <-> has u [] = true).
Proof.
  intros cos s nets file c u.
  destruct (upload_skip_rule s cos nets file 3 [] c eq_refl)
    as (results & failed' & Hrun & _ & Href & _).
  exists results, failed'. split; [exact Hrun|].
  destruct (Href u) as (H1 & H2 & H3 & _).
  - right. split; [reflexivity|]. left. split; reflexivity.
  - split; [exact H1|]. split; [exact H2|exact H3].
Defined.

(** C4 as stated fails for a URL that does not start with "http": a
    protocol-relative URL on the custom domain is taken for a local path,
    [shouldUpload] returns true for it, and the pass uploads the file it
    resolves to and replaces the URL. *)
Lemma domain_url_without_http_is_uploaded :
  let cos := {| Model.secretId := lit "id"; Model.secretKey := lit "key";
                Model.bucket := lit "b-1"; Model.region := lit "ap-x";
                Model.domain := lit "img.example.com" |} in
  let s := {| Model.formatOnSave := false; Model.formatOnFileChange := false;
              Model.removeExtraSpaces := false;
              Model.addTrailingSpaces := false;
              Model.headerStartLevel := 1; Model.autoNumbering := false;
              Model.tencentCos := Some cos |} in
  let file := {| path := lit "note.md"; name := lit "note.md" |} in
  let net := {| requestUrl := fun _ => None;
                getFirstLinkpathDest :=
                  fun _ _ => Some {| path := lit "a.png"; name := lit "a.png" |};
                readBinary := fun _ => Some [];
                now := 7;
                putObject := fun _ _ => Some 200 |} in
  let u := lit "//img.example.com/a.png" in
  includes (lit "img.example.com") u = true
  /\ shouldUpload s [] u (lit "img.example.com") = true
  /\ textOf (uploadImages s (fun _ => net) file (-1) []
               (newMagicString (lit "![a](//img.example.com/a.png)")))
     = Some (lit "![a](img.example.com/obsidian/7_a.png)").
Proof. vm_compute. repeat split; reflexivity. Qed.


(** ** A failed upload *)

(** The loop of lines 70-74 passes over a result without a URL: the replay
    of the results is the replay of those that have one. *)
Lemma applyResults_uploaded : forall rs T c,
  applyResults rs T c = applyResults (filter uploaded rs) T c.
Proof.
  unfold applyResults.
  induction rs as [|r rs IH]; intros T c; [reflexivity|].
  cbn [filter]. unfold uploaded at 1.
  destruct (newUrl r) as [v|] eqn:Ev; [destruct (truthy v) eqn:Et|].
  - cbn [forEach]. unfold bind. rewrite Ev, Et.
    destruct (update _ _ v T c) as [[T1 c1]|e]; [apply IH|reflexivity].
  - cbn [forEach]. unfold bind. rewrite Ev, Et. unfold ret. apply IH.
  - cbn [forEach]. unfold bind. rewrite Ev. unfold ret. apply IH.
Qed.

(** A local path that does not resolve: no URL, and nothing recorded. *)
Lemma uploadImage_unresolved (s : Model.Settings) (cos : Model.TencentCos)
    (net : Network) (u : str) (file : TFile) (failed : UrlSet) :
  Model.tencentCos s = Some cos ->
  startsWith (lit "http") u = false ->
  getFirstLinkpathDest net (linkPathOf u) (path file) = None ->
  uploadImage s net u file failed = (None, failed).
Proof.
  intros Hc Hh Hl. unfold uploadImage. unfold linkPathOf in Hl.
  rewrite Hc, Hh, Hl. reflexivity.
Qed.

(** C8, as the code has it.  A configured pass [uploadImages] starts one
    upload for every image of the text whose URL [shouldUpload] accepts;
    the result of each is the outcome of its own upload, whatever becomes
    of the others.  The pass is the replay, by the loop of lines 70-74, of
    the sorted results, and that is the replay of the results that have a
    URL alone: a failed upload gets no edit, and every other result is
    applied as if the failed one were not there.  On a fresh buffer whose
    uploaded images do not overlap the pass returns the text with the URL of
    every image whose upload returned one replaced by it.  A URL is failed
    after the pass when it was before or when one of the uploads recorded
    it.  An upload records its URL when the download, the read or the PUT
    throws, or the status of the PUT is not 2xx, and then returns no URL;
    [shouldUpload] refuses a recorded URL from then on.  A local path that
    does not resolve returns no URL and is not recorded. *)
Theorem upload_failure_is_local (s : Model.Settings) (cos : Model.TencentCos)
    (nets : nat -> Network) (file : TFile) (T : Z) (failed : UrlSet)
    (c : MagicString) :
  Model.tencentCos s = Some cos ->
  truthy (Model.bucket cos) = true -> truthy (Model.region cos) = true ->
  initCos s = true ->
  (exists results failed',
      (forall j r,
          nth_error results j = Some r ->
          In (resultMatch r) (findImageMatches (original c))
          /\ shouldUpload s failed (url (resultMatch r)) (Model.domain cos)
             = true
          /\ newUrl r = uploadOutcome s (nets j) (url (resultMatch r)) file)
      /\ (forall m,
            In m (findImageMatches (original c)) ->
            shouldUpload s failed (url m) (Model.domain cos) = true ->
            exists j r, nth_error results j = Some r /\ resultMatch r = m)
      /\ uploadImages s nets file T failed c
         = (index <- applyResults (sortResults results) T ;;
            ret (index, failed')) c
      /\ uploadImages s nets file T failed c
         = (index <- applyResults (filter uploaded (sortResults results)) T ;;
            ret (index, failed')) c
      /\ (forall r, uploaded r = false -> urlEdit r = [])
      /\ (current c = original c ->
          apart 0 (map resultMatch (rev (sortResults results))) ->
          exists T',
            uploadImages s nets file T failed c
            = Ok ((T', failed'),
                  {| original := original c;
                     current :=
                       rewriteText 0
                         (flat_map urlEdit (rev (sortResults results)))
                         (original c) |}))
      /\ (forall u,
            has u failed' = true
            <-> has u failed = true
                \/ exists j r,
                     nth_error results j = Some r /\ url (resultMatch r) = u
                     /\ uploadRecords s (nets j) u file = true))
  /\ (forall net u failed0,
        fst (uploadImage s net u file failed0) = uploadOutcome s net u file
        /\ snd (uploadImage s net u file failed0)
           = (if uploadRecords s net u file then add u failed0 else failed0)
        /\ (uploadRecords s net u file = true ->
            uploadOutcome s net u file = None))
  /\ (forall net u failed0,
        startsWith (lit "http") u = true ->
        requestUrl net u = None ->
        uploadImage s net u file failed0 = (None, add u failed0))
  /\ (forall net u failed0 linked,
        startsWith (lit "http") u = false ->
        getFirstLinkpathDest net (linkPathOf u) (path file) = Some linked ->
        readBinary net linked = None ->
        uploadImage s net u file failed0 = (None, add u failed0))
  /\ (forall net u failed0 body,
        startsWith (lit "http") u = true ->
        requestUrl net u = Some body ->
        putFails net body ->
        uploadImage s net u file failed0 = (None, add u failed0))
  /\ (forall net u failed0 linked body,
        startsWith (lit "http") u = false ->
        getFirstLinkpathDest net (linkPathOf u) (path file) = Some linked ->
        readBinary net linked = Some body ->
        putFails net body ->
        uploadImage s net u file failed0 = (None, add u failed0))
  /\ (forall net u failed0,
        startsWith (lit "http") u = false ->
        getFirstLinkpathDest net (linkPathOf u) (path file) = None ->
        uploadImage s net u file failed0 = (None, failed0))
  /\ (forall u failed0 later d,
        has u (add u failed0) = true
        /\ (has u later = true -> shouldUpload s later u d = false)).
Proof.
  intros Hc Hb Hr Hi.
  split; [|repeat match goal with |- _ /\ _ => split end].
  - set (ur := uploadResults s cos nets file failed (original c)).
    assert (Hms : map resultMatch (fst ur)
                  = candidates s failed (Model.domain cos)
                      (findImageMatches (original c)))
      by apply runUploads_matches.
    assert (Hnth : forall j r,
              nth_error (fst ur) j = Some r ->
              nth_error (candidates s failed (Model.domain cos)
                           (findImageMatches (original c))) j
              = Some (resultMatch r)
              /\ newUrl r
                 = uploadOutcome s (nets j) (url (resultMatch r)) file).
    { intros j r Hj.
      assert (Hm : nth_error (candidates s failed (Model.domain cos)
                                (findImageMatches (original c))) j
                   = Some (resultMatch r)).
      { rewrite <- Hms. apply map_nth_error. exact Hj. }
      split; [exact Hm|].
      unfold ur, uploadResults in Hj.
      rewrite (runUploads_nth s nets file _ 0%nat failed j _ Hm) in Hj.
      injection Hj as <-. reflexivity. }
    exists (fst ur), (snd ur).
    split; [|split; [|split; [|split; [|split; [|split]]]]].
    + intros j r Hj. destruct (Hnth j r Hj) as [Hm Hout].
      apply nth_error_In in Hm. apply candidates_In in Hm.
      destruct Hm as [H1 H2]. repeat split; assumption.
    + intros m Hm Hyes.
      assert (Hcand : In m (candidates s failed (Model.domain cos)
                              (findImageMatches (original c))))
        by (apply candidates_In; split; assumption).
      rewrite <- Hms in Hcand. apply in_map_iff in Hcand.
      destruct Hcand as (r & Hr' & Hin). apply In_nth_error in Hin.
      destruct Hin as [j Hj]. exists j, r. split; assumption.
    + apply uploadImages_replay; assumption.
    + rewrite (uploadImages_replay s cos) by assumption.
      unfold bind. fold ur. rewrite applyResults_uploaded. reflexivity.
    + intros r H. unfold uploaded in H. unfold urlEdit.
      destruct (newUrl r) as [v|]; [|reflexivity]. rewrite H. reflexivity.
    + intros Hcur Hap.
      apply (uploadImages_rewritten s cos nets file T failed c); assumption.
    + intro u. unfold ur, uploadResults. rewrite runUploads_failed.
      fold (uploadResults s cos nets file failed (original c)). fold ur.
      split; (intros [H|H]; [left; exact H|right]).
      * destruct H as (j & m & Hj & Hurl & Hrec).
        pose proof (runUploads_nth s nets file _ 0%nat failed j m Hj) as Hres.
        fold (uploadResults s cos nets file failed (original c)) in Hres.
        fold ur in Hres. eexists j, _. split; [exact Hres|].
        split; [exact Hurl|exact Hrec].
      * destruct H as (j & r & Hj & Hurl & Hrec).
        destruct (Hnth j r Hj) as [Hm _].
        exists j, (resultMatch r). split; [exact Hm|].
        split; [exact Hurl|exact Hrec].
  - intros net u failed0. apply uploadImage_cases.
  - intros; eapply uploadImage_download_throws; eassumption.
  - intros; eapply uploadImage_read_throws; eassumption.
  - intros; eapply uploadImage_put_fails_remote; eassumption.
  - intros; eapply uploadImage_put_fails_local; eassumption.
  - intros; eapply uploadImage_unresolved; eassumption.
  - intros u failed0 later d. split; [apply has_add_same|].
    intro H. unfold shouldUpload. rewrite H. reflexivity.
Qed.

Lemma upload_failure_is_local_witness :
  let cos := {| Model.secretId := lit "id"; Model.secretKey := lit "key";
                Model.bucket := lit "b-1"; Model.region := lit "ap-x";
                Model.domain := [] |} in
  let s := {| Model.formatOnSave := false; Model.formatOnFileChange := false;
              Model.removeExtraSpaces := false;
              Model.addTrailingSpaces := false;
              Model.headerStartLevel := 1; Model.autoNumbering := false;
              Model.tencentCos := Some cos |} in
  let file := {| path := lit "note.md"; name := lit "note.md" |} in
  let nets := fun _ : nat =>
                {| requestUrl := fun u => if endsWith (lit "a.png") u
                                          then None else Some [1; 2];
                   getFirstLinkpathDest := fun _ _ => None;
                   readBinary := fun _ => None;
                   now := 7;
                   putObject := fun _ _ => Some 200 |} in
  let c := newMagicString
             (lit "![a](http://x.org/a.png) ![b](http://x.org/b.png)") in
  let u := lit "http://x.org/a.png" in
  uploadImages s nets file 3 [] c
  = Ok ((3, [u]),
        {| original := original c;
           current := lit "![a](http://x.org/a.png) ![b](https://b-1.cos.ap-x.myqcloud.com/obsidian/7_b.png)" |})
  /\ (exists results failed',
        uploadImages s nets file 3 [] c
        = (index <- applyResults (filter uploaded (sortResults results)) 3 ;;
           ret (index, failed')) c
        /\ (forall j r,
              nth_error results j = Some r ->
              newUrl r = uploadOutcome s (nets j) (url (resultMatch r)) file))
  /\ uploadImage s (nets 0%nat) u file [] = (None, add u [])
  /\ shouldUpload s (add u []) u [] = false.
Proof.
  intros cos s file nets c u.
  split; [vm_compute; reflexivity|].
  destruct (upload_failure_is_local s cos nets file 3 [] c eq_refl eq_refl
              eq_refl eq_refl)
    as ((results & failed' & Hnth & _ & _ & Hrun & _)
        & _ & Hdown & _ & _ & _ & _ & Hlater).
  split; [|split].
  - exists results, failed'. split; [exact Hrun|].
    intros j r Hj. destruct (Hnth j r Hj) as (_ & _ & H). exact H.
  - apply (Hdown (nets 0%nat) u []); reflexivity.
  - apply (proj2 (Hlater u [] (add u []) [])). apply (proj1 (Hlater u [] [] [])).
Defined.

(** C8 as stated fails for an unresolved local path: the upload returns no
    URL and does not add the path to the failed URLs, so the next pass
    tries it again. *)
Lemma unresolved_path_is_not_recorded :
  let cos := {| Model.secretId := lit "id"; Model.secretKey := lit "key";
                Model.bucket := lit "b-1"; Model.region := lit "ap-x";
                Model.domain := [] |} in
  let s := {| Model.formatOnSave := false; Model.formatOnFileChange := false;
              Model.removeExtraSpaces := false;
              Model.addTrailingSpaces := false;
              Model.headerStartLevel := 1; Model.autoNumbering := false;
              Model.tencentCos := Some cos |} in
  let file := {| path := lit "note.md"; name := lit "note.md" |} in
  let net := {| requestUrl := fun _ => None;
                getFirstLinkpathDest := fun _ _ => None;
                readBinary := fun _ => None;
                now := 7;
                putObject := fun _ _ => Some 200 |} in
  let c := newMagicString (lit "![a](missing.png)") in
  uploadImage s net (lit "missing.png") file [] = (None, [])
  /\ uploadImages s (fun _ => net) file (-1) [] c = Ok ((-1, []), c)
  /\ shouldUpload s [] (lit "missing.png") [] = true.
Proof. vm_compute. repeat split; reflexivity. Qed.

